(** * A shallow embedding of the B+tree index of [src/index/b_plus_tree.cpp]

    The tree lives in pages handed out by a buffer pool.  A node pointer of
    the C++ code is the id of a pinned page, the buffer pool is a finite map
    from page ids to frames, and every member function of [BPlusTree] becomes
    a computation in a state-and-fault monad over one record that holds the
    tree object, the buffer pool, the header page and the transaction that the
    caller passes in.  Loops and the two recursive functions take fuel. *)

From stdpp Require Import gmap strings list sorting.
From Stdlib Require Import ZArith Lia.

Local Open Scope Z_scope.

(** ** Identifiers and sentinels *)

Definition page_id_t := Z.
Definition KeyType := Z.
Definition ValueType := Z.

Definition INVALID_PAGE_ID : Z := -1.
Definition HEADER_PAGE_ID : Z := 0.

(** ** Pages *)

Inductive IndexPageType := INVALID_INDEX_PAGE | LEAF_PAGE | INTERNAL_PAGE.

Global Instance IndexPageType_eq_dec : EqDecision IndexPageType.
Proof. solve_decision. Defined.

(** The common header of a node and its ordered array of entries.  A leaf
    entry is a key and a record id, an internal entry a key and a child page
    id; the key of internal entry 0 is not used. *)
Record BPlusTreePage := mkPage {
  page_type : IndexPageType;
  page_id : Z;
  parent_page_id : Z;
  max_size : Z;
  next_page_id : Z;
  array : list (Z * Z)
}.

Definition GetSize (p : BPlusTreePage) : Z := Z.of_nat (length (array p)).
Definition GetMaxSize (p : BPlusTreePage) : Z := max_size p.
Definition IsLeafPage (p : BPlusTreePage) : bool := bool_decide (page_type p = LEAF_PAGE).
Definition IsRootPage (p : BPlusTreePage) : bool := bool_decide (parent_page_id p = INVALID_PAGE_ID).

(** Modelled from the spec: [BPlusTreePage::GetMinSize] is not part of the
    source at hand.  Section 3 gives min_size = ceil(max_size / 2) for leaves
    and internal nodes alike and exempts the root from it.  For the root the
    bound is the one under which [AdjustRoot] has something to do (section
    4.4, scenarios 5 and 6 of section 8): a root leaf may shrink to one
    entry, an internal root to two children. *)
Definition GetMinSize (p : BPlusTreePage) : Z :=
  if IsRootPage p then (if IsLeafPage p then 1 else 2)
  else (max_size p + 1) / 2.

Definition blank_page : BPlusTreePage :=
  mkPage INVALID_INDEX_PAGE 0 0 0 0 [].

Definition set_array (a : list (Z * Z)) (p : BPlusTreePage) : BPlusTreePage :=
  mkPage (page_type p) (page_id p) (parent_page_id p) (max_size p) (next_page_id p) a.
Definition SetParentPageId (q : Z) (p : BPlusTreePage) : BPlusTreePage :=
  mkPage (page_type p) (page_id p) q (max_size p) (next_page_id p) (array p).
Definition SetNextPageId (q : Z) (p : BPlusTreePage) : BPlusTreePage :=
  mkPage (page_type p) (page_id p) (parent_page_id p) (max_size p) q (array p).

(** ** Buffer pool frames, header page calls, the whole state *)

Record Frame := mkFrame {
  data : BPlusTreePage;
  pin_count : Z;
  is_dirty : bool;
  readers : nat;
  writer : bool
}.

(** One call on the header page: [InsertRecord] or [UpdateRecord]. *)
Inductive HeaderOp :=
| InsertRecord (name : string) (root : Z)
| UpdateRecord (name : string) (root : Z).

(** A call that the tree makes and that the properties below speak about,
    with the nodes as they are when the call is made.  The list of calls is
    kept next to the state as a record of what happened; no function of the
    tree reads it. *)
Inductive Call :=
| CallInsertIntoParent (old_node : BPlusTreePage) (key : Z) (new_node : BPlusTreePage)
| CallMoveLastToFrontOf (node recipient : BPlusTreePage)
| CallMoveFirstToEndOf (node recipient : BPlusTreePage)
| CallMoveAllTo (node recipient : BPlusTreePage).

Record BPlusTree := mkTree {
  index_name : string;
  root_page_id : Z;
  leaf_max_size : Z;
  internal_max_size : Z;
  pages : gmap Z Frame;
  next_page : Z;
  pool_size : nat;
  header_ops : list HeaderOp;
  page_set : list Z;
  deleted_page_set : gset Z;
  calls : list Call
}.

Definition set_root (r : Z) (t : BPlusTree) : BPlusTree :=
  mkTree (index_name t) r (leaf_max_size t) (internal_max_size t) (pages t)
         (next_page t) (pool_size t) (header_ops t) (page_set t) (deleted_page_set t) (calls t).
Definition set_pages (m : gmap Z Frame) (t : BPlusTree) : BPlusTree :=
  mkTree (index_name t) (root_page_id t) (leaf_max_size t) (internal_max_size t) m
         (next_page t) (pool_size t) (header_ops t) (page_set t) (deleted_page_set t) (calls t).
Definition set_next_page (n : Z) (t : BPlusTree) : BPlusTree :=
  mkTree (index_name t) (root_page_id t) (leaf_max_size t) (internal_max_size t) (pages t)
         n (pool_size t) (header_ops t) (page_set t) (deleted_page_set t) (calls t).
Definition set_header_ops (l : list HeaderOp) (t : BPlusTree) : BPlusTree :=
  mkTree (index_name t) (root_page_id t) (leaf_max_size t) (internal_max_size t) (pages t)
         (next_page t) (pool_size t) l (page_set t) (deleted_page_set t) (calls t).
Definition set_page_set (l : list Z) (t : BPlusTree) : BPlusTree :=
  mkTree (index_name t) (root_page_id t) (leaf_max_size t) (internal_max_size t) (pages t)
         (next_page t) (pool_size t) (header_ops t) l (deleted_page_set t) (calls t).
Definition set_deleted_page_set (d : gset Z) (t : BPlusTree) : BPlusTree :=
  mkTree (index_name t) (root_page_id t) (leaf_max_size t) (internal_max_size t) (pages t)
         (next_page t) (pool_size t) (header_ops t) (page_set t) d (calls t).

Definition set_calls (c : list Call) (t : BPlusTree) : BPlusTree :=
  mkTree (index_name t) (root_page_id t) (leaf_max_size t) (internal_max_size t) (pages t)
         (next_page t) (pool_size t) (header_ops t) (page_set t) (deleted_page_set t) c.

(** ** The monad: state passing with faults *)

Inductive Fault :=
| bad_alloc        (* NewPage returned nullptr *)
| null_deref       (* a member is read through nullptr *)
| assert_fail      (* an assert of the source does not hold *)
| page_set_assert_fail  (* the assert on the page set at entry or exit *)
| bad_cast         (* a page is read as the other node kind *)
| out_of_range     (* an entry index outside the array *)
| would_block      (* a latch that is never granted in a sequential run *)
| out_of_fuel.

Inductive Outcome (A : Type) :=
| Done (a : A) (t : BPlusTree)
| Abort (f : Fault).
Arguments Done {A} a t.
Arguments Abort {A} f.

Definition M (A : Type) : Type := BPlusTree -> Outcome A.

Definition ret {A} (a : A) : M A := fun t => Done a t.
Definition bind {A B} (m : M A) (k : A -> M B) : M B :=
  fun t => match m t with
           | Done a t' => k a t'
           | Abort f => Abort f
           end.
Definition throw {A} (f : Fault) : M A := fun _ => Abort f.
Definition get : M BPlusTree := fun t => Done t t.
Definition modify (f : BPlusTree -> BPlusTree) : M unit := fun t => Done tt (f t).
Definition assert (b : bool) : M unit := if b then ret tt else throw assert_fail.
Definition from_option {A} (f : Fault) (o : option A) : M A :=
  match o with Some a => ret a | None => throw f end.

Definition record (c : Call) : M unit :=
  modify (fun t => set_calls (calls t ++ [c]) t).

Notation "x <- m ;; k" := (bind m (fun x => k))
  (at level 100, m at next level, right associativity).
Notation "m ;; k" := (bind m (fun _ => k))
  (at level 100, right associativity).

(** ** Buffer pool manager

    Modelled from the spec: the buffer pool manager is an external
    collaborator (section 6): [NewPage] hands out a fresh pinned page or
    nullptr, [FetchPage] pins, [UnpinPage] releases one pin and records the
    dirty flag, [DeletePage] refuses a pinned page. *)

Definition pinned_frames (t : BPlusTree) : nat :=
  size (filter (fun kv : Z * Frame => 0 < pin_count (snd kv)) (pages t)).

Definition NewPage : M (option Z) := fun t =>
  if bool_decide (pinned_frames t < pool_size t)%nat then
    let id := next_page t in
    Done (Some id)
         (set_next_page (id + 1)
            (set_pages (<[id := mkFrame blank_page 1 false 0%nat false]> (pages t)) t))
  else Done None t.

Definition FetchPage (id : Z) : M (option Z) := fun t =>
  match pages t !! id with
  | Some f =>
      Done (Some id)
           (set_pages (<[id := mkFrame (data f) (pin_count f + 1) (is_dirty f)
                                       (readers f) (writer f)]> (pages t)) t)
  | None => Done None t
  end.

Definition UnpinPage (id : Z) (dirty : bool) : M bool := fun t =>
  match pages t !! id with
  | Some f =>
      if 0 <? pin_count f then
        Done true
             (set_pages (<[id := mkFrame (data f) (pin_count f - 1) (is_dirty f || dirty)
                                         (readers f) (writer f)]> (pages t)) t)
      else Done false t
  | None => Done false t
  end.

Definition DeletePage (id : Z) : M bool := fun t =>
  match pages t !! id with
  | Some f =>
      if pin_count f =? 0 then Done true (set_pages (delete id (pages t)) t)
      else Done false t
  | None => Done true t
  end.

(** Reading and writing the node stored in a page through a node pointer. *)
Definition read_page (id : Z) : M BPlusTreePage := fun t =>
  match pages t !! id with
  | Some f => Done (data f) t
  | None => Abort null_deref
  end.

Definition write_page (id : Z) (p : BPlusTreePage) : M unit := fun t =>
  match pages t !! id with
  | Some f =>
      Done tt (set_pages (<[id := mkFrame p (pin_count f) (is_dirty f)
                                          (readers f) (writer f)]> (pages t)) t)
  | None => Abort null_deref
  end.

Definition update_page (id : Z) (f : BPlusTreePage -> BPlusTreePage) : M unit :=
  p <- read_page id ;; write_page id (f p).

(** A page read as a leaf, or as an internal page. *)
Definition read_leaf (id : Z) : M BPlusTreePage :=
  p <- read_page id ;;
  if bool_decide (page_type p = LEAF_PAGE) then ret p else throw bad_cast.

Definition read_internal (id : Z) : M BPlusTreePage :=
  p <- read_page id ;;
  if bool_decide (page_type p = INTERNAL_PAGE) then ret p else throw bad_cast.

(** ** Page latches

    Modelled from the spec: [lockFor] and [unlockFor] are declared in the
    header; section 4.2 takes a read latch in read mode and a write latch in
    insert and delete mode.  A latch that cannot be granted would block the
    only running thread for ever. *)

Definition lockFor (mode : Z) (id : Z) : M unit := fun t =>
  match pages t !! id with
  | Some f =>
      if mode =? 0 then
        if writer f then Abort would_block
        else Done tt (set_pages (<[id := mkFrame (data f) (pin_count f) (is_dirty f)
                                                 (S (readers f)) false]> (pages t)) t)
      else
        if writer f || negb (Nat.eqb (readers f) 0) then Abort would_block
        else Done tt (set_pages (<[id := mkFrame (data f) (pin_count f) (is_dirty f)
                                                 (readers f) true]> (pages t)) t)
  | None => Abort null_deref
  end.

Definition unlockFor (mode : Z) (id : Z) : M unit := fun t =>
  match pages t !! id with
  | Some f =>
      if mode =? 0 then
        Done tt (set_pages (<[id := mkFrame (data f) (pin_count f) (is_dirty f)
                                            (Nat.pred (readers f)) (writer f)]> (pages t)) t)
      else
        Done tt (set_pages (<[id := mkFrame (data f) (pin_count f) (is_dirty f)
                                            (readers f) false]> (pages t)) t)
  | None => Abort null_deref
  end.

(** ** Transaction work set *)

Definition AddIntoPageSet (id : Z) : M unit :=
  modify (fun t => set_page_set (page_set t ++ [id]) t).

Definition AddIntoDeletedPageSet (id : Z) : M unit :=
  modify (fun t => set_deleted_page_set ({[ id ]} ∪ deleted_page_set t) t).

(** The entry and exit assertion of the public operations. *)
Definition assert_page_set_empty (transaction : bool) : M unit :=
  t <- get ;;
  if negb transaction || bool_decide (page_set t = []) then ret tt
  else throw page_set_assert_fail.

(** Modelled from the spec: [clearTxnWorkSet] is declared in the header;
    section 5 has it release the latched pages first in, first out: each is
    unlatched and unpinned, and a page marked for deletion is then deleted,
    which is asserted to succeed. *)
Definition release_page (mode : Z) (dirty : bool) (id : Z) : M unit :=
  unlockFor mode id ;;
  _ <- UnpinPage id dirty ;;
  t <- get ;;
  if bool_decide (id ∈ deleted_page_set t) then
    ok <- DeletePage id ;;
    assert ok ;;
    modify (fun t => set_deleted_page_set (deleted_page_set t ∖ {[ id ]}) t)
  else ret tt.

Fixpoint release_all (mode : Z) (dirty : bool) (l : list Z) : M unit :=
  match l with
  | [] => ret tt
  | id :: l' => release_page mode dirty id ;; release_all mode dirty l'
  end.

Definition clearTxnWorkSet (mode : Z) (dirty : bool) : M unit :=
  t <- get ;;
  modify (set_page_set []) ;;
  release_all mode dirty (page_set t).

(** Modelled from the spec: [GetPage], [GetInternalPage] are declared in the
    header.  [GetPage] fetches (one pin); with a transaction the page is
    latched in the given mode and joins the work set, whose drain is then
    the only place that unpins it. *)
Definition GetPage (id : Z) (transaction : bool) (mode : Z) : M Z :=
  r <- FetchPage id ;;
  p <- from_option null_deref r ;;
  if transaction then lockFor mode p ;; AddIntoPageSet p ;; ret p
  else ret p.

Definition GetInternalPage (id : Z) : M Z :=
  r <- FetchPage id ;;
  from_option null_deref r.

(** ** Header page *)

Definition UpdateRootPageId (insert_record : bool) : M unit :=
  h <- FetchPage HEADER_PAGE_ID ;;
  _ <- from_option null_deref h ;;
  modify (fun t =>
    set_header_ops
      (header_ops t ++
        [if insert_record then InsertRecord (index_name t) (root_page_id t)
         else UpdateRecord (index_name t) (root_page_id t)]) t) ;;
  _ <- UnpinPage HEADER_PAGE_ID true ;;
  ret tt.

Definition IsEmpty (t : BPlusTree) : bool :=
  bool_decide (root_page_id t = INVALID_PAGE_ID).

(** ** Node contracts

    Modelled from the spec: the leaf and internal page classes are not part
    of the source at hand; the operations below follow section 3 and
    section 4.1, with the comparator of integer keys. *)

Definition entry_at (a : list (Z * Z)) (i : Z) : option (Z * Z) :=
  if i <? 0 then None else a !! Z.to_nat i.

Definition KeyAt (p : BPlusTreePage) (i : Z) : M Z :=
  from_option out_of_range (fst <$> entry_at (array p) i).
Definition ValueAt (p : BPlusTreePage) (i : Z) : M Z :=
  from_option out_of_range (snd <$> entry_at (array p) i).

Definition set_key (k : Z) (e : Z * Z) : Z * Z := (k, snd e).
Definition set_value (v : Z) (e : Z * Z) : Z * Z := (fst e, v).

Definition alter_entry (f : Z * Z -> Z * Z) (i : Z) (p : BPlusTreePage) : M BPlusTreePage :=
  if (0 <=? i) && (i <? GetSize p)
  then ret (set_array (alter f (Z.to_nat i) (array p)) p)
  else throw out_of_range.

(** Leaf: lookup(k), key_index(k), insert(k, v), remove_and_delete(k). *)
Fixpoint leaf_lookup (k : Z) (a : list (Z * Z)) : option Z :=
  match a with
  | [] => None
  | (k', v) :: r => if k' =? k then Some v else leaf_lookup k r
  end.

Fixpoint KeyIndex (k : Z) (a : list (Z * Z)) : Z :=
  match a with
  | [] => 0
  | (k', _) :: r => if k <=? k' then 0 else 1 + KeyIndex k r
  end.

Fixpoint leaf_insert (k v : Z) (a : list (Z * Z)) : list (Z * Z) :=
  match a with
  | [] => [(k, v)]
  | (k', v') :: r =>
      if k <? k' then (k, v) :: a
      else if k =? k' then a
      else (k', v') :: leaf_insert k v r
  end.

Fixpoint leaf_remove (k : Z) (a : list (Z * Z)) : list (Z * Z) :=
  match a with
  | [] => []
  | (k', v') :: r => if k' =? k then r else (k', v') :: leaf_remove k r
  end.

(** Modelled from the spec: the [Lookup] of the internal page class is not
    part of the source at hand.  lookup(k) is the greatest child_i with
    i = 0 or key_i below k.  Section 3 words the comparison as key_i <= k;
    the key that [InsertIntoLeaf] hands to the parent after a split is the
    largest key of the left leaf (line 127, section 4.3), so a key equal to
    key_i is stored under child_(i-1) and the descent for it has to go
    there, as scenario 1 of section 8 has it: the comparison is strict. *)
Fixpoint lookup_from (k : Z) (cur : Z) (rest : list (Z * Z)) : Z :=
  match rest with
  | [] => cur
  | (ki, ci) :: r => lookup_from k (if ki <? k then ci else cur) r
  end.

Definition internal_lookup (k : Z) (a : list (Z * Z)) : option Z :=
  match a with
  | [] => None
  | (_, c0) :: r => Some (lookup_from k c0 r)
  end.

(** value_index(child_id): the index of the entry that holds the child,
    -1 when there is none. *)
Fixpoint value_index_from (i : Z) (v : Z) (a : list (Z * Z)) : Z :=
  match a with
  | [] => -1
  | (_, c) :: r => if c =? v then i else value_index_from (i + 1) v r
  end.

Definition ValueIndex (v : Z) (p : BPlusTreePage) : Z := value_index_from 0 v (array p).

Definition insert_at (i : Z) (e : Z * Z) (a : list (Z * Z)) : list (Z * Z) :=
  take (Z.to_nat i) a ++ e :: drop (Z.to_nat i) a.

(** The split point of move_half_to: entries from ceil(size / 2) on move. *)
Definition half (a : list (Z * Z)) : nat := Z.to_nat ((Z.of_nat (length a) + 1) / 2).

(** The node operations on pages of the pool, through node pointers. *)

Definition Init (kind : IndexPageType) (id parent : Z) : M unit :=
  t <- get ;;
  write_page id
    (mkPage kind id parent
            (if bool_decide (kind = LEAF_PAGE) then leaf_max_size t else internal_max_size t)
            INVALID_PAGE_ID []).

Definition read_as (kind : IndexPageType) (id : Z) : M BPlusTreePage :=
  p <- read_page id ;;
  if bool_decide (page_type p = kind) then ret p else throw bad_cast.

Definition Lookup (leaf : Z) (k : Z) : M (option Z) :=
  p <- read_page leaf ;; ret (leaf_lookup k (array p)).

Definition leaf_Insert (leaf : Z) (k v : Z) : M Z :=
  p <- read_page leaf ;;
  let p' := set_array (leaf_insert k v (array p)) p in
  write_page leaf p' ;;
  ret (GetSize p').

Definition RemoveAndDeleteRecord (leaf : Z) (k : Z) : M Z :=
  p <- read_page leaf ;;
  let p' := set_array (leaf_remove k (array p)) p in
  write_page leaf p' ;;
  ret (GetSize p').

Definition internal_Lookup (ip : Z) (k : Z) : M Z :=
  p <- read_page ip ;; from_option out_of_range (internal_lookup k (array p)).

Definition PopulateNewRoot (ip : Z) (left : Z) (k : Z) (right : Z) : M unit :=
  update_page ip (set_array [(0, left); (k, right)]).

Definition InsertNodeAfter (ip : Z) (old_child : Z) (k : Z) (new_child : Z) : M unit :=
  p <- read_page ip ;;
  write_page ip (set_array (insert_at (ValueIndex old_child p + 1) (k, new_child) (array p)) p).

Definition internal_Remove (ip : Z) (i : Z) : M unit :=
  p <- read_page ip ;;
  if (0 <=? i) && (i <? GetSize p)
  then write_page ip (set_array (delete (Z.to_nat i) (array p)) p)
  else throw out_of_range.

Definition SetValueAt (ip : Z) (i : Z) (v : Z) : M unit :=
  p <- read_page ip ;; p' <- alter_entry (set_value v) i p ;; write_page ip p'.

Definition SetKeyAt (ip : Z) (i : Z) (k : Z) : M unit :=
  p <- read_page ip ;; p' <- alter_entry (set_key k) i p ;; write_page ip p'.

(** Re-parenting a moved child goes through the buffer pool. *)
Definition reparent (new_parent : Z) (child : Z) : M unit :=
  r <- FetchPage child ;;
  c <- from_option null_deref r ;;
  update_page c (SetParentPageId new_parent) ;;
  _ <- UnpinPage child true ;;
  ret tt.

Fixpoint reparent_all (new_parent : Z) (children : list Z) : M unit :=
  match children with
  | [] => ret tt
  | c :: r => reparent new_parent c ;; reparent_all new_parent r
  end.

Definition MoveHalfTo (kind : IndexPageType) (node recipient : Z) : M unit :=
  n <- read_as kind node ;;
  r <- read_as kind recipient ;;
  let moved := drop (half (array n)) (array n) in
  if bool_decide (kind = LEAF_PAGE) then
    write_page recipient (set_array (array r ++ moved) (SetNextPageId (next_page_id n) r)) ;;
    write_page node (set_array (take (half (array n)) (array n)) (SetNextPageId (page_id r) n))
  else
    write_page recipient (set_array (array r ++ moved) r) ;;
    write_page node (set_array (take (half (array n)) (array n)) n) ;;
    reparent_all (page_id r) (snd <$> moved).

Definition MoveAllTo (kind : IndexPageType) (node recipient : Z) (index_in_parent : Z) : M unit :=
  n <- read_as kind node ;;
  r <- read_as kind recipient ;;
  record (CallMoveAllTo n r) ;;
  if bool_decide (kind = LEAF_PAGE) then
    write_page recipient (set_array (array r ++ array n) (SetNextPageId (next_page_id n) r)) ;;
    write_page node (set_array [] n)
  else
    parent <- GetInternalPage (parent_page_id n) ;;
    pp <- read_page parent ;;
    middle_key <- KeyAt pp index_in_parent ;;
    _ <- UnpinPage parent false ;;
    let moved := alter (set_key middle_key) 0%nat (array n) in
    write_page recipient (set_array (array r ++ moved) r) ;;
    write_page node (set_array [] n) ;;
    reparent_all (page_id r) (snd <$> moved).

Definition set_parent_key (parent_id : Z) (child : Z) (k : Z) : M unit :=
  parent <- GetInternalPage parent_id ;;
  pp <- read_page parent ;;
  SetKeyAt parent (ValueIndex child pp) k ;;
  _ <- UnpinPage parent true ;;
  ret tt.

(** Modelled from the spec: the two rotations of the page classes are not
    part of the source at hand.  They keep the key of the parent themselves
    (section 4.4).  Between two leaves that key is the largest key of the
    left one, as after a split (line 127) and as in the lines that
    [Redistribute] has commented out (416 and 421): when the first entry of
    the right leaf moves to the end of the left one, it is the key of the
    entry that moved. *)
Definition MoveFirstToEndOf (kind : IndexPageType) (node recipient : Z) : M unit :=
  n <- read_as kind node ;;
  r <- read_as kind recipient ;;
  record (CallMoveFirstToEndOf n r) ;;
  match array n with
  | [] => throw out_of_range
  | e :: rest =>
      write_page node (set_array rest n) ;;
      write_page recipient (set_array (array r ++ [e]) r) ;;
      if bool_decide (kind = LEAF_PAGE) then
        set_parent_key (parent_page_id n) (page_id n) (fst e)
      else
        reparent (page_id r) (snd e) ;;
        k <- KeyAt (set_array rest n) 0 ;;
        set_parent_key (parent_page_id n) (page_id n) k
  end.

Definition MoveLastToFrontOf (kind : IndexPageType) (node recipient : Z) (parent_index : Z) : M unit :=
  n <- read_as kind node ;;
  r <- read_as kind recipient ;;
  record (CallMoveLastToFrontOf n r) ;;
  match last (array n) with
  | None => throw out_of_range
  | Some e =>
      let rest := removelast (array n) in
      write_page node (set_array rest n) ;;
      write_page recipient (set_array (e :: array r) r) ;;
      if bool_decide (kind = LEAF_PAGE) then
        k <- KeyAt (set_array rest n) (GetSize (set_array rest n) - 1) ;;
        set_parent_key (parent_page_id r) (page_id r) k
      else
        reparent (page_id r) (snd e) ;;
        set_parent_key (parent_page_id r) (page_id r) (fst e)
  end.

(** ** The tree: search *)

(** The re-check of the root after latching it (the inner [while] of
    [GetLeafPage]). *)
Fixpoint relock_root (fuel : nat) (mode : Z) (pid : Z) : M Z :=
  t <- get ;;
  if pid =? root_page_id t then ret pid
  else match fuel with
       | O => throw out_of_fuel
       | S n =>
           unlockFor mode pid ;;
           _ <- UnpinPage pid false ;;
           btp <- GetPage (root_page_id t) false 0 ;;
           lockFor mode btp ;;
           relock_root n mode btp
       end.

(** The release rule applied once the child is latched. *)
Definition release_ancestors (mode : Z) (child : BPlusTreePage) : M unit :=
  if mode =? 0 then clearTxnWorkSet mode false
  else if mode =? 1 then
    if GetSize child <? GetMaxSize child then clearTxnWorkSet mode false else ret tt
  else if mode =? 2 then
    if GetMinSize child <? GetSize child then clearTxnWorkSet mode false else ret tt
  else assert false.

(** One round of the descent loop of [GetLeafPage]: from the internal page
    [page_id] to the child that [Lookup] selects. *)
Definition descend_step (key : Z) (transaction : bool) (mode : Z) (pid : Z) : M Z :=
  next <- internal_Lookup pid key ;;
  let unpin := pid in
  btp <- GetPage next false 0 ;;
  (if transaction then
     lockFor mode btp ;;
     child <- read_page btp ;;
     release_ancestors mode child ;;
     AddIntoPageSet btp
   else
     _ <- UnpinPage unpin false ;; ret tt) ;;
  ret btp.

Fixpoint descend (fuel : nat) (key : Z) (transaction : bool) (mode : Z) (pid : Z) : M Z :=
  btp <- read_page pid ;;
  if IsLeafPage btp then ret pid
  else match fuel with
       | O => throw out_of_fuel
       | S n =>
           next <- descend_step key transaction mode pid ;;
           descend n key transaction mode next
       end.

(** [GetLeafPage]; [None] is the nullptr returned for the empty tree. *)
Definition GetLeafPage (fuel : nat) (key : Z) (transaction : bool) (findInsertDelete : Z)
  : M (option Z) :=
  t <- get ;;
  if IsEmpty t then ret None
  else
    assert (negb transaction ||
            (bool_decide (page_set t = []) && bool_decide (deleted_page_set t = ∅))) ;;
    btp <- GetPage (root_page_id t) false 0 ;;
    start <- (if transaction then
                lockFor findInsertDelete btp ;;
                btp' <- relock_root fuel findInsertDelete btp ;;
                AddIntoPageSet btp' ;; ret btp'
              else ret btp) ;;
    leaf <- descend fuel key transaction findInsertDelete start ;;
    ret (Some leaf).

(** [GetValue]: [Some v] stands for the return value true with [result[0] = v],
    [None] for false. *)
Definition GetValue (fuel : nat) (key : Z) (transaction : bool) : M (option Z) :=
  assert_page_set_empty transaction ;;
  leaf <- GetLeafPage fuel key transaction 0 ;;
  lp <- from_option null_deref leaf ;;
  r <- Lookup lp key ;;
  (if transaction then clearTxnWorkSet 0 false
   else p <- read_page lp ;; _ <- UnpinPage (page_id p) false ;; ret tt) ;;
  assert_page_set_empty transaction ;;
  ret r.

(** ** The tree: insertion *)

Definition Split (kind : IndexPageType) (node : Z) : M Z :=
  r <- NewPage ;;
  match r with
  | None => throw bad_alloc
  | Some new_id =>
      n <- read_page node ;;
      Init kind new_id (parent_page_id n) ;;
      MoveHalfTo kind node new_id ;;
      ret new_id
  end.

Fixpoint InsertIntoParent (fuel : nat) (old_node : Z) (key : Z) (new_node : Z) : M unit :=
  match fuel with
  | O => throw out_of_fuel
  | S n =>
      o <- read_page old_node ;;
      nw <- read_page new_node ;;
      record (CallInsertIntoParent o key nw) ;;
      let parentPageId := parent_page_id o in
      if parentPageId =? INVALID_PAGE_ID then
        r <- NewPage ;;
        match r with
        | None => throw bad_alloc
        | Some parentPageId =>
            Init INTERNAL_PAGE parentPageId INVALID_PAGE_ID ;;
            modify (set_root parentPageId) ;;
            UpdateRootPageId false ;;
            update_page old_node (SetParentPageId parentPageId) ;;
            update_page new_node (SetParentPageId parentPageId) ;;
            o <- read_page old_node ;;
            nw <- read_page new_node ;;
            PopulateNewRoot parentPageId (page_id o) key (page_id nw) ;;
            _ <- UnpinPage parentPageId true ;;
            ret tt
        end
      else
        ip <- GetInternalPage parentPageId ;;
        nw <- read_page new_node ;;
        InsertNodeAfter ip (page_id o) key (page_id nw) ;;
        p <- read_page ip ;;
        (if GetMaxSize p <? GetSize p then
           newlp <- Split INTERNAL_PAGE ip ;;
           np <- read_page newlp ;;
           k <- KeyAt np 0 ;;
           InsertIntoParent n ip k newlp ;;
           _ <- UnpinPage newlp true ;; ret tt
         else ret tt) ;;
        _ <- UnpinPage parentPageId true ;;
        ret tt
  end.

Definition InsertIntoLeaf (fuel : nat) (key value : Z) (transaction : bool) : M bool :=
  assert_page_set_empty transaction ;;
  r <- GetLeafPage fuel key transaction 1 ;;
  match r with
  | None => ret false
  | Some lp =>
      p <- read_page lp ;;
      let originalSize := GetSize p in
      newSize <- leaf_Insert lp key value ;;
      (if GetMaxSize p <? newSize then
         newlp <- Split LEAF_PAGE lp ;;
         oldp <- read_page lp ;;
         k <- KeyAt oldp (GetSize oldp - 1) ;;
         InsertIntoParent fuel lp k newlp ;;
         np <- read_page newlp ;;
         _ <- UnpinPage (page_id np) true ;; ret tt
       else ret tt) ;;
      (if transaction then clearTxnWorkSet 1 true
       else q <- read_page lp ;; _ <- UnpinPage (page_id q) true ;; ret tt) ;;
      assert_page_set_empty transaction ;;
      ret (negb (originalSize =? newSize))
  end.

Definition StartNewTree (fuel : nat) (key value : Z) (transaction : bool) : M unit :=
  r <- NewPage ;;
  match r with
  | None => throw bad_alloc
  | Some new_id =>
      Init LEAF_PAGE new_id INVALID_PAGE_ID ;;
      _ <- UnpinPage new_id true ;;
      t <- get ;;
      (if root_page_id t =? INVALID_PAGE_ID then
         modify (set_root new_id) ;;
         UpdateRootPageId true
       else
         _ <- DeletePage new_id ;; ret tt) ;;
      _ <- InsertIntoLeaf fuel key value transaction ;;
      ret tt
  end.

Definition Insert (fuel : nat) (key value : Z) (transaction : bool) : M bool :=
  t <- get ;;
  if IsEmpty t then
    StartNewTree fuel key value transaction ;;
    ret true
  else InsertIntoLeaf fuel key value transaction.

(** ** The tree: deletion *)

Definition AdjustRoot (old_root_node : Z) : M bool :=
  r <- read_page old_root_node ;;
  assert (IsRootPage r) ;;
  if IsLeafPage r && (GetSize r <? GetMinSize r) then
    modify (set_root INVALID_PAGE_ID) ;;
    UpdateRootPageId false ;;
    ret true
  else if negb (IsLeafPage r) && (GetSize r =? 1) then
    child <- ValueAt r 0 ;;
    newRoot <- GetPage child false 0 ;;
    nr <- read_page newRoot ;;
    modify (set_root (page_id nr)) ;;
    update_page newRoot (SetParentPageId INVALID_PAGE_ID) ;;
    UpdateRootPageId false ;;
    _ <- UnpinPage child true ;;
    ret true
  else ret false.

Definition Redistribute (kind : IndexPageType) (neighbor_node node : Z) (index : Z) : M unit :=
  assert ((index =? 0) || (index =? 1)) ;;
  if index =? 0 then MoveFirstToEndOf kind neighbor_node node
  else MoveLastToFrontOf kind neighbor_node node index.

Definition Coalesce (kind : IndexPageType) (neighbor_node node parent : Z) (index : Z)
  : M bool :=
  assert ((index =? 0) || (index =? 1)) ;;
  n <- read_page node ;;
  nb <- read_page neighbor_node ;;
  (if index =? 0 then
     pp <- read_page parent ;;
     MoveAllTo kind node neighbor_node (ValueIndex (page_id n) pp) ;;
     pp <- read_page parent ;;
     internal_Remove parent (ValueIndex (page_id n) pp)
   else
     pp <- read_page parent ;;
     MoveAllTo kind node neighbor_node (ValueIndex (page_id nb) pp) ;;
     pp <- read_page parent ;;
     internal_Remove parent (ValueIndex (page_id nb) pp) ;;
     pp <- read_page parent ;;
     SetValueAt parent (ValueIndex (page_id n) pp) (page_id nb)) ;;
  pp <- read_page parent ;;
  ret (GetSize pp <? GetMinSize pp).

(** [CoalesceOrRedistribute<N>]: [kind] is the node type N of the call;
    the recursive call on the parent is the instance for internal pages. *)
Fixpoint CoalesceOrRedistribute (fuel : nat) (kind : IndexPageType) (node : Z)
    (transaction : bool) : M bool :=
  match fuel with
  | O => throw out_of_fuel
  | S fuel' =>
      n <- read_page node ;;
      if GetMinSize n <=? GetSize n then ret false
      else if parent_page_id n =? INVALID_PAGE_ID then
        assert (IsRootPage n) ;;
        AdjustRoot node
      else
        parent <- GetInternalPage (parent_page_id n) ;;
        pp <- read_page parent ;;
        let idx := ValueIndex (page_id n) pp in
        (* look ahead: the left sibling *)
        leftSiblingPageId <- (if 0 <=? idx - 1 then ValueAt pp (idx - 1)
                              else ret INVALID_PAGE_ID) ;;
        leftSibling <- (if 0 <=? idx - 1
                        then l <- GetPage leftSiblingPageId transaction 2 ;; ret (Some l)
                        else ret None) ;;
        left_rich <- match leftSibling with
                     | Some l => ls <- read_page l ;; ret (GetMinSize ls <? GetSize ls)
                     | None => ret false
                     end ;;
        if left_rich then
          match leftSibling with
          | Some l => Redistribute kind l node 1
          | None => ret tt
          end ;;
          (if negb transaction then _ <- UnpinPage leftSiblingPageId true ;; ret tt
           else ret tt) ;;
          pp <- read_page parent ;;
          _ <- UnpinPage (page_id pp) true ;;
          ret false
        else
          pp <- read_page parent ;;
          rightSiblingPageId <- (if idx + 1 <? GetSize pp then ValueAt pp (idx + 1)
                                 else ret INVALID_PAGE_ID) ;;
          rightSibling <- (if idx + 1 <? GetSize pp
                           then r <- GetPage rightSiblingPageId transaction 2 ;; ret (Some r)
                           else ret None) ;;
          right_rich <- match rightSibling with
                        | Some r => rs <- read_page r ;; ret (GetMinSize rs <? GetSize rs)
                        | None => ret false
                        end ;;
          if right_rich then
            match rightSibling with
            | Some r => Redistribute kind r node 0
            | None => ret tt
            end ;;
            (if negb transaction then
               _ <- UnpinPage rightSiblingPageId true ;;
               if bool_decide (leftSibling = None) then ret tt
               else _ <- UnpinPage leftSiblingPageId false ;; ret tt
             else ret tt) ;;
            pp <- read_page parent ;;
            _ <- UnpinPage (page_id pp) true ;;
            ret false
          else
            assert (negb (bool_decide (leftSibling = None)) ||
                    negb (bool_decide (rightSibling = None))) ;;
            match leftSibling with
            | Some l =>
                (* merge with left sibling node *)
                _ <- Coalesce kind l node parent 0 ;;
                if negb transaction then
                  _ <- UnpinPage leftSiblingPageId true ;;
                  if bool_decide (rightSibling = None) then ret tt
                  else _ <- UnpinPage rightSiblingPageId false ;; ret tt
                else ret tt
            | None =>
                (* merge with right sibling node *)
                r <- from_option null_deref rightSibling ;;
                _ <- Coalesce kind r node parent 1 ;;
                if negb transaction then _ <- UnpinPage rightSiblingPageId true ;; ret tt
                else ret tt
            end ;;
            del <- CoalesceOrRedistribute fuel' INTERNAL_PAGE parent transaction ;;
            pp <- read_page parent ;;
            _ <- UnpinPage (page_id pp) true ;;
            (if del then
               if transaction then AddIntoDeletedPageSet (page_id pp)
               else ok <- DeletePage (page_id pp) ;; assert ok
             else ret tt) ;;
            ret true
  end.

Definition Remove (fuel : nat) (key : Z) (transaction : bool) : M unit :=
  t <- get ;;
  if IsEmpty t then ret tt
  else
    assert_page_set_empty transaction ;;
    r <- GetLeafPage fuel key transaction 2 ;;
    lp <- from_option assert_fail r ;;
    sizeAfterRemove <- RemoveAndDeleteRecord lp key ;;
    p <- read_page lp ;;
    shouldRemovePage <- (if sizeAfterRemove <? GetMinSize p
                         then CoalesceOrRedistribute fuel LEAF_PAGE lp transaction
                         else ret false) ;;
    if shouldRemovePage && negb transaction then
      _ <- UnpinPage (page_id p) true ;;
      deletePage <- DeletePage (page_id p) ;;
      assert deletePage
    else
      (if shouldRemovePage then AddIntoDeletedPageSet (page_id p) else ret tt) ;;
      (if transaction then clearTxnWorkSet 2 true
       else _ <- UnpinPage (page_id p) true ;; ret tt) ;;
      assert_page_set_empty transaction.

(** ** The tree: iterators and the debug printer *)

(** An index iterator as [Begin] builds it: a leaf page id and an offset.
    The pin the iterator takes on its leaf for itself belongs to the iterator
    class and is not part of what the tree fetches. *)
Fixpoint leftmost (fuel : nat) (page : Z) : M Z :=
  p <- read_page page ;;
  if IsLeafPage p then ret page
  else match fuel with
       | O => throw out_of_fuel
       | S n =>
           child <- ValueAt p 0 ;;
           next <- GetPage child false 0 ;;
           leftmost n next
       end.

Definition Begin (fuel : nat) : M (Z * Z) :=
  t <- get ;;
  page <- GetPage (root_page_id t) false 0 ;;
  leaf <- leftmost fuel page ;;
  p <- read_page leaf ;;
  ret (page_id p, 0).

Definition Begin_key (fuel : nat) (key : Z) : M (Z * Z) :=
  r <- GetLeafPage fuel key false 0 ;;
  leaf <- from_option null_deref r ;;
  p <- read_page leaf ;;
  _ <- UnpinPage (page_id p) false ;;
  ret (page_id p, KeyIndex key (array p)).

(** [ToString]: of the text of a visited page, which the page classes
    write, what is kept is the id of the page and the pin count the printer
    reads, and the lines that the printer collects in [caution].  The
    result is the text for the empty tree (line 531) or the list of what is
    kept, page by page. *)
Definition ToString_page (pid : Z) : M (list Z * (Z * Z) * bool) :=
  item <- GetPage pid false 0 ;;
  p <- read_page item ;;
  let next := if IsLeafPage p then [] else snd <$> array p in
  h <- FetchPage pid ;;
  _ <- from_option null_deref h ;;
  t <- get ;;
  cnt <- from_option null_deref (pin_count <$> pages t !! pid) ;;
  _ <- UnpinPage (page_id p) false ;;
  _ <- UnpinPage (page_id p) false ;;
  ret (next, (pid, cnt), negb (cnt =? 2)).

Fixpoint ToString_row (v : list Z) : M (list Z * list (Z * Z) * bool) :=
  match v with
  | [] => ret ([], [], false)
  | pid :: r =>
      x <- ToString_page pid ;;
      y <- ToString_row r ;;
      ret (x.1.1 ++ y.1.1, x.1.2 :: y.1.2, x.2 || y.2)
  end.

Fixpoint ToString_rows (fuel : nat) (v : list Z) : M (list (Z * Z) * bool) :=
  match v with
  | [] => ret ([], false)
  | _ =>
      match fuel with
      | O => throw out_of_fuel
      | S n =>
          x <- ToString_row v ;;
          y <- ToString_rows n x.1.1 ;;
          ret (x.1.2 ++ y.1, x.2 || y.2)
      end
  end.

Definition ToString (fuel : nat) : M (string + list (Z * Z)) :=
  t <- get ;;
  if IsEmpty t then ret (inl "Empty tree"%string)
  else
    x <- ToString_rows fuel [root_page_id t] ;;
    assert (negb x.2) ;;
    ret (inr x.1).

(** * Notions used in the statements *)

(** A computation respects a relation on states when every run that
    returns relates the state before to the state after. *)
Definition respects {A} (R : relation BPlusTree) (m : M A) : Prop :=
  forall t a t', m t = Done a t' -> R t t'.

(** A computation is quiet when it never stops at the assertion on the page
    set of the transaction. *)
Definition quiet {A} (m : M A) : Prop := forall t, m t <> Abort page_set_assert_fail.

(** The buffer pool primitives change the pool and nothing else. *)
Definition pool_step (t t' : BPlusTree) : Prop :=
  index_name t' = index_name t /\ root_page_id t' = root_page_id t /\
  leaf_max_size t' = leaf_max_size t /\ internal_max_size t' = internal_max_size t /\
  header_ops t' = header_ops t /\ page_set t' = page_set t /\
  deleted_page_set t' = deleted_page_set t /\ calls t' = calls t.

(** Fetching, unpinning and latching also leave the node of every page as
    it is. *)
Definition pin_step (t t' : BPlusTree) : Prop :=
  pool_step t t' /\ next_page t' = next_page t /\
  forall id, data <$> pages t' !! id = data <$> pages t !! id.

(** The state a returning run ends in. *)
Definition exec {A} (m : M A) (t : BPlusTree) : BPlusTree :=
  match m t with Done _ t' => t' | Abort _ => t end.

Definition header_frame : Frame := mkFrame blank_page 0 false 0%nat false.

(** An index that has just been created: no root, the header page in the pool,
    leaves of at most 4 entries and internal pages of at most 5 children. *)
Definition fresh_index : BPlusTree :=
  mkTree "index" INVALID_PAGE_ID 4 5 {[ 0 := header_frame ]} 1 16 [] [] ∅ [].

Definition one_key_tree : BPlusTree := exec (Insert 8 5 50 false) fresh_index.

Definition five_key_tree : BPlusTree :=
  foldl (fun t k => exec (Insert 8 k (10 * k) false) t) fresh_index [1; 2; 3; 4; 5].

Definition page_array (t : BPlusTree) (id : Z) : option (list (Z * Z)) :=
  (fun f => array (data f)) <$> pages t !! id.
Definition page_pins (t : BPlusTree) (id : Z) : option Z :=
  pin_count <$> pages t !! id.

Definition same_page_set (t t' : BPlusTree) : Prop := page_set t' = page_set t.

(** The outcome of an operation that was called with a transaction: it
    returns with an empty page set, or stops for another reason than the
    assertion on the page set. *)
Definition work_set_ok {A} (o : Outcome A) : Prop :=
  match o with
  | Done _ t' => page_set t' = []
  | Abort f => f <> page_set_assert_fail
  end.

(** [f] is [header_ops] or [calls]: the list after is the list before
    followed by entries that all satisfy [P]. *)
Definition extends {X} (f : BPlusTree -> list X) (P : X -> Prop) : relation BPlusTree :=
  fun t t' => exists l, f t' = f t ++ l /\ Forall P l.

Definition is_update (op : HeaderOp) : Prop :=
  match op with UpdateRecord _ _ => True | InsertRecord _ _ => False end.

Definition updates_only : relation BPlusTree := extends header_ops is_update.

(** How often the calls [ops] on the header page insert a record for the
    index [name]. *)
Definition records_inserted (name : string) (ops : list HeaderOp) : nat :=
  length (List.filter (fun op => match op with
                                 | InsertRecord n _ => bool_decide (n = name)
                                 | UpdateRecord _ _ => false
                                 end) ops).

Definition emptied_and_refilled : BPlusTree :=
  exec (Insert 8 2 20 false) (exec (Remove 8 1 false) (exec (Insert 8 1 10 false) fresh_index)).

(** The child is safe for the operation: nothing above it can change. *)
Definition safe (mode : Z) (child : BPlusTreePage) : bool :=
  (mode =? 0) ||
  ((mode =? 1) && (GetSize child <? GetMaxSize child)) ||
  ((mode =? 2) && (GetMinSize child <? GetSize child)).

(** A frame after its latch was released and one pin given back. *)
Definition unlatched (mode : Z) (f : Frame) : Frame :=
  if mode =? 0
  then mkFrame (data f) (pin_count f) (is_dirty f) (Nat.pred (readers f)) (writer f)
  else mkFrame (data f) (pin_count f) (is_dirty f) (readers f) false.

Definition unpinned (dirty : bool) (f : Frame) : Frame :=
  if 0 <? pin_count f
  then mkFrame (data f) (pin_count f - 1) (is_dirty f || dirty) (readers f) (writer f)
  else f.

Definition released (mode : Z) (f f' : Frame) : Prop :=
  f' = unpinned false (unlatched mode f).

(** The tree of five keys at the start of an insert with a transaction: the
    root is pinned, write-latched and in the page set. *)
Definition root_latched : BPlusTree :=
  exec (btp <- GetPage 3 false 0 ;; lockFor 1 btp ;; AddIntoPageSet btp) five_key_tree.

(** The node of every page and the list of calls are as before. *)
Definition same_nodes (t t' : BPlusTree) : Prop :=
  calls t' = calls t /\ forall id, data <$> pages t' !! id = data <$> pages t !! id.

Definition same_calls (t t' : BPlusTree) : Prop := calls t' = calls t.

Definition calls_grow : relation BPlusTree := extends calls (fun _ => True).

(** ** The sibling strategy of deletion, as the spec words it *)

Definition rich (p : BPlusTreePage) : bool := GetMinSize p <? GetSize p.

Definition child_node (t : BPlusTree) (pp : BPlusTreePage) (i : Z) : option BPlusTreePage :=
  match snd <$> entry_at (array pp) i with
  | Some v => data <$> pages t !! v
  | None => None
  end.

Definition left_sibling (t : BPlusTree) (n pp : BPlusTreePage) : option BPlusTreePage :=
  let idx := ValueIndex (page_id n) pp in
  if 0 <=? idx - 1 then child_node t pp (idx - 1) else None.

Definition right_sibling (t : BPlusTree) (n pp : BPlusTreePage) : option BPlusTreePage :=
  let idx := ValueIndex (page_id n) pp in
  if idx + 1 <? GetSize pp then child_node t pp (idx + 1) else None.

Inductive Strategy :=
| RedistributeWithLeft (l : BPlusTreePage)
| RedistributeWithRight (r : BPlusTreePage)
| CoalesceIntoLeft (l : BPlusTreePage)
| CoalesceIntoRight (r : BPlusTreePage)
| NoSibling.

(** Section 4.4: redistribute with the left sibling if there is one above
    min_size; else with the right sibling if there is one above min_size;
    else coalesce, into the left sibling if one exists, otherwise into the
    right. *)
Definition strategy (t : BPlusTree) (n pp : BPlusTreePage) : Strategy :=
  match left_sibling t n pp, right_sibling t n pp with
  | Some l, Some r =>
      if rich l then RedistributeWithLeft l
      else if rich r then RedistributeWithRight r
      else CoalesceIntoLeft l
  | Some l, None => if rich l then RedistributeWithLeft l else CoalesceIntoLeft l
  | None, Some r => if rich r then RedistributeWithRight r else CoalesceIntoRight r
  | None, None => NoSibling
  end.

(** What a run of [CoalesceOrRedistribute] that follows the strategy
    returns and which node operation it calls first. *)
Definition follows (s : Strategy) (n : BPlusTreePage) (r : bool) (t t' : BPlusTree) : Prop :=
  match s with
  | RedistributeWithLeft l =>
      r = false /\ calls t' = calls t ++ [CallMoveLastToFrontOf l n]
  | RedistributeWithRight rs =>
      r = false /\ calls t' = calls t ++ [CallMoveFirstToEndOf rs n]
  | CoalesceIntoLeft l =>
      r = true /\ exists rest, calls t' = calls t ++ CallMoveAllTo n l :: rest
  | CoalesceIntoRight rs =>
      r = true /\ exists rest, calls t' = calls t ++ CallMoveAllTo n rs :: rest
  | NoSibling => False
  end.

(** The tree of five keys after key 4 was taken out of the right leaf, which
    is then below min_size. *)
Definition right_leaf_underflows : BPlusTree :=
  exec (RemoveAndDeleteRecord 2 4) five_key_tree.

(** ** Separator keys *)

(** The keys of a node are strictly increasing. *)
Definition sorted_keys (a : list (Z * Z)) : Prop := StronglySorted Z.lt (fst <$> a).

Definition is_largest_key (k : Z) (a : list (Z * Z)) : Prop :=
  k ∈ (fst <$> a) /\ forall k', k' ∈ (fst <$> a) -> k' <= k.

(** What the spec says of the key that goes to the parent after a split: for
    a leaf, the largest key of the left leaf after the move; for an internal
    page, the first key of the new right node. *)
Definition separator_ok (c : Call) : Prop :=
  match c with
  | CallInsertIntoParent o k nw =>
      match page_type o with
      | LEAF_PAGE => is_largest_key k (array o)
      | INTERNAL_PAGE => fst <$> head (array nw) = Some k
      | INVALID_INDEX_PAGE => False
      end
  | _ => True
  end.

(** The pool as the tree leaves it: page ids are below the next id that
    [NewPage] hands out, and the keys of every leaf are strictly increasing. *)
Definition pool_ok (t : BPlusTree) : Prop :=
  (forall id, is_Some (pages t !! id) -> id < next_page t) /\
  (forall id f, pages t !! id = Some f -> page_type (data f) = LEAF_PAGE ->
                sorted_keys (array (data f))).

Definition keeps_pool_ok (t t' : BPlusTree) : Prop := pool_ok t -> pool_ok t'.

Definition separators : relation BPlusTree := extends calls separator_ok.

Definition has_type (t : BPlusTree) (id : Z) (ty : IndexPageType) : Prop :=
  exists p, data <$> pages t !! id = Some p /\ page_type p = ty.

(** What [StartNewTree] does before it calls [InsertIntoLeaf]: the pool stays
    as the tree leaves it and no call is recorded. *)
Definition prepares (t t' : BPlusTree) : Prop :=
  keeps_pool_ok t t' /\ same_calls t t'.

(** A decision procedure for [pool_ok]. *)
Fixpoint increasing (l : list Z) : bool :=
  match l with
  | [] => true
  | x :: r => forallb (Z.ltb x) r && increasing r
  end.

Definition frame_ok (next : Z) (kv : Z * Frame) : bool :=
  (kv.1 <? next) &&
  match page_type (data kv.2) with
  | LEAF_PAGE => increasing (fst <$> array (data kv.2))
  | _ => true
  end.

Definition pool_okb (t : BPlusTree) : bool :=
  forallb (frame_ok (next_page t)) (map_to_list (pages t)).

(** The tree after the keys 1 to 16 went in, in this order: five leaves
    under one internal page that is full. *)
Definition sixteen_key_tree : BPlusTree :=
  foldl (fun t k => exec (Insert 8 k (10 * k) false) t) fresh_index
        (Z.of_nat <$> seq 1 16).

(** A recorded call in short: the page id and the keys of the old node, the
    key that goes up, and the keys of the new node. *)
Definition call_summary (c : Call) : Z * list Z * Z * list Z :=
  match c with
  | CallInsertIntoParent o k nw => (page_id o, fst <$> array o, k, fst <$> array nw)
  | CallMoveLastToFrontOf n r | CallMoveFirstToEndOf n r | CallMoveAllTo n r =>
      (page_id n, fst <$> array n, 0, fst <$> array r)
  end.

(** * Definitions for the further properties *)

(** ** Pins and page ids *)

(** No frame has a negative pin count. *)
Definition pins_ok (t : BPlusTree) : Prop :=
  forall id f, pages t !! id = Some f -> 0 <= pin_count f.

(** The node stored in a page knows the id of its page ([GetPageId]). *)
Definition ids_ok (t : BPlusTree) : Prop :=
  forall id f, pages t !! id = Some f -> page_id (data f) = id.

(** A frame with [d] more pins. *)
Definition pin_frame (d : Z) (f : Frame) : Frame :=
  mkFrame (data f) (pin_count f + d) (is_dirty f) (readers f) (writer f).

(** The state with one more pin on page [id], and nothing else changed. *)
Definition pinned (id : Z) (t : BPlusTree) : BPlusTree :=
  set_pages (alter (pin_frame 1) id (pages t)) t.

(** A frame fetched and read-latched once more; the state in which page
    [id] is fetched, read-latched and alone in the work set. *)
Definition hold_frame (f : Frame) : Frame :=
  mkFrame (data f) (pin_count f + 1) (is_dirty f) (S (readers f)) false.

Definition held (id : Z) (t : BPlusTree) : BPlusTree :=
  set_page_set [id] (set_pages (alter hold_frame id (pages t)) t).

(** Decision procedures for [pins_ok] and [ids_ok]. *)
Definition pins_okb (t : BPlusTree) : bool :=
  forallb (fun kv : Z * Frame => 0 <=? pin_count kv.2) (map_to_list (pages t)).

Definition ids_okb (t : BPlusTree) : bool :=
  forallb (fun kv : Z * Frame => page_id (data kv.2) =? kv.1) (map_to_list (pages t)).

(** ** A tree of one leaf *)

(** The root is a leaf page of the pool that knows its id. *)
Definition root_leaf (t : BPlusTree) (f : Frame) : Prop :=
  root_page_id t <> INVALID_PAGE_ID /\
  pages t !! root_page_id t = Some f /\
  page_type (data f) = LEAF_PAGE /\
  page_id (data f) = root_page_id t /\
  0 <= pin_count f.


(** The state in which the leaf page [id] holds the entries [a] and is
    marked dirty, everything else as in [t]. *)
Definition store_frame (a : list (Z * Z)) (f : Frame) : Frame :=
  mkFrame (set_array a (data f)) (pin_count f) true (readers f) (writer f).

Definition store_leaf (id : Z) (a : list (Z * Z)) (t : BPlusTree) : BPlusTree :=
  set_pages (alter (store_frame a) id (pages t)) t.

(** A tree whose root is a leaf with three keys. *)
Definition three_key_leaf : BPlusTree :=
  exec (Insert 8 9 90 false) (exec (Insert 8 7 70 false) one_key_tree).

(** The tree of sixteen keys after the keys 1 and 4 were removed: its first
    two leaves are at their minimum size. *)
Definition two_poor_leaves : BPlusTree :=
  exec (Remove 8 4 false) (exec (Remove 8 1 false) sixteen_key_tree).

(** An empty index over a pool of one frame, which is pinned by someone
    else. *)
Definition exhausted_index : BPlusTree :=
  mkTree "index" INVALID_PAGE_ID 4 5
         {[0 := mkFrame blank_page 1 false 0%nat false]} 1 1 [] [] ∅ [].

(** The root leaf of [one_key_tree] with a second key, split in two; the new
    leaf, page 2, is still pinned. *)
Definition split_root_leaf : BPlusTree :=
  exec (Split LEAF_PAGE 1) (exec (leaf_Insert 1 7 70) one_key_tree).

(** A root that is an internal page with one child left: the tree of five
    keys after its right leaf was merged into the left one. *)
Definition one_child_root : BPlusTree :=
  exec (internal_Remove 3 1) five_key_tree.

(** ** The root and the header page *)

Definition op_name (op : HeaderOp) : string :=
  match op with InsertRecord n _ | UpdateRecord n _ => n end.

Definition op_root (op : HeaderOp) : Z :=
  match op with InsertRecord _ r | UpdateRecord _ r => r end.

(** Neither the root nor the header page is touched. *)
Definition untouched (t t' : BPlusTree) : Prop :=
  index_name t' = index_name t /\ root_page_id t' = root_page_id t /\
  header_ops t' = header_ops t.

(** The header page is told of every change of the root: the calls made on
    it are for this index, and the last of them carries the root as it is
    now; without a call the root is as it was. *)
Definition root_persisted (t t' : BPlusTree) : Prop :=
  index_name t' = index_name t /\
  exists l, header_ops t' = header_ops t ++ l /\
    Forall (fun op => op_name op = index_name t) l /\
    match last l with
    | Some op => op_root op = root_page_id t'
    | None => root_page_id t' = root_page_id t
    end.

(** ** Pin accounting *)

(** A pin function with [d] more pins on page [id]. *)
Definition bump (d : Z) (id : Z) (P : Z -> Z) : Z -> Z :=
  fun j => if decide (j = id) then P j + d else P j.

(** A pool whose pins are those of the pin function [P]: every frame has
    the pin count [P] gives its page, pages that are not in the pool have
    none, no count is negative, the ids from [next_page] on are free, and
    every node knows the id of its page -- but for the page [x], if any,
    that the pool has handed out and that is not initialised yet. *)
Definition pool_pins (x : option Z) (P : Z -> Z) (t : BPlusTree) : Prop :=
  (forall id f, pages t !! id = Some f -> pin_count f = P id) /\
  (forall id, pages t !! id = None -> P id = 0) /\
  (forall id, 0 <= P id) /\
  (forall id, next_page t <= id -> pages t !! id = None) /\
  (forall id f, pages t !! id = Some f -> x <> Some id -> page_id (data f) = id).

(** The pin function of a state. *)
Definition pins_of (t : BPlusTree) : Z -> Z :=
  fun id => match pages t !! id with Some f => pin_count f | None => 0 end.

(** A pool in good order: no negative pin count, free ids from [next_page]
    on, every node knows the id of its page. *)
Definition pool_sound (t : BPlusTree) : Prop := pool_pins None (pins_of t) t.

(** Every page of [t'] has the pins it had in [t], a new page has none. *)
Definition pins_returned (t t' : BPlusTree) : Prop :=
  forall id f', pages t' !! id = Some f' -> pin_count f' = pins_of t id.

Definition pool_soundb (t : BPlusTree) : bool :=
  forallb (fun kv : Z * Frame =>
             (0 <=? pin_count kv.2) && (kv.1 <? next_page t) &&
             (page_id (data kv.2) =? kv.1))
          (map_to_list (pages t)).

(** A computation is balanced when it returns with the pins it found. *)
Definition balanced {A} (m : M A) : Prop :=
  forall P t a t', pool_pins None P t -> m t = Done a t' -> pool_pins None P t'.

(** The pins that a work set [l] holds on page [id]: one for each time the
    page is in the set. *)
Fixpoint held_pins (l : list Z) (id : Z) : Z :=
  match l with
  | [] => 0
  | x :: l' => (if decide (id = x) then 1 else 0) + held_pins l' id
  end.

(** The pin function [P] with the pins of a work set on top. *)
Definition spread (P : Z -> Z) (l : list Z) : Z -> Z :=
  fun id => P id + held_pins l id.

(** A computation gathers pins when the pins it leaves behind are those of
    the pages it has put into the work set. *)
Definition gathers {A} (m : M A) : Prop :=
  forall P t a t',
    pool_pins None P t -> m t = Done a t' ->
    exists l, page_set t' = page_set t ++ l /\ pool_pins None (spread P l) t'.

(** ** The entries of the leaves *)

(** The nodes of the pool, page by page. *)
Definition nodes (t : BPlusTree) : gmap Z BPlusTreePage := data <$> pages t.

(** How often the pair [e] is among the entries [l]. *)
Fixpoint occ (e : Z * Z) (l : list (Z * Z)) : Z :=
  match l with
  | [] => 0
  | x :: r => (if decide (x = e) then 1 else 0) + occ e r
  end.

(** The key and value pairs a node stores: the entries of a leaf. *)
Definition node_entries (p : BPlusTreePage) : list (Z * Z) :=
  if bool_decide (page_type p = LEAF_PAGE) then array p else [].

(** How often the pair [e] is stored in the leaves of the pool. *)
Definition total (e : Z * Z) (N : gmap Z BPlusTreePage) : Z :=
  map_fold (fun _ p acc => occ e (node_entries p) + acc) 0 N.

Definition entry_count (e : Z * Z) (t : BPlusTree) : Z := total e (nodes t).

(** A parent pointer is in order when it is below the next page id and the
    page it names, if there is one, is an internal page. *)
Definition parent_ok (N : gmap Z BPlusTreePage) (n : Z) (q : Z) : Prop :=
  q < n /\ forall g, N !! q = Some g -> page_type g = INTERNAL_PAGE.

(** A page is in order when its id is one the pool has handed out, the
    keys of a leaf are strictly increasing, and the parent pointer of a node
    is in order. *)
Definition node_ok (N : gmap Z BPlusTreePage) (n : Z) (id : Z) (p : BPlusTreePage) : Prop :=
  0 <= id < n /\
  (page_type p = LEAF_PAGE -> sorted_keys (array p)) /\
  (page_type p <> INVALID_INDEX_PAGE -> parent_ok N n (parent_page_id p)).

Definition nodes_ok (N : gmap Z BPlusTreePage) (n : Z) : Prop :=
  0 <= n /\ forall id p, N !! id = Some p -> node_ok N n id p.

Definition tree_ok (t : BPlusTree) : Prop := nodes_ok (nodes t) (next_page t).

(** Every node is still there, as a node of the kind it was. *)
Definition kinds_kept (N N' : gmap Z BPlusTreePage) : Prop :=
  forall id p, N !! id = Some p -> page_type p <> INVALID_INDEX_PAGE ->
    exists p', N' !! id = Some p' /\ page_type p' = page_type p.

(** From a pool in order, with no page waiting to be deleted, a step of
    this kind leads to a pool in order, keeps the nodes and their kinds, and
    adds [gain e] copies of every pair [e] to the leaves. *)
Definition gains (gain : Z * Z -> Z) (t t' : BPlusTree) : Prop :=
  tree_ok t -> deleted_page_set t = ∅ ->
  tree_ok t' /\ deleted_page_set t' = ∅ /\ kinds_kept (nodes t) (nodes t') /\
  forall e, entry_count e t' = entry_count e t + gain e.

Definition harmless : relation BPlusTree := gains (fun _ => 0).

(** A decision procedure for [tree_ok]. *)
Definition node_okb (t : BPlusTree) (kv : Z * Frame) : bool :=
  let p := data kv.2 in
  (0 <=? kv.1) && (kv.1 <? next_page t) &&
  match page_type p with
  | INVALID_INDEX_PAGE => true
  | ty =>
      (match ty with LEAF_PAGE => increasing (fst <$> array p) | _ => true end) &&
      (parent_page_id p <? next_page t) &&
      match pages t !! parent_page_id p with
      | Some g => bool_decide (page_type (data g) = INTERNAL_PAGE)
      | None => true
      end
  end.

Definition tree_okb (t : BPlusTree) : bool :=
  (0 <=? next_page t) && forallb (node_okb t) (map_to_list (pages t)).

(** The nodes, the next page id and the pages waiting to be deleted are as
    before. *)
Definition same_pool (t t' : BPlusTree) : Prop :=
  nodes t' = nodes t /\ next_page t' = next_page t /\
  deleted_page_set t' = deleted_page_set t.

(** The same, and the root is as before. *)
Definition same_tree (t t' : BPlusTree) : Prop :=
  same_pool t t' /\ root_page_id t' = root_page_id t.

(** The right leaf of [five_key_tree] with three more keys, split in two;
    the new leaf, page 4, is still pinned. *)
Definition split_right_leaf : BPlusTree :=
  exec (Split LEAF_PAGE 2)
    (exec (leaf_Insert 2 8 80)
       (exec (leaf_Insert 2 7 70) (exec (leaf_Insert 2 6 60) five_key_tree))).

(** ** The way down *)

(** [path] is the way from [page] down first children to a leaf: every page
    before the last is not a leaf and is followed by the child in its entry
    0 ([ValueAt 0]); the last one is a leaf. *)
Fixpoint first_children (N : gmap Z BPlusTreePage) (page : Z) (path : list Z) : Prop :=
  match path with
  | [] => exists p, N !! page = Some p /\ IsLeafPage p = true
  | child :: path' =>
      (exists p, N !! page = Some p /\ IsLeafPage p = false /\
                 snd <$> entry_at (array p) 0 = Some child) /\
      first_children N child path'
  end.

(** The leaf in which the descent of [GetLeafPage] for [key] ends when it
    starts at [page], read off the nodes: at a page that is not a leaf the
    descent goes on in the child that [Lookup] selects. *)
Fixpoint search_leaf (fuel : nat) (N : gmap Z BPlusTreePage) (key : Z) (page : Z) : option Z :=
  match N !! page with
  | None => None
  | Some p =>
      if IsLeafPage p then Some page
      else match fuel with
           | O => None
           | S n =>
               match internal_lookup key (array p) with
               | None => None
               | Some next => search_leaf n N key next
               end
           end
  end.

(** ** The tree as a search tree *)

(** From a state with no page waiting to be deleted: the nodes, the root,
    the next page id and the calls made on the header page are as before,
    and still no page waits to be deleted. *)
Definition intact (t t' : BPlusTree) : Prop :=
  deleted_page_set t = ∅ ->
  nodes t' = nodes t /\ root_page_id t' = root_page_id t /\
  next_page t' = next_page t /\ deleted_page_set t' = ∅ /\
  header_ops t' = header_ops t.

(** A range of keys: above [lo], up to and including [hi]; [None] is no
    bound. *)
Definition above (lo : option Z) (k : Z) : bool :=
  match lo with None => true | Some l => l <? k end.
Definition upto (hi : option Z) (k : Z) : bool :=
  match hi with None => true | Some h => k <=? h end.

(** The children of an internal page whose keys are in the range from [lo]
    to [hi], each with its own range.  The keys under child i are above
    key_i and reach up to and including key_(i+1): the key that
    [InsertIntoLeaf] hands to the parent is the largest key of the left
    leaf (line 127), where section 3 has the keys under child i start at
    key_i. *)
Fixpoint child_ranges (lo hi : option Z) (child : Z) (rest : list (Z * Z))
  : list (option Z * option Z * Z) :=
  match rest with
  | [] => [(lo, hi, child)]
  | (k, c) :: r => (lo, Some k, child) :: child_ranges (Some k) hi c r
  end.

(** The tree below [page], of height at most [depth], is a search tree for
    the range from [lo] to [hi]: the keys of a leaf are in the range, the
    keys of an internal page from entry 1 on are in the range and strictly
    increasing, and every child is a search tree for its range. *)
Fixpoint ordered (depth : nat) (N : gmap Z BPlusTreePage) (lo hi : option Z) (page : Z)
  : bool :=
  match N !! page with
  | None => false
  | Some p =>
      if IsLeafPage p then forallb (fun e : Z * Z => above lo e.1 && upto hi e.1) (array p)
      else match depth with
           | O => false
           | S n =>
               match array p with
               | [] => false
               | (_, c0) :: rest =>
                   increasing (fst <$> rest) &&
                   forallb (fun e : Z * Z => above lo e.1 && upto hi e.1) rest &&
                   forallb (fun r : option Z * option Z * Z => ordered n N r.1.1 r.1.2 r.2)
                           (child_ranges lo hi c0 rest)
               end
           end
  end.

(** [key] is a key of the tree below [page]: of one of its leaves. *)
Fixpoint stored (depth : nat) (N : gmap Z BPlusTreePage) (key : Z) (page : Z) : bool :=
  match N !! page with
  | None => false
  | Some p =>
      if IsLeafPage p then existsb (fun e : Z * Z => e.1 =? key) (array p)
      else match depth with
           | O => false
           | S n => existsb (fun e : Z * Z => stored n N key e.2) (array p)
           end
  end.

(** The tree is empty or a search tree of height at most [depth]. *)
Definition search_tree (depth : nat) (t : BPlusTree) : Prop :=
  root_page_id t = INVALID_PAGE_ID \/
  ordered depth (nodes t) None None (root_page_id t) = true.

Definition search_treeb (depth : nat) (t : BPlusTree) : bool :=
  bool_decide (root_page_id t = INVALID_PAGE_ID) ||
  ordered depth (nodes t) None None (root_page_id t).

(** [key] is a key of the tree. *)
Definition has_key (depth : nat) (t : BPlusTree) (key : Z) : bool :=
  stored depth (nodes t) key (root_page_id t).

Definition leaves_filled (t : BPlusTree) : Prop :=
  forall id p, nodes t !! id = Some p -> IsLeafPage p = true -> GetMinSize p <= GetSize p.

Definition leaves_fitb (t : BPlusTree) : bool :=
  forallb (fun kv : Z * Frame =>
             negb (IsLeafPage (data kv.2)) || (GetSize (data kv.2) <=? GetMaxSize (data kv.2)))
          (map_to_list (pages t)).
Definition leaves_filledb (t : BPlusTree) : bool :=
  forallb (fun kv : Z * Frame =>
             negb (IsLeafPage (data kv.2)) || (GetMinSize (data kv.2) <=? GetSize (data kv.2)))
          (map_to_list (pages t)).

(** ** Runs of several operations *)

Fixpoint insert_all (ks : list Z) : M unit :=
  match ks with
  | [] => ret tt
  | k :: r => _ <- Insert 8 k (10 * k) false ;; insert_all r
  end.

Fixpoint remove_all (ks : list Z) : M unit :=
  match ks with
  | [] => ret tt
  | k :: r => Remove 8 k false ;; remove_all r
  end.

(** The keys among [ks] for which [GetValue] returns true. *)
Definition found_keys (t : BPlusTree) (ks : list Z) : list Z :=
  List.filter (fun k => match GetValue 8 k false t with
                        | Done (Some _) _ => true
                        | _ => false
                        end) ks.

(** A tree of three levels: thirty keys inserted in no particular order. *)
Definition thirty_key_tree : BPlusTree :=
  exec (insert_all [20; 3; 15; 8; 1; 12; 19; 6; 2; 17; 10; 5; 14; 9; 4; 18; 7; 11; 16; 13;
                    25; 21; 30; 22; 29; 23; 28; 24; 27; 26]) fresh_index.

(** * Reasoning about computations *)

Lemma bind_Done {A B} (m : M A) (k : A -> M B) t b t' :
  bind m k t = Done b t' <-> exists a t1, m t = Done a t1 /\ k a t1 = Done b t'.
Proof.
  unfold bind. split.
  - destruct (m t) as [a t1|f]; [eauto | discriminate].
  - intros (a & t1 & -> & H). exact H.
Qed.

Lemma ret_Done {A} (a b : A) t t' : ret a t = Done b t' <-> a = b /\ t = t'.
Proof. unfold ret. split; [intros [= -> ->]; auto | intros [-> ->]; reflexivity]. Qed.

Lemma get_Done t a t' : get t = Done a t' <-> a = t /\ t' = t.
Proof. unfold get. split; [intros [= -> ->]; auto | intros [-> ->]; reflexivity]. Qed.

Lemma modify_Done f t a t' : modify f t = Done a t' <-> t' = f t.
Proof. unfold modify. destruct a. split; [intros [= <-]; auto | intros ->; reflexivity]. Qed.

Lemma assert_Done b t a t' : assert b t = Done a t' <-> b = true /\ t' = t.
Proof.
  unfold assert, ret, throw. destruct b, a; split; try discriminate.
  - intros [= ->]; auto.
  - intros [_ ->]; reflexivity.
  - intros [? _]; discriminate.
Qed.

Lemma from_option_Done {A} f (o : option A) t a t' :
  from_option f o t = Done a t' <-> o = Some a /\ t' = t.
Proof.
  unfold from_option, ret, throw. destruct o; split; try discriminate.
  - intros [= -> ->]; auto.
  - intros [[= ->] ->]; reflexivity.
  - intros [? _]; discriminate.
Qed.

Create HintDb respects.

Section Respects.
Context (R : relation BPlusTree) `{!PreOrder R}.

Lemma respects_ret {A} (a : A) : respects R (ret a).
Proof. intros t b t' [_ <-]%ret_Done. reflexivity. Qed.

Lemma respects_throw {A} f : respects R (@throw A f).
Proof. intros t b t' H. discriminate H. Qed.

Lemma respects_get : respects R get.
Proof. intros t b t' [_ ->]%get_Done. reflexivity. Qed.

Lemma respects_assert b : respects R (assert b).
Proof. intros t a t' [_ ->]%assert_Done. reflexivity. Qed.

Lemma respects_from_option {A} f (o : option A) : respects R (from_option f o).
Proof. intros t a t' [_ ->]%from_option_Done. reflexivity. Qed.

Lemma respects_bind {A B} (m : M A) (k : A -> M B) :
  respects R m -> (forall a, respects R (k a)) -> respects R (bind m k).
Proof.
  intros Hm Hk t b t' (a & t1 & H1 & H2)%bind_Done.
  transitivity t1; [eapply Hm | eapply Hk]; eassumption.
Qed.
End Respects.

Lemma respects_weaken {A} (R1 R2 : relation BPlusTree) (m : M A) :
  (forall t t', R1 t t' -> R2 t t') -> respects R1 m -> respects R2 m.
Proof. intros HR H t a t' Hm. apply HR. eapply H. eassumption. Qed.

Ltac respects_step :=
  lazymatch goal with
  | |- respects _ (bind _ _) => apply respects_bind; [try typeclasses eauto | | intros ?]
  | |- respects _ (ret _) => apply respects_ret; typeclasses eauto
  | |- respects _ (throw _) => apply respects_throw
  | |- respects _ get => apply respects_get; typeclasses eauto
  | |- respects _ (assert _) => apply respects_assert; typeclasses eauto
  | |- respects _ (from_option _ _) => apply respects_from_option; typeclasses eauto
  | |- respects _ (if ?b then _ else _) => destruct b
  | |- respects _ (match ?x with _ => _ end) => destruct x
  end.

Ltac respects_auto := repeat respects_step; eauto with respects.

Create HintDb quiet.

Lemma quiet_ret {A} (a : A) : quiet (ret a).
Proof. intros t. discriminate. Qed.
Lemma quiet_get : quiet get.
Proof. intros t. discriminate. Qed.
Lemma quiet_modify f : quiet (modify f).
Proof. intros t. discriminate. Qed.
Lemma quiet_assert b : quiet (assert b).
Proof. intros t. destruct b; discriminate. Qed.
Lemma quiet_from_option {A} f (o : option A) :
  f <> page_set_assert_fail -> quiet (from_option f o).
Proof.
  intros Hf t. destruct o; unfold from_option, ret, throw;
    [discriminate | intros [= E]; exact (Hf E)].
Qed.
Lemma quiet_bind {A B} (m : M A) (k : A -> M B) :
  quiet m -> (forall a, quiet (k a)) -> quiet (bind m k).
Proof.
  intros Hm Hk t. unfold bind. specialize (Hm t).
  destruct (m t) as [a t1|f]; [apply Hk | intros [= E]; apply Hm; congruence].
Qed.

Ltac quiet_prim f :=
  intros t; unfold f; repeat case_match; discriminate.

Lemma quiet_NewPage : quiet NewPage.
Proof. quiet_prim NewPage. Qed.
Lemma quiet_FetchPage id : quiet (FetchPage id).
Proof. quiet_prim FetchPage. Qed.
Lemma quiet_UnpinPage id d : quiet (UnpinPage id d).
Proof. quiet_prim UnpinPage. Qed.
Lemma quiet_DeletePage id : quiet (DeletePage id).
Proof. quiet_prim DeletePage. Qed.
Lemma quiet_read_page id : quiet (read_page id).
Proof. quiet_prim read_page. Qed.
Lemma quiet_write_page id p : quiet (write_page id p).
Proof. quiet_prim write_page. Qed.
Lemma quiet_lockFor mode id : quiet (lockFor mode id).
Proof. quiet_prim lockFor. Qed.
Lemma quiet_unlockFor mode id : quiet (unlockFor mode id).
Proof. quiet_prim unlockFor. Qed.

Global Hint Resolve quiet_NewPage quiet_FetchPage quiet_UnpinPage quiet_DeletePage
  quiet_read_page quiet_write_page quiet_lockFor quiet_unlockFor quiet_modify : quiet.

Ltac quiet_step :=
  lazymatch goal with
  | |- quiet (bind _ _) => apply quiet_bind; [| intros ?]
  | |- quiet (ret _) => apply quiet_ret
  | |- quiet (throw _) => intros ?; discriminate
  | |- quiet get => apply quiet_get
  | |- quiet (assert _) => apply quiet_assert
  | |- quiet (from_option _ _) => apply quiet_from_option; discriminate
  | |- quiet (if ?b then _ else _) => destruct b
  | |- quiet (match ?x with _ => _ end) => destruct x
  end.

Ltac quiet_auto := repeat quiet_step; eauto with quiet.

(** ** What the primitives leave alone *)

Global Instance pool_step_preorder : PreOrder pool_step.
Proof.
  split.
  - intros t. repeat split.
  - intros t1 t2 t3 H1 H2. unfold pool_step in *.
    destruct H1 as (?&?&?&?&?&?&?&?), H2 as (?&?&?&?&?&?&?&?).
    repeat split; congruence.
Qed.

Ltac pool_prim f :=
  intros t a t' H; unfold f in H;
  repeat case_match; simplify_eq; repeat split.

Global Instance pin_step_preorder : PreOrder pin_step.
Proof.
  split.
  - intros t. split; [reflexivity | auto].
  - intros t1 t2 t3 (H1 & Hn1 & Hd1) (H2 & Hn2 & Hd2).
    split; [etransitivity; eassumption | split; [congruence|]].
    intros id. rewrite Hd2. apply Hd1.
Qed.

Lemma pin_step_pool t t' : pin_step t t' -> pool_step t t'.
Proof. intros [H _]. exact H. Qed.

Lemma pin_step_insert t id f f' :
  pages t !! id = Some f -> data f' = data f ->
  pin_step t (set_pages (<[id := f']> (pages t)) t).
Proof.
  intros Hf Hd. split; [repeat split | split; [reflexivity|]].
  intros i. cbn [pages set_pages].
  destruct (decide (i = id)) as [->|Hne].
  - rewrite lookup_insert_eq, Hf. cbn. by rewrite Hd.
  - by rewrite lookup_insert_ne.
Qed.

Ltac pin_prim f :=
  intros t a t' H; unfold f in H;
  repeat case_match; simplify_eq;
  first [reflexivity | eapply pin_step_insert; first [eassumption | reflexivity]].

Lemma FetchPage_pin id : respects pin_step (FetchPage id).
Proof. pin_prim FetchPage. Qed.
Lemma UnpinPage_pin id d : respects pin_step (UnpinPage id d).
Proof. pin_prim UnpinPage. Qed.
Lemma read_page_pin id : respects pin_step (read_page id).
Proof. pin_prim read_page. Qed.
Lemma lockFor_pin mode id : respects pin_step (lockFor mode id).
Proof. pin_prim lockFor. Qed.
Lemma unlockFor_pin mode id : respects pin_step (unlockFor mode id).
Proof. pin_prim unlockFor. Qed.

Lemma NewPage_pool : respects pool_step NewPage.
Proof. pool_prim NewPage. Qed.
Lemma FetchPage_pool id : respects pool_step (FetchPage id).
Proof. pool_prim FetchPage. Qed.
Lemma UnpinPage_pool id d : respects pool_step (UnpinPage id d).
Proof. pool_prim UnpinPage. Qed.
Lemma DeletePage_pool id : respects pool_step (DeletePage id).
Proof. pool_prim DeletePage. Qed.
Lemma read_page_pool id : respects pool_step (read_page id).
Proof. pool_prim read_page. Qed.
Lemma write_page_pool id p : respects pool_step (write_page id p).
Proof. pool_prim write_page. Qed.
Lemma lockFor_pool mode id : respects pool_step (lockFor mode id).
Proof. pool_prim lockFor. Qed.
Lemma unlockFor_pool mode id : respects pool_step (unlockFor mode id).
Proof. pool_prim unlockFor. Qed.

Lemma pool_step_delete t id : pool_step t (set_pages (delete id (pages t)) t).
Proof. repeat split. Qed.

(** ** Relations that every function of the tree respects

    [R] is any preorder that the pool primitives, the work set, a change of
    the root, an [UpdateRecord] on the header page and the recorded calls
    in [Pc] respect. *)
Section Generic.
Context (R : relation BPlusTree) `{!PreOrder R}.
Context (Ph : HeaderOp -> Prop) (Pc : Call -> Prop).
Hypothesis HR_pin : forall t t', pin_step t t' -> R t t'.
Hypothesis HR_pool : forall t t', pool_step t t' -> R t t'.
Hypothesis HR_delete : forall t id, R t (set_pages (delete id (pages t)) t).
Hypothesis HR_page_set : forall t l, R t (set_page_set l t).
Hypothesis HR_deleted : forall t d, R t (set_deleted_page_set d t).
Hypothesis HR_root : forall t r, R t (set_root r t).
Hypothesis HR_header :
  forall t op, Ph op -> R t (set_header_ops (header_ops t ++ [op]) t).
Hypothesis HPh_update : forall n r, Ph (UpdateRecord n r).
Hypothesis HR_record : forall t c, Pc c -> R t (set_calls (calls t ++ [c]) t).
Hypothesis HPc_last : forall n r, Pc (CallMoveLastToFrontOf n r).
Hypothesis HPc_first : forall n r, Pc (CallMoveFirstToEndOf n r).
Hypothesis HPc_all : forall n r, Pc (CallMoveAllTo n r).


Lemma modify_respects f : (forall t, R t (f t)) -> respects R (modify f).
Proof. intros Hf t a t' ->%modify_Done. apply Hf. Qed.

Local Ltac from_pool := eapply respects_weaken; [exact HR_pool | ].
Local Ltac from_pin := eapply respects_weaken; [exact HR_pin | ].

Lemma NewPage_respects : respects R NewPage.
Proof. from_pool. apply NewPage_pool. Qed.
Lemma FetchPage_respects id : respects R (FetchPage id).
Proof. from_pin. apply FetchPage_pin. Qed.
Lemma UnpinPage_respects id d : respects R (UnpinPage id d).
Proof. from_pin. apply UnpinPage_pin. Qed.
Lemma DeletePage_respects id : respects R (DeletePage id).
Proof.
  intros t a t' H. unfold DeletePage in H.
  repeat case_match; simplify_eq; first [reflexivity | apply HR_delete].
Qed.
Lemma read_page_respects id : respects R (read_page id).
Proof. from_pin. apply read_page_pin. Qed.
Lemma write_page_respects id p : respects R (write_page id p).
Proof. from_pool. apply write_page_pool. Qed.
Lemma lockFor_respects mode id : respects R (lockFor mode id).
Proof. from_pin. apply lockFor_pin. Qed.
Lemma unlockFor_respects mode id : respects R (unlockFor mode id).
Proof. from_pin. apply unlockFor_pin. Qed.

Local Hint Resolve NewPage_respects FetchPage_respects UnpinPage_respects
  DeletePage_respects read_page_respects write_page_respects lockFor_respects
  unlockFor_respects modify_respects : respects.

Lemma record_respects c : Pc c -> respects R (record c).
Proof. intros Hc. apply modify_respects. intros t. by apply HR_record. Qed.

Lemma update_page_respects id f : respects R (update_page id f).
Proof. unfold update_page. respects_auto. Qed.
Lemma read_as_respects kind id : respects R (read_as kind id).
Proof. unfold read_as. respects_auto. Qed.
Lemma AddIntoPageSet_respects id : respects R (AddIntoPageSet id).
Proof. unfold AddIntoPageSet. respects_auto. Qed.
Lemma AddIntoDeletedPageSet_respects id : respects R (AddIntoDeletedPageSet id).
Proof. unfold AddIntoDeletedPageSet. respects_auto. Qed.
Lemma assert_page_set_empty_respects tx : respects R (assert_page_set_empty tx).
Proof. unfold assert_page_set_empty. respects_auto. Qed.

Local Hint Resolve record_respects update_page_respects read_as_respects
  AddIntoPageSet_respects AddIntoDeletedPageSet_respects
  assert_page_set_empty_respects : respects.

Lemma release_page_respects mode d id : respects R (release_page mode d id).
Proof. unfold release_page. respects_auto. Qed.
Local Hint Resolve release_page_respects : respects.

Lemma release_all_respects mode d l : respects R (release_all mode d l).
Proof. induction l; simpl; respects_auto. Qed.
Local Hint Resolve release_all_respects : respects.

Lemma clearTxnWorkSet_respects mode d : respects R (clearTxnWorkSet mode d).
Proof. unfold clearTxnWorkSet. respects_auto. Qed.
Lemma GetPage_respects id tx mode : respects R (GetPage id tx mode).
Proof. unfold GetPage. respects_auto. Qed.
Lemma GetInternalPage_respects id : respects R (GetInternalPage id).
Proof. unfold GetInternalPage. respects_auto. Qed.
Lemma UpdateRootPageId_respects (b : bool) :
  (forall (n : string) (r : Z), Ph (if b then InsertRecord n r else UpdateRecord n r)) ->
  respects R (UpdateRootPageId b).
Proof.
  intros Hb. unfold UpdateRootPageId. respects_auto.
Qed.
Lemma UpdateRootPageId_false_respects : respects R (UpdateRootPageId false).
Proof. apply UpdateRootPageId_respects. apply HPh_update. Qed.
Local Hint Resolve clearTxnWorkSet_respects GetPage_respects GetInternalPage_respects
  UpdateRootPageId_false_respects : respects.

Lemma KeyAt_respects p i : respects R (KeyAt p i).
Proof. unfold KeyAt. respects_auto. Qed.
Lemma ValueAt_respects p i : respects R (ValueAt p i).
Proof. unfold ValueAt. respects_auto. Qed.
Lemma alter_entry_respects f i p : respects R (alter_entry f i p).
Proof. unfold alter_entry. respects_auto. Qed.
Local Hint Resolve KeyAt_respects ValueAt_respects alter_entry_respects : respects.

Lemma Init_respects kind id parent : respects R (Init kind id parent).
Proof. unfold Init. respects_auto. Qed.
Lemma Lookup_respects leaf k : respects R (Lookup leaf k).
Proof. unfold Lookup. respects_auto. Qed.
Lemma leaf_Insert_respects leaf k v : respects R (leaf_Insert leaf k v).
Proof. unfold leaf_Insert. respects_auto. Qed.
Lemma RemoveAndDeleteRecord_respects leaf k : respects R (RemoveAndDeleteRecord leaf k).
Proof. unfold RemoveAndDeleteRecord. respects_auto. Qed.
Lemma internal_Lookup_respects ip k : respects R (internal_Lookup ip k).
Proof. unfold internal_Lookup. respects_auto. Qed.
Lemma PopulateNewRoot_respects ip l k r : respects R (PopulateNewRoot ip l k r).
Proof. unfold PopulateNewRoot. respects_auto. Qed.
Lemma InsertNodeAfter_respects ip o k n : respects R (InsertNodeAfter ip o k n).
Proof. unfold InsertNodeAfter. respects_auto. Qed.
Lemma internal_Remove_respects ip i : respects R (internal_Remove ip i).
Proof. unfold internal_Remove. respects_auto. Qed.
Lemma SetValueAt_respects ip i v : respects R (SetValueAt ip i v).
Proof. unfold SetValueAt. respects_auto. Qed.
Lemma SetKeyAt_respects ip i k : respects R (SetKeyAt ip i k).
Proof. unfold SetKeyAt. respects_auto. Qed.
Local Hint Resolve Init_respects Lookup_respects leaf_Insert_respects
  RemoveAndDeleteRecord_respects internal_Lookup_respects PopulateNewRoot_respects
  InsertNodeAfter_respects internal_Remove_respects SetValueAt_respects
  SetKeyAt_respects : respects.

Lemma reparent_respects np c : respects R (reparent np c).
Proof. unfold reparent. respects_auto. Qed.
Local Hint Resolve reparent_respects : respects.
Lemma reparent_all_respects np l : respects R (reparent_all np l).
Proof. induction l; simpl; respects_auto. Qed.
Local Hint Resolve reparent_all_respects : respects.

Lemma MoveHalfTo_respects kind n r : respects R (MoveHalfTo kind n r).
Proof. unfold MoveHalfTo. respects_auto. Qed.
Lemma MoveAllTo_respects kind n r i : respects R (MoveAllTo kind n r i).
Proof. unfold MoveAllTo. respects_auto. Qed.
Lemma set_parent_key_respects p c k : respects R (set_parent_key p c k).
Proof. unfold set_parent_key. respects_auto. Qed.
Local Hint Resolve MoveHalfTo_respects MoveAllTo_respects set_parent_key_respects
  : respects.
Lemma MoveFirstToEndOf_respects kind n r : respects R (MoveFirstToEndOf kind n r).
Proof. unfold MoveFirstToEndOf. respects_auto. Qed.
Lemma MoveLastToFrontOf_respects kind n r i : respects R (MoveLastToFrontOf kind n r i).
Proof. unfold MoveLastToFrontOf. respects_auto. Qed.
Local Hint Resolve MoveFirstToEndOf_respects MoveLastToFrontOf_respects : respects.

Lemma relock_root_respects fuel mode pid : respects R (relock_root fuel mode pid).
Proof. revert pid. induction fuel; intros; simpl; respects_auto. Qed.
Lemma release_ancestors_respects mode c : respects R (release_ancestors mode c).
Proof. unfold release_ancestors. respects_auto. Qed.
Local Hint Resolve relock_root_respects release_ancestors_respects : respects.
Lemma descend_step_respects k tx mode pid : respects R (descend_step k tx mode pid).
Proof. unfold descend_step. respects_auto. Qed.
Local Hint Resolve descend_step_respects : respects.
Lemma descend_respects fuel k tx mode pid : respects R (descend fuel k tx mode pid).
Proof. revert pid. induction fuel; intros; simpl; respects_auto. Qed.
Local Hint Resolve descend_respects : respects.
Lemma GetLeafPage_respects fuel k tx mode : respects R (GetLeafPage fuel k tx mode).
Proof. unfold GetLeafPage. respects_auto. Qed.
Local Hint Resolve GetLeafPage_respects : respects.
Lemma GetValue_respects fuel k tx : respects R (GetValue fuel k tx).
Proof. unfold GetValue. respects_auto. Qed.
Lemma Split_respects kind node : respects R (Split kind node).
Proof. unfold Split. respects_auto. Qed.
Local Hint Resolve Split_respects : respects.

Lemma AdjustRoot_respects r : respects R (AdjustRoot r).
Proof. unfold AdjustRoot. respects_auto. Qed.
Lemma Redistribute_respects kind nb n i : respects R (Redistribute kind nb n i).
Proof. unfold Redistribute. respects_auto. Qed.
Lemma Coalesce_respects kind nb n p i : respects R (Coalesce kind nb n p i).
Proof. unfold Coalesce. respects_auto. Qed.
Local Hint Resolve AdjustRoot_respects Redistribute_respects Coalesce_respects : respects.

Lemma CoalesceOrRedistribute_respects fuel kind node tx :
  respects R (CoalesceOrRedistribute fuel kind node tx).
Proof.
  revert kind node. induction fuel; intros; simpl; respects_auto.
Qed.
Local Hint Resolve CoalesceOrRedistribute_respects : respects.

Lemma Remove_respects fuel k tx : respects R (Remove fuel k tx).
Proof. unfold Remove. respects_auto. Qed.

Lemma Begin_key_respects fuel k : respects R (Begin_key fuel k).
Proof. unfold Begin_key. respects_auto. Qed.

Section WithInsertIntoParent.
Hypothesis HPc_parent : forall o k n, Pc (CallInsertIntoParent o k n).

Lemma InsertIntoParent_respects fuel o k n : respects R (InsertIntoParent fuel o k n).
Proof. revert o k n. induction fuel; intros; simpl; respects_auto. Qed.
Local Hint Resolve InsertIntoParent_respects : respects.

Lemma InsertIntoLeaf_respects fuel k v tx : respects R (InsertIntoLeaf fuel k v tx).
Proof. unfold InsertIntoLeaf. respects_auto. Qed.
End WithInsertIntoParent.
End Generic.

(** ** No function below the three public operations stops at the assertion
    on the page set *)

Lemma quiet_update_page id f : quiet (update_page id f).
Proof. unfold update_page. quiet_auto. Qed.
Global Hint Resolve quiet_update_page : quiet.

Lemma quiet_read_as kind id : quiet (read_as kind id).
Proof. unfold read_as. quiet_auto. Qed.
Global Hint Resolve quiet_read_as : quiet.

Lemma quiet_AddIntoPageSet id : quiet (AddIntoPageSet id).
Proof. unfold AddIntoPageSet. quiet_auto. Qed.
Global Hint Resolve quiet_AddIntoPageSet : quiet.

Lemma quiet_AddIntoDeletedPageSet id : quiet (AddIntoDeletedPageSet id).
Proof. unfold AddIntoDeletedPageSet. quiet_auto. Qed.
Global Hint Resolve quiet_AddIntoDeletedPageSet : quiet.

Lemma quiet_release_page mode d id : quiet (release_page mode d id).
Proof. unfold release_page. quiet_auto. Qed.
Global Hint Resolve quiet_release_page : quiet.

Lemma quiet_release_all mode d l : quiet (release_all mode d l).
Proof. induction l; intros; simpl; quiet_auto. Qed.
Global Hint Resolve quiet_release_all : quiet.

Lemma quiet_clearTxnWorkSet mode d : quiet (clearTxnWorkSet mode d).
Proof. unfold clearTxnWorkSet. quiet_auto. Qed.
Global Hint Resolve quiet_clearTxnWorkSet : quiet.

Lemma quiet_GetPage id tx mode : quiet (GetPage id tx mode).
Proof. unfold GetPage. quiet_auto. Qed.
Global Hint Resolve quiet_GetPage : quiet.

Lemma quiet_GetInternalPage id : quiet (GetInternalPage id).
Proof. unfold GetInternalPage. quiet_auto. Qed.
Global Hint Resolve quiet_GetInternalPage : quiet.

Lemma quiet_UpdateRootPageId b : quiet (UpdateRootPageId b).
Proof. unfold UpdateRootPageId. quiet_auto. Qed.
Global Hint Resolve quiet_UpdateRootPageId : quiet.

Lemma quiet_KeyAt p i : quiet (KeyAt p i).
Proof. unfold KeyAt. quiet_auto. Qed.
Global Hint Resolve quiet_KeyAt : quiet.

Lemma quiet_ValueAt p i : quiet (ValueAt p i).
Proof. unfold ValueAt. quiet_auto. Qed.
Global Hint Resolve quiet_ValueAt : quiet.

Lemma quiet_alter_entry f i p : quiet (alter_entry f i p).
Proof. unfold alter_entry. quiet_auto. Qed.
Global Hint Resolve quiet_alter_entry : quiet.

Lemma quiet_Init kind id parent : quiet (Init kind id parent).
Proof. unfold Init. quiet_auto. Qed.
Global Hint Resolve quiet_Init : quiet.

Lemma quiet_Lookup leaf k : quiet (Lookup leaf k).
Proof. unfold Lookup. quiet_auto. Qed.
Global Hint Resolve quiet_Lookup : quiet.

Lemma quiet_leaf_Insert leaf k v : quiet (leaf_Insert leaf k v).
Proof. unfold leaf_Insert. quiet_auto. Qed.
Global Hint Resolve quiet_leaf_Insert : quiet.

Lemma quiet_RemoveAndDeleteRecord leaf k : quiet (RemoveAndDeleteRecord leaf k).
Proof. unfold RemoveAndDeleteRecord. quiet_auto. Qed.
Global Hint Resolve quiet_RemoveAndDeleteRecord : quiet.

Lemma quiet_internal_Lookup ip k : quiet (internal_Lookup ip k).
Proof. unfold internal_Lookup. quiet_auto. Qed.
Global Hint Resolve quiet_internal_Lookup : quiet.

Lemma quiet_PopulateNewRoot ip l k r : quiet (PopulateNewRoot ip l k r).
Proof. unfold PopulateNewRoot. quiet_auto. Qed.
Global Hint Resolve quiet_PopulateNewRoot : quiet.

Lemma quiet_InsertNodeAfter ip o k n : quiet (InsertNodeAfter ip o k n).
Proof. unfold InsertNodeAfter. quiet_auto. Qed.
Global Hint Resolve quiet_InsertNodeAfter : quiet.

Lemma quiet_internal_Remove ip i : quiet (internal_Remove ip i).
Proof. unfold internal_Remove. quiet_auto. Qed.
Global Hint Resolve quiet_internal_Remove : quiet.

Lemma quiet_SetValueAt ip i v : quiet (SetValueAt ip i v).
Proof. unfold SetValueAt. quiet_auto. Qed.
Global Hint Resolve quiet_SetValueAt : quiet.

Lemma quiet_SetKeyAt ip i k : quiet (SetKeyAt ip i k).
Proof. unfold SetKeyAt. quiet_auto. Qed.
Global Hint Resolve quiet_SetKeyAt : quiet.

Lemma quiet_reparent np c : quiet (reparent np c).
Proof. unfold reparent. quiet_auto. Qed.
Global Hint Resolve quiet_reparent : quiet.

Lemma quiet_reparent_all np l : quiet (reparent_all np l).
Proof. induction l; intros; simpl; quiet_auto. Qed.
Global Hint Resolve quiet_reparent_all : quiet.

Lemma quiet_MoveHalfTo kind n r : quiet (MoveHalfTo kind n r).
Proof. unfold MoveHalfTo. quiet_auto. Qed.
Global Hint Resolve quiet_MoveHalfTo : quiet.

Lemma quiet_MoveAllTo kind n r i : quiet (MoveAllTo kind n r i).
Proof. unfold MoveAllTo. quiet_auto. Qed.
Global Hint Resolve quiet_MoveAllTo : quiet.

Lemma quiet_set_parent_key p c k : quiet (set_parent_key p c k).
Proof. unfold set_parent_key. quiet_auto. Qed.
Global Hint Resolve quiet_set_parent_key : quiet.

Lemma quiet_MoveFirstToEndOf kind n r : quiet (MoveFirstToEndOf kind n r).
Proof. unfold MoveFirstToEndOf. quiet_auto. Qed.
Global Hint Resolve quiet_MoveFirstToEndOf : quiet.

Lemma quiet_MoveLastToFrontOf kind n r i : quiet (MoveLastToFrontOf kind n r i).
Proof. unfold MoveLastToFrontOf. quiet_auto. Qed.
Global Hint Resolve quiet_MoveLastToFrontOf : quiet.

Lemma quiet_relock_root fuel mode pid : quiet (relock_root fuel mode pid).
Proof. revert mode pid. induction fuel; intros; simpl; quiet_auto. Qed.
Global Hint Resolve quiet_relock_root : quiet.

Lemma quiet_release_ancestors mode c : quiet (release_ancestors mode c).
Proof. unfold release_ancestors. quiet_auto. Qed.
Global Hint Resolve quiet_release_ancestors : quiet.

Lemma quiet_descend_step k tx mode pid : quiet (descend_step k tx mode pid).
Proof. unfold descend_step. quiet_auto. Qed.
Global Hint Resolve quiet_descend_step : quiet.

Lemma quiet_descend fuel k tx mode pid : quiet (descend fuel k tx mode pid).
Proof. revert k tx mode pid. induction fuel; intros; simpl; quiet_auto. Qed.
Global Hint Resolve quiet_descend : quiet.

Lemma quiet_GetLeafPage fuel k tx mode : quiet (GetLeafPage fuel k tx mode).
Proof. unfold GetLeafPage. quiet_auto. Qed.
Global Hint Resolve quiet_GetLeafPage : quiet.

Lemma quiet_Split kind node : quiet (Split kind node).
Proof. unfold Split. quiet_auto. Qed.
Global Hint Resolve quiet_Split : quiet.

Lemma quiet_AdjustRoot r : quiet (AdjustRoot r).
Proof. unfold AdjustRoot. quiet_auto. Qed.
Global Hint Resolve quiet_AdjustRoot : quiet.

Lemma quiet_Redistribute kind nb n i : quiet (Redistribute kind nb n i).
Proof. unfold Redistribute. quiet_auto. Qed.
Global Hint Resolve quiet_Redistribute : quiet.

Lemma quiet_Coalesce kind nb n p i : quiet (Coalesce kind nb n p i).
Proof. unfold Coalesce. quiet_auto. Qed.
Global Hint Resolve quiet_Coalesce : quiet.

Lemma quiet_CoalesceOrRedistribute fuel kind node tx :
  quiet (CoalesceOrRedistribute fuel kind node tx).
Proof. revert kind node. induction fuel; intros; simpl; quiet_auto. Qed.
Global Hint Resolve quiet_CoalesceOrRedistribute : quiet.

Lemma quiet_InsertIntoParent fuel o k n : quiet (InsertIntoParent fuel o k n).
Proof. revert o k n. induction fuel; intros; simpl; quiet_auto. Qed.
Global Hint Resolve quiet_InsertIntoParent : quiet.

(** * Concrete trees *)

Example one_key_tree_shape :
  Insert 8 5 50 false fresh_index = Done true one_key_tree /\
  root_page_id one_key_tree = 1 /\
  (data <$> pages one_key_tree !! 1) = Some (mkPage LEAF_PAGE 1 (-1) 4 (-1) [(5, 50)]).
Proof. split_and!; vm_compute; reflexivity. Qed.

Example five_key_tree_shape :
  root_page_id five_key_tree = 3 /\
  page_array five_key_tree 3 = Some [(0, 1); (3, 2)] /\
  page_array five_key_tree 1 = Some [(1, 10); (2, 20); (3, 30)] /\
  page_array five_key_tree 2 = Some [(4, 40); (5, 50)].
Proof. split_and!; vm_compute; reflexivity. Qed.

(** ** Running the primitives on a state that is partly known *)

Ltac proj_simpl :=
  cbn [pages root_page_id index_name leaf_max_size internal_max_size next_page pool_size
       header_ops page_set deleted_page_set calls set_pages set_root set_next_page
       set_header_ops set_page_set set_deleted_page_set set_calls
       data pin_count is_dirty readers writer].

Lemma bind_step {A B} (m : M A) (k : A -> M B) t a t1 :
  m t = Done a t1 -> bind m k t = k a t1.
Proof. intros H. unfold bind. by rewrite H. Qed.

Lemma bind_get {B} (k : BPlusTree -> M B) t : bind get k t = k t t.
Proof. reflexivity. Qed.
Lemma bind_ret {A B} (a : A) (k : A -> M B) t : bind (ret a) k t = k a t.
Proof. reflexivity. Qed.
Lemma bind_modify {B} f (k : unit -> M B) t : bind (modify f) k t = k tt (f t).
Proof. reflexivity. Qed.
Lemma bind_bind {A B C} (m : M A) (k : A -> M B) (k' : B -> M C) t :
  bind (bind m k) k' t = bind m (fun a => bind (k a) k') t.
Proof. unfold bind. destruct (m t); reflexivity. Qed.

Lemma NewPage_Done t :
  (pinned_frames t < pool_size t)%nat ->
  NewPage t =
    Done (Some (next_page t))
      (set_next_page (next_page t + 1)
         (set_pages (<[next_page t := mkFrame blank_page 1 false 0%nat false]> (pages t)) t)).
Proof. intros H. unfold NewPage. by rewrite bool_decide_eq_true_2. Qed.

Lemma write_page_Done id p t f :
  pages t !! id = Some f ->
  write_page id p t =
    Done tt (set_pages (<[id := mkFrame p (pin_count f) (is_dirty f) (readers f) (writer f)]>
                          (pages t)) t).
Proof. intros H. unfold write_page. by rewrite H. Qed.

Lemma UnpinPage_Done id d t f :
  pages t !! id = Some f -> 0 < pin_count f ->
  UnpinPage id d t =
    Done true (set_pages (<[id := mkFrame (data f) (pin_count f - 1) (is_dirty f || d)
                                          (readers f) (writer f)]> (pages t)) t).
Proof.
  intros H Hp. unfold UnpinPage. rewrite H.
  destruct (0 <? pin_count f) eqn:E; [reflexivity | lia].
Qed.

Lemma DeletePage_Done id t f :
  pages t !! id = Some f -> pin_count f = 0 ->
  DeletePage id t = Done true (set_pages (delete id (pages t)) t).
Proof. intros H Hp. unfold DeletePage. rewrite H, Hp. reflexivity. Qed.

Lemma Init_Done kind id parent t f :
  pages t !! id = Some f ->
  Init kind id parent t =
    Done tt (set_pages
               (<[id := mkFrame
                          (mkPage kind id parent
                             (if bool_decide (kind = LEAF_PAGE) then leaf_max_size t
                              else internal_max_size t) INVALID_PAGE_ID [])
                          (pin_count f) (is_dirty f) (readers f) (writer f)]> (pages t)) t).
Proof.
  intros H. unfold Init. unfold bind, get. apply write_page_Done. exact H.
Qed.

Lemma FetchPage_Done id t f :
  pages t !! id = Some f ->
  FetchPage id t =
    Done (Some id)
      (set_pages (<[id := mkFrame (data f) (pin_count f + 1) (is_dirty f)
                                  (readers f) (writer f)]> (pages t)) t).
Proof. intros H. unfold FetchPage. rewrite H. reflexivity. Qed.

(** * Root adjustment *)

(** What [UpdateRootPageId] does when the header page is in the pool. *)
Lemma UpdateRootPageId_Done b t h :
  pages t !! HEADER_PAGE_ID = Some h ->
  exists t', UpdateRootPageId b t = Done tt t' /\
    root_page_id t' = root_page_id t /\
    page_set t' = page_set t /\
    calls t' = calls t /\
    header_ops t' =
      header_ops t ++ [if b then InsertRecord (index_name t) (root_page_id t)
                       else UpdateRecord (index_name t) (root_page_id t)] /\
    forall id, data <$> pages t' !! id = data <$> pages t !! id.
Proof.
  intros Hh. unfold UpdateRootPageId.
  rewrite (bind_step _ _ _ _ _ (FetchPage_Done _ _ _ Hh)).
  cbn [from_option]. rewrite bind_ret, bind_modify.
  unfold bind, UnpinPage. proj_simpl. rewrite lookup_insert_eq. proj_simpl.
  destruct (0 <? pin_count h + 1);
    (eexists; split; [reflexivity|]; proj_simpl; split_and!; try reflexivity;
     intros id; rewrite ?insert_insert_eq;
     destruct (decide (id = HEADER_PAGE_ID)) as [->|Hne];
     [rewrite lookup_insert_eq, Hh; reflexivity | by rewrite lookup_insert_ne]).
Qed.

(** The minimum size of a root leaf. *)
Lemma GetMinSize_root_leaf p :
  IsLeafPage p = true -> IsRootPage p = true -> GetMinSize p = 1.
Proof. unfold GetMinSize. by intros -> ->. Qed.

(** C1: [AdjustRoot] empties the tree only at size zero.  In every state in
    which the page handed to it is in the pool as a leaf and a root, with
    the header page in the pool, [AdjustRoot] returns true exactly when the
    leaf has no entry; it then sets root_page_id to INVALID_PAGE_ID and
    persists that with an UpdateRecord.  A root leaf that holds an entry is
    left alone, with the whole state as it was: the result false tells
    [Remove] not to delete the page. *)
Theorem AdjustRoot_root_leaf (t : BPlusTree) (root : Z) (f h : Frame) :
  pages t !! root = Some f ->
  IsLeafPage (data f) = true ->
  IsRootPage (data f) = true ->
  pages t !! HEADER_PAGE_ID = Some h ->
  exists t',
    AdjustRoot root t = Done (GetSize (data f) =? 0) t' /\
    (GetSize (data f) = 0 ->
       root_page_id t' = INVALID_PAGE_ID /\
       header_ops t' = header_ops t ++ [UpdateRecord (index_name t) INVALID_PAGE_ID]) /\
    (0 < GetSize (data f) -> t' = t).
Proof.
  intros Hf Hleaf Hroot Hh.
  unfold AdjustRoot, bind, read_page. rewrite Hf, Hroot, Hleaf. cbn.
  rewrite (GetMinSize_root_leaf _ Hleaf Hroot).
  assert (Hsize : 0 <= GetSize (data f)) by (unfold GetSize; lia).
  destruct (GetSize (data f) <? 1) eqn:E; cbn.
  - destruct (UpdateRootPageId_Done false (set_root INVALID_PAGE_ID t) h Hh)
      as (t' & -> & Hr & _ & _ & Hops & _).
    assert (E0 : GetSize (data f) = 0) by lia.
    exists t'. rewrite E0. split_and!; [reflexivity | | lia].
    intros _. split; [exact Hr | exact Hops].
  - exists t. destruct (GetSize (data f) =? 0) eqn:E0; [lia|].
    split_and!; [reflexivity | lia | reflexivity].
Qed.

Lemma AdjustRoot_root_leaf_witness :
  (exists t',
     AdjustRoot 1 one_key_tree = Done false t' /\ t' = one_key_tree) /\
  (exists t',
     AdjustRoot 1 (exec (RemoveAndDeleteRecord 1 5) one_key_tree) = Done true t' /\
     root_page_id t' = INVALID_PAGE_ID /\
     header_ops t' = [InsertRecord "index" 1; UpdateRecord "index" INVALID_PAGE_ID]).
Proof.
  split.
  - destruct (AdjustRoot_root_leaf one_key_tree 1
                (mkFrame (mkPage LEAF_PAGE 1 (-1) 4 (-1) [(5, 50)]) 0 true 0%nat false)
                (mkFrame blank_page 0 true 0%nat false))
      as (t' & Hrun & _ & Hkeep); [vm_compute; reflexivity ..|].
    exists t'. split; [exact Hrun|]. apply Hkeep. vm_compute. reflexivity.
  - destruct (AdjustRoot_root_leaf (exec (RemoveAndDeleteRecord 1 5) one_key_tree) 1
                (mkFrame (mkPage LEAF_PAGE 1 (-1) 4 (-1) []) 0 true 0%nat false)
                (mkFrame blank_page 0 true 0%nat false))
      as (t' & Hrun & Hempty & _); [vm_compute; reflexivity ..|].
    exists t'. split; [exact Hrun|]. apply Hempty. vm_compute. reflexivity.
Defined.

(** The way to [AdjustRoot]: for a root leaf [CoalesceOrRedistribute]
    returns false at once when the leaf holds an entry and hands the leaf
    to [AdjustRoot] when it holds none. *)
Lemma CoalesceOrRedistribute_root_leaf fuel tx t root f :
  pages t !! root = Some f ->
  IsLeafPage (data f) = true ->
  IsRootPage (data f) = true ->
  CoalesceOrRedistribute (S fuel) LEAF_PAGE root tx t =
    if 0 <? GetSize (data f) then Done false t else AdjustRoot root t.
Proof.
  intros Hf Hleaf Hroot. cbn [CoalesceOrRedistribute].
  unfold bind at 1. unfold read_page at 1. rewrite Hf.
  rewrite (GetMinSize_root_leaf _ Hleaf Hroot).
  assert (Hsize : 0 <= GetSize (data f)) by (unfold GetSize; lia).
  destruct (0 <? GetSize (data f)) eqn:E.
  - destruct (1 <=? GetSize (data f)) eqn:E1; [reflexivity | lia].
  - destruct (1 <=? GetSize (data f)) eqn:E1; [lia|].
    pose proof Hroot as Hpar. unfold IsRootPage in Hpar. apply bool_decide_eq_true in Hpar.
    rewrite Hpar, Hroot. reflexivity.
Qed.

(** * Search in the empty tree *)

(** C2, on the code: [GetValue] on the empty tree reads the leaf through the
    nullptr that [GetLeafPage] returns; it has no result at all, where
    [InsertIntoLeaf] and [Remove] test for the empty tree first. *)
Theorem GetValue_empty_tree (fuel : nat) (key : Z) (transaction : bool) (t : BPlusTree) :
  root_page_id t = INVALID_PAGE_ID ->
  (transaction = true -> page_set t = []) ->
  GetValue fuel key transaction t = Abort null_deref.
Proof.
  intros Hroot Hset.
  assert (Hleaf : GetLeafPage fuel key transaction 0 t = Done None t).
  { unfold GetLeafPage, bind, get, IsEmpty. cbn. rewrite Hroot. reflexivity. }
  assert (Hentry : assert_page_set_empty transaction t = Done tt t).
  { unfold assert_page_set_empty, bind, get. cbn.
    destruct transaction; cbn; [rewrite Hset by reflexivity|]; reflexivity. }
  unfold GetValue, bind. rewrite Hentry, Hleaf. reflexivity.
Qed.

Lemma GetValue_empty_tree_witness :
  GetValue 8 7 false fresh_index = Abort null_deref /\
  InsertIntoLeaf 8 7 70 false fresh_index = Done false fresh_index /\
  Remove 8 7 false fresh_index = Done tt fresh_index.
Proof.
  split.
  - apply (GetValue_empty_tree 8 7 false fresh_index); [reflexivity | discriminate].
  - split; vm_compute; reflexivity.
Defined.

(** * Pins *)

(** C4, on the code: [Begin()] fetches the root and every page on the way to
    the leftmost leaf and unpins none of them, where [Begin(key)] unpins what
    it fetched. *)
Theorem Begin_leaves_pins :
  page_pins one_key_tree 1 = Some 0 /\
  Begin 8 one_key_tree = Done (1, 0) (exec (Begin 8) one_key_tree) /\
  page_pins (exec (Begin 8) one_key_tree) 1 = Some 1 /\
  Begin_key 8 5 one_key_tree = Done (1, 0) one_key_tree /\
  page_pins five_key_tree 3 = Some 0 /\ page_pins five_key_tree 1 = Some 0 /\
  Begin 8 five_key_tree = Done (1, 0) (exec (Begin 8) five_key_tree) /\
  page_pins (exec (Begin 8) five_key_tree) 3 = Some 1 /\
  page_pins (exec (Begin 8) five_key_tree) 1 = Some 1.
Proof. split_and!; vm_compute; reflexivity. Qed.

(** * The work set at the boundary of the public operations *)

Global Instance same_page_set_preorder : PreOrder same_page_set.
Proof.
  split; [intros t; reflexivity |].
  intros t1 t2 t3 H1 H2. unfold same_page_set in *. congruence.
Qed.

Lemma pool_step_same_page_set t t' : pool_step t t' -> same_page_set t t'.
Proof. intros (_&_&_&_&_&H&_). exact H. Qed.
Lemma pin_step_same_page_set t t' : pin_step t t' -> same_page_set t t'.
Proof. intros [H _]. by apply pool_step_same_page_set. Qed.

Lemma release_all_page_set mode d l t a t' :
  release_all mode d l t = Done a t' -> page_set t' = page_set t.
Proof.
  apply (release_all_respects same_page_set);
    auto using pin_step_same_page_set, pool_step_same_page_set;
    intros; reflexivity.
Qed.

(** The drain leaves the page set empty. *)
Lemma clearTxnWorkSet_page_set mode d t a t' :
  clearTxnWorkSet mode d t = Done a t' -> page_set t' = [].
Proof.
  unfold clearTxnWorkSet.
  intros (t0 & t1 & [-> ->]%get_Done & (u & t2 & ->%modify_Done & H)%bind_Done)%bind_Done.
  apply release_all_page_set in H. rewrite H. reflexivity.
Qed.

Lemma work_set_ok_bind {A B} (m : M A) (k : A -> M B) t :
  quiet m ->
  (forall a t1, m t = Done a t1 -> work_set_ok (k a t1)) ->
  work_set_ok (bind m k t).
Proof.
  intros Hq Hk. unfold bind. specialize (Hq t).
  destruct (m t) as [a t1|f]; [by apply Hk | cbn; congruence].
Qed.

Lemma assert_page_set_empty_Done t :
  page_set t = [] -> assert_page_set_empty true t = Done tt t.
Proof.
  intros H. unfold assert_page_set_empty, bind, get. cbn. rewrite H. reflexivity.
Qed.

Lemma work_set_ok_exit {A} (r : A) t :
  page_set t = [] -> work_set_ok ((assert_page_set_empty true ;; ret r) t).
Proof.
  intros H. unfold bind. rewrite (assert_page_set_empty_Done t H). exact H.
Qed.

Lemma work_set_ok_drain {A} mode d (r : A) t :
  work_set_ok ((clearTxnWorkSet mode d ;; assert_page_set_empty true ;; ret r) t).
Proof.
  apply work_set_ok_bind; [quiet_auto|].
  intros a t1 H%clearTxnWorkSet_page_set. by apply work_set_ok_exit.
Qed.

Lemma GetLeafPage_None fuel key tx mode t t' :
  GetLeafPage fuel key tx mode t = Done None t' -> t' = t.
Proof.
  unfold GetLeafPage. intros (t0 & t1 & [-> ->]%get_Done & H)%bind_Done.
  destruct (IsEmpty t).
  - by apply ret_Done in H as [_ ->].
  - apply bind_Done in H as (? & ? & _ & H).
    apply bind_Done in H as (? & ? & _ & H).
    apply bind_Done in H as (? & ? & _ & H).
    apply bind_Done in H as (? & ? & _ & H).
    apply ret_Done in H as [? _]. discriminate.
Qed.

Lemma GetValue_work_set fuel key t :
  page_set t = [] -> work_set_ok (GetValue fuel key true t).
Proof.
  intros H. unfold GetValue.
  unfold bind at 1. rewrite (assert_page_set_empty_Done t H).
  apply work_set_ok_bind; [quiet_auto|]. intros leaf t1 _.
  apply work_set_ok_bind; [quiet_auto|]. intros lp t2 _.
  apply work_set_ok_bind; [quiet_auto|]. intros r t3 _.
  apply work_set_ok_drain.
Qed.

Lemma InsertIntoLeaf_work_set fuel key value t :
  page_set t = [] -> work_set_ok (InsertIntoLeaf fuel key value true t).
Proof.
  intros H. unfold InsertIntoLeaf.
  unfold bind at 1. rewrite (assert_page_set_empty_Done t H).
  apply work_set_ok_bind; [quiet_auto|]. intros [lp|] t1 Hleaf.
  - apply work_set_ok_bind; [quiet_auto|]. intros p t2 _.
    apply work_set_ok_bind; [quiet_auto|]. intros newSize t3 _.
    apply work_set_ok_bind; [quiet_auto|]. intros ? t4 _.
    apply work_set_ok_drain.
  - apply GetLeafPage_None in Hleaf as ->. exact H.
Qed.

Lemma Remove_work_set fuel key t :
  page_set t = [] -> work_set_ok (Remove fuel key true t).
Proof.
  intros H. unfold Remove. unfold bind at 1, get at 1.
  destruct (IsEmpty t); [exact H|].
  unfold bind at 1. rewrite (assert_page_set_empty_Done t H).
  apply work_set_ok_bind; [quiet_auto|]. intros r t1 _.
  apply work_set_ok_bind; [quiet_auto|]. intros lp t2 _.
  apply work_set_ok_bind; [quiet_auto|]. intros sz t3 _.
  apply work_set_ok_bind; [quiet_auto|]. intros p t4 _.
  apply work_set_ok_bind; [quiet_auto|]. intros should t5 _.
  rewrite andb_false_r.
  apply work_set_ok_bind; [quiet_auto|]. intros ? t6 _.
  apply work_set_ok_bind; [quiet_auto|].
  intros u t7 Hc%clearTxnWorkSet_page_set.
  unfold assert_page_set_empty, bind, get. cbn. rewrite Hc. exact Hc.
Qed.

Lemma StartNewTree_work_set fuel key value t :
  page_set t = [] -> work_set_ok (StartNewTree fuel key value true t).
Proof.
  intros H. unfold StartNewTree.
  apply work_set_ok_bind; [quiet_auto|]. intros [new_id|] t1 Hnew;
    [|cbn; discriminate].
  apply work_set_ok_bind; [quiet_auto|]. intros ? t2 Hinit.
  apply work_set_ok_bind; [quiet_auto|]. intros ? t3 Hunpin.
  apply work_set_ok_bind; [quiet_auto|]. intros ? t4 [-> ->]%get_Done.
  apply work_set_ok_bind; [quiet_auto|]. intros ? t5 Hcas.
  assert (H5 : page_set t5 = []).
  { rewrite <- H.
    transitivity (page_set t3).
    - destruct (root_page_id t3 =? INVALID_PAGE_ID).
      + apply bind_Done in Hcas as (? & t8 & ->%modify_Done & Hup).
        apply (UpdateRootPageId_respects same_page_set (fun _ => True)) in Hup;
          auto using pin_step_same_page_set. intros; reflexivity.
      + apply bind_Done in Hcas as (? & t8 & Hdel & [_ ->]%ret_Done).
        apply DeletePage_pool in Hdel. by apply pool_step_same_page_set.
    - apply NewPage_pool, pool_step_same_page_set in Hnew.
      apply (Init_respects same_page_set) in Hinit;
        auto using pin_step_same_page_set, pool_step_same_page_set.
      apply UnpinPage_pin, pin_step_same_page_set in Hunpin.
      unfold same_page_set in *. congruence. }
  pose proof (InsertIntoLeaf_work_set fuel key value t5 H5) as Hw.
  unfold bind. destruct (InsertIntoLeaf fuel key value true t5); exact Hw.
Qed.

Lemma Insert_work_set fuel key value t :
  page_set t = [] -> work_set_ok (Insert fuel key value true t).
Proof.
  intros H. unfold Insert. unfold bind at 1, get at 1.
  destruct (IsEmpty t); [|by apply InsertIntoLeaf_work_set].
  pose proof (StartNewTree_work_set fuel key value t H) as Hw.
  unfold bind. destruct (StartNewTree fuel key value true t); exact Hw.
Qed.

(** C10: called with a transaction whose page set is empty, [GetValue],
    [Insert] and [Remove] never stop at the assertion on the page set, at
    entry or at exit, and whenever they return the page set is empty again:
    what [GetLeafPage] and [CoalesceOrRedistribute] pushed has been drained. *)
Theorem work_set_empty_at_exit (fuel : nat) (key value : Z) (t : BPlusTree) :
  page_set t = [] ->
  work_set_ok (GetValue fuel key true t) /\
  work_set_ok (Insert fuel key value true t) /\
  work_set_ok (Remove fuel key true t).
Proof.
  intros H. split_and!.
  - by apply GetValue_work_set.
  - by apply Insert_work_set.
  - by apply Remove_work_set.
Qed.

Lemma work_set_empty_at_exit_witness :
  page_set five_key_tree = [] /\
  work_set_ok (GetValue 8 4 true five_key_tree) /\
  work_set_ok (Insert 8 4 60 true five_key_tree) /\
  work_set_ok (Remove 8 4 true five_key_tree).
Proof.
  split; [reflexivity|].
  apply (work_set_empty_at_exit 8 4 60 five_key_tree). reflexivity.
Defined.

(** * Lists that only grow *)

Global Instance extends_preorder {X} (f : BPlusTree -> list X) P : PreOrder (extends f P).
Proof.
  split.
  - intros t. exists []. split; [by rewrite app_nil_r | constructor].
  - intros t1 t2 t3 (l1 & H1 & F1) (l2 & H2 & F2). exists (l1 ++ l2).
    split; [rewrite H2, H1; by rewrite app_assoc | by apply Forall_app].
Qed.

Lemma extends_same {X} (f : BPlusTree -> list X) P t t' :
  f t' = f t -> extends f P t t'.
Proof. intros H. exists []. split; [by rewrite app_nil_r | constructor]. Qed.

Lemma extends_one {X} (f : BPlusTree -> list X) P t t' x :
  f t' = f t ++ [x] -> P x -> extends f P t t'.
Proof. intros H Hx. exists [x]. split; [exact H | by constructor]. Qed.

(** * The root in the header page *)

Lemma pool_step_updates_only t t' : pool_step t t' -> updates_only t t'.
Proof. intros (_&_&_&_&H&_). by apply extends_same. Qed.
Lemma pin_step_updates_only t t' : pin_step t t' -> updates_only t t'.
Proof. intros [H _]. by apply pool_step_updates_only. Qed.

Lemma InsertIntoLeaf_updates_only fuel key value tx :
  respects updates_only (InsertIntoLeaf fuel key value tx).
Proof.
  apply (InsertIntoLeaf_respects updates_only is_update (fun _ => True));
    auto using pin_step_updates_only, pool_step_updates_only;
    try (intros; by apply extends_same).
  - intros t op Hop. by eapply extends_one.
  - intros; exact I.
Qed.

Lemma Remove_updates_only fuel key tx : respects updates_only (Remove fuel key tx).
Proof.
  apply (Remove_respects updates_only is_update (fun _ => True));
    auto using pin_step_updates_only, pool_step_updates_only;
    try (intros; by apply extends_same).
  - intros t op Hop. by eapply extends_one.
  - intros; exact I.
Qed.

(** C7, on the code: [StartNewTree] takes a root of INVALID_PAGE_ID for an
    index without a record in the header page.  After Insert(1) and
    Remove(1) the record is there -- [AdjustRoot] has just updated it to
    INVALID_PAGE_ID -- and Insert(2) calls [UpdateRootPageId] with
    insert_record = true again: a second InsertRecord for the same index,
    which is not the first installation of a root. *)
Theorem InsertRecord_after_the_tree_was_emptied :
  Insert 8 1 10 false fresh_index = Done true (exec (Insert 8 1 10 false) fresh_index) /\
  Remove 8 1 false (exec (Insert 8 1 10 false) fresh_index)
    = Done tt (exec (Remove 8 1 false) (exec (Insert 8 1 10 false) fresh_index)) /\
  Insert 8 2 20 false (exec (Remove 8 1 false) (exec (Insert 8 1 10 false) fresh_index))
    = Done true emptied_and_refilled /\
  header_ops (exec (Insert 8 1 10 false) fresh_index) = [InsertRecord "index" 1] /\
  header_ops (exec (Remove 8 1 false) (exec (Insert 8 1 10 false) fresh_index)) =
    [InsertRecord "index" 1; UpdateRecord "index" INVALID_PAGE_ID] /\
  header_ops emptied_and_refilled =
    [InsertRecord "index" 1; UpdateRecord "index" INVALID_PAGE_ID; InsertRecord "index" 2] /\
  records_inserted "index" (header_ops emptied_and_refilled) = 2%nat.
Proof. split_and!; vm_compute; reflexivity. Qed.

Lemma set_next_page_set_pages n t :
  set_pages (pages t) (set_next_page n t) = set_next_page n t.
Proof. reflexivity. Qed.

(** [StartNewTree] up to the call of [InsertIntoLeaf], when the root is
    INVALID_PAGE_ID: the new leaf is the root and the header page got an
    InsertRecord. *)
Lemma StartNewTree_installs fuel key value tx t h :
  (pinned_frames t < pool_size t)%nat ->
  pages t !! next_page t = None ->
  pages t !! HEADER_PAGE_ID = Some h ->
  root_page_id t = INVALID_PAGE_ID ->
  exists t1,
    StartNewTree fuel key value tx t = (InsertIntoLeaf fuel key value tx ;; ret tt) t1 /\
    root_page_id t1 = next_page t /\
    data <$> pages t1 !! next_page t =
      Some (mkPage LEAF_PAGE (next_page t) INVALID_PAGE_ID (leaf_max_size t)
                   INVALID_PAGE_ID []) /\
    header_ops t1 = header_ops t ++ [InsertRecord (index_name t) (next_page t)].
Proof.
  intros Hcap Hfresh Hh Hroot.
  assert (Hne : next_page t <> HEADER_PAGE_ID) by (intros E; rewrite E in Hfresh; congruence).
  unfold StartNewTree.
  rewrite (bind_step _ _ _ _ _ (NewPage_Done t Hcap)).
  erewrite bind_step; [| apply Init_Done; proj_simpl; apply lookup_insert_eq].
  proj_simpl.
  erewrite bind_step;
    [| eapply UnpinPage_Done; proj_simpl; [apply lookup_insert_eq | proj_simpl; lia]].
  proj_simpl.
  rewrite bind_get. proj_simpl. rewrite Hroot. cbn [Z.eqb INVALID_PAGE_ID Pos.eqb].
  rewrite bind_bind, bind_modify.
  rewrite !insert_insert_eq.
  match goal with |- context [UpdateRootPageId true ;; ?k] =>
    match goal with |- context [bind _ _ ?s] =>
      destruct (UpdateRootPageId_Done true s h) as (t1 & Hup & Hr & _ & _ & Hops & Hdata)
    end
  end.
  { proj_simpl. by rewrite lookup_insert_ne. }
  rewrite (bind_step _ _ _ _ _ Hup).
  exists t1. split_and!; [reflexivity | exact Hr | | exact Hops].
  rewrite Hdata. proj_simpl. rewrite lookup_insert_eq. reflexivity.
Qed.

(** [StartNewTree] up to the call of [InsertIntoLeaf], when there is a root
    already (the compare-and-set fails): the new page is deleted again and
    the header page is not called. *)
Lemma StartNewTree_loses fuel key value tx t :
  (pinned_frames t < pool_size t)%nat ->
  pages t !! next_page t = None ->
  root_page_id t <> INVALID_PAGE_ID ->
  StartNewTree fuel key value tx t =
    (InsertIntoLeaf fuel key value tx ;; ret tt) (set_next_page (next_page t + 1) t).
Proof.
  intros Hcap Hfresh Hroot.
  unfold StartNewTree.
  rewrite (bind_step _ _ _ _ _ (NewPage_Done t Hcap)).
  erewrite bind_step; [| apply Init_Done; proj_simpl; apply lookup_insert_eq].
  proj_simpl.
  erewrite bind_step;
    [| eapply UnpinPage_Done; proj_simpl; [apply lookup_insert_eq | proj_simpl; lia]].
  proj_simpl.
  rewrite bind_get. proj_simpl.
  destruct (root_page_id t =? INVALID_PAGE_ID) eqn:E; [lia|].
  rewrite bind_bind.
  erewrite bind_step;
    [| eapply DeletePage_Done; proj_simpl; [apply lookup_insert_eq | proj_simpl; lia]].
  rewrite bind_ret. proj_simpl.
  rewrite !insert_insert_eq, delete_insert_eq, delete_id by exact Hfresh.
  reflexivity.
Qed.

(** The calls on the header page in general.  [StartNewTree] allocates and
    initialises a leaf; when the root is INVALID_PAGE_ID the leaf becomes
    the root and the header page gets an InsertRecord, and otherwise the
    page is deleted again and the header page is not called; either way
    [InsertIntoLeaf] runs next.  Every other change of the root, in
    [InsertIntoLeaf] or [Remove], is an UpdateRecord. *)
Lemma root_persistence (fuel : nat) (key value : Z) (tx : bool) (t : BPlusTree) (h : Frame) :
  (pinned_frames t < pool_size t)%nat ->
  pages t !! next_page t = None ->
  pages t !! HEADER_PAGE_ID = Some h ->
  (root_page_id t = INVALID_PAGE_ID ->
     exists t1,
       StartNewTree fuel key value tx t = (InsertIntoLeaf fuel key value tx ;; ret tt) t1 /\
       root_page_id t1 = next_page t /\
       data <$> pages t1 !! next_page t =
         Some (mkPage LEAF_PAGE (next_page t) INVALID_PAGE_ID (leaf_max_size t)
                      INVALID_PAGE_ID []) /\
       header_ops t1 = header_ops t ++ [InsertRecord (index_name t) (next_page t)]) /\
  (root_page_id t <> INVALID_PAGE_ID ->
     StartNewTree fuel key value tx t =
       (InsertIntoLeaf fuel key value tx ;; ret tt) (set_next_page (next_page t + 1) t)) /\
  (forall b t', InsertIntoLeaf fuel key value tx t = Done b t' -> updates_only t t') /\
  (forall u t', Remove fuel key tx t = Done u t' -> updates_only t t') /\
  (forall b t', Insert fuel key value tx t = Done b t' ->
     if bool_decide (root_page_id t = INVALID_PAGE_ID)
     then exists l, header_ops t' =
                      header_ops t ++ InsertRecord (index_name t) (next_page t) :: l /\
                    Forall is_update l
     else updates_only t t').
Proof.
  intros Hcap Hfresh Hh. split_and!.
  - intros Hroot. by eapply StartNewTree_installs.
  - intros Hroot. by apply StartNewTree_loses.
  - intros b t'. apply InsertIntoLeaf_updates_only.
  - intros u t'. apply Remove_updates_only.
  - intros b t'. unfold Insert. rewrite bind_get. unfold IsEmpty.
    case_bool_decide as Hroot.
    + destruct (StartNewTree_installs fuel key value tx t h Hcap Hfresh Hh Hroot)
        as (t1 & Hrun & _ & _ & Hops).
      intros (u & t2 & Hstart & [_ <-]%ret_Done)%bind_Done.
      rewrite Hrun in Hstart.
      apply bind_Done in Hstart as (b2 & t3 & Hins & [_ ->]%ret_Done).
      apply InsertIntoLeaf_updates_only in Hins as (l & Hl & Fl).
      exists l. split; [|exact Fl]. rewrite Hl, Hops, <- app_assoc. reflexivity.
    + apply InsertIntoLeaf_updates_only.
Qed.

Lemma root_persistence_witness :
  exists l, header_ops one_key_tree = InsertRecord "index" 1 :: l /\ Forall is_update l.
Proof.
  destruct (root_persistence 8 5 50 false fresh_index header_frame)
    as (_ & _ & _ & _ & HI); [vm_compute; lia | reflexivity | reflexivity |].
  apply (HI true one_key_tree). vm_compute. reflexivity.
Defined.

(** * The release rule of the descent *)

Lemma released_pin mode f f' :
  released mode f f' -> 0 < pin_count f ->
  pin_count f' = pin_count f - 1 /\ data f' = data f /\
  (mode = 0 -> readers f' = Nat.pred (readers f)) /\
  (mode <> 0 -> writer f' = false).
Proof.
  intros -> Hp. unfold unpinned, unlatched.
  destruct (mode =? 0) eqn:E; cbn;
    (destruct (0 <? pin_count f) eqn:E2; [|lia]); cbn; split_and!; auto; lia.
Qed.

(** One page of the work set, when no page is marked for deletion. *)
Lemma release_page_Done mode a s u s' :
  a ∉ deleted_page_set s ->
  release_page mode false a s = Done u s' ->
  exists f, pages s !! a = Some f /\
    s' = set_pages (<[a := unpinned false (unlatched mode f)]> (pages s)) s.
Proof.
  intros Hdel. unfold release_page.
  intros (u1 & s1 & Hunlock & H)%bind_Done.
  unfold unlockFor in Hunlock.
  destruct (pages s !! a) as [f|] eqn:Hf; [|discriminate].
  exists f. split; [reflexivity|].
  assert (Hs1 : s1 = set_pages (<[a := unlatched mode f]> (pages s)) s).
  { unfold unlatched. destruct (mode =? 0); by inversion Hunlock. }
  subst s1. clear Hunlock.
  apply bind_Done in H as (b & s2 & Hunpin & H).
  apply bind_Done in H as (s3 & s4 & [-> ->]%get_Done & H).
  assert (Hs2 : s2 = set_pages (<[a := unpinned false (unlatched mode f)]> (pages s)) s).
  { unfold UnpinPage in Hunpin. proj_simpl. cbn [pages set_pages] in Hunpin.
    rewrite lookup_insert_eq in Hunpin. unfold unpinned.
    destruct (0 <? pin_count (unlatched mode f)); inversion Hunpin; subst.
    - unfold set_pages. cbn. by rewrite insert_insert_eq.
    - reflexivity. }
  subst s2.
  rewrite bool_decide_eq_false_2 in H by exact Hdel.
  by apply ret_Done in H as [_ <-].
Qed.

Lemma release_all_Done mode l : forall s u s',
  deleted_page_set s = ∅ -> NoDup l ->
  release_all mode false l s = Done u s' ->
  page_set s' = page_set s /\
  (forall a, a ∈ l -> exists f f',
     pages s !! a = Some f /\ pages s' !! a = Some f' /\ released mode f f') /\
  (forall a, a ∉ l -> pages s' !! a = pages s !! a).
Proof.
  induction l as [|x l IH]; intros s u s' Hdel Hnd H.
  - apply ret_Done in H as [_ <-]. split_and!; [reflexivity | | reflexivity].
    intros a Ha. by apply elem_of_nil in Ha.
  - cbn [release_all] in H.
    apply bind_Done in H as (u1 & s1 & Hx & Hrest).
    apply release_page_Done in Hx as (f & Hf & ->); [|rewrite Hdel; set_solver].
    apply NoDup_cons in Hnd as [Hxl Hnd].
    apply IH in Hrest as (Hps & Hin & Hout); [| exact Hdel | exact Hnd].
    cbn [pages set_pages page_set] in *.
    split_and!.
    + exact Hps.
    + intros a [->|Ha]%elem_of_cons.
      * exists f, (unpinned false (unlatched mode f)). split_and!; [exact Hf | | reflexivity].
        rewrite (Hout x Hxl). apply lookup_insert_eq.
      * destruct (Hin a Ha) as (g & g' & Hg & Hg' & Hr).
        exists g, g'. split_and!; [| exact Hg' | exact Hr].
        rewrite lookup_insert_ne in Hg; [exact Hg|]. intros ->. contradiction.
    + intros a Ha. apply not_elem_of_cons in Ha as [Hne Ha].
      rewrite (Hout a Ha). by rewrite lookup_insert_ne.
Qed.

Lemma release_ancestors_safe mode c :
  mode = 0 \/ mode = 1 \/ mode = 2 ->
  release_ancestors mode c = if safe mode c then clearTxnWorkSet mode false else ret tt.
Proof.
  unfold release_ancestors, safe. intros [-> | [-> | ->]]; cbn; rewrite ?orb_false_r; reflexivity.
Qed.

Lemma read_page_Done_inv id t p t' :
  read_page id t = Done p t' -> t' = t /\ data <$> pages t !! id = Some p.
Proof.
  unfold read_page. destruct (pages t !! id) as [f|]; [|discriminate].
  intros [= <- <-]. auto.
Qed.

(** Fetching a page and latching it changes the frame of that page only, and
    not its node. *)
Lemma fetch_and_latch id mode t btp t1 u t2 :
  GetPage id false 0 t = Done btp t1 ->
  lockFor mode btp t1 = Done u t2 ->
  btp = id /\
  exists f g, pages t !! id = Some f /\ data g = data f /\
    t2 = set_pages (<[id := g]> (pages t)) t.
Proof.
  unfold GetPage. intros (r & s & Hfetch & H)%bind_Done.
  apply bind_Done in H as (p & s1 & [-> ->]%from_option_Done & [-> ->]%ret_Done).
  unfold FetchPage in Hfetch.
  destruct (pages t !! id) as [f|] eqn:Hf; [|discriminate].
  injection Hfetch as -> <-.
  intros Hlock. split; [reflexivity|].
  unfold lockFor in Hlock. cbn [pages set_pages] in Hlock.
  rewrite lookup_insert_eq in Hlock. cbn [data pin_count is_dirty readers writer] in Hlock.
  exists f.
  repeat case_match; simplify_eq; eexists; (split; [reflexivity|]);
    (split; cycle 1; [unfold set_pages; cbn; by rewrite insert_insert_eq | reflexivity]).
Qed.

(** C8: in a descent with a transaction, once the child is latched the
    pages of the work set are all released and unpinned when the child is
    safe (always in read mode, size < max_size in insert mode,
    size > min_size in delete mode) and the work set is then the child
    alone; when the child is not safe every page of the work set stays as it
    is, latched and pinned, and the child is added behind them. *)
Theorem crabbing_release_rule (key mode pid : Z) (t t' : BPlusTree) (child : Z) :
  mode = 0 \/ mode = 1 \/ mode = 2 ->
  deleted_page_set t = ∅ ->
  NoDup (page_set t) ->
  descend_step key true mode pid t = Done child t' ->
  exists c, data <$> pages t !! child = Some c /\
    (safe mode c = true ->
       page_set t' = [child] /\
       forall a, a ∈ page_set t -> a <> child ->
         exists f f', pages t !! a = Some f /\ pages t' !! a = Some f' /\
                      released mode f f') /\
    (safe mode c = false ->
       page_set t' = page_set t ++ [child] /\
       forall a, a ∈ page_set t -> a <> child -> pages t' !! a = pages t !! a).
Proof.
  intros Hmode Hdel Hnd H. unfold descend_step in H.
  apply bind_Done in H as (next & s0 & Hlook & H).
  assert (s0 = t) as ->.
  { unfold internal_Lookup in Hlook.
    apply bind_Done in Hlook as (p & s & [-> _]%read_page_Done_inv & [_ ->]%from_option_Done).
    reflexivity. }
  apply bind_Done in H as (btp & t1 & Hget & H).
  apply bind_Done in H as (u & s & H & [-> ->]%ret_Done).
  apply bind_Done in H as (u1 & t2 & Hlock & H).
  destruct (fetch_and_latch _ _ _ _ _ _ _ Hget Hlock) as (-> & f & g & Hf & Hg & ->).
  apply bind_Done in H as (c & s1 & [-> Hc]%read_page_Done_inv & H).
  cbn [pages set_pages] in Hc. rewrite lookup_insert_eq in Hc.
  simpl in Hc. injection Hc as <-.
  apply bind_Done in H as (u2 & t3 & Hrel & ->%modify_Done).
  exists (data g). split; [by rewrite Hf, Hg|].
  rewrite release_ancestors_safe in Hrel by exact Hmode.
  destruct (safe mode (data g)).
  - split; [intros _ | intros; discriminate].
    unfold clearTxnWorkSet in Hrel. rewrite bind_get, bind_modify in Hrel.
    cbn [page_set set_pages] in Hrel.
    apply release_all_Done in Hrel as (Hps & Hin & _); [| exact Hdel | exact Hnd].
    cbn [page_set set_page_set set_pages pages] in *. rewrite Hps.
    split; [reflexivity|].
    intros a Ha Hne. destruct (Hin a Ha) as (f0 & f' & Hf0 & Hf' & Hr).
    exists f0, f'. split_and!; [| exact Hf' | exact Hr].
    by rewrite lookup_insert_ne in Hf0.
  - split; [intros; discriminate | intros _].
    apply ret_Done in Hrel as [_ <-].
    cbn [page_set set_page_set set_pages pages].
    split; [reflexivity|].
    intros a Ha Hne. by rewrite lookup_insert_ne.
Qed.

Lemma crabbing_release_rule_witness :
  page_set root_latched = [3] /\
  exists t',
    descend_step 4 true 1 3 root_latched = Done 2 t' /\
    page_set t' = [2] /\
    exists f f', pages root_latched !! 3 = Some f /\ pages t' !! 3 = Some f' /\
                 released 1 f f'.
Proof.
  assert (Hset : page_set root_latched = [3]) by (vm_compute; reflexivity).
  split; [exact Hset|].
  exists (exec (descend_step 4 true 1 3) root_latched).
  assert (Hrun : descend_step 4 true 1 3 root_latched
                 = Done 2 (exec (descend_step 4 true 1 3) root_latched))
    by (vm_compute; reflexivity).
  split; [exact Hrun|].
  destruct (crabbing_release_rule 4 1 3 root_latched
              (exec (descend_step 4 true 1 3) root_latched) 2) as (c & Hc & Hsafe & _).
  - right. left. reflexivity.
  - vm_compute. reflexivity.
  - rewrite Hset. apply NoDup_singleton.
  - exact Hrun.
  - assert (Hcs : safe 1 c = true).
    { assert (data <$> pages root_latched !! 2
              = Some (mkPage LEAF_PAGE 2 3 4 (-1) [(4, 40); (5, 50)])) as Hc'
        by (vm_compute; reflexivity).
      rewrite Hc' in Hc. injection Hc as <-. vm_compute. reflexivity. }
    destruct (Hsafe Hcs) as (Hps & Hrel). split; [exact Hps|].
    apply (Hrel 3); [rewrite Hset; apply list_elem_of_here | discriminate].
Defined.

(** * The sibling strategy of deletion *)

Global Instance same_nodes_preorder : PreOrder same_nodes.
Proof.
  split.
  - intros t. split; auto.
  - intros t1 t2 t3 [H1 D1] [H2 D2]. split; [congruence|].
    intros id. rewrite D2. apply D1.
Qed.

Global Instance same_calls_preorder : PreOrder same_calls.
Proof.
  split; [intros t; reflexivity|].
  intros t1 t2 t3 H1 H2. unfold same_calls in *. congruence.
Qed.

Lemma pin_step_same_nodes t t' : pin_step t t' -> same_nodes t t'.
Proof. intros ((_&_&_&_&_&_&_&H) & _ & D). split; assumption. Qed.
Lemma pool_step_same_calls t t' : pool_step t t' -> same_calls t t'.
Proof. intros (_&_&_&_&_&_&_&H). exact H. Qed.
Lemma pin_step_same_calls t t' : pin_step t t' -> same_calls t t'.
Proof. intros [H _]. by apply pool_step_same_calls. Qed.
Lemma pool_step_calls_grow t t' : pool_step t t' -> calls_grow t t'.
Proof. intros H. apply extends_same. by apply pool_step_same_calls. Qed.
Lemma pin_step_calls_grow t t' : pin_step t t' -> calls_grow t t'.
Proof. intros [H _]. by apply pool_step_calls_grow. Qed.

Lemma GetPage_same_nodes id tx mode : respects same_nodes (GetPage id tx mode).
Proof.
  apply (GetPage_respects same_nodes); [apply pin_step_same_nodes|].
  intros t l. split; auto.
Qed.
Lemma GetInternalPage_same_nodes id : respects same_nodes (GetInternalPage id).
Proof. apply (GetInternalPage_respects same_nodes). apply pin_step_same_nodes. Qed.
Lemma UnpinPage_same_calls id d : respects same_calls (UnpinPage id d).
Proof. apply (UnpinPage_respects same_calls). apply pin_step_same_calls. Qed.

Lemma GetPage_value id tx mode t p t' : GetPage id tx mode t = Done p t' -> p = id.
Proof.
  unfold GetPage. intros (r & s & Hf & H)%bind_Done.
  apply bind_Done in H as (q & s1 & [-> ->]%from_option_Done & H).
  unfold FetchPage in Hf. destruct (pages t !! id); [|discriminate].
  injection Hf as <- _.
  destruct tx.
  - apply bind_Done in H as (? & ? & _ & H).
    apply bind_Done in H as (? & ? & _ & H).
    by apply ret_Done in H as [-> _].
  - by apply ret_Done in H as [-> _].
Qed.

Lemma GetInternalPage_value id t p t' : GetInternalPage id t = Done p t' -> p = id.
Proof.
  unfold GetInternalPage. intros (r & s & Hf & [-> ->]%from_option_Done)%bind_Done.
  unfold FetchPage in Hf. destruct (pages t !! id); [|discriminate].
  by injection Hf as <- _.
Qed.

Lemma read_as_Done_inv kind id t p t' :
  read_as kind id t = Done p t' -> t' = t /\ data <$> pages t !! id = Some p.
Proof.
  unfold read_as. intros (q & s & [-> Hq]%read_page_Done_inv & H)%bind_Done.
  case_bool_decide; [|discriminate]. by apply ret_Done in H as [<- <-].
Qed.

(** Everything that can follow the recording of a call in a node operation
    leaves the list of calls alone. *)
Ltac same_calls_tail :=
  pose proof (write_page_respects same_calls pool_step_same_calls);
  pose proof (read_page_respects same_calls pin_step_same_calls);
  pose proof (UnpinPage_respects same_calls pin_step_same_calls);
  pose proof (KeyAt_respects same_calls);
  pose proof (GetInternalPage_respects same_calls pin_step_same_calls);
  pose proof (reparent_respects same_calls pin_step_same_calls pool_step_same_calls);
  pose proof (reparent_all_respects same_calls pin_step_same_calls pool_step_same_calls);
  pose proof (set_parent_key_respects same_calls pin_step_same_calls pool_step_same_calls);
  respects_auto.

Lemma MoveLastToFrontOf_calls kind a b i t u t' :
  MoveLastToFrontOf kind a b i t = Done u t' ->
  exists na nb, data <$> pages t !! a = Some na /\ data <$> pages t !! b = Some nb /\
    calls t' = calls t ++ [CallMoveLastToFrontOf na nb].
Proof.
  unfold MoveLastToFrontOf.
  intros (na & s & [-> Ha]%read_as_Done_inv & H)%bind_Done.
  apply bind_Done in H as (nb & s & [-> Hb]%read_as_Done_inv & H).
  apply bind_Done in H as (? & s & ->%modify_Done & H).
  exists na, nb. split_and!; [exact Ha | exact Hb |].
  revert H. match goal with |- ?m _ = _ -> _ => assert (Hr : respects same_calls m) end.
  { same_calls_tail. }
  intros H. apply Hr in H. exact H.
Qed.

Lemma MoveFirstToEndOf_calls kind a b t u t' :
  MoveFirstToEndOf kind a b t = Done u t' ->
  exists na nb, data <$> pages t !! a = Some na /\ data <$> pages t !! b = Some nb /\
    calls t' = calls t ++ [CallMoveFirstToEndOf na nb].
Proof.
  unfold MoveFirstToEndOf.
  intros (na & s & [-> Ha]%read_as_Done_inv & H)%bind_Done.
  apply bind_Done in H as (nb & s & [-> Hb]%read_as_Done_inv & H).
  apply bind_Done in H as (? & s & ->%modify_Done & H).
  exists na, nb. split_and!; [exact Ha | exact Hb |].
  revert H. match goal with |- ?m _ = _ -> _ => assert (Hr : respects same_calls m) end.
  { same_calls_tail. }
  intros H. apply Hr in H. exact H.
Qed.

Lemma MoveAllTo_calls kind a b i t u t' :
  MoveAllTo kind a b i t = Done u t' ->
  exists na nb, data <$> pages t !! a = Some na /\ data <$> pages t !! b = Some nb /\
    calls t' = calls t ++ [CallMoveAllTo na nb].
Proof.
  unfold MoveAllTo.
  intros (na & s & [-> Ha]%read_as_Done_inv & H)%bind_Done.
  apply bind_Done in H as (nb & s & [-> Hb]%read_as_Done_inv & H).
  apply bind_Done in H as (? & s & ->%modify_Done & H).
  exists na, nb. split_and!; [exact Ha | exact Hb |].
  revert H. match goal with |- ?m _ = _ -> _ => assert (Hr : respects same_calls m) end.
  { same_calls_tail. }
  intros H. apply Hr in H. exact H.
Qed.

Lemma Redistribute_calls kind nb n index t u t' :
  Redistribute kind nb n index t = Done u t' ->
  exists nnb nn, data <$> pages t !! nb = Some nnb /\ data <$> pages t !! n = Some nn /\
    calls t' = calls t ++ [if index =? 0 then CallMoveFirstToEndOf nnb nn
                           else CallMoveLastToFrontOf nnb nn].
Proof.
  unfold Redistribute. intros (? & s & [_ ->]%assert_Done & H)%bind_Done.
  destruct (index =? 0).
  - by apply MoveFirstToEndOf_calls in H.
  - by apply MoveLastToFrontOf_calls in H.
Qed.

Lemma Coalesce_calls kind nb n parent index t b t' :
  Coalesce kind nb n parent index t = Done b t' ->
  exists nn nnb, data <$> pages t !! n = Some nn /\ data <$> pages t !! nb = Some nnb /\
    calls t' = calls t ++ [CallMoveAllTo nn nnb].
Proof.
  unfold Coalesce. intros (? & s & [_ ->]%assert_Done & H)%bind_Done.
  apply bind_Done in H as (nn & s & [-> Hn]%read_page_Done_inv & H).
  apply bind_Done in H as (nnb & s & [-> Hnb]%read_page_Done_inv & H).
  apply bind_Done in H as (? & s & H & Hfin).
  apply bind_Done in Hfin as (pp & s' & [-> _]%read_page_Done_inv & [_ ->]%ret_Done).
  exists nn, nnb. split_and!; [exact Hn | exact Hnb |].
  pose proof (internal_Remove_respects same_calls pin_step_same_calls pool_step_same_calls)
    as Hrm.
  pose proof (SetValueAt_respects same_calls pin_step_same_calls pool_step_same_calls)
    as Hsv.
  destruct (index =? 0).
  - apply bind_Done in H as (pp0 & s0 & [-> _]%read_page_Done_inv & H).
    apply bind_Done in H as (? & s1 & Hmove & H).
    apply MoveAllTo_calls in Hmove as (na' & nb' & Ha' & Hb' & Hcalls).
    apply bind_Done in H as (pp1 & s2 & [-> _]%read_page_Done_inv & H).
    apply Hrm in H. rewrite H, Hcalls. congruence.
  - apply bind_Done in H as (pp0 & s0 & [-> _]%read_page_Done_inv & H).
    apply bind_Done in H as (? & s1 & Hmove & H).
    apply MoveAllTo_calls in Hmove as (na' & nb' & Ha' & Hb' & Hcalls).
    apply bind_Done in H as (pp1 & s2 & [-> _]%read_page_Done_inv & H).
    apply bind_Done in H as (? & s3 & H1 & H).
    apply bind_Done in H as (pp2 & s4 & [-> _]%read_page_Done_inv & H).
    apply Hrm in H1. apply Hsv in H. rewrite H, H1, Hcalls. congruence.
Qed.

Lemma child_node_same_nodes t t' pp j :
  same_nodes t t' -> child_node t' pp j = child_node t pp j.
Proof.
  intros [_ D]. unfold child_node. destruct (snd <$> entry_at (array pp) j); [apply D | reflexivity].
Qed.

(** Looking ahead at one sibling: its page id from the parent, the page
    itself, and whether it is above min_size. *)
Lemma sibling_fetch (c : bool) pp j tx t1 lid s lo t2 b s2 :
  (if c then ValueAt pp j else ret INVALID_PAGE_ID) t1 = Done lid s ->
  (if c then l <- GetPage lid tx 2 ;; ret (Some l) else ret None) s = Done lo t2 ->
  match lo with
  | Some l => ls <- read_page l ;; ret (GetMinSize ls <? GetSize ls)
  | None => ret false
  end t2 = Done b s2 ->
  s = t1 /\ s2 = t2 /\ same_nodes t1 t2 /\
  if c then lo = Some lid /\ exists ls, child_node t1 pp j = Some ls /\
                                       data <$> pages t2 !! lid = Some ls /\ b = rich ls
  else lo = None /\ b = false.
Proof.
  destruct c.
  - unfold ValueAt. intros [Hv ->]%from_option_Done.
    intros (l & s1 & Hget & [<- ->]%ret_Done)%bind_Done.
    pose proof (GetPage_value _ _ _ _ _ _ Hget) as ->.
    apply GetPage_same_nodes in Hget.
    intros (ls & s3 & [-> Hls]%read_page_Done_inv & [<- ->]%ret_Done)%bind_Done.
    split_and!; try reflexivity; [exact Hget|].
    exists ls. split_and!; [| exact Hls | reflexivity].
    unfold child_node. rewrite Hv. destruct Hget as [_ D]. by rewrite <- D.
  - intros [<- ->]%ret_Done. intros [<- ->]%ret_Done. intros [<- ->]%ret_Done.
    split_and!; reflexivity.
Qed.

Lemma same_nodes_data t t' id p :
  same_nodes t t' -> data <$> pages t' !! id = Some p -> data <$> pages t !! id = Some p.
Proof. intros [_ D] H. by rewrite <- D. Qed.

(** C9: for a node below min_size that is not the root, a run of
    [CoalesceOrRedistribute] that returns has followed the strategy of the
    spec: the left sibling's last entry moved to the front of the node and
    false returned when there is a left sibling above min_size; else the
    right sibling's first entry moved to the end of the node and false
    returned when there is a right sibling above min_size; else all entries
    of the node moved into the left sibling when there is one, into the right
    sibling only when there is no left one, and true returned. *)
Theorem sibling_strategy (fuel : nat) (kind : IndexPageType) (node : Z) (tx : bool)
    (t t' : BPlusTree) (r : bool) (n pp : BPlusTreePage) :
  data <$> pages t !! node = Some n ->
  GetSize n < GetMinSize n ->
  parent_page_id n <> INVALID_PAGE_ID ->
  data <$> pages t !! parent_page_id n = Some pp ->
  CoalesceOrRedistribute fuel kind node tx t = Done r t' ->
  follows (strategy t n pp) n r t t'.
Proof.
  intros Hn Hunder Hnonroot Hpp H.
  destruct fuel as [|fuel]; [discriminate|].
  cbn [CoalesceOrRedistribute] in H.
  apply bind_Done in H as (n0 & s & [-> Hn0]%read_page_Done_inv & H).
  rewrite Hn in Hn0. injection Hn0 as <-.
  destruct (GetMinSize n <=? GetSize n) eqn:E1; [lia|].
  destruct (parent_page_id n =? INVALID_PAGE_ID) eqn:E2; [lia|].
  apply bind_Done in H as (parent & t1 & Hpar & H).
  pose proof (GetInternalPage_value _ _ _ _ Hpar) as ->.
  apply GetInternalPage_same_nodes in Hpar as Hsn1.
  apply bind_Done in H as (pp0 & s & [-> Hpp0]%read_page_Done_inv & H).
  assert (pp0 = pp) as ->.
  { apply (same_nodes_data _ _ _ _ Hsn1) in Hpp0. congruence. }
  set (idx := ValueIndex (page_id n) pp) in *.
  (* the left sibling *)
  apply bind_Done in H as (lid & s & Hlid & H).
  apply bind_Done in H as (lo & t2 & Hlo & H).
  apply bind_Done in H as (lrich & s2 & Hlrich & H).
  destruct (sibling_fetch _ _ _ _ _ _ _ _ _ _ _ Hlid Hlo Hlrich) as (-> & -> & Hsn2 & Hleft).
  clear Hlid Hlo Hlrich.
  assert (Hsn02 : same_nodes t t2) by (etransitivity; eassumption).
  assert (Hl : (lrich = true /\ exists ls, lo = Some lid /\ left_sibling t n pp = Some ls /\
                   rich ls = true /\ data <$> pages t2 !! lid = Some ls) \/
               (lrich = false /\
                match lo with
                | Some l => exists ls, left_sibling t n pp = Some ls /\ rich ls = false /\
                                       data <$> pages t2 !! l = Some ls
                | None => left_sibling t n pp = None
                end)).
  { unfold left_sibling. fold idx. destruct (0 <=? idx - 1).
    - destruct Hleft as (-> & ls & Hc & Hd & ->).
      rewrite (child_node_same_nodes _ _ _ _ Hsn1) in Hc.
      destruct (rich ls) eqn:Er; [left | right]; eauto 10.
    - destruct Hleft as (-> & ->). right. auto. }
  clear Hleft.
  destruct Hl as [(-> & ls & -> & Hls & Hrich & Hd) | (-> & Hl)].
  { (* redistribute with the left sibling *)
    apply bind_Done in H as (? & t3 & Hred & H).
    apply Redistribute_calls in Hred as (nnb & nn & Hnb & Hnn & Hcalls).
    rewrite Hd in Hnb. injection Hnb as <-.
    apply (same_nodes_data _ _ _ _ Hsn02) in Hnn. rewrite Hn in Hnn. injection Hnn as <-.
    apply bind_Done in H as (? & t4 & H4 & H).
    apply bind_Done in H as (pp1 & s & [-> _]%read_page_Done_inv & H).
    apply bind_Done in H as (? & t5 & H5%UnpinPage_same_calls & [<- <-]%ret_Done).
    assert (H4' : calls t4 = calls t3).
    { destruct (negb tx).
      - apply bind_Done in H4 as (? & s & Hs%UnpinPage_same_calls & [_ <-]%ret_Done).
        exact Hs.
      - by apply ret_Done in H4 as [_ <-]. }
    assert (Hfin : calls t5 = calls t ++ [CallMoveLastToFrontOf ls n]).
    { rewrite H5, H4', Hcalls. destruct Hsn02 as [-> _]. reflexivity. }
    unfold strategy. rewrite Hls, Hrich.
    destruct (right_sibling t n pp); cbn; auto. }
  (* the right sibling *)
  apply bind_Done in H as (pp1 & s & [-> Hpp1]%read_page_Done_inv & H).
  assert (pp1 = pp) as ->.
  { apply (same_nodes_data _ _ _ _ Hsn02) in Hpp1. congruence. }
  fold idx in H.
  apply bind_Done in H as (rid & s & Hrid & H).
  apply bind_Done in H as (ro & t3 & Hro & H).
  apply bind_Done in H as (rrich & s2 & Hrrich & H).
  destruct (sibling_fetch _ _ _ _ _ _ _ _ _ _ _ Hrid Hro Hrrich) as (-> & -> & Hsn3 & Hright).
  clear Hrid Hro Hrrich.
  assert (Hsn03 : same_nodes t t3) by (etransitivity; eassumption).
  assert (Hr : (rrich = true /\ exists rs, ro = Some rid /\ right_sibling t n pp = Some rs /\
                   rich rs = true /\ data <$> pages t3 !! rid = Some rs) \/
               (rrich = false /\
                match ro with
                | Some x => exists rs, right_sibling t n pp = Some rs /\ rich rs = false /\
                                       data <$> pages t3 !! x = Some rs
                | None => right_sibling t n pp = None
                end)).
  { unfold right_sibling. fold idx. destruct (idx + 1 <? GetSize pp).
    - destruct Hright as (-> & rs & Hc & Hd & ->).
      rewrite (child_node_same_nodes _ _ _ _ Hsn02) in Hc.
      destruct (rich rs) eqn:Er; [left | right]; eauto 10.
    - destruct Hright as (-> & ->). right. auto. }
  clear Hright.
  assert (Hleft_not_rich :
            match left_sibling t n pp with Some ls => rich ls = false | None => True end).
  { destruct lo; [destruct Hl as (ls & -> & Hls & _); exact Hls | by rewrite Hl]. }
  destruct Hr as [(-> & rs & -> & Hrs & Hrich & Hd) | (-> & Hr)].
  { (* redistribute with the right sibling *)
    apply bind_Done in H as (? & t4 & Hred & H).
    apply Redistribute_calls in Hred as (nnb & nn & Hnb & Hnn & Hcalls).
    rewrite Hd in Hnb. injection Hnb as <-.
    apply (same_nodes_data _ _ _ _ Hsn03) in Hnn. rewrite Hn in Hnn. injection Hnn as <-.
    apply bind_Done in H as (? & t5 & H5 & H).
    apply bind_Done in H as (pp1 & s & [-> _]%read_page_Done_inv & H).
    apply bind_Done in H as (? & t6 & H6%UnpinPage_same_calls & [<- <-]%ret_Done).
    assert (H5' : calls t5 = calls t4).
    { destruct (negb tx); [|by apply ret_Done in H5 as [_ <-]].
      apply bind_Done in H5 as (? & s & Hs%UnpinPage_same_calls & H5).
      destruct (bool_decide (lo = None)).
      - apply ret_Done in H5 as [_ <-]. exact Hs.
      - apply bind_Done in H5 as (? & s1 & Hs1%UnpinPage_same_calls & [_ <-]%ret_Done).
        unfold same_calls in *. congruence. }
    assert (Hfin : calls t6 = calls t ++ [CallMoveFirstToEndOf rs n]).
    { rewrite H6, H5', Hcalls. destruct Hsn03 as [-> _]. reflexivity. }
    unfold strategy. rewrite Hrs, Hrich.
    destruct (left_sibling t n pp) as [ls|]; [rewrite Hleft_not_rich|]; cbn; auto. }
  (* coalesce *)
  apply bind_Done in H as (? & s & [Hassert ->]%assert_Done & H).
  apply bind_Done in H as (? & t4 & Hco & H).
  assert (Htail : forall t4, calls_grow t4 t' -> r = true ->
            forall nb, calls t4 = calls t ++ [CallMoveAllTo n nb] ->
            r = true /\ exists rest, calls t' = calls t ++ CallMoveAllTo n nb :: rest).
  { intros s [l [Hl' _]] Hrt nb Hs. split; [exact Hrt|]. exists l.
    rewrite Hl', Hs, <- app_assoc. reflexivity. }
  assert (Hrest : calls_grow t4 t' /\ r = true).
  { apply bind_Done in H as (del & t5 & Hrec & H).
    apply bind_Done in H as (pp1 & s & [-> _]%read_page_Done_inv & H).
    apply bind_Done in H as (? & t6 & H6 & H).
    apply bind_Done in H as (? & t7 & H7 & [<- <-]%ret_Done).
    split; [|reflexivity].
    apply (CoalesceOrRedistribute_respects calls_grow (fun _ => True) (fun _ => True))
      in Hrec; auto using pin_step_calls_grow, pool_step_calls_grow;
      try (intros; by apply extends_same); try (intros; by eapply extends_one).
    apply UnpinPage_same_calls in H6.
    assert (calls_grow t6 t7).
    { destruct del; [|apply ret_Done in H7 as [_ <-]; reflexivity].
      destruct tx.
      - apply modify_Done in H7 as ->. by apply extends_same.
      - apply bind_Done in H7 as (ok & s & Hdel%DeletePage_pool & [_ ->]%assert_Done).
        by apply pool_step_calls_grow. }
    etransitivity; [exact Hrec|]. etransitivity; [|eassumption]. by apply extends_same. }
  destruct Hrest as [Hgrow Hrt].
  unfold strategy.
  destruct lo as [l|].
  - (* into the left sibling *)
    destruct Hl as (ls & Hls & Hlrich & Hd).
    apply bind_Done in Hco as (? & t5 & Hc & Hun).
    apply Coalesce_calls in Hc as (nn & nnb & Hnn & Hnb & Hcalls).
    apply (same_nodes_data _ _ _ _ Hsn03) in Hnn. rewrite Hn in Hnn. injection Hnn as <-.
    destruct Hsn3 as [Hc3 D3]. rewrite D3, Hd in Hnb. injection Hnb as <-.
    assert (Hun' : calls t4 = calls t5).
    { destruct (negb tx); [|by apply ret_Done in Hun as [_ <-]].
      apply bind_Done in Hun as (? & s & Hs%UnpinPage_same_calls & Hun).
      destruct (bool_decide (ro = None)).
      - apply ret_Done in Hun as [_ <-]. exact Hs.
      - apply bind_Done in Hun as (? & s1 & Hs1%UnpinPage_same_calls & [_ <-]%ret_Done).
        unfold same_calls in *. congruence. }
    rewrite Hls, Hlrich.
    assert (Hev : calls t4 = calls t ++ [CallMoveAllTo n ls]).
    { rewrite Hun', Hcalls. destruct Hsn03 as [-> _]. reflexivity. }
    destruct ro as [rx|].
    + destruct Hr as (rs & -> & -> & _). cbn. eapply Htail; eauto.
    + rewrite Hr. cbn. eapply Htail; eauto.
  - (* into the right sibling: there is no left one *)
    rewrite Hl.
    destruct ro as [rx|]; [|discriminate Hassert].
    destruct Hr as (rs & Hrs & Hrrich & Hd).
    apply bind_Done in Hco as (rx' & s & [[= <-] ->]%from_option_Done & Hco).
    apply bind_Done in Hco as (? & t5 & Hc & Hun).
    apply Coalesce_calls in Hc as (nn & nnb & Hnn & Hnb & Hcalls).
    apply (same_nodes_data _ _ _ _ Hsn03) in Hnn. rewrite Hn in Hnn. injection Hnn as <-.
    rewrite Hd in Hnb. injection Hnb as <-.
    assert (Hun' : calls t4 = calls t5).
    { destruct (negb tx); [|by apply ret_Done in Hun as [_ <-]].
      by apply bind_Done in Hun as (? & s & Hs%UnpinPage_same_calls & [_ <-]%ret_Done). }
    rewrite Hrs, Hrrich. cbn.
    eapply Htail; eauto.
    rewrite Hun', Hcalls. destruct Hsn03 as [-> _]. reflexivity.
Qed.

Lemma sibling_strategy_witness :
  exists t',
    CoalesceOrRedistribute 8 LEAF_PAGE 2 false right_leaf_underflows = Done false t' /\
    calls t' = calls right_leaf_underflows ++
      [CallMoveLastToFrontOf (mkPage LEAF_PAGE 1 3 4 2 [(1, 10); (2, 20); (3, 30)])
                             (mkPage LEAF_PAGE 2 3 4 (-1) [(5, 50)])].
Proof.
  exists (exec (CoalesceOrRedistribute 8 LEAF_PAGE 2 false) right_leaf_underflows).
  assert (Hrun : CoalesceOrRedistribute 8 LEAF_PAGE 2 false right_leaf_underflows
                 = Done false (exec (CoalesceOrRedistribute 8 LEAF_PAGE 2 false)
                                    right_leaf_underflows))
    by (vm_compute; reflexivity).
  split; [exact Hrun|].
  pose proof (sibling_strategy 8 LEAF_PAGE 2 false right_leaf_underflows
                (exec (CoalesceOrRedistribute 8 LEAF_PAGE 2 false) right_leaf_underflows)
                false
                (mkPage LEAF_PAGE 2 3 4 (-1) [(5, 50)])
                (mkPage INTERNAL_PAGE 3 (-1) 5 (-1) [(0, 1); (3, 2)])) as Hs.
  assert (Hst : strategy right_leaf_underflows
                  (mkPage LEAF_PAGE 2 3 4 (-1) [(5, 50)])
                  (mkPage INTERNAL_PAGE 3 (-1) 5 (-1) [(0, 1); (3, 2)])
                = RedistributeWithLeft (mkPage LEAF_PAGE 1 3 4 2 [(1, 10); (2, 20); (3, 30)]))
    by (vm_compute; reflexivity).
  rewrite Hst in Hs.
  apply Hs; [vm_compute; reflexivity | vm_compute; reflexivity | discriminate
            | vm_compute; reflexivity | exact Hrun].
Defined.

(** * Separator keys after a split *)

(** ** Sorted leaves *)

Lemma leaf_insert_keys k v a x :
  x ∈ (fst <$> leaf_insert k v a) -> x = k \/ x ∈ (fst <$> a).
Proof.
  induction a as [|[k' v'] a IH]; cbn.
  - intros ->%list_elem_of_singleton. by left.
  - destruct (k <? k'); [|destruct (k =? k')]; cbn.
    + intros [-> | H]%elem_of_cons; [by left | by right].
    + by right.
    + intros [-> | H]%elem_of_cons; [right; apply list_elem_of_here|].
      destruct (IH H) as [-> | Hx]; [by left | right; by apply list_elem_of_further].
Qed.

Lemma leaf_insert_sorted k v a : sorted_keys a -> sorted_keys (leaf_insert k v a).
Proof.
  unfold sorted_keys. induction a as [|[k' v'] a IH]; cbn; intros Hs.
  - repeat constructor.
  - apply StronglySorted_inv in Hs as [Hs Hall].
    destruct (k <? k') eqn:E1; [|destruct (k =? k') eqn:E2]; cbn.
    + constructor; [by constructor|].
      constructor; [lia|]. eapply Forall_impl; [exact Hall|]. cbn. intros; lia.
    + by constructor.
    + constructor; [by apply IH|].
      apply Forall_forall. intros x Hx.
      apply leaf_insert_keys in Hx as [-> | Hx]; [lia|].
      rewrite Forall_forall in Hall. by apply Hall.
Qed.

Lemma sorted_keys_take n a : sorted_keys a -> sorted_keys (take n a).
Proof.
  unfold sorted_keys. intros Hs.
  rewrite <- (take_drop n a), fmap_app in Hs.
  by apply StronglySorted_app_1_l in Hs.
Qed.

Lemma sorted_keys_last a e : sorted_keys a -> last a = Some e -> is_largest_key (fst e) a.
Proof.
  unfold sorted_keys, is_largest_key. intros Hs [l ->]%last_Some.
  rewrite fmap_app in *. cbn in *.
  apply StronglySorted_app in Hs as (Hlt & _ & _).
  split; [apply elem_of_app; right; apply list_elem_of_here|].
  intros k' [Hk | ->%list_elem_of_singleton]%elem_of_app; [|lia].
  specialize (Hlt k' (fst e) Hk (list_elem_of_here _ _)). lia.
Qed.

Lemma KeyAt_last p k t t' :
  KeyAt p (GetSize p - 1) t = Done k t' ->
  exists e, last (array p) = Some e /\ fst e = k.
Proof.
  unfold KeyAt, entry_at, GetSize. intros [H _]%from_option_Done.
  destruct (Z.of_nat (length (array p)) - 1 <? 0) eqn:E; [discriminate|].
  replace (Z.to_nat (Z.of_nat (length (array p)) - 1)) with (pred (length (array p))) in H
    by lia.
  rewrite <- last_lookup in H.
  destruct (last (array p)) as [e|]; [|discriminate].
  exists e. split; [reflexivity|]. by injection H.
Qed.

Lemma KeyAt_head p k t t' :
  KeyAt p 0 t = Done k t' -> fst <$> head (array p) = Some k.
Proof.
  unfold KeyAt, entry_at. intros [H _]%from_option_Done. cbn in H.
  by rewrite head_lookup.
Qed.

(** ** What a written page holds *)

Lemma write_page_data id p t u t' :
  write_page id p t = Done u t' ->
  data <$> pages t' !! id = Some p /\
  forall j, j <> id -> data <$> pages t' !! j = data <$> pages t !! j.
Proof.
  unfold write_page. destruct (pages t !! id) as [f|]; [|discriminate].
  intros [= _ <-]. cbn [pages set_pages]. split.
  - by rewrite lookup_insert_eq.
  - intros j Hj. by rewrite lookup_insert_ne.
Qed.

Lemma NewPage_Done_inv t r t' :
  NewPage t = Done r t' ->
  (r = None /\ t' = t) \/
  (r = Some (next_page t) /\
   forall j, j <> next_page t -> data <$> pages t' !! j = data <$> pages t !! j).
Proof.
  unfold NewPage. case_bool_decide; intros [= <- <-]; [right | left; auto].
  split; [reflexivity|]. intros j Hj. cbn [pages set_pages set_next_page].
  by rewrite lookup_insert_ne.
Qed.

Lemma Init_data kind id parent t u t' :
  Init kind id parent t = Done u t' ->
  forall j, j <> id -> data <$> pages t' !! j = data <$> pages t !! j.
Proof.
  unfold Init. rewrite bind_get. intros H. by apply write_page_data in H as [_ H].
Qed.

Lemma read_as_type kind id t p t' : read_as kind id t = Done p t' -> page_type p = kind.
Proof.
  unfold read_as. intros (q & s & _ & H)%bind_Done.
  case_bool_decide; [|discriminate]. by apply ret_Done in H as [<- _].
Qed.

(** After the split of a leaf, the left leaf keeps the lower half. *)
Lemma MoveHalfTo_leaf node recipient t u t' p :
  node <> recipient ->
  data <$> pages t !! node = Some p ->
  MoveHalfTo LEAF_PAGE node recipient t = Done u t' ->
  page_type p = LEAF_PAGE /\
  exists nxt, data <$> pages t' !! node =
    Some (set_array (take (half (array p)) (array p)) (SetNextPageId nxt p)).
Proof.
  intros Hne Hp. unfold MoveHalfTo.
  intros (n & s & Hn & H)%bind_Done.
  pose proof Hn as [-> Hn']%read_as_Done_inv.
  assert (n = p) as -> by congruence.
  assert (Hty : page_type p = LEAF_PAGE) by (eapply read_as_type; exact Hn).
  split; [exact Hty|].
  apply bind_Done in H as (r & s & [-> _]%read_as_Done_inv & H).
  rewrite bool_decide_eq_true_2 in H by reflexivity.
  apply bind_Done in H as (? & s & _ & H).
  apply write_page_data in H as [H _]. eauto.
Qed.

Lemma Split_leaf lp t newlp t' p :
  lp <> next_page t ->
  data <$> pages t !! lp = Some p ->
  Split LEAF_PAGE lp t = Done newlp t' ->
  page_type p = LEAF_PAGE /\
  exists nxt, data <$> pages t' !! lp =
    Some (set_array (take (half (array p)) (array p)) (SetNextPageId nxt p)).
Proof.
  intros Hne Hp. unfold Split.
  intros (r & s & Hnew & H)%bind_Done.
  apply NewPage_Done_inv in Hnew as [[-> ->] | [-> Hd]]; [discriminate|].
  apply bind_Done in H as (n & s1 & [-> _]%read_page_Done_inv & H).
  apply bind_Done in H as (? & s2 & Hinit & H).
  apply bind_Done in H as (? & s3 & Hmove & [_ <-]%ret_Done).
  eapply MoveHalfTo_leaf; [exact Hne | | exact Hmove].
  rewrite (Init_data _ _ _ _ _ _ Hinit) by exact Hne.
  rewrite Hd by exact Hne. exact Hp.
Qed.

(** ** The kind of a page is kept by re-parenting *)

Lemma reparent_type id ty np c t u t' :
  has_type t id ty -> reparent np c t = Done u t' -> has_type t' id ty.
Proof.
  intros (p & Hp & Hty). unfold reparent.
  intros (r & s & Hf%FetchPage_pin & H)%bind_Done.
  apply bind_Done in H as (c' & s1 & [_ ->]%from_option_Done & H).
  apply bind_Done in H as (? & s2 & Hup & H).
  apply bind_Done in H as (? & s3 & Hun%UnpinPage_pin & [_ <-]%ret_Done).
  destruct Hf as (_ & _ & Df), Hun as (_ & _ & Dun).
  unfold update_page in Hup.
  apply bind_Done in Hup as (q & s4 & [-> Hq]%read_page_Done_inv & Hw).
  apply write_page_data in Hw as [Hw1 Hw2].
  unfold has_type. rewrite Dun.
  destruct (decide (id = c')) as [->|Hne].
  - rewrite Hw1. eexists; split; [reflexivity|]. cbn.
    rewrite Df, Hp in Hq. by injection Hq as <-.
  - rewrite Hw2, Df by exact Hne. eauto.
Qed.

Lemma reparent_all_type id ty np l : forall t u t',
  has_type t id ty -> reparent_all np l t = Done u t' -> has_type t' id ty.
Proof.
  induction l as [|c l IH]; intros t u t' Hty H; cbn [reparent_all] in H.
  - by apply ret_Done in H as [_ <-].
  - apply bind_Done in H as (? & s & Hc & H).
    eapply IH; [|exact H]. eapply reparent_type; eassumption.
Qed.

Lemma Split_internal ip t newlp t' :
  Split INTERNAL_PAGE ip t = Done newlp t' -> has_type t' ip INTERNAL_PAGE.
Proof.
  unfold Split. intros (r & s & _ & H)%bind_Done.
  destruct r as [new_id|]; [|discriminate].
  apply bind_Done in H as (n & s1 & _ & H).
  apply bind_Done in H as (? & s2 & _ & H).
  apply bind_Done in H as (? & s3 & Hmove & [_ <-]%ret_Done).
  unfold MoveHalfTo in Hmove.
  apply bind_Done in Hmove as (n1 & s4 & Hn1 & H).
  assert (Hty : page_type n1 = INTERNAL_PAGE) by (eapply read_as_type; exact Hn1).
  apply bind_Done in H as (r1 & s5 & _ & H).
  rewrite bool_decide_eq_false_2 in H by discriminate.
  apply bind_Done in H as (? & s6 & _ & H).
  apply bind_Done in H as (? & s7 & Hw & H).
  apply write_page_data in Hw as [Hw _].
  eapply reparent_all_type; [|exact H].
  eexists. split; [exact Hw | exact Hty].
Qed.

(** ** The pool stays as the tree leaves it *)

Global Instance keeps_pool_ok_preorder : PreOrder keeps_pool_ok.
Proof. split; [intros t H; exact H | intros t1 t2 t3 H1 H2 H; auto]. Qed.

Lemma pool_ok_same_nodes t t' :
  next_page t' = next_page t ->
  (forall id, data <$> pages t' !! id = data <$> pages t !! id) ->
  keeps_pool_ok t t'.
Proof.
  intros Hn D [Hid Hs]. split.
  - intros id [f' Hf']. rewrite Hn. apply Hid.
    specialize (D id). rewrite Hf' in D. destruct (pages t !! id); [eauto | discriminate].
  - intros id f' Hf' Hty.
    specialize (D id). rewrite Hf' in D.
    destruct (pages t !! id) as [f|] eqn:Hf; [|discriminate].
    injection D as D. rewrite D in *. by eapply Hs.
Qed.

Lemma pin_step_keeps_pool_ok t t' : pin_step t t' -> keeps_pool_ok t t'.
Proof. intros (_ & Hn & D). by apply pool_ok_same_nodes. Qed.

Lemma delete_keeps_pool_ok t id : keeps_pool_ok t (set_pages (delete id (pages t)) t).
Proof.
  intros [Hid Hs]. split; cbn [pages set_pages next_page].
  - intros j [f Hf]. apply lookup_delete_Some in Hf as [_ Hf]. apply Hid. eauto.
  - intros j f Hf. apply lookup_delete_Some in Hf as [_ Hf]. by eapply Hs.
Qed.

Lemma GetLeafPage_keeps_pool_ok fuel key tx mode :
  respects keeps_pool_ok (GetLeafPage fuel key tx mode).
Proof.
  apply (GetLeafPage_respects keeps_pool_ok);
    auto using pin_step_keeps_pool_ok, delete_keeps_pool_ok;
    intros; by apply pool_ok_same_nodes.
Qed.

Lemma GetLeafPage_same_calls fuel key tx mode :
  respects same_calls (GetLeafPage fuel key tx mode).
Proof.
  apply (GetLeafPage_respects same_calls); auto using pin_step_same_calls;
    intros; reflexivity.
Qed.

Lemma clearTxnWorkSet_same_calls mode d : respects same_calls (clearTxnWorkSet mode d).
Proof.
  apply (clearTxnWorkSet_respects same_calls); auto using pin_step_same_calls;
    intros; reflexivity.
Qed.

Lemma Split_same_calls kind node : respects same_calls (Split kind node).
Proof.
  apply (Split_respects same_calls); auto using pin_step_same_calls, pool_step_same_calls.
Qed.

Ltac same_calls_auto :=
  pose proof (NewPage_respects same_calls pool_step_same_calls);
  pose proof (write_page_respects same_calls pool_step_same_calls);
  pose proof (read_page_respects same_calls pin_step_same_calls);
  pose proof (UnpinPage_respects same_calls pin_step_same_calls);
  pose proof (GetInternalPage_respects same_calls pin_step_same_calls);
  pose proof (Init_respects same_calls pool_step_same_calls);
  pose proof (update_page_respects same_calls pin_step_same_calls pool_step_same_calls);
  pose proof (PopulateNewRoot_respects same_calls pin_step_same_calls pool_step_same_calls);
  pose proof (InsertNodeAfter_respects same_calls pin_step_same_calls pool_step_same_calls);
  pose proof (UpdateRootPageId_respects same_calls (fun _ => True) pin_step_same_calls
                (fun t op _ => eq_refl) false (fun _ _ => I));
  pose proof clearTxnWorkSet_same_calls;
  pose proof Split_same_calls;
  pose proof (assert_page_set_empty_respects same_calls);
  repeat first [respects_step | apply modify_respects; intros ?; reflexivity];
  eauto with respects.

(** ** The calls of [InsertIntoParent] *)

(** A run of [InsertIntoParent] records its own call first; the calls that
    follow are those for the internal pages that split on the way up, each
    with the first key of the new right node. *)
Lemma InsertIntoParent_calls fuel : forall old k new t u t',
  InsertIntoParent fuel old k new t = Done u t' ->
  exists o nw rest,
    data <$> pages t !! old = Some o /\ data <$> pages t !! new = Some nw /\
    calls t' = calls t ++ CallInsertIntoParent o k nw :: rest /\
    Forall separator_ok rest.
Proof.
  induction fuel as [|fuel IH]; intros old k new t u t' H; [discriminate|].
  cbn [InsertIntoParent] in H.
  apply bind_Done in H as (o & s & [-> Ho]%read_page_Done_inv & H).
  apply bind_Done in H as (nw & s & [-> Hnw]%read_page_Done_inv & H).
  apply bind_Done in H as (? & s & ->%modify_Done & H).
  exists o, nw.
  destruct (parent_page_id o =? INVALID_PAGE_ID).
  - exists []. split_and!; [exact Ho | exact Hnw | | constructor].
    revert H. match goal with |- ?m _ = _ -> _ => assert (Hr : respects same_calls m) end.
    { same_calls_auto. }
    intros H. apply Hr in H. exact H.
  - apply bind_Done in H as (ip & t1 & H1 & H).
    apply (GetInternalPage_respects same_calls pin_step_same_calls) in H1.
    apply bind_Done in H as (nw' & s & [-> _]%read_page_Done_inv & H).
    apply bind_Done in H as (? & t2 & H2 & H).
    apply (InsertNodeAfter_respects same_calls pin_step_same_calls pool_step_same_calls)
      in H2.
    apply bind_Done in H as (p & s & [-> _]%read_page_Done_inv & H).
    apply bind_Done in H as (? & t3 & Hsplit & H).
    apply bind_Done in H as (? & t4 & H4 & [_ <-]%ret_Done).
    apply (UnpinPage_respects same_calls pin_step_same_calls) in H4.
    assert (Hmid : exists rest, calls t3 = calls t2 ++ rest /\ Forall separator_ok rest).
    { destruct (GetMaxSize p <? GetSize p).
      - apply bind_Done in Hsplit as (newlp & s1 & Hs & Hsplit).
        pose proof (Split_internal _ _ _ _ Hs) as (o1 & Ho1 & Hty).
        apply Split_same_calls in Hs.
        apply bind_Done in Hsplit as (np & s & [-> Hnp]%read_page_Done_inv & Hsplit).
        apply bind_Done in Hsplit as (k' & s & Hk & Hsplit).
        pose proof (KeyAt_head _ _ _ _ Hk) as Hhead.
        unfold KeyAt in Hk. apply from_option_Done in Hk as [_ ->].
        apply bind_Done in Hsplit as (? & s2 & Hrec & Hsplit).
        apply IH in Hrec as (o2 & nw2 & rest & Ho2 & Hnw2 & Hcalls & Hrest).
        apply bind_Done in Hsplit as (? & s3 & H3 & [_ <-]%ret_Done).
        apply (UnpinPage_respects same_calls pin_step_same_calls) in H3.
        exists (CallInsertIntoParent o2 k' nw2 :: rest). split.
        + rewrite H3, Hcalls, Hs. reflexivity.
        + constructor; [|exact Hrest].
          assert (o2 = o1) as -> by congruence.
          assert (nw2 = np) as -> by congruence.
          cbn. rewrite Hty. exact Hhead.
      - apply ret_Done in Hsplit as [_ <-]. exists []. split; [by rewrite app_nil_r | constructor]. }
    destruct Hmid as (rest & Hc3 & Hrest).
    exists rest. split_and!; [exact Ho | exact Hnw | | exact Hrest].
    rewrite H4, Hc3, H2, H1. cbn [calls set_calls]. by rewrite <- app_assoc.
Qed.

Lemma leaf_Insert_inv lp k v t sz t' :
  leaf_Insert lp k v t = Done sz t' ->
  exists p, data <$> pages t !! lp = Some p /\
    data <$> pages t' !! lp = Some (set_array (leaf_insert k v (array p)) p) /\
    next_page t' = next_page t /\ calls t' = calls t.
Proof.
  unfold leaf_Insert. intros (p & s & [-> Hp]%read_page_Done_inv & H)%bind_Done.
  apply bind_Done in H as (? & t1 & Hw & [_ <-]%ret_Done).
  exists p. split; [exact Hp|].
  pose proof (write_page_data _ _ _ _ _ Hw) as [Hd _].
  split; [exact Hd|].
  unfold write_page in Hw. destruct (pages t !! lp); [|discriminate].
  injection Hw as _ <-. split; reflexivity.
Qed.

Lemma InsertIntoLeaf_separators fuel key value tx t b t' :
  pool_ok t -> InsertIntoLeaf fuel key value tx t = Done b t' -> separators t t'.
Proof.
  intros Hok H. unfold InsertIntoLeaf in H.
  apply bind_Done in H as (? & s & H0 & H).
  apply (assert_page_set_empty_respects pin_step) in H0 as Hs0.
  apply bind_Done in H as (r & t0 & Hleaf & H).
  assert (Hok0 : pool_ok t0).
  { apply GetLeafPage_keeps_pool_ok in Hleaf. apply Hleaf.
    by apply (pin_step_keeps_pool_ok _ _ Hs0). }
  assert (Hc0 : calls t0 = calls t).
  { apply GetLeafPage_same_calls in Hleaf. apply pin_step_same_calls in Hs0.
    unfold same_calls in *. congruence. }
  clear H0 Hs0 Hleaf.
  destruct r as [lp|]; [|apply ret_Done in H as [_ <-]; by apply extends_same].
  apply bind_Done in H as (p & s1 & [-> Hp]%read_page_Done_inv & H).
  apply bind_Done in H as (newSize & t1 & Hins & H).
  apply leaf_Insert_inv in Hins as (p' & Hp' & Hd1 & Hn1 & Hc1).
  assert (p' = p) as -> by congruence.
  apply bind_Done in H as (? & t2 & Hsplit & H).
  assert (Htail : calls t' = calls t2).
  { revert H. match goal with |- ?m _ = _ -> _ => assert (Hr : respects same_calls m) end.
    { same_calls_auto. }
    intros H. apply Hr in H. exact H. }
  clear H.
  destruct (GetMaxSize p <? newSize).
  - apply bind_Done in Hsplit as (newlp & s2 & Hs & H).
    assert (Hlp : lp <> next_page t1).
    { rewrite Hn1. destruct Hok0 as [Hid _].
      assert (lp < next_page t0); [|lia].
      apply Hid. destruct (pages t0 !! lp); [eauto | discriminate]. }
    pose proof (Split_leaf _ _ _ _ _ Hlp Hd1 Hs) as (Hty & nxt & Hold).
    apply Split_same_calls in Hs.
    apply bind_Done in H as (oldp & s3 & [-> Holdp]%read_page_Done_inv & H).
    rewrite Hold in Holdp. injection Holdp as <-.
    apply bind_Done in H as (k & s4 & Hk & H).
    pose proof (KeyAt_last _ _ _ _ Hk) as (e & Hlast & Hfst).
    unfold KeyAt in Hk. apply from_option_Done in Hk as [_ ->].
    apply bind_Done in H as (? & t3 & Hrec & H).
    apply InsertIntoParent_calls in Hrec as (o & nw & rest & Ho & Hnw & Hcalls & Hrest).
    rewrite Hold in Ho. injection Ho as <-.
    assert (Hfin : calls t2 = calls t3).
    { revert H. match goal with |- ?m _ = _ -> _ => assert (Hr : respects same_calls m) end.
      { same_calls_auto. }
      intros H. apply Hr in H. exact H. }
    eexists. split.
    + rewrite Htail, Hfin, Hcalls, Hs, Hc1, Hc0. reflexivity.
    + constructor; [|exact Hrest].
      cbn in Hty |- *. rewrite Hty. cbn in Hlast. rewrite <- Hfst.
      apply sorted_keys_last; [|exact Hlast].
      apply sorted_keys_take, leaf_insert_sorted.
      destruct Hok0 as [_ Hsorted].
      destruct (pages t0 !! lp) as [f|] eqn:Hf; [|discriminate].
      injection Hp as <-. by eapply Hsorted.
  - apply ret_Done in Hsplit as [_ <-]. apply extends_same. congruence.
Qed.

(** ** The first key of a tree *)

Global Instance prepares_preorder : PreOrder prepares.
Proof.
  split.
  - intros t. split; reflexivity.
  - intros t1 t2 t3 [H1 C1] [H2 C2]. split; etransitivity; eassumption.
Qed.

Lemma pin_step_prepares t t' : pin_step t t' -> prepares t t'.
Proof. intros H. split; [by apply pin_step_keeps_pool_ok | by apply pin_step_same_calls]. Qed.

Lemma NewPage_prepares : respects prepares NewPage.
Proof.
  intros t r t' H. split; [|by apply (NewPage_respects same_calls pool_step_same_calls) in H].
  unfold NewPage in H. case_bool_decide; injection H as <- <-; [|reflexivity].
  intros [Hid Hs]. split; cbn [pages set_pages next_page set_next_page].
  - intros j [f Hf]. destruct (decide (j = next_page t)) as [-> | Hj]; [lia|].
    rewrite lookup_insert_ne in Hf by done. assert (j < next_page t) by eauto. lia.
  - intros j f Hf Hty. destruct (decide (j = next_page t)) as [-> | Hj].
    + rewrite lookup_insert_eq in Hf. injection Hf as <-. discriminate.
    + rewrite lookup_insert_ne in Hf by done. by eapply Hs.
Qed.

Lemma Init_prepares kind id parent : respects prepares (Init kind id parent).
Proof.
  intros t r t' H. split; [|by apply (Init_respects same_calls pool_step_same_calls) in H].
  unfold Init in H. rewrite bind_get in H. unfold write_page in H.
  destruct (pages t !! id) as [f0|] eqn:Hf0; [|discriminate]. injection H as _ <-.
  intros [Hid Hs]. split; cbn [pages set_pages next_page].
  - intros j [f Hf]. destruct (decide (j = id)) as [-> | Hj]; [eauto|].
    rewrite lookup_insert_ne in Hf by done. eauto.
  - intros j f Hf Hty. destruct (decide (j = id)) as [-> | Hj].
    + rewrite lookup_insert_eq in Hf. injection Hf as <-. constructor.
    + rewrite lookup_insert_ne in Hf by done. by eapply Hs.
Qed.

Lemma UpdateRootPageId_prepares b : respects prepares (UpdateRootPageId b).
Proof.
  apply (UpdateRootPageId_respects prepares (fun _ => True)).
  - apply pin_step_prepares.
  - intros t op _. split; [by apply pool_ok_same_nodes | reflexivity].
  - intros; by destruct b.
Qed.

Lemma DeletePage_prepares id : respects prepares (DeletePage id).
Proof.
  apply (DeletePage_respects prepares).
  intros t j. split; [apply delete_keeps_pool_ok | reflexivity].
Qed.

Lemma set_root_prepares r t : prepares t (set_root r t).
Proof. split; [by apply pool_ok_same_nodes | reflexivity]. Qed.

Lemma StartNewTree_separators fuel key value tx t u t' :
  pool_ok t -> StartNewTree fuel key value tx t = Done u t' -> separators t t'.
Proof.
  intros Hok H. unfold StartNewTree in H.
  apply bind_Done in H as (r & t1 & [Hok1 Hc1]%NewPage_prepares & H).
  destruct r as [new_id|]; [|discriminate].
  apply bind_Done in H as (? & t2 & [Hok2 Hc2]%Init_prepares & H).
  apply bind_Done in H as (? & t3 & Hu & H).
  apply (UnpinPage_respects prepares pin_step_prepares) in Hu as [Hok3 Hc3].
  apply bind_Done in H as (? & s & [-> ->]%get_Done & H).
  apply bind_Done in H as (? & t4 & Hcas & H).
  assert (prepares t3 t4) as [Hok4 Hc4].
  { destruct (root_page_id t3 =? INVALID_PAGE_ID).
    - apply bind_Done in Hcas as (? & s & ->%modify_Done & Hcas).
      etransitivity; [apply set_root_prepares | eapply UpdateRootPageId_prepares, Hcas].
    - apply bind_Done in Hcas as (? & s & Hd & [_ <-]%ret_Done).
      eapply DeletePage_prepares, Hd. }
  apply bind_Done in H as (b & t5 & Hleaf & [_ <-]%ret_Done).
  apply InsertIntoLeaf_separators in Hleaf as (l & Hl & HP); [|auto].
  exists l. split; [|exact HP]. unfold same_calls in *. congruence.
Qed.

(** ** Separator keys of an insertion *)

Lemma increasing_sorted l : increasing l = true -> StronglySorted Z.lt l.
Proof.
  induction l as [|x r IH]; cbn; [constructor|].
  intros [Hx Hr]%andb_prop. constructor; [auto|].
  apply Forall_forall. intros y Hy.
  rewrite forallb_forall in Hx. apply Z.ltb_lt, Hx. by apply list_elem_of_In.
Qed.

Lemma pool_okb_ok t : pool_okb t = true -> pool_ok t.
Proof.
  unfold pool_okb. rewrite forallb_forall. intros H.
  assert (H' : forall id f, pages t !! id = Some f -> frame_ok (next_page t) (id, f) = true).
  { intros id f Hf. apply H, list_elem_of_In. by apply elem_of_map_to_list. }
  split.
  - intros id [f Hf]. apply H' in Hf. unfold frame_ok in Hf.
    apply andb_prop in Hf as [Hf _]. cbn in Hf. lia.
  - intros id f Hf Hty. apply H' in Hf. unfold frame_ok in Hf.
    apply andb_prop in Hf as [_ Hf]. cbn [snd] in Hf. rewrite Hty in Hf.
    by apply increasing_sorted.
Qed.

(** C6: separator keys after a split.  Every call of [InsertIntoParent] that
    a run of [Insert] makes -- one for each node that overflowed and was
    split -- passes the key the spec names: when the split node is a leaf,
    the largest key of that (left, original) leaf as it is after the move;
    when it is an internal page, the first key of the new right node. *)
Theorem split_separator_keys fuel key value tx t b t' :
  pool_ok t -> Insert fuel key value tx t = Done b t' -> separators t t'.
Proof.
  intros Hok H. unfold Insert in H. rewrite bind_get in H.
  destruct (IsEmpty t).
  - apply bind_Done in H as (? & s & Hs & [_ <-]%ret_Done).
    by eapply StartNewTree_separators.
  - by eapply InsertIntoLeaf_separators.
Qed.

(** Key 17 splits a leaf and, above it, the internal page. *)
Lemma split_separator_keys_witness :
  pool_ok sixteen_key_tree /\
  Insert 8 17 170 false sixteen_key_tree =
    Done true (exec (Insert 8 17 170 false) sixteen_key_tree) /\
  separators sixteen_key_tree (exec (Insert 8 17 170 false) sixteen_key_tree).
Proof.
  assert (Hok : pool_ok sixteen_key_tree) by (apply pool_okb_ok; vm_compute; reflexivity).
  assert (Hrun : Insert 8 17 170 false sixteen_key_tree =
                 Done true (exec (Insert 8 17 170 false) sixteen_key_tree))
    by (vm_compute; reflexivity).
  split; [exact Hok|]. split; [exact Hrun|].
  exact (split_separator_keys 8 17 170 false sixteen_key_tree true _ Hok Hrun).
Defined.

(** The two calls of that run: the leaf 6 gives up its largest key, 15, and
    the internal page 3 the first key, 9, of its new right sibling. *)
Example Insert_17_calls :
  call_summary <$> drop (length (calls sixteen_key_tree))
                        (calls (exec (Insert 8 17 170 false) sixteen_key_tree)) =
  [(6, [13; 14; 15], 15, [16; 17]); (3, [0; 3; 6], 9, [9; 12; 15])].
Proof. vm_compute. reflexivity. Qed.

(** * Operations that only read *)

Lemma tree_ext t t' :
  index_name t = index_name t' -> root_page_id t = root_page_id t' ->
  leaf_max_size t = leaf_max_size t' -> internal_max_size t = internal_max_size t' ->
  pages t = pages t' -> next_page t = next_page t' -> pool_size t = pool_size t' ->
  header_ops t = header_ops t' -> page_set t = page_set t' ->
  deleted_page_set t = deleted_page_set t' -> calls t = calls t' -> t = t'.
Proof. destruct t, t'; cbn; intros; subst; reflexivity. Qed.

(** Two states are equal when their fields are; what is left to show is the
    equality of the fields that the run wrote to. *)
Ltac tree_eq := apply tree_ext; proj_simpl; try reflexivity.

Ltac proj_simpl_in H :=
  cbn [pages root_page_id index_name leaf_max_size internal_max_size next_page pool_size
       header_ops page_set deleted_page_set calls set_pages set_root set_next_page
       set_header_ops set_page_set set_deleted_page_set set_calls
       data pin_count is_dirty readers writer] in H.

Lemma set_pages_set_pages m m' t : set_pages m (set_pages m' t) = set_pages m t.
Proof. reflexivity. Qed.

Lemma set_pages_back m m' t : m = pages t -> set_pages m (set_pages m' t) = t.
Proof. intros ->. by destruct t. Qed.

Lemma FetchPage_pinned id t f :
  pages t !! id = Some f -> FetchPage id t = Done (Some id) (pinned id t).
Proof.
  intros H. rewrite (FetchPage_Done _ _ _ H). unfold pinned. do 2 f_equal.
  apply map_eq. intros j. destruct (decide (j = id)) as [-> | Hj].
  - by rewrite lookup_insert_eq, lookup_alter_eq, H.
  - by rewrite lookup_insert_ne, lookup_alter_ne.
Qed.

Lemma FetchPage_None id t : pages t !! id = None -> FetchPage id t = Done None t.
Proof. intros H. unfold FetchPage. by rewrite H. Qed.

Lemma GetPage_pinned id t btp t' :
  GetPage id false 0 t = Done btp t' ->
  btp = id /\ is_Some (pages t !! id) /\ t' = pinned id t.
Proof.
  unfold GetPage. destruct (pages t !! id) as [f|] eqn:Hf.
  - rewrite (bind_step _ _ _ _ _ (FetchPage_pinned _ _ _ Hf)).
    cbn [from_option]. rewrite bind_ret. intros [= <- <-]. eauto.
  - rewrite (bind_step _ _ _ _ _ (FetchPage_None _ _ Hf)). discriminate.
Qed.

Lemma GetPage_Done id t f :
  pages t !! id = Some f -> GetPage id false 0 t = Done id (pinned id t).
Proof.
  intros Hf. unfold GetPage. by rewrite (bind_step _ _ _ _ _ (FetchPage_pinned _ _ _ Hf)).
Qed.

(** Unpinning, clean, a page that was fetched gives the state before the
    fetch. *)
Lemma UnpinPage_pinned_frame id t f :
  pages t !! id = Some f -> 0 <= pin_count f ->
  UnpinPage id false (pinned id t) = Done true t.
Proof.
  intros Hf Hp. unfold UnpinPage, pinned. proj_simpl.
  rewrite lookup_alter_eq, Hf. cbn. proj_simpl.
  destruct (0 <? pin_count f + 1) eqn:E; [|lia].
  f_equal. apply set_pages_back.
  apply map_eq. intros j. destruct (decide (j = id)) as [-> | Hj].
  - rewrite lookup_insert_eq, Hf. destruct f; cbn. do 2 f_equal; [lia | apply orb_false_r].
  - by rewrite lookup_insert_ne, lookup_alter_ne.
Qed.

Lemma UnpinPage_pinned id t :
  pins_ok t -> is_Some (pages t !! id) ->
  UnpinPage id false (pinned id t) = Done true t.
Proof. intros Hp [f Hf]. eapply UnpinPage_pinned_frame; eauto. Qed.

Lemma pinned_lookup_ne id j t : j <> id -> pages (pinned id t) !! j = pages t !! j.
Proof. intros H. unfold pinned. proj_simpl. by rewrite lookup_alter_ne. Qed.

Lemma pinned_lookup id t : pages (pinned id t) !! id = pin_frame 1 <$> pages t !! id.
Proof. unfold pinned. proj_simpl. by rewrite lookup_alter_eq. Qed.

Lemma pinned_data id j t : data <$> pages (pinned id t) !! j = data <$> pages t !! j.
Proof.
  destruct (decide (j = id)) as [-> | Hj].
  - rewrite pinned_lookup. by destruct (pages t !! id).
  - by rewrite pinned_lookup_ne.
Qed.

Lemma pinned_comm a b t : pinned a (pinned b t) = pinned b (pinned a t).
Proof.
  destruct (decide (a = b)) as [-> | H]; [reflexivity|].
  unfold pinned. proj_simpl. rewrite !set_pages_set_pages.
  by rewrite alter_alter_ne.
Qed.

Lemma pins_ok_pinned id t : pins_ok t -> pins_ok (pinned id t).
Proof.
  intros H j f. destruct (decide (j = id)) as [-> | Hj].
  - rewrite pinned_lookup. destruct (pages t !! id) as [g|] eqn:Hg; [|discriminate].
    intros [= <-]. cbn. specialize (H _ _ Hg). lia.
  - rewrite pinned_lookup_ne by done. apply H.
Qed.

Lemma read_page_data id t p :
  data <$> pages t !! id = Some p -> read_page id t = Done p t.
Proof.
  unfold read_page. destruct (pages t !! id); [|discriminate]. by intros [= ->].
Qed.

(** One round of the descent without a transaction: the child is pinned,
    the page the descent leaves is unpinned again. *)
Lemma descend_step_pinned key mode pid t next t' :
  pins_ok t -> is_Some (pages t !! pid) ->
  descend_step key false mode pid (pinned pid t) = Done next t' ->
  is_Some (pages t !! next) /\ t' = pinned next t.
Proof.
  intros Hp Hpid. unfold descend_step.
  intros (nx & s & Hlook & H)%bind_Done.
  assert (s = pinned pid t) as ->.
  { unfold internal_Lookup in Hlook.
    apply bind_Done in Hlook as (p & s' & [-> _]%read_page_Done_inv & [_ ->]%from_option_Done).
    reflexivity. }
  apply bind_Done in H as (btp & t1 & (-> & Hnx & ->)%GetPage_pinned & H).
  rewrite pinned_comm in H.
  assert (Hnx' : is_Some (pages t !! nx)).
  { destruct (decide (nx = pid)) as [-> | Hne]; [exact Hpid|].
    by rewrite pinned_lookup_ne in Hnx. }
  rewrite bind_bind in H.
  rewrite (bind_step _ _ _ _ _ (UnpinPage_pinned pid (pinned nx t) (pins_ok_pinned _ _ Hp)
             ltac:(destruct (decide (pid = nx)) as [-> | Hne];
                   [rewrite pinned_lookup; destruct Hnx' as [? ->]; eauto
                   | by rewrite pinned_lookup_ne]))) in H.
  rewrite !bind_ret in H. injection H as <- <-. auto.
Qed.

Lemma descend_pinned fuel key mode : forall pid t leaf t',
  pins_ok t -> is_Some (pages t !! pid) ->
  descend fuel key false mode pid (pinned pid t) = Done leaf t' ->
  t' = pinned leaf t /\
  exists f, pages t !! leaf = Some f /\ IsLeafPage (data f) = true.
Proof.
  induction fuel as [|n IH]; intros pid t leaf t' Hp [f Hf] H; cbn [descend] in H;
    rewrite (bind_step _ _ _ _ _ (read_page_data pid _ (data f)
               ltac:(by rewrite pinned_data, Hf))) in H;
    destruct (IsLeafPage (data f)) eqn:Hleaf.
  - injection H as <- <-. eauto.
  - discriminate.
  - injection H as <- <-. eauto.
  - apply bind_Done in H as (next & t1 & Hstep & H).
    apply descend_step_pinned in Hstep as [Hnext ->]; [|done|eauto].
    by eapply IH.
Qed.

(** What [GetLeafPage] returns without a transaction. *)
Lemma GetLeafPage_pinned fuel key mode t r t' :
  pins_ok t ->
  GetLeafPage fuel key false mode t = Done r t' ->
  match r with
  | None => root_page_id t = INVALID_PAGE_ID /\ t' = t
  | Some leaf =>
      root_page_id t <> INVALID_PAGE_ID /\ t' = pinned leaf t /\
      exists f, pages t !! leaf = Some f /\ IsLeafPage (data f) = true
  end.
Proof.
  intros Hp. unfold GetLeafPage. rewrite bind_get. unfold IsEmpty.
  case_bool_decide as Hroot.
  - intros [= <- <-]. auto.
  - cbn [negb orb]. unfold assert at 1. rewrite bind_ret.
    intros (btp & t1 & (-> & Hr & ->)%GetPage_pinned & H)%bind_Done.
    rewrite bind_ret in H.
    apply bind_Done in H as (leaf & t2 & Hd & [= <- <-]).
    apply descend_pinned in Hd as [-> Hleaf]; auto.
Qed.

(** X1: without a transaction [GetLeafPage] returns nullptr for the empty
    tree, with the state as it was, and otherwise a leaf page that it leaves
    pinned once more; every page it fetched on the way down is unpinned again
    and nothing else is changed. *)
Theorem GetLeafPage_returns_pinned_leaf fuel key mode t r t' :
  pins_ok t ->
  GetLeafPage fuel key false mode t = Done r t' ->
  match r with
  | None => root_page_id t = INVALID_PAGE_ID /\ t' = t
  | Some leaf =>
      root_page_id t <> INVALID_PAGE_ID /\ t' = pinned leaf t /\
      exists f, pages t !! leaf = Some f /\ page_type (data f) = LEAF_PAGE
  end.
Proof.
  intros Hp H. apply GetLeafPage_pinned in H; [|exact Hp].
  destruct r as [leaf|]; [|exact H].
  destruct H as (Hr & -> & f & Hf & Hleaf). split_and!; [done..|].
  exists f. split; [done|]. unfold IsLeafPage in Hleaf. by apply bool_decide_eq_true in Hleaf.
Qed.

(** ** A search with a transaction *)

Lemma lockFor_read_Done id t f :
  pages t !! id = Some f -> writer f = false ->
  lockFor 0 id t =
    Done tt (set_pages (<[id := mkFrame (data f) (pin_count f) (is_dirty f)
                                        (S (readers f)) false]> (pages t)) t).
Proof. intros H W. unfold lockFor. rewrite H. cbn. by rewrite W. Qed.

Lemma lockFor_read_inv id t u t' :
  lockFor 0 id t = Done u t' -> exists f, pages t !! id = Some f /\ writer f = false.
Proof.
  unfold lockFor. destruct (pages t !! id) as [f|]; [|discriminate]. cbn.
  destruct (writer f) eqn:W; [discriminate|]. intros _. eauto.
Qed.

Lemma unlockFor_read_Done id t f :
  pages t !! id = Some f ->
  unlockFor 0 id t =
    Done tt (set_pages (<[id := mkFrame (data f) (pin_count f) (is_dirty f)
                                        (Nat.pred (readers f)) (writer f)]> (pages t)) t).
Proof. intros H. unfold unlockFor. rewrite H. reflexivity. Qed.

(** Releasing, clean, a page that is held gives the state before it was
    fetched and latched. *)
Lemma release_held id t f l :
  pins_ok t -> deleted_page_set t = ∅ ->
  pages t !! id = Some f -> writer f = false ->
  release_page 0 false id (set_page_set l (set_pages (alter hold_frame id (pages t)) t))
  = Done tt (set_page_set l t).
Proof.
  intros Hp Hd Hf Hw. unfold release_page.
  erewrite bind_step; [| apply unlockFor_read_Done; proj_simpl; by rewrite lookup_alter_eq, Hf].
  proj_simpl.
  erewrite bind_step;
    [| eapply UnpinPage_Done; proj_simpl;
       [apply lookup_insert_eq | cbn; specialize (Hp _ _ Hf); lia]].
  proj_simpl. rewrite bind_get. proj_simpl. rewrite Hd.
  rewrite bool_decide_eq_false_2 by set_solver.
  unfold ret. f_equal. tree_eq.
  rewrite insert_insert_eq. apply map_eq. intros j. destruct (decide (j = id)) as [-> | Hj].
  - rewrite lookup_insert_eq, Hf. destruct f; cbn in *. subst. do 2 f_equal; [lia | apply orb_false_r].
  - by rewrite lookup_insert_ne, lookup_alter_ne.
Qed.

Lemma held_lookup_ne id j t : j <> id -> pages (held id t) !! j = pages t !! j.
Proof. intros H. unfold held. proj_simpl. by rewrite lookup_alter_ne. Qed.

Lemma held_lookup id t : pages (held id t) !! id = hold_frame <$> pages t !! id.
Proof. unfold held. proj_simpl. by rewrite lookup_alter_eq. Qed.

Lemma held_data id j t : data <$> pages (held id t) !! j = data <$> pages t !! j.
Proof.
  destruct (decide (j = id)) as [-> | Hj].
  - rewrite held_lookup. by destruct (pages t !! id).
  - by rewrite held_lookup_ne.
Qed.

(** Fetching and read-latching a page. *)
Lemma fetch_and_hold id t l u t' :
  (GetPage id false 0 ;; lockFor 0 id) (set_page_set l t) = Done u t' ->
  (exists f, pages t !! id = Some f /\ writer f = false) /\
  t' = set_page_set l (set_pages (alter hold_frame id (pages t)) t).
Proof.
  intros (btp & t1 & (-> & [f Hf] & ->)%GetPage_pinned & H)%bind_Done.
  proj_simpl_in Hf.
  destruct (lockFor_read_inv _ _ _ _ H) as (g & Hg & Hw).
  rewrite pinned_lookup in Hg. proj_simpl_in Hg. rewrite Hf in Hg. injection Hg as <-.
  cbn in Hw. split; [eauto|].
  erewrite lockFor_read_Done in H; [| rewrite pinned_lookup; proj_simpl; by rewrite Hf | exact Hw].
  injection H as _ <-. unfold pinned. tree_eq.
  apply map_eq. intros j. destruct (decide (j = id)) as [-> | Hj].
  - by rewrite lookup_insert_eq, lookup_alter_eq, Hf.
  - by rewrite lookup_insert_ne, !lookup_alter_ne.
Qed.

Lemma alter_hold_comm a b (m : gmap Z Frame) :
  alter hold_frame a (alter hold_frame b m) = alter hold_frame b (alter hold_frame a m).
Proof.
  destruct (decide (a = b)) as [-> | H]; [reflexivity | by apply alter_alter_ne].
Qed.

Lemma pins_ok_alter_hold id t :
  pins_ok t -> pins_ok (set_pages (alter hold_frame id (pages t)) t).
Proof.
  intros H j f. proj_simpl. destruct (decide (j = id)) as [-> | Hj].
  - rewrite lookup_alter_eq. destruct (pages t !! id) as [g|] eqn:Hg; [|discriminate].
    intros [= <-]. cbn. specialize (H _ _ Hg). lia.
  - rewrite lookup_alter_ne by done. apply H.
Qed.

Lemma unlatched_alter_hold id j t f :
  pages t !! j = Some f -> writer f = false ->
  exists f', alter hold_frame id (pages t) !! j = Some f' /\ writer f' = false.
Proof.
  intros Hf Hw. destruct (decide (j = id)) as [-> | Hj].
  - rewrite lookup_alter_eq, Hf. eexists. split; reflexivity.
  - rewrite lookup_alter_ne by done. eauto.
Qed.

(** One round of a read descent with a transaction: the child is fetched
    and latched, the page the descent leaves is released. *)
Lemma descend_step_held key pid t next t' :
  pins_ok t -> deleted_page_set t = ∅ ->
  (exists f, pages t !! pid = Some f /\ writer f = false) ->
  descend_step key true 0 pid (held pid t) = Done next t' ->
  (exists g, pages t !! next = Some g /\ writer g = false) /\ t' = held next t.
Proof.
  intros Hp Hd (f & Hf & Hw). unfold descend_step.
  intros (nx & s & Hlook & H)%bind_Done.
  assert (s = held pid t) as ->.
  { unfold internal_Lookup in Hlook.
    apply bind_Done in Hlook as (p & s' & [-> _]%read_page_Done_inv & [_ ->]%from_option_Done).
    reflexivity. }
  apply bind_Done in H as (btp & t1 & Hget & H).
  apply bind_Done in H as (u & t2 & H & [= <- <-]).
  pose proof (GetPage_value _ _ _ _ _ _ Hget) as ->.
  apply bind_Done in H as (u1 & t3 & Hlock & H).
  assert (Hfl : (GetPage nx false 0 ;; lockFor 0 nx) (held pid t) = Done u1 t3).
  { apply bind_Done. eauto. }
  unfold held in Hfl. apply fetch_and_hold in Hfl as [(g1 & Hg1 & Hw1) ->].
  proj_simpl_in Hg1.
  assert (Hg : exists g, pages t !! nx = Some g /\ writer g = false).
  { destruct (decide (nx = pid)) as [-> | Hne]; [eauto|].
    rewrite lookup_alter_ne in Hg1 by done. eauto. }
  split; [exact Hg|]. destruct Hg as (g & Hg & Hwg).
  apply bind_Done in H as (child & s & [-> _]%read_page_Done_inv & H).
  apply bind_Done in H as (u2 & t4 & Hrel & ->%modify_Done).
  cbn [release_ancestors Z.eqb] in Hrel.
  unfold clearTxnWorkSet in Hrel. rewrite bind_get, bind_modify in Hrel.
  proj_simpl_in Hrel. cbn [release_all] in Hrel.
  rewrite alter_hold_comm in Hrel.
  pose (T := set_pages (alter hold_frame nx (pages t)) t).
  destruct (unlatched_alter_hold nx pid t f Hf Hw) as (f' & Hf' & Hw').
  pose proof (release_held pid T f' [] (pins_ok_alter_hold nx t Hp) Hd Hf' Hw') as Hr.
  subst T. proj_simpl_in Hr.
  apply bind_Done in Hrel as (u3 & t5 & Hrel & [= _ <-]).
  pose proof (eq_trans (eq_sym Hrel) Hr) as [= _ ->].
  unfold held. tree_eq.
Qed.

Lemma descend_held fuel key : forall pid t leaf t',
  pins_ok t -> deleted_page_set t = ∅ ->
  (exists f, pages t !! pid = Some f /\ writer f = false) ->
  descend fuel key true 0 pid (held pid t) = Done leaf t' ->
  t' = held leaf t /\ exists f, pages t !! leaf = Some f /\ writer f = false.
Proof.
  induction fuel as [|n IH]; intros pid t leaf t' Hp Hd (f & Hf & Hw) H; cbn [descend] in H;
    rewrite (bind_step _ _ _ _ _ (read_page_data pid _ (data f)
               ltac:(by rewrite held_data, Hf))) in H;
    destruct (IsLeafPage (data f)) eqn:Hleaf.
  - injection H as <- <-. eauto.
  - discriminate.
  - injection H as <- <-. eauto.
  - apply bind_Done in H as (next & t1 & Hstep & H).
    apply descend_step_held in Hstep as [Hnext ->]; [|done|done|eauto].
    by eapply IH.
Qed.

(** A read descent with a transaction ends with the leaf fetched, latched
    and alone in the work set. *)
Lemma GetLeafPage_held fuel key t leaf t' :
  pins_ok t -> page_set t = [] ->
  GetLeafPage fuel key true 0 t = Done (Some leaf) t' ->
  deleted_page_set t = ∅ /\ t' = held leaf t /\
  exists f, pages t !! leaf = Some f /\ writer f = false.
Proof.
  intros Hp Hps. unfold GetLeafPage. rewrite bind_get. unfold IsEmpty.
  case_bool_decide as Hroot; [discriminate|].
  intros (u & s & [Ha ->]%assert_Done & H)%bind_Done.
  cbn [negb orb] in Ha. apply andb_prop in Ha as [_ Hd%bool_decide_eq_true].
  split; [exact Hd|].
  apply bind_Done in H as (btp & t1 & Hget & H).
  pose proof (GetPage_value _ _ _ _ _ _ Hget) as ->.
  apply bind_Done in H as (start & t2 & H & H2).
  apply bind_Done in H as (u1 & t3 & Hlock & H).
  assert (Hfl : (GetPage (root_page_id t) false 0 ;; lockFor 0 (root_page_id t))
                  (set_page_set [] t) = Done u1 t3).
  { apply bind_Done. exists (root_page_id t), t1. split; [|exact Hlock].
    rewrite <- Hget. f_equal. rewrite <- Hps. by destruct t. }
  apply fetch_and_hold in Hfl as [Hf ->].
  apply bind_Done in H as (btp' & t4 & Hre & H).
  assert (btp' = root_page_id t /\ t4 = set_page_set [] (set_pages (alter hold_frame (root_page_id t) (pages t)) t)) as [-> ->].
  { destruct fuel; cbn [relock_root] in Hre; rewrite bind_get in Hre; proj_simpl_in Hre;
      rewrite Z.eqb_refl in Hre; by injection Hre as <- <-. }
  apply bind_Done in H as (u2 & t5 & ->%modify_Done & [= <- <-]).
  apply bind_Done in H2 as (lf & t6 & Hdesc & [= <- <-]).
  change (set_page_set _ _) with (held (root_page_id t) t) in Hdesc.
  by apply descend_held in Hdesc.
Qed.

(** X2: [GetValue] only reads.  With or without a transaction, a call that
    returns leaves the state exactly as it found it: every page it fetched
    is unpinned, every latch it took is released, no page is marked dirty
    and the work set is empty again. *)
Theorem GetValue_leaves_the_state fuel key tx t r t' :
  pins_ok t -> ids_ok t ->
  GetValue fuel key tx t = Done r t' -> t' = t.
Proof.
  intros Hp Hi. unfold GetValue.
  intros (u & s & Hentry & H)%bind_Done.
  destruct tx.
  - assert (page_set t = [] /\ s = t) as [Hps ->].
    { unfold assert_page_set_empty in Hentry. rewrite bind_get in Hentry.
      cbn [negb orb] in Hentry. case_bool_decide; [|discriminate].
      by injection Hentry as _ <-. }
    apply bind_Done in H as (leaf & t1 & Hleaf & H).
    destruct leaf as [lp|]; [|apply bind_Done in H as (? & ? & [[=] _]%from_option_Done & _)].
    apply GetLeafPage_held in Hleaf as (Hd & -> & f & Hf & Hw); [|done..].
    cbn [from_option] in H. rewrite bind_ret in H.
    apply bind_Done in H as (r0 & s & Hl & H).
    assert (s = held lp t) as ->.
    { unfold Lookup in Hl.
      apply bind_Done in Hl as (p & s' & [-> _]%read_page_Done_inv & [= _ <-]). reflexivity. }
    apply bind_Done in H as (u1 & t2 & Hrel & H).
    unfold clearTxnWorkSet in Hrel. rewrite bind_get, bind_modify in Hrel.
    unfold held in Hrel. proj_simpl_in Hrel. cbn [release_all] in Hrel.
    apply bind_Done in Hrel as (u3 & t5 & Hrel & [= _ <-]).
    pose proof (release_held lp t f [] Hp Hd Hf Hw) as Hr.
    pose proof (eq_trans (eq_sym Hrel) Hr) as [= _ ->].
    apply bind_Done in H as (u4 & t6 & Hexit & [= _ <-]).
    unfold assert_page_set_empty in Hexit. rewrite bind_get in Hexit.
    cbn [negb orb] in Hexit. case_bool_decide; [|discriminate].
    injection Hexit as _ <-. tree_eq. by rewrite Hps.
  - assert (s = t) as ->.
    { unfold assert_page_set_empty in Hentry. rewrite bind_get in Hentry.
      by injection Hentry as _ <-. }
    apply bind_Done in H as (leaf & t1 & Hleaf & H).
    apply GetLeafPage_pinned in Hleaf; [|exact Hp].
    destruct leaf as [lp|]; [|apply bind_Done in H as (? & ? & [[=] _]%from_option_Done & _)].
    destruct Hleaf as (_ & -> & f & Hf & _).
    cbn [from_option] in H. rewrite bind_ret in H.
    apply bind_Done in H as (r0 & s & Hl & H).
    assert (s = pinned lp t) as ->.
    { unfold Lookup in Hl.
      apply bind_Done in Hl as (p & s' & [-> _]%read_page_Done_inv & [= _ <-]). reflexivity. }
    rewrite bind_bind in H.
    rewrite (bind_step _ _ _ _ _ (read_page_data lp _ (data f)
               ltac:(by rewrite pinned_data, Hf))) in H.
    rewrite (Hi _ _ Hf) in H. rewrite bind_bind in H.
    rewrite (bind_step _ _ _ _ _ (UnpinPage_pinned lp t Hp ltac:(eauto))) in H.
    rewrite !bind_ret in H.
    apply bind_Done in H as (u4 & t6 & Hexit & [= _ <-]).
    unfold assert_page_set_empty in Hexit. rewrite bind_get in Hexit.
    by injection Hexit as _ <-.
Qed.

(** ** Checking a concrete pool *)

Lemma forallb_pages (P : Z * Frame -> bool) t id f :
  forallb P (map_to_list (pages t)) = true -> pages t !! id = Some f -> P (id, f) = true.
Proof.
  rewrite forallb_forall. intros H Hf. apply H, list_elem_of_In.
  by apply elem_of_map_to_list.
Qed.

Lemma pins_okb_ok t : pins_okb t = true -> pins_ok t.
Proof. intros H id f Hf. apply (forallb_pages _ _ _ _ H) in Hf. cbn in Hf. lia. Qed.

Lemma ids_okb_ok t : ids_okb t = true -> ids_ok t.
Proof. intros H id f Hf. apply (forallb_pages _ _ _ _ H) in Hf. cbn in Hf. lia. Qed.

Lemma GetValue_leaves_the_state_witness :
  GetValue 8 4 true five_key_tree = Done (Some 40) five_key_tree /\
  GetValue 8 6 false five_key_tree = Done None five_key_tree.
Proof.
  assert (Hp : pins_ok five_key_tree) by (apply pins_okb_ok; vm_compute; reflexivity).
  assert (Hi : ids_ok five_key_tree) by (apply ids_okb_ok; vm_compute; reflexivity).
  split.
  - assert (H : GetValue 8 4 true five_key_tree
                = Done (Some 40) (exec (GetValue 8 4 true) five_key_tree))
      by (vm_compute; reflexivity).
    rewrite H. apply (f_equal (Done (Some 40))).
    exact (GetValue_leaves_the_state 8 4 true five_key_tree _ _ Hp Hi H).
  - assert (H : GetValue 8 6 false five_key_tree
                = Done None (exec (GetValue 8 6 false) five_key_tree))
      by (vm_compute; reflexivity).
    rewrite H. apply (f_equal (Done None)).
    exact (GetValue_leaves_the_state 8 6 false five_key_tree _ _ Hp Hi H).
Defined.

(** ** The iterator at a key *)

(** X3: [Begin(key)] only reads: a call that returns leaves the state as it
    found it, and the iterator it builds stands in a leaf page, at the index
    of the first key of that leaf that is not below [key]. *)
Theorem Begin_key_leaves_the_state fuel key t it t' :
  pins_ok t -> ids_ok t ->
  Begin_key fuel key t = Done it t' ->
  t' = t /\
  exists f, pages t !! it.1 = Some f /\ page_type (data f) = LEAF_PAGE /\
            it.2 = KeyIndex key (array (data f)).
Proof.
  intros Hp Hi. unfold Begin_key.
  intros (leaf & t1 & Hleaf & H)%bind_Done.
  apply GetLeafPage_pinned in Hleaf; [|exact Hp].
  destruct leaf as [lp|]; [|apply bind_Done in H as (? & ? & [[=] _]%from_option_Done & _)].
  destruct Hleaf as (_ & -> & f & Hf & Hleaf).
  cbn [from_option] in H. rewrite bind_ret in H.
  rewrite (bind_step _ _ _ _ _ (read_page_data lp _ (data f)
             ltac:(by rewrite pinned_data, Hf))) in H.
  rewrite (Hi _ _ Hf) in H.
  rewrite (bind_step _ _ _ _ _ (UnpinPage_pinned lp t Hp ltac:(eauto))) in H.
  injection H as <- <-. split; [reflexivity|]. cbn [fst snd].
  exists f. split_and!; [done | | done].
  unfold IsLeafPage in Hleaf. by apply bool_decide_eq_true in Hleaf.
Qed.

Lemma Begin_key_leaves_the_state_witness :
  Begin_key 8 5 five_key_tree = Done (2, 1) five_key_tree.
Proof.
  assert (Hp : pins_ok five_key_tree) by (apply pins_okb_ok; vm_compute; reflexivity).
  assert (Hi : ids_ok five_key_tree) by (apply ids_okb_ok; vm_compute; reflexivity).
  assert (H : Begin_key 8 5 five_key_tree
              = Done (2, 1) (exec (Begin_key 8 5) five_key_tree))
    by (vm_compute; reflexivity).
  rewrite H. apply (f_equal (Done (2, 1))).
  exact (proj1 (Begin_key_leaves_the_state 8 5 five_key_tree _ _ Hp Hi H)).
Defined.

Lemma GetLeafPage_returns_pinned_leaf_witness :
  GetLeafPage 8 4 false 1 five_key_tree = Done (Some 2) (pinned 2 five_key_tree).
Proof.
  assert (Hp : pins_ok five_key_tree) by (apply pins_okb_ok; vm_compute; reflexivity).
  assert (H : GetLeafPage 8 4 false 1 five_key_tree
              = Done (Some 2) (exec (GetLeafPage 8 4 false 1) five_key_tree))
    by (vm_compute; reflexivity).
  rewrite H. apply (f_equal (Done (Some 2))).
  exact (proj1 (proj2 (GetLeafPage_returns_pinned_leaf 8 4 1 five_key_tree _ _ Hp H))).
Defined.

(** * The debug printer *)

(** What [ToString] does at one page: two fetches, the pin count read in
    between, two unpins. *)
Lemma ToString_page_inv pid t x t' :
  ids_ok t -> ToString_page pid t = Done x t' ->
  exists f, pages t !! pid = Some f /\
    x = (if IsLeafPage (data f) then [] else snd <$> array (data f),
         (pid, pin_count f + 2), negb (pin_count f + 2 =? 2)) /\
    (0 <= pin_count f -> t' = t).
Proof.
  intros Hi. unfold ToString_page.
  intros (item & t1 & (-> & [f Hf] & ->)%GetPage_pinned & H)%bind_Done.
  exists f. split; [exact Hf|].
  rewrite (bind_step _ _ _ _ _ (read_page_data pid _ (data f)
             ltac:(by rewrite pinned_data, Hf))) in H.
  erewrite bind_step in H;
    [| eapply FetchPage_pinned; rewrite pinned_lookup, Hf; reflexivity].
  cbn [from_option] in H. rewrite bind_ret, bind_get in H.
  rewrite !pinned_lookup, Hf in H. cbn [fmap option_fmap option_map from_option pin_frame pin_count] in H.
  rewrite bind_ret in H. rewrite (Hi _ _ Hf) in H.
  destruct (Z_le_gt_dec 0 (pin_count f)) as [Hp | Hp].
  - erewrite bind_step in H;
      [| eapply (UnpinPage_pinned_frame pid (pinned pid t));
         [rewrite pinned_lookup, Hf; reflexivity | cbn; lia]].
    rewrite (bind_step _ _ _ _ _ (UnpinPage_pinned_frame pid t f Hf Hp)) in H.
    injection H as <- <-. split; [|reflexivity].
    replace (pin_count f + 1 + 1) with (pin_count f + 2) by lia. reflexivity.
  - apply bind_Done in H as (? & ? & _ & H).
    apply bind_Done in H as (? & ? & _ & [= <- _]).
    split; [|lia].
    replace (pin_count f + 1 + 1) with (pin_count f + 2) by lia. reflexivity.
Qed.

Lemma ToString_row_inv v : forall t x t',
  ids_ok t -> ToString_row v t = Done x t' -> x.2 = false ->
  t' = t /\ Forall (fun e : Z * Z => page_pins t e.1 = Some 0 /\ e.2 = 2) x.1.2.
Proof.
  induction v as [|pid v IH]; intros t x t' Hi H Hflag; cbn [ToString_row] in H.
  - injection H as <- <-. split; [reflexivity | constructor].
  - apply bind_Done in H as (a & t1 & Ha & H).
    apply bind_Done in H as (b & t2 & Hb & [= <- <-]).
    cbn [fst snd] in *. apply orb_false_elim in Hflag as [Fa Fb].
    apply ToString_page_inv in Ha as (f & Hf & -> & Ht); [|exact Hi].
    cbn [fst snd] in *. apply negb_false_iff, Z.eqb_eq in Fa.
    rewrite Ht in Hb by lia.
    apply IH in Hb as [-> Hall]; [|done..].
    split; [reflexivity|]. constructor; [|exact Hall].
    cbn. unfold page_pins. rewrite Hf. cbn. split; [f_equal|]; lia.
Qed.

Lemma ToString_rows_inv fuel : forall v t x t',
  ids_ok t -> ToString_rows fuel v t = Done x t' -> x.2 = false ->
  t' = t /\ Forall (fun e : Z * Z => page_pins t e.1 = Some 0 /\ e.2 = 2) x.1.
Proof.
  induction fuel as [|n IH]; intros v t x t' Hi H Hflag; cbn [ToString_rows] in H;
    destruct v as [|pid v].
  - injection H as <- <-. split; [reflexivity | constructor].
  - discriminate.
  - injection H as <- <-. split; [reflexivity | constructor].
  - apply bind_Done in H as (a & t1 & Ha & H).
    apply bind_Done in H as (b & t2 & Hb & [= <- <-]).
    cbn [fst snd] in *. apply orb_false_elim in Hflag as [Fa Fb].
    apply ToString_row_inv in Ha as [-> Ha]; [|done..].
    apply IH in Hb as [-> Hb]; [|done..].
    split; [reflexivity | by apply Forall_app].
Qed.

(** X4: [ToString] only reads, and it checks the pins: a call that returns
    leaves the state as it found it.  What it returns for the empty tree,
    and only then, is the text "Empty tree", for which it visits no page;
    for any other tree it returns what it printed page by page, and it has
    found every page it printed with no pin before the call (the count it
    prints, after its own two fetches, is 2); a pinned page on the way
    makes the final assertion fail. *)
Theorem ToString_leaves_the_state fuel t r t' :
  ids_ok t ->
  ToString fuel t = Done r t' ->
  t' = t /\
  match r with
  | inl text => root_page_id t = INVALID_PAGE_ID /\ text = "Empty tree"%string
  | inr rows =>
      root_page_id t <> INVALID_PAGE_ID /\
      Forall (fun e : Z * Z => page_pins t e.1 = Some 0 /\ e.2 = 2) rows
  end.
Proof.
  intros Hi. unfold ToString. rewrite bind_get. unfold IsEmpty.
  case_bool_decide as Hroot.
  - intros [= <- <-]. split_and!; [reflexivity | exact Hroot | reflexivity].
  - intros (x & t1 & Hx & H)%bind_Done.
    apply bind_Done in H as (u & s & [Hflag ->]%assert_Done & [= <- <-]).
    apply negb_true_iff in Hflag.
    apply ToString_rows_inv in Hx as [-> Hall]; [|done..].
    split_and!; [reflexivity | exact Hroot | exact Hall].
Qed.

Lemma ToString_leaves_the_state_witness :
  ToString 8 five_key_tree = Done (inr [(3, 2); (1, 2); (2, 2)]) five_key_tree.
Proof.
  assert (Hi : ids_ok five_key_tree) by (apply ids_okb_ok; vm_compute; reflexivity).
  assert (H : ToString 8 five_key_tree
              = Done (inr [(3, 2); (1, 2); (2, 2)]) (exec (ToString 8) five_key_tree))
    by (vm_compute; reflexivity).
  rewrite H. apply (f_equal (Done (inr [(3, 2); (1, 2); (2, 2)]))).
  exact (proj1 (ToString_leaves_the_state 8 five_key_tree _ _ Hi H)).
Defined.

(** The text for the empty tree. *)
Example ToString_empty_tree :
  ToString 8 fresh_index = Done (inl "Empty tree"%string) fresh_index.
Proof. reflexivity. Qed.

(** After [Begin()] the printer stops at its assertion: the pins that
    [Begin()] left are found. *)
Example ToString_after_Begin :
  ToString 8 (exec (Begin 8) five_key_tree) = Abort assert_fail.
Proof. vm_compute. reflexivity. Qed.

(** * A tree of one leaf *)

(** ** The entries of a leaf *)

Lemma leaf_lookup_None k a : leaf_lookup k a = None <-> k ∉ (fst <$> a).
Proof.
  induction a as [|[k' v'] a IH]; cbn.
  - split; [intros _; apply not_elem_of_nil | done].
  - destruct (k' =? k) eqn:E.
    + apply Z.eqb_eq in E as ->. split; [discriminate | intros H; exfalso; apply H; left].
    + apply Z.eqb_neq in E. rewrite IH, not_elem_of_cons.
      split; [intros H; split; [congruence | exact H] | intros [_ H]; exact H].
Qed.

Lemma leaf_lookup_insert_ne k key v a :
  k <> key -> leaf_lookup k (leaf_insert key v a) = leaf_lookup k a.
Proof.
  intros Hk. induction a as [|[k' v'] a IH]; cbn.
  - destruct (key =? k) eqn:E; [apply Z.eqb_eq in E; congruence | reflexivity].
  - destruct (key <? k') eqn:E1; cbn.
    + destruct (key =? k) eqn:E; [apply Z.eqb_eq in E; congruence | reflexivity].
    + destruct (key =? k') eqn:E2; cbn; [reflexivity|].
      destruct (k' =? k); [reflexivity | exact IH].
Qed.

Lemma leaf_lookup_insert key v a :
  sorted_keys a ->
  leaf_lookup key (leaf_insert key v a) = Some (default v (leaf_lookup key a)).
Proof.
  unfold sorted_keys. induction a as [|[k' v'] a IH]; cbn; intros Hs.
  - by rewrite Z.eqb_refl.
  - apply StronglySorted_inv in Hs as [Hs Hall].
    destruct (key <? k') eqn:E1; cbn.
    + rewrite Z.eqb_refl. apply Z.ltb_lt in E1.
      destruct (k' =? key) eqn:E; [apply Z.eqb_eq in E; lia|].
      assert (leaf_lookup key a = None) as ->; [|reflexivity].
      apply leaf_lookup_None. intros Hin.
      rewrite Forall_forall in Hall. specialize (Hall _ Hin). lia.
    + destruct (key =? k') eqn:E2; cbn.
      * apply Z.eqb_eq in E2 as ->. by rewrite Z.eqb_refl.
      * rewrite Z.eqb_sym, E2. by apply IH.
Qed.

Lemma leaf_insert_length key v a :
  sorted_keys a ->
  length (leaf_insert key v a) =
    if bool_decide (leaf_lookup key a = None) then S (length a) else length a.
Proof.
  unfold sorted_keys. induction a as [|[k' v'] a IH]; cbn; intros Hs; [reflexivity|].
  apply StronglySorted_inv in Hs as [Hs Hall].
  destruct (key <? k') eqn:E1; cbn.
  - apply Z.ltb_lt in E1.
    destruct (k' =? key) eqn:E; [apply Z.eqb_eq in E; lia|].
    rewrite bool_decide_eq_true_2; [reflexivity|].
    apply leaf_lookup_None. intros Hin.
    rewrite Forall_forall in Hall. specialize (Hall _ Hin). lia.
  - destruct (key =? k') eqn:E2; cbn.
    + rewrite Z.eqb_sym, E2. by rewrite bool_decide_eq_false_2.
    + rewrite Z.eqb_sym, E2. rewrite IH by done. by case_bool_decide.
Qed.

(** ** Search *)

Lemma GetLeafPage_root_leaf fuel key mode t f :
  root_leaf t f ->
  GetLeafPage fuel key false mode t = Done (Some (root_page_id t)) (pinned (root_page_id t) t).
Proof.
  intros (Hroot & Hf & Hty & Hid & Hp).
  unfold GetLeafPage. rewrite bind_get. unfold IsEmpty.
  rewrite bool_decide_eq_false_2 by done. cbn [negb orb]. unfold assert at 1. rewrite bind_ret.
  rewrite (bind_step _ _ _ _ _ (GetPage_Done _ _ _ Hf)). rewrite bind_ret.
  assert (Hd : descend fuel key false mode (root_page_id t) (pinned (root_page_id t) t)
               = Done (root_page_id t) (pinned (root_page_id t) t)).
  { destruct fuel; cbn [descend];
      rewrite (bind_step _ _ _ _ _ (read_page_data _ _ (data f)
                 ltac:(by rewrite pinned_data, Hf)));
      unfold IsLeafPage; by rewrite bool_decide_eq_true_2. }
  rewrite (bind_step _ _ _ _ _ Hd). reflexivity.
Qed.

Lemma GetValue_root_leaf fuel key t f :
  root_leaf t f ->
  GetValue fuel key false t = Done (leaf_lookup key (array (data f))) t.
Proof.
  intros Hr. pose proof Hr as (Hroot & Hf & Hty & Hid & Hp).
  unfold GetValue. unfold assert_page_set_empty at 1. rewrite bind_bind, bind_get.
  cbn [negb orb]. rewrite bind_ret.
  rewrite (bind_step _ _ _ _ _ (GetLeafPage_root_leaf fuel key 0 t f Hr)).
  cbn [from_option]. rewrite bind_ret.
  unfold Lookup. rewrite bind_bind.
  rewrite (bind_step _ _ _ _ _ (read_page_data _ _ (data f)
             ltac:(by rewrite pinned_data, Hf))).
  rewrite bind_ret, bind_bind.
  rewrite (bind_step _ _ _ _ _ (read_page_data _ _ (data f)
             ltac:(by rewrite pinned_data, Hf))).
  rewrite Hid, bind_bind.
  rewrite (bind_step _ _ _ _ _ (UnpinPage_pinned_frame _ t f Hf Hp)).
  reflexivity.
Qed.

(** ** Insertion into a root leaf that has room *)

Lemma write_page_pinned id p t f :
  pages t !! id = Some f ->
  write_page id p (pinned id t) =
    Done tt (set_pages (<[id := mkFrame p (pin_count f + 1) (is_dirty f) (readers f)
                                        (writer f)]> (pages t)) t).
Proof.
  intros Hf. erewrite write_page_Done; [| rewrite pinned_lookup, Hf; reflexivity].
  f_equal. unfold pinned. tree_eq. cbn.
  apply map_eq. intros j. destruct (decide (j = id)) as [-> | Hj].
  - by rewrite !lookup_insert_eq.
  - by rewrite !lookup_insert_ne, lookup_alter_ne.
Qed.

Lemma InsertIntoLeaf_root_leaf fuel key value t f :
  root_leaf t f ->
  Z.of_nat (length (leaf_insert key value (array (data f)))) <= max_size (data f) ->
  InsertIntoLeaf fuel key value false t =
    Done (negb (Z.of_nat (length (array (data f))) =?
                Z.of_nat (length (leaf_insert key value (array (data f))))))
         (store_leaf (root_page_id t) (leaf_insert key value (array (data f))) t).
Proof.
  intros Hr Hroom. pose proof Hr as (Hroot & Hf & Hty & Hid & Hp).
  unfold InsertIntoLeaf. unfold assert_page_set_empty at 1. rewrite bind_bind, bind_get.
  cbn [negb orb]. rewrite bind_ret.
  rewrite (bind_step _ _ _ _ _ (GetLeafPage_root_leaf fuel key 1 t f Hr)).
  rewrite (bind_step _ _ _ _ _ (read_page_data _ _ (data f)
             ltac:(by rewrite pinned_data, Hf))).
  unfold leaf_Insert. rewrite bind_bind.
  rewrite (bind_step _ _ _ _ _ (read_page_data _ _ (data f)
             ltac:(by rewrite pinned_data, Hf))).
  rewrite bind_bind.
  rewrite (bind_step _ _ _ _ _ (write_page_pinned _ _ _ _ Hf)).
  rewrite bind_ret.
  unfold GetMaxSize, GetSize. cbn [array set_array].
  destruct (max_size (data f) <? Z.of_nat (length (leaf_insert key value (array (data f))))) eqn:E;
    [lia|].
  rewrite bind_ret, bind_bind.
  erewrite bind_step; [| apply read_page_data; proj_simpl; by rewrite lookup_insert_eq].
  cbn [data page_id set_array]. rewrite Hid, bind_bind.
  erewrite bind_step;
    [| eapply UnpinPage_Done; proj_simpl; [apply lookup_insert_eq | cbn; lia]].
  rewrite bind_ret. unfold assert_page_set_empty. rewrite bind_bind, bind_get.
  cbn [negb orb]. rewrite !bind_ret. unfold ret. f_equal.
  unfold store_leaf. tree_eq.
  apply map_eq. intros j. destruct (decide (j = root_page_id t)) as [-> | Hj].
  - rewrite !lookup_insert_eq, lookup_alter_eq, Hf. cbn. unfold store_frame.
    do 2 f_equal; [lia | apply orb_true_r].
  - by rewrite !lookup_insert_ne, lookup_alter_ne.
Qed.

Lemma root_leaf_store t f a :
  root_leaf t f -> root_leaf (store_leaf (root_page_id t) a t) (store_frame a f).
Proof.
  intros (Hroot & Hf & Hty & Hid & Hp). unfold root_leaf, store_leaf. proj_simpl.
  rewrite lookup_alter_eq, Hf. split_and!; try done.
Qed.

(** X5: insert and lookup on a tree of one leaf.  When the root is a leaf
    with room for one more entry, [Insert] returns true exactly when the key
    is new, only the entries of that leaf change, and afterwards [GetValue]
    finds the key -- with the value just passed when the key is new, with
    the value it had when it was there -- and answers as before for every
    other key. *)
Theorem Insert_then_GetValue_root_leaf fuel key value t f :
  root_leaf t f ->
  sorted_keys (array (data f)) ->
  Z.of_nat (length (array (data f))) < max_size (data f) ->
  let found := leaf_lookup key (array (data f)) in
  let t' := store_leaf (root_page_id t) (leaf_insert key value (array (data f))) t in
  Insert fuel key value false t = Done (bool_decide (found = None)) t' /\
  GetValue fuel key false t' = Done (Some (default value found)) t' /\
  forall k, k <> key -> GetValue fuel k false t' = Done (leaf_lookup k (array (data f))) t'.
Proof.
  intros Hr Hs Hroom found t'. pose proof Hr as (Hroot & Hf & Hty & Hid & Hp).
  pose proof (leaf_insert_length key value _ Hs) as Hlen.
  split_and!.
  - unfold Insert. rewrite bind_get. unfold IsEmpty.
    rewrite bool_decide_eq_false_2 by done.
    rewrite (InsertIntoLeaf_root_leaf fuel key value t f Hr) by (rewrite Hlen; case_bool_decide; lia).
    f_equal. rewrite Hlen. subst found.
    destruct (bool_decide (leaf_lookup key (array (data f)) = None)).
    + apply negb_true_iff, Z.eqb_neq. lia.
    + apply negb_false_iff, Z.eqb_eq. lia.
  - rewrite (GetValue_root_leaf fuel key t' _ (root_leaf_store _ _ _ Hr)).
    cbn [data store_frame array set_array]. by rewrite leaf_lookup_insert.
  - intros k Hk.
    rewrite (GetValue_root_leaf fuel k t' _ (root_leaf_store _ _ _ Hr)).
    cbn [data store_frame array set_array]. by rewrite leaf_lookup_insert_ne.
Qed.

Lemma Insert_then_GetValue_root_leaf_witness :
  Insert 8 7 70 false one_key_tree
    = Done true (store_leaf 1 [(5, 50); (7, 70)] one_key_tree) /\
  GetValue 8 7 false (store_leaf 1 [(5, 50); (7, 70)] one_key_tree)
    = Done (Some 70) (store_leaf 1 [(5, 50); (7, 70)] one_key_tree).
Proof.
  pose proof (Insert_then_GetValue_root_leaf 8 7 70 one_key_tree
                (mkFrame (mkPage LEAF_PAGE 1 (-1) 4 (-1) [(5, 50)]) 0 true 0%nat false)) as H.
  cbv zeta in H. cbn [data array] in H.
  destruct H as (H1 & H2 & _).
  - split_and!; [discriminate | vm_compute; reflexivity | reflexivity | reflexivity | cbn; lia].
  - repeat constructor.
  - cbn. lia.
  - split; [exact H1 | exact H2].
Defined.

(** ** Removal from a root leaf that stays full enough *)

Lemma leaf_lookup_remove key a :
  sorted_keys a -> leaf_lookup key (leaf_remove key a) = None.
Proof.
  unfold sorted_keys. induction a as [|[k' v'] a IH]; cbn; intros Hs; [reflexivity|].
  apply StronglySorted_inv in Hs as [Hs Hall].
  destruct (k' =? key) eqn:E; cbn.
  - apply Z.eqb_eq in E as ->. apply leaf_lookup_None. intros Hin.
    rewrite Forall_forall in Hall. specialize (Hall _ Hin). lia.
  - rewrite E. by apply IH.
Qed.

Lemma leaf_lookup_remove_ne k key a :
  k <> key -> leaf_lookup k (leaf_remove key a) = leaf_lookup k a.
Proof.
  intros Hk. induction a as [|[k' v'] a IH]; cbn; [reflexivity|].
  destruct (k' =? key) eqn:E; cbn.
  - apply Z.eqb_eq in E as ->.
    destruct (key =? k) eqn:E'; [apply Z.eqb_eq in E'; congruence | reflexivity].
  - destruct (k' =? k); [reflexivity | exact IH].
Qed.

Lemma Remove_root_leaf fuel key t f :
  root_leaf t f ->
  GetMinSize (data f) <= Z.of_nat (length (leaf_remove key (array (data f)))) ->
  Remove fuel key false t =
    Done tt (store_leaf (root_page_id t) (leaf_remove key (array (data f))) t).
Proof.
  intros Hr Hmin. pose proof Hr as (Hroot & Hf & Hty & Hid & Hp).
  unfold Remove. rewrite bind_get. unfold IsEmpty.
  rewrite bool_decide_eq_false_2 by done.
  unfold assert_page_set_empty at 1. rewrite bind_bind, bind_get.
  cbn [negb orb]. rewrite bind_ret.
  rewrite (bind_step _ _ _ _ _ (GetLeafPage_root_leaf fuel key 2 t f Hr)).
  cbn [from_option]. rewrite bind_ret.
  unfold RemoveAndDeleteRecord. rewrite bind_bind.
  rewrite (bind_step _ _ _ _ _ (read_page_data _ _ (data f)
             ltac:(by rewrite pinned_data, Hf))).
  rewrite bind_bind.
  rewrite (bind_step _ _ _ _ _ (write_page_pinned _ _ _ _ Hf)).
  rewrite bind_ret.
  erewrite bind_step; [| apply read_page_data; proj_simpl; by rewrite lookup_insert_eq].
  cbn [data]. unfold GetSize at 1. cbn [array set_array].
  change (GetMinSize (set_array (leaf_remove key (array (data f))) (data f)))
    with (GetMinSize (data f)).
  destruct (Z.of_nat (length (leaf_remove key (array (data f)))) <? GetMinSize (data f)) eqn:E;
    [lia|].
  rewrite bind_ret. cbn [andb negb]. rewrite bind_ret, bind_bind.
  cbn [page_id set_array]. rewrite Hid.
  erewrite bind_step;
    [| eapply UnpinPage_Done; proj_simpl; [apply lookup_insert_eq | cbn; lia]].
  rewrite bind_ret. unfold assert_page_set_empty. rewrite bind_get.
  cbn [negb orb]. unfold ret. f_equal.
  unfold store_leaf. tree_eq.
  apply map_eq. intros j. destruct (decide (j = root_page_id t)) as [-> | Hj].
  - rewrite !lookup_insert_eq, lookup_alter_eq, Hf. cbn. unfold store_frame.
    do 2 f_equal; [lia | apply orb_true_r].
  - by rewrite !lookup_insert_ne, lookup_alter_ne.
Qed.

(** X16: remove and lookup on a tree of one leaf.  When the root is a leaf
    that keeps at least its minimum size, [Remove] changes only the entries
    of that leaf; afterwards [GetValue] does not find the key, and answers
    as before for every other key. *)
Theorem Remove_then_GetValue_root_leaf fuel key t f :
  root_leaf t f ->
  sorted_keys (array (data f)) ->
  GetMinSize (data f) <= Z.of_nat (length (leaf_remove key (array (data f)))) ->
  let t' := store_leaf (root_page_id t) (leaf_remove key (array (data f))) t in
  Remove fuel key false t = Done tt t' /\
  GetValue fuel key false t' = Done None t' /\
  forall k, k <> key -> GetValue fuel k false t' = Done (leaf_lookup k (array (data f))) t'.
Proof.
  intros Hr Hs Hmin t'. split_and!.
  - by apply Remove_root_leaf.
  - rewrite (GetValue_root_leaf fuel key t' _ (root_leaf_store _ _ _ Hr)).
    cbn [data store_frame array set_array]. by rewrite leaf_lookup_remove.
  - intros k Hk.
    rewrite (GetValue_root_leaf fuel k t' _ (root_leaf_store _ _ _ Hr)).
    cbn [data store_frame array set_array]. by rewrite leaf_lookup_remove_ne.
Qed.

Lemma Remove_then_GetValue_root_leaf_witness :
  Remove 8 7 false three_key_leaf
    = Done tt (store_leaf 1 [(5, 50); (9, 90)] three_key_leaf) /\
  GetValue 8 7 false (store_leaf 1 [(5, 50); (9, 90)] three_key_leaf)
    = Done None (store_leaf 1 [(5, 50); (9, 90)] three_key_leaf).
Proof.
  assert (E : root_page_id three_key_leaf = 1) by (vm_compute; reflexivity).
  pose proof (Remove_then_GetValue_root_leaf 8 7 three_key_leaf
                (mkFrame (mkPage LEAF_PAGE 1 (-1) 4 (-1) [(5, 50); (7, 70); (9, 90)])
                         0 true 0%nat false)) as H.
  cbv zeta in H. cbn [data array leaf_remove Z.eqb Pos.eqb] in H. rewrite E in H.
  destruct H as (H1 & H2 & _).
  - split_and!; rewrite ?E;
      [discriminate | vm_compute; reflexivity | reflexivity | reflexivity | cbn; lia].
  - repeat constructor.
  - vm_compute. discriminate.
  - split; [exact H1 | exact H2].
Defined.

(** * Operations that touch one leaf *)

Lemma stored_frames lp a (m : gmap Z Frame) f d :
  m !! lp = Some f ->
  <[lp := mkFrame (set_array a (data f)) (pin_count f + 1 - 1) (d || true)
                  (readers f) (writer f)]>
    (<[lp := mkFrame (set_array a (data f)) (pin_count f + 1) d (readers f) (writer f)]> m)
  = alter (store_frame a) lp m.
Proof.
  intros Hf. apply map_eq. intros j. destruct (decide (j = lp)) as [-> | Hj].
  - rewrite lookup_insert_eq, lookup_alter_eq, Hf. cbn. unfold store_frame.
    do 2 f_equal; [lia | apply orb_true_r].
  - by rewrite !lookup_insert_ne, lookup_alter_ne.
Qed.

(** X20: an insertion that fits.  In a tree of any shape, without a
    transaction, [Insert] goes down to one leaf, the leaf [lp] that
    [GetLeafPage] returns for the key in insert mode; when that leaf has
    room for the entry, the call changes the entries of that leaf and marks
    it dirty, and nothing else: no other page, no pin, not the root, not
    the header page.  It returns true exactly when the leaf has grown. *)
Theorem Insert_that_fits_touches_one_leaf fuel key value t b t' :
  pins_ok t -> ids_ok t -> root_page_id t <> INVALID_PAGE_ID ->
  Insert fuel key value false t = Done b t' ->
  exists lp f,
    GetLeafPage fuel key false 1 t = Done (Some lp) (pinned lp t) /\
    pages t !! lp = Some f /\ page_type (data f) = LEAF_PAGE /\
    let a := leaf_insert key value (array (data f)) in
    (Z.of_nat (length a) <= max_size (data f) ->
     t' = store_leaf lp a t /\
     b = negb (Z.of_nat (length (array (data f))) =? Z.of_nat (length a))).
Proof.
  intros Hp Hi Hroot H. unfold Insert in H. rewrite bind_get in H.
  unfold IsEmpty in H. rewrite bool_decide_eq_false_2 in H by done.
  unfold InsertIntoLeaf in H. unfold assert_page_set_empty at 1 in H.
  rewrite bind_bind, bind_get in H. cbn [negb orb] in H. rewrite bind_ret in H.
  apply bind_Done in H as (r & t1 & Hleaf & H).
  pose proof Hleaf as Hrun.
  apply (GetLeafPage_pinned _ _ _ _ _ _ Hp) in Hleaf.
  destruct r as [lp|]; [|by destruct Hleaf].
  destruct Hleaf as (_ & -> & f & Hf & Hty).
  unfold IsLeafPage in Hty. apply bool_decide_eq_true in Hty.
  exists lp, f. split; [exact Hrun|]. split; [exact Hf|]. split; [exact Hty|]. intros a Hroom.
  rewrite (bind_step _ _ _ _ _ (read_page_data _ _ (data f)
             ltac:(by rewrite pinned_data, Hf))) in H.
  unfold leaf_Insert in H. rewrite bind_bind in H.
  rewrite (bind_step _ _ _ _ _ (read_page_data _ _ (data f)
             ltac:(by rewrite pinned_data, Hf))) in H.
  rewrite bind_bind in H. fold a in H.
  rewrite (bind_step _ _ _ _ _ (write_page_pinned _ _ _ _ Hf)) in H.
  rewrite bind_ret in H. unfold GetMaxSize, GetSize in H. cbn [array set_array] in H.
  destruct (max_size (data f) <? Z.of_nat (length a)) eqn:E; [lia|].
  rewrite bind_ret, bind_bind in H.
  erewrite bind_step in H; [| apply read_page_data; proj_simpl; by rewrite lookup_insert_eq].
  cbn [data page_id set_array] in H. rewrite (Hi _ _ Hf), bind_bind in H.
  erewrite bind_step in H;
    [| eapply UnpinPage_Done; proj_simpl; [apply lookup_insert_eq | cbn; pose proof (Hp _ _ Hf); lia]].
  rewrite bind_ret in H. unfold assert_page_set_empty in H. rewrite bind_bind, bind_get in H.
  cbn [negb orb] in H. rewrite !bind_ret in H. apply ret_Done in H as [<- <-].
  split; [|reflexivity]. unfold store_leaf. tree_eq.
  cbn [data pin_count is_dirty readers writer]. by apply stored_frames.
Qed.

Lemma Insert_that_fits_touches_one_leaf_witness :
  exists lp f,
    GetLeafPage 8 6 false 1 five_key_tree = Done (Some lp) (pinned lp five_key_tree) /\
    pages five_key_tree !! lp = Some f /\ page_type (data f) = LEAF_PAGE /\
    let a := leaf_insert 6 60 (array (data f)) in
    (Z.of_nat (length a) <= max_size (data f) ->
     exec (Insert 8 6 60 false) five_key_tree = store_leaf lp a five_key_tree /\
     true = negb (Z.of_nat (length (array (data f))) =? Z.of_nat (length a))).
Proof.
  apply (Insert_that_fits_touches_one_leaf 8 6 60 five_key_tree true).
  - apply pins_okb_ok. vm_compute. reflexivity.
  - apply ids_okb_ok. vm_compute. reflexivity.
  - vm_compute. discriminate.
  - vm_compute. reflexivity.
Defined.

(** In the tree of five keys the leaf for key 6 is page 2. *)
Example Insert_6_touches_page_2 :
  GetLeafPage 8 6 false 1 five_key_tree = Done (Some 2) (pinned 2 five_key_tree) /\
  Insert 8 6 60 false five_key_tree
    = Done true (store_leaf 2 [(4, 40); (5, 50); (6, 60)] five_key_tree).
Proof. split; vm_compute; reflexivity. Qed.

(** X21: a removal that leaves the leaf full enough.  In a tree of any
    shape, without a transaction, [Remove] goes down to one leaf, the leaf
    [lp] that [GetLeafPage] returns for the key in delete mode; when that
    leaf keeps at least its minimum size, the call changes the entries of
    the leaf and marks it dirty, and nothing else: no other page, no pin,
    not the root, not the header page. *)
Theorem Remove_without_underflow_touches_one_leaf fuel key t u t' :
  pins_ok t -> ids_ok t -> root_page_id t <> INVALID_PAGE_ID ->
  Remove fuel key false t = Done u t' ->
  exists lp f,
    GetLeafPage fuel key false 2 t = Done (Some lp) (pinned lp t) /\
    pages t !! lp = Some f /\ page_type (data f) = LEAF_PAGE /\
    let a := leaf_remove key (array (data f)) in
    (GetMinSize (data f) <= Z.of_nat (length a) -> t' = store_leaf lp a t).
Proof.
  intros Hp Hi Hroot H. unfold Remove in H. rewrite bind_get in H.
  unfold IsEmpty in H. rewrite bool_decide_eq_false_2 in H by done.
  unfold assert_page_set_empty at 1 in H.
  rewrite bind_bind, bind_get in H. cbn [negb orb] in H. rewrite bind_ret in H.
  apply bind_Done in H as (r & t1 & Hleaf & H).
  pose proof Hleaf as Hrun.
  apply (GetLeafPage_pinned _ _ _ _ _ _ Hp) in Hleaf.
  destruct r as [lp|]; [|by destruct Hleaf].
  destruct Hleaf as (_ & -> & f & Hf & Hty).
  unfold IsLeafPage in Hty. apply bool_decide_eq_true in Hty.
  exists lp, f. split; [exact Hrun|]. split; [exact Hf|]. split; [exact Hty|]. intros a Hmin.
  cbn [from_option] in H. rewrite bind_ret in H.
  unfold RemoveAndDeleteRecord in H. rewrite bind_bind in H.
  rewrite (bind_step _ _ _ _ _ (read_page_data _ _ (data f)
             ltac:(by rewrite pinned_data, Hf))) in H.
  rewrite bind_bind in H. fold a in H.
  rewrite (bind_step _ _ _ _ _ (write_page_pinned _ _ _ _ Hf)) in H.
  rewrite bind_ret in H.
  erewrite bind_step in H; [| apply read_page_data; proj_simpl; by rewrite lookup_insert_eq].
  cbn [data] in H. unfold GetSize at 1 in H. cbn [array set_array] in H.
  change (GetMinSize (set_array a (data f))) with (GetMinSize (data f)) in H.
  destruct (Z.of_nat (length a) <? GetMinSize (data f)) eqn:E; [lia|].
  rewrite bind_ret in H. cbn [andb negb] in H. rewrite bind_ret, bind_bind in H.
  cbn [page_id set_array] in H. rewrite (Hi _ _ Hf) in H.
  erewrite bind_step in H;
    [| eapply UnpinPage_Done; proj_simpl;
       [apply lookup_insert_eq | cbn; pose proof (Hp _ _ Hf); lia]].
  rewrite bind_ret in H. unfold assert_page_set_empty in H. rewrite bind_get in H.
  cbn [negb orb] in H. apply ret_Done in H as [_ <-].
  unfold store_leaf. tree_eq.
  cbn [data pin_count is_dirty readers writer]. by apply stored_frames.
Qed.

Lemma Remove_without_underflow_touches_one_leaf_witness :
  exists lp f,
    GetLeafPage 8 14 false 2 sixteen_key_tree = Done (Some lp) (pinned lp sixteen_key_tree) /\
    pages sixteen_key_tree !! lp = Some f /\ page_type (data f) = LEAF_PAGE /\
    let a := leaf_remove 14 (array (data f)) in
    (GetMinSize (data f) <= Z.of_nat (length a) ->
     exec (Remove 8 14 false) sixteen_key_tree = store_leaf lp a sixteen_key_tree).
Proof.
  apply (Remove_without_underflow_touches_one_leaf 8 14 sixteen_key_tree tt).
  - apply pins_okb_ok. vm_compute. reflexivity.
  - apply ids_okb_ok. vm_compute. reflexivity.
  - vm_compute. discriminate.
  - vm_compute. reflexivity.
Defined.

(** In the tree of sixteen keys the leaf for key 14 is page 6. *)
Example Remove_14_touches_page_6 :
  GetLeafPage 8 14 false 2 sixteen_key_tree = Done (Some 6) (pinned 6 sixteen_key_tree) /\
  Remove 8 14 false sixteen_key_tree
    = Done tt (store_leaf 6 [(13, 130); (15, 150); (16, 160)] sixteen_key_tree).
Proof. split; vm_compute; reflexivity. Qed.

(** * The first key and the last key *)

(** [UpdateRootPageId] touches no frame but that of the header page. *)
Lemma UpdateRootPageId_frames b t h :
  pages t !! HEADER_PAGE_ID = Some h ->
  exists t', UpdateRootPageId b t = Done tt t' /\
    root_page_id t' = root_page_id t /\
    header_ops t' =
      header_ops t ++ [if b then InsertRecord (index_name t) (root_page_id t)
                       else UpdateRecord (index_name t) (root_page_id t)] /\
    (forall id, id <> HEADER_PAGE_ID -> pages t' !! id = pages t !! id) /\
    is_Some (pages t' !! HEADER_PAGE_ID).
Proof.
  intros Hh. unfold UpdateRootPageId.
  rewrite (bind_step _ _ _ _ _ (FetchPage_Done _ _ _ Hh)).
  cbn [from_option]. rewrite bind_ret, bind_modify.
  unfold bind, UnpinPage. proj_simpl. rewrite lookup_insert_eq. proj_simpl.
  destruct (0 <? pin_count h + 1);
    (eexists; split; [reflexivity|]; proj_simpl; split_and!; try reflexivity;
     [intros id Hne; rewrite ?insert_insert_eq; by rewrite lookup_insert_ne
     | rewrite ?insert_insert_eq, lookup_insert_eq; eauto]).
Qed.

(** The same, with the state after the call written out up to the frames. *)
Lemma UpdateRootPageId_state b t h :
  pages t !! HEADER_PAGE_ID = Some h ->
  exists m h',
    UpdateRootPageId b t =
      Done tt (set_header_ops
                 (header_ops t ++ [if b then InsertRecord (index_name t) (root_page_id t)
                                   else UpdateRecord (index_name t) (root_page_id t)])
                 (set_pages m t)) /\
    (forall id, id <> HEADER_PAGE_ID -> m !! id = pages t !! id) /\
    m !! HEADER_PAGE_ID = Some h' /\ data h' = data h.
Proof.
  intros Hh. unfold UpdateRootPageId.
  rewrite (bind_step _ _ _ _ _ (FetchPage_Done _ _ _ Hh)).
  cbn [from_option]. rewrite bind_ret, bind_modify.
  unfold bind, UnpinPage. proj_simpl. rewrite lookup_insert_eq. proj_simpl.
  destruct (0 <? pin_count h + 1).
  - rewrite insert_insert_eq.
    exists (<[HEADER_PAGE_ID := mkFrame (data h) (pin_count h + 1 - 1) (is_dirty h || true)
                                        (readers h) (writer h)]> (pages t)).
    eexists. split_and!; [reflexivity | | apply lookup_insert_eq | reflexivity].
    intros id Hne. by rewrite lookup_insert_ne.
  - exists (<[HEADER_PAGE_ID := mkFrame (data h) (pin_count h + 1) (is_dirty h)
                                        (readers h) (writer h)]> (pages t)).
    eexists. split_and!; [reflexivity | | apply lookup_insert_eq | reflexivity].
    intros id Hne. by rewrite lookup_insert_ne.
Qed.

(** [StartNewTree] on the empty tree, up to its call of [InsertIntoLeaf]. *)
Lemma StartNewTree_first fuel key value tx t h :
  (pinned_frames t < pool_size t)%nat ->
  pages t !! next_page t = None ->
  pages t !! HEADER_PAGE_ID = Some h ->
  root_page_id t = INVALID_PAGE_ID ->
  exists t1,
    StartNewTree fuel key value tx t = (InsertIntoLeaf fuel key value tx ;; ret tt) t1 /\
    root_page_id t1 = next_page t /\
    pages t1 !! next_page t =
      Some (mkFrame (mkPage LEAF_PAGE (next_page t) INVALID_PAGE_ID (leaf_max_size t)
                            INVALID_PAGE_ID []) 0 true 0%nat false) /\
    header_ops t1 = header_ops t ++ [InsertRecord (index_name t) (next_page t)] /\
    (forall id, id <> HEADER_PAGE_ID -> id <> next_page t -> pages t1 !! id = pages t !! id) /\
    is_Some (pages t1 !! HEADER_PAGE_ID).
Proof.
  intros Hcap Hfresh Hh Hroot.
  assert (Hne : next_page t <> HEADER_PAGE_ID) by (intros E; rewrite E in Hfresh; congruence).
  unfold StartNewTree.
  rewrite (bind_step _ _ _ _ _ (NewPage_Done t Hcap)).
  erewrite bind_step; [| apply Init_Done; proj_simpl; apply lookup_insert_eq].
  proj_simpl.
  erewrite bind_step;
    [| eapply UnpinPage_Done; proj_simpl; [apply lookup_insert_eq | proj_simpl; lia]].
  proj_simpl.
  rewrite bind_get. proj_simpl. rewrite Hroot. cbn [Z.eqb INVALID_PAGE_ID Pos.eqb].
  rewrite bind_bind, bind_modify.
  rewrite !insert_insert_eq.
  match goal with |- context [UpdateRootPageId true ;; ?k] =>
    match goal with |- context [bind _ _ ?s] =>
      destruct (UpdateRootPageId_frames true s h) as (t1 & Hup & Hr & Hops & Hothers & Hhead)
    end
  end.
  { proj_simpl. by rewrite lookup_insert_ne. }
  rewrite (bind_step _ _ _ _ _ Hup).
  exists t1. split_and!; [reflexivity | exact Hr | | exact Hops | | exact Hhead].
  - rewrite Hothers by done. proj_simpl. rewrite lookup_insert_eq. reflexivity.
  - intros id H1 H2. rewrite Hothers by done. proj_simpl. by rewrite lookup_insert_ne.
Qed.

(** X6: the first key.  On the empty tree, with a free frame in the pool
    and room for one entry in a leaf, [Insert] returns true; the new root is
    the page the pool handed out, a leaf that holds the pair alone, unpinned
    and dirty; the header page got an InsertRecord for it; no other page of
    the tree changed; and [GetValue] then finds the key and no other. *)
Theorem Insert_first_key fuel key value t h :
  root_page_id t = INVALID_PAGE_ID ->
  (pinned_frames t < pool_size t)%nat ->
  pages t !! next_page t = None ->
  next_page t <> INVALID_PAGE_ID ->
  pages t !! HEADER_PAGE_ID = Some h ->
  1 <= leaf_max_size t ->
  exists t',
    Insert fuel key value false t = Done true t' /\
    root_page_id t' = next_page t /\
    pages t' !! next_page t =
      Some (mkFrame (mkPage LEAF_PAGE (next_page t) INVALID_PAGE_ID (leaf_max_size t)
                            INVALID_PAGE_ID [(key, value)]) 0 true 0%nat false) /\
    header_ops t' = header_ops t ++ [InsertRecord (index_name t) (next_page t)] /\
    (forall id, id <> HEADER_PAGE_ID -> id <> next_page t -> pages t' !! id = pages t !! id) /\
    GetValue fuel key false t' = Done (Some value) t' /\
    (forall k, k <> key -> GetValue fuel k false t' = Done None t').
Proof.
  intros Hroot Hcap Hfresh Hvalid Hh Hmax.
  destruct (StartNewTree_first fuel key value false t h Hcap Hfresh Hh Hroot)
    as (t1 & Hrun & Hr1 & Hnew & Hops & Hothers & Hhead).
  assert (Hne : next_page t <> HEADER_PAGE_ID) by (intros E; rewrite E in Hfresh; congruence).
  assert (Hleaf : root_leaf t1 (mkFrame (mkPage LEAF_PAGE (next_page t) INVALID_PAGE_ID
                                  (leaf_max_size t) INVALID_PAGE_ID []) 0 true 0%nat false)).
  { unfold root_leaf. rewrite Hr1. cbn. split_and!; try done; try lia. }
  pose proof (InsertIntoLeaf_root_leaf fuel key value t1 _ Hleaf) as Hins.
  cbn [data array leaf_insert length max_size] in Hins.
  specialize (Hins ltac:(lia)). rewrite Hr1 in Hins.
  set (t' := store_leaf (next_page t) [(key, value)] t1) in *.
  assert (Hleaf' : root_leaf t' (store_frame [(key, value)]
            (mkFrame (mkPage LEAF_PAGE (next_page t) INVALID_PAGE_ID
                       (leaf_max_size t) INVALID_PAGE_ID []) 0 true 0%nat false))).
  { pose proof (root_leaf_store t1 _ [(key, value)] Hleaf) as H. by rewrite Hr1 in H. }
  exists t'. split_and!.
  - unfold Insert. rewrite bind_get. unfold IsEmpty.
    rewrite bool_decide_eq_true_2 by done.
    unfold bind at 1. rewrite Hrun. unfold bind at 1. rewrite Hins. reflexivity.
  - exact Hr1.
  - subst t'. unfold store_leaf. proj_simpl. rewrite lookup_alter_eq, Hnew. reflexivity.
  - exact Hops.
  - intros id H1 H2. subst t'. unfold store_leaf. proj_simpl.
    rewrite lookup_alter_ne by done. by apply Hothers.
  - rewrite (GetValue_root_leaf fuel key t' _ Hleaf'). cbn. by rewrite Z.eqb_refl.
  - intros k Hk. rewrite (GetValue_root_leaf fuel k t' _ Hleaf'). cbn.
    destruct (key =? k) eqn:E; [apply Z.eqb_eq in E; congruence | reflexivity].
Qed.

(** X7: the last key.  When the root is an unpinned leaf and [Remove] takes
    its last entry out, the tree is empty afterwards: root_page_id is
    INVALID_PAGE_ID, the header page got an UpdateRecord for it, the page of
    the leaf is deleted from the pool, and no other page of the tree
    changed. *)
Theorem Remove_last_key fuel key t f h :
  root_leaf t f ->
  parent_page_id (data f) = INVALID_PAGE_ID ->
  pin_count f = 0 ->
  1 <= max_size (data f) ->
  leaf_remove key (array (data f)) = [] ->
  root_page_id t <> HEADER_PAGE_ID ->
  pages t !! HEADER_PAGE_ID = Some h ->
  exists t',
    Remove (S fuel) key false t = Done tt t' /\
    root_page_id t' = INVALID_PAGE_ID /\
    pages t' !! root_page_id t = None /\
    header_ops t' = header_ops t ++ [UpdateRecord (index_name t) INVALID_PAGE_ID] /\
    (forall id, id <> HEADER_PAGE_ID -> id <> root_page_id t -> pages t' !! id = pages t !! id).
Proof.
  intros Hr Hparent Hpin Hmax Hlast Hnh Hh. pose proof Hr as (Hroot & Hf & Hty & Hid & Hp).
  set (p' := set_array [] (data f)).
  assert (Hmin : 0 < GetMinSize p').
  { rewrite (GetMinSize_root_leaf p'); [lia | |].
    - unfold IsLeafPage. apply bool_decide_eq_true_2. exact Hty.
    - unfold IsRootPage. apply bool_decide_eq_true_2. exact Hparent. }
  unfold Remove. rewrite bind_get. unfold IsEmpty.
  rewrite bool_decide_eq_false_2 by done.
  unfold assert_page_set_empty at 1. rewrite bind_bind, bind_get.
  cbn [negb orb]. rewrite bind_ret.
  rewrite (bind_step _ _ _ _ _ (GetLeafPage_root_leaf (S fuel) key 2 t f Hr)).
  cbn [from_option]. rewrite bind_ret.
  unfold RemoveAndDeleteRecord. rewrite bind_bind.
  rewrite (bind_step _ _ _ _ _ (read_page_data _ _ (data f)
             ltac:(by rewrite pinned_data, Hf))).
  rewrite bind_bind, Hlast. fold p'.
  rewrite (bind_step _ _ _ _ _ (write_page_pinned _ _ _ _ Hf)).
  rewrite bind_ret.
  set (s1 := set_pages _ t).
  assert (Hs1 : pages s1 !! root_page_id t
                = Some (mkFrame p' (pin_count f + 1) (is_dirty f) (readers f) (writer f))).
  { subst s1. proj_simpl. apply lookup_insert_eq. }
  assert (Hd1 : data <$> pages s1 !! root_page_id t = Some p') by (by rewrite Hs1).
  rewrite (bind_step _ _ _ _ _ (read_page_data _ _ _ Hd1)).
  assert (Hsz : GetSize p' = 0) by reflexivity.
  rewrite Hsz. destruct (0 <? GetMinSize p') eqn:E; [|lia].
  (* CoalesceOrRedistribute on the root leaf *)
  cbn [CoalesceOrRedistribute].
  rewrite bind_bind.
  rewrite (bind_step _ _ _ _ _ (read_page_data _ _ _ Hd1)).
  rewrite Hsz. destruct (GetMinSize p' <=? 0) eqn:E2; [lia|].
  assert (Hpar : parent_page_id p' = INVALID_PAGE_ID) by exact Hparent.
  rewrite Hpar. cbn [Z.eqb INVALID_PAGE_ID Pos.eqb].
  unfold IsRootPage at 1. rewrite bool_decide_eq_true_2 by exact Hpar.
  unfold assert at 1. rewrite bind_bind, bind_ret.
  unfold AdjustRoot. rewrite !bind_bind.
  rewrite (bind_step _ _ _ _ _ (read_page_data _ _ _ Hd1)).
  unfold IsRootPage. rewrite bool_decide_eq_true_2 by exact Hpar.
  unfold assert at 1. rewrite bind_bind, bind_ret.
  unfold IsLeafPage. rewrite bool_decide_eq_true_2 by exact Hty.
  rewrite Hsz, E. cbn [andb]. rewrite !bind_bind, bind_modify.
  destruct (UpdateRootPageId_frames false (set_root INVALID_PAGE_ID s1) h)
    as (t2 & Hup & Hr2 & Hops & Hothers & Hhead).
  { subst s1. proj_simpl. by rewrite lookup_insert_ne. }
  rewrite bind_bind, (bind_step _ _ _ _ _ Hup). rewrite !bind_ret. cbn [andb negb].
  assert (Hs2 : pages t2 !! root_page_id t
                = Some (mkFrame p' (pin_count f + 1) (is_dirty f) (readers f) (writer f))).
  { rewrite Hothers by done. exact Hs1. }
  assert (Hpid : page_id p' = root_page_id t) by exact Hid.
  rewrite Hpid.
  erewrite bind_step; [| eapply UnpinPage_Done; [exact Hs2 | cbn; lia]].
  erewrite bind_step;
    [| eapply DeletePage_Done; proj_simpl; [apply lookup_insert_eq | cbn; lia]].
  unfold assert. eexists. split; [reflexivity|]. proj_simpl.
  split_and!.
  - exact Hr2.
  - apply lookup_delete_eq.
  - rewrite Hops. reflexivity.
  - intros id H1 H2. rewrite lookup_delete_ne, lookup_insert_ne, Hothers by done.
    subst s1. proj_simpl. by rewrite lookup_insert_ne.
Qed.

Lemma Remove_last_key_witness :
  exists t',
    Remove 8 5 false one_key_tree = Done tt t' /\
    root_page_id t' = INVALID_PAGE_ID /\
    pages t' !! 1 = None /\
    header_ops t' = [InsertRecord "index" 1; UpdateRecord "index" INVALID_PAGE_ID].
Proof.
  destruct (Remove_last_key 7 5 one_key_tree
              (mkFrame (mkPage LEAF_PAGE 1 (-1) 4 (-1) [(5, 50)]) 0 true 0%nat false)
              (mkFrame blank_page 0 true 0%nat false))
    as (t' & Hrun & Hroot & Hgone & Hops & _).
  - split_and!; [discriminate | vm_compute; reflexivity | reflexivity | reflexivity | cbn; lia].
  - reflexivity.
  - reflexivity.
  - cbn. lia.
  - reflexivity.
  - discriminate.
  - vm_compute. reflexivity.
  - exists t'. split_and!; [exact Hrun | exact Hroot | exact Hgone | exact Hops].
Defined.

Lemma Insert_first_key_witness :
  exists t',
    Insert 8 5 50 false fresh_index = Done true t' /\
    root_page_id t' = 1 /\
    GetValue 8 5 false t' = Done (Some 50) t'.
Proof.
  destruct (Insert_first_key 8 5 50 fresh_index header_frame)
    as (t' & Hrun & Hroot & _ & _ & _ & Hget & _).
  - reflexivity.
  - vm_compute. lia.
  - reflexivity.
  - discriminate.
  - reflexivity.
  - cbn. lia.
  - exists t'. split_and!; [exact Hrun | exact Hroot | exact Hget].
Defined.

(** * Errors *)

(** ** No free frame *)

Lemma NewPage_None t :
  (pool_size t <= pinned_frames t)%nat -> NewPage t = Done None t.
Proof. intros H. unfold NewPage. rewrite bool_decide_eq_false_2 by lia. reflexivity. Qed.

(** Writing a pinned frame over a page does not free a frame. *)
Lemma pinned_frames_insert id g t :
  0 < pin_count g ->
  (pinned_frames t <= pinned_frames (set_pages (<[id := g]> (pages t)) t))%nat.
Proof.
  intros Hg. unfold pinned_frames. proj_simpl.
  rewrite map_filter_insert_True by exact Hg.
  rewrite map_size_insert. destruct (filter _ (pages t) !! id); cbn; lia.
Qed.

(** X8: without a free frame in the pool an insertion that needs a page
    throws bad_alloc: on the empty tree, where [StartNewTree] asks for the
    first leaf, and on a root leaf that is full, where [Split] asks for the
    new leaf after the entry was put into the old one. *)
Theorem Insert_without_a_free_frame fuel key value t :
  (pool_size t <= pinned_frames t)%nat ->
  (forall tx, root_page_id t = INVALID_PAGE_ID ->
     Insert fuel key value tx t = Abort bad_alloc) /\
  (forall f, root_leaf t f ->
     sorted_keys (array (data f)) ->
     leaf_lookup key (array (data f)) = None ->
     Z.of_nat (length (array (data f))) = max_size (data f) ->
     Insert fuel key value false t = Abort bad_alloc).
Proof.
  intros Hfull. split.
  - intros tx Hroot. unfold Insert. rewrite bind_get. unfold IsEmpty.
    rewrite bool_decide_eq_true_2 by done.
    unfold StartNewTree. rewrite bind_bind.
    rewrite (bind_step _ _ _ _ _ (NewPage_None t Hfull)). reflexivity.
  - intros f Hr Hs Hnew Hlen. pose proof Hr as (Hroot & Hf & Hty & Hid & Hp).
    unfold Insert. rewrite bind_get. unfold IsEmpty.
    rewrite bool_decide_eq_false_2 by done.
    unfold InsertIntoLeaf. unfold assert_page_set_empty at 1. rewrite bind_bind, bind_get.
    cbn [negb orb]. rewrite bind_ret.
    rewrite (bind_step _ _ _ _ _ (GetLeafPage_root_leaf fuel key 1 t f Hr)).
    rewrite (bind_step _ _ _ _ _ (read_page_data _ _ (data f)
               ltac:(by rewrite pinned_data, Hf))).
    unfold leaf_Insert. rewrite bind_bind.
    rewrite (bind_step _ _ _ _ _ (read_page_data _ _ (data f)
               ltac:(by rewrite pinned_data, Hf))).
    rewrite bind_bind.
    rewrite (bind_step _ _ _ _ _ (write_page_pinned _ _ _ _ Hf)).
    rewrite bind_ret.
    unfold GetMaxSize, GetSize. cbn [array set_array].
    rewrite (leaf_insert_length key value _ Hs), bool_decide_eq_true_2 by exact Hnew.
    destruct (max_size (data f) <? Z.of_nat (S (length (array (data f))))) eqn:E;
      [|apply Z.ltb_ge in E; lia].
    unfold Split. rewrite !bind_bind.
    erewrite bind_step;
      [| apply NewPage_None; proj_simpl;
         etransitivity; [exact Hfull | apply pinned_frames_insert; cbn; lia]].
    reflexivity.
Qed.

Lemma Insert_without_a_free_frame_witness :
  Insert 8 5 50 false exhausted_index = Abort bad_alloc.
Proof.
  assert (H : (pool_size exhausted_index <= pinned_frames exhausted_index)%nat)
    by (vm_compute; lia).
  apply (proj1 (Insert_without_a_free_frame 8 5 50 exhausted_index H)).
  reflexivity.
Defined.

(** ** Iterators on the empty tree *)

(** X9: on the empty tree neither iterator can be built: [Begin(key)] goes
    through the nullptr that [GetLeafPage] returns, and [Begin()] through the
    nullptr that the pool returns for INVALID_PAGE_ID. *)
Theorem Begin_on_the_empty_tree fuel key t :
  root_page_id t = INVALID_PAGE_ID ->
  pages t !! INVALID_PAGE_ID = None ->
  Begin_key fuel key t = Abort null_deref /\ Begin fuel t = Abort null_deref.
Proof.
  intros Hroot Hnone. split.
  - unfold Begin_key, GetLeafPage. rewrite bind_bind, bind_get. unfold IsEmpty.
    rewrite bool_decide_eq_true_2 by done. reflexivity.
  - unfold Begin. rewrite bind_get, Hroot. unfold GetPage. rewrite !bind_bind.
    rewrite (bind_step _ _ _ _ _ (FetchPage_None _ _ Hnone)). reflexivity.
Qed.

Lemma Begin_on_the_empty_tree_witness :
  Begin_key 8 5 fresh_index = Abort null_deref /\ Begin 8 fresh_index = Abort null_deref.
Proof. apply (Begin_on_the_empty_tree 8 5 fresh_index); reflexivity. Defined.

(** * Splitting and the root *)

Lemma read_page_Done id t f : pages t !! id = Some f -> read_page id t = Done (data f) t.
Proof. intros H. unfold read_page. by rewrite H. Qed.

Lemma read_as_Done kind id t f :
  pages t !! id = Some f -> page_type (data f) = kind ->
  read_as kind id t = Done (data f) t.
Proof.
  intros H Hty. unfold read_as. rewrite (bind_step _ _ _ _ _ (read_page_Done _ _ _ H)).
  by rewrite bool_decide_eq_true_2.
Qed.

(** X10: the split of a leaf.  With a free frame in the pool, [Split]
    returns the page the pool hands out, initialised as a leaf with the
    parent of the old leaf and still pinned for the caller; the entries from
    the middle on have moved there, so that the entries of the two leaves put
    together are the entries before the split; the new leaf takes the place
    of the old one's successor in the chain of leaves; no other page
    changes. *)
Theorem Split_of_a_leaf lp t f :
  (pinned_frames t < pool_size t)%nat ->
  pages t !! next_page t = None ->
  pages t !! lp = Some f ->
  page_type (data f) = LEAF_PAGE ->
  let a := array (data f) in
  let new := next_page t in
  exists t',
    Split LEAF_PAGE lp t = Done new t' /\
    pages t' !! lp =
      Some (mkFrame (set_array (take (half a) a) (SetNextPageId new (data f)))
                    (pin_count f) (is_dirty f) (readers f) (writer f)) /\
    pages t' !! new =
      Some (mkFrame (mkPage LEAF_PAGE new (parent_page_id (data f)) (leaf_max_size t)
                            (next_page_id (data f)) (drop (half a) a))
                    1 false 0%nat false) /\
    take (half a) a ++ drop (half a) a = a /\
    (forall id, id <> lp -> id <> new -> pages t' !! id = pages t !! id) /\
    next_page t' = new + 1 /\ root_page_id t' = root_page_id t /\
    header_ops t' = header_ops t.
Proof.
  intros Hcap Hfresh Hf Hty a new.
  assert (Hne : lp <> new) by (intros E; subst new; rewrite E in Hf; congruence).
  unfold Split.
  rewrite (bind_step _ _ _ _ _ (NewPage_Done t Hcap)).
  erewrite bind_step;
    [| apply read_page_Done; proj_simpl; rewrite lookup_insert_ne by done; exact Hf].
  erewrite bind_step; [| apply Init_Done; proj_simpl; apply lookup_insert_eq].
  proj_simpl. rewrite bool_decide_eq_true_2 by reflexivity.
  rewrite insert_insert_eq.
  unfold MoveHalfTo. rewrite !bind_bind.
  erewrite bind_step;
    [| apply read_as_Done; [proj_simpl; rewrite lookup_insert_ne by done; exact Hf | exact Hty]].
  rewrite !bind_bind.
  erewrite bind_step;
    [| apply read_as_Done; [proj_simpl; apply lookup_insert_eq | reflexivity]].
  rewrite bool_decide_eq_true_2 by reflexivity.
  cbn [data array page_id app]. rewrite !bind_bind.
  erewrite bind_step; [| apply write_page_Done; proj_simpl; apply lookup_insert_eq].
  proj_simpl. rewrite insert_insert_eq.
  erewrite bind_step;
    [| apply write_page_Done; proj_simpl; rewrite lookup_insert_ne by done; exact Hf].
  proj_simpl. eexists. split; [reflexivity|]. proj_simpl.
  split_and!; try reflexivity.
  - by rewrite lookup_insert_eq.
  - rewrite lookup_insert_ne, lookup_insert_eq by done. reflexivity.
  - apply take_drop.
  - intros id H1 H2. by rewrite !lookup_insert_ne.
Qed.

Lemma Split_of_a_leaf_witness :
  exists t',
    Split LEAF_PAGE 1 (exec (leaf_Insert 1 7 70) one_key_tree) = Done 2 t' /\
    page_array t' 1 = Some [(5, 50)] /\ page_array t' 2 = Some [(7, 70)].
Proof.
  destruct (Split_of_a_leaf 1 (exec (leaf_Insert 1 7 70) one_key_tree)
              (mkFrame (mkPage LEAF_PAGE 1 (-1) 4 (-1) [(5, 50); (7, 70)]) 0 true 0%nat false))
    as (t' & Hrun & Hold & Hnew & _).
  - vm_compute. lia.
  - vm_compute. reflexivity.
  - vm_compute. reflexivity.
  - reflexivity.
  - exists t'. split_and!.
    + exact Hrun.
    + unfold page_array. rewrite Hold. reflexivity.
    + unfold page_array. change (next_page (exec (leaf_Insert 1 7 70) one_key_tree)) with 2 in Hnew.
      rewrite Hnew. reflexivity.
Defined.

Lemma update_page_Done id g t f :
  pages t !! id = Some f ->
  update_page id g t =
    Done tt (set_pages (<[id := mkFrame (g (data f)) (pin_count f) (is_dirty f) (readers f)
                                        (writer f)]> (pages t)) t).
Proof.
  intros H. unfold update_page. rewrite (bind_step _ _ _ _ _ (read_page_Done _ _ _ H)).
  by apply write_page_Done.
Qed.

(** X11: a new root.  When the node that was split is the root,
    [InsertIntoParent] takes a page from the pool and makes it the root: an
    internal page with the two nodes as its children and the key between
    them, unpinned and dirty; both nodes get it as their parent;
    root_page_id is the new page and the header page got an UpdateRecord for
    it; no other node changes. *)
Theorem InsertIntoParent_new_root fuel old key new t fo fn h :
  pages t !! old = Some fo ->
  pages t !! new = Some fn ->
  parent_page_id (data fo) = INVALID_PAGE_ID ->
  old <> new -> old <> HEADER_PAGE_ID -> new <> HEADER_PAGE_ID ->
  pages t !! HEADER_PAGE_ID = Some h ->
  (pinned_frames t < pool_size t)%nat ->
  pages t !! next_page t = None ->
  let root := next_page t in
  exists t',
    InsertIntoParent (S fuel) old key new t = Done tt t' /\
    root_page_id t' = root /\
    pages t' !! root =
      Some (mkFrame (mkPage INTERNAL_PAGE root INVALID_PAGE_ID (internal_max_size t)
                            INVALID_PAGE_ID
                            [(0, page_id (data fo)); (key, page_id (data fn))])
                    0 true 0%nat false) /\
    data <$> pages t' !! old = Some (SetParentPageId root (data fo)) /\
    data <$> pages t' !! new = Some (SetParentPageId root (data fn)) /\
    header_ops t' = header_ops t ++ [UpdateRecord (index_name t) root] /\
    (forall id, id <> old -> id <> new -> id <> root ->
       data <$> pages t' !! id = data <$> pages t !! id).
Proof.
  intros Hfo Hfn Hpar Hon Hoh Hnh Hh Hcap Hfresh root.
  assert (Hro : old <> root) by (intros E; subst root; rewrite E in Hfo; congruence).
  assert (Hrn : new <> root) by (intros E; subst root; rewrite E in Hfn; congruence).
  assert (Hrh : root <> HEADER_PAGE_ID) by (intros E; subst root; rewrite E in Hfresh; congruence).
  cbn [InsertIntoParent].
  rewrite (bind_step _ _ _ _ _ (read_page_Done _ _ _ Hfo)).
  rewrite (bind_step _ _ _ _ _ (read_page_Done _ _ _ Hfn)).
  unfold record. rewrite bind_modify.
  rewrite Hpar. cbn [Z.eqb INVALID_PAGE_ID Pos.eqb].
  rewrite (bind_step _ _ _ _ _ (NewPage_Done (set_calls _ t) Hcap)). proj_simpl.
  erewrite bind_step; [| apply Init_Done; proj_simpl; apply lookup_insert_eq].
  proj_simpl. rewrite bool_decide_eq_false_2 by discriminate.
  rewrite insert_insert_eq, bind_modify.
  match goal with |- context [bind (UpdateRootPageId false) _ ?s] =>
    destruct (UpdateRootPageId_state false s h) as (m & h' & Hup & Hm & Hmh & Hdh)
  end.
  { proj_simpl. rewrite lookup_insert_ne by done. exact Hh. }
  rewrite (bind_step _ _ _ _ _ Hup). proj_simpl_in Hm.
  erewrite bind_step;
    [| apply update_page_Done; proj_simpl; rewrite Hm, lookup_insert_ne by done; exact Hfo].
  proj_simpl.
  erewrite bind_step;
    [| apply update_page_Done; proj_simpl;
       rewrite lookup_insert_ne, Hm, lookup_insert_ne by done; exact Hfn].
  proj_simpl.
  erewrite bind_step;
    [| apply read_page_Done; proj_simpl;
       rewrite lookup_insert_ne by done; apply lookup_insert_eq].
  erewrite bind_step; [| apply read_page_Done; proj_simpl; apply lookup_insert_eq].
  cbn [data page_id SetParentPageId].
  unfold PopulateNewRoot.
  erewrite bind_step;
    [| apply update_page_Done; proj_simpl;
       rewrite !lookup_insert_ne, Hm by done; apply lookup_insert_eq].
  proj_simpl.
  erewrite bind_step;
    [| eapply UnpinPage_Done; proj_simpl; [apply lookup_insert_eq | cbn; lia]].
  eexists. split; [reflexivity|]. proj_simpl.
  split_and!; try reflexivity.
  - rewrite insert_insert_eq, lookup_insert_eq. reflexivity.
  - rewrite !lookup_insert_ne, lookup_insert_eq by done. reflexivity.
  - rewrite lookup_insert_ne, lookup_insert_ne, lookup_insert_eq by done. reflexivity.
  - intros id H1 H2 H3. rewrite !lookup_insert_ne by done.
    destruct (decide (id = HEADER_PAGE_ID)) as [-> | H4].
    + rewrite Hmh, Hh. cbn. by rewrite Hdh.
    + rewrite Hm, lookup_insert_ne by done. reflexivity.
Qed.

Lemma InsertIntoParent_new_root_witness :
  exists t',
    InsertIntoParent 8 1 5 2 split_root_leaf = Done tt t' /\
    root_page_id t' = 3 /\
    page_array t' 3 = Some [(0, 1); (5, 2)] /\
    header_ops t' = [InsertRecord "index" 1; UpdateRecord "index" 3].
Proof.
  destruct (InsertIntoParent_new_root 7 1 5 2 split_root_leaf
              (mkFrame (mkPage LEAF_PAGE 1 (-1) 4 2 [(5, 50)]) 0 true 0%nat false)
              (mkFrame (mkPage LEAF_PAGE 2 (-1) 4 (-1) [(7, 70)]) 1 false 0%nat false)
              (mkFrame blank_page 0 true 0%nat false))
    as (t' & Hrun & Hroot & Hnew & _ & _ & Hops & _).
  - vm_compute. reflexivity.
  - vm_compute. reflexivity.
  - reflexivity.
  - discriminate.
  - discriminate.
  - discriminate.
  - vm_compute. reflexivity.
  - vm_compute. lia.
  - vm_compute. reflexivity.
  - exists t'. split_and!; [exact Hrun | exact Hroot | | exact Hops].
    unfold page_array. change (next_page split_root_leaf) with 3 in Hnew.
    rewrite Hnew. reflexivity.
Defined.

(** X12: an internal root.  [AdjustRoot] leaves a root that is an internal
    page alone, returning false, unless it has exactly one child; then the
    child becomes the root: root_page_id is the id the child knows as its
    own, the child has no parent any more and is dirty, the header page got
    an UpdateRecord, true is returned, and the old root page is still in
    the pool for the caller to delete. *)
Theorem AdjustRoot_internal_root t root f :
  pages t !! root = Some f ->
  parent_page_id (data f) = INVALID_PAGE_ID ->
  page_type (data f) <> LEAF_PAGE ->
  (GetSize (data f) <> 1 -> AdjustRoot root t = Done false t) /\
  (forall k0 child g h,
     array (data f) = [(k0, child)] ->
     pages t !! child = Some g ->
     pages t !! HEADER_PAGE_ID = Some h ->
     child <> HEADER_PAGE_ID -> 0 <= pin_count g ->
     exists t',
       AdjustRoot root t = Done true t' /\
       root_page_id t' = page_id (data g) /\
       pages t' !! child =
         Some (mkFrame (SetParentPageId INVALID_PAGE_ID (data g)) (pin_count g) true
                       (readers g) (writer g)) /\
       header_ops t' = header_ops t ++ [UpdateRecord (index_name t) (page_id (data g))] /\
       (forall id, id <> child -> data <$> pages t' !! id = data <$> pages t !! id)).
Proof.
  intros Hf Hpar Hty.
  assert (Hleaf : IsLeafPage (data f) = false)
    by (unfold IsLeafPage; by rewrite bool_decide_eq_false_2).
  assert (Hrun : AdjustRoot root t =
                 (if GetSize (data f) =? 1 then
                    child <- ValueAt (data f) 0 ;;
                    newRoot <- GetPage child false 0 ;;
                    nr <- read_page newRoot ;;
                    modify (set_root (page_id nr)) ;;
                    update_page newRoot (SetParentPageId INVALID_PAGE_ID) ;;
                    UpdateRootPageId false ;;
                    _ <- UnpinPage child true ;;
                    ret true
                  else ret false) t).
  { unfold AdjustRoot.
    rewrite (bind_step _ _ _ _ _ (read_page_Done _ _ _ Hf)).
    unfold IsRootPage. rewrite bool_decide_eq_true_2 by exact Hpar.
    unfold assert at 1. rewrite bind_ret. rewrite Hleaf. cbn [andb negb].
    reflexivity. }
  rewrite Hrun. clear Hrun. split.
  - intros Hsz. destruct (GetSize (data f) =? 1) eqn:E; [lia | reflexivity].
  - intros k0 child g h Ha Hg Hh Hch Hpin.
    unfold GetSize. rewrite Ha. cbn [length].
    change (Z.of_nat 1 =? 1) with true. cbv iota.
    unfold ValueAt, entry_at. rewrite Ha.
    change (if 0 <? 0 then None else [(k0, child)] !! Z.to_nat 0) with (Some (k0, child)).
    cbn [fmap option_fmap option_map snd from_option]. rewrite bind_ret.
    rewrite (bind_step _ _ _ _ _ (GetPage_Done _ _ _ Hg)).
    erewrite bind_step; [| apply read_page_Done; rewrite pinned_lookup, Hg; reflexivity].
    cbn [data pin_frame]. rewrite bind_modify.
    erewrite bind_step;
      [| apply update_page_Done; proj_simpl; rewrite pinned_lookup, Hg; reflexivity].
    cbn [data pin_frame pin_count is_dirty readers writer].
    match goal with |- context [bind (UpdateRootPageId false) _ ?s] =>
      destruct (UpdateRootPageId_state false s h) as (m & h' & Hup & Hm & Hmh & Hdh)
    end.
    { proj_simpl. rewrite lookup_insert_ne by done. rewrite pinned_lookup_ne by done.
      exact Hh. }
    rewrite (bind_step _ _ _ _ _ Hup). proj_simpl_in Hm.
    erewrite bind_step;
      [| eapply UnpinPage_Done; proj_simpl;
         [rewrite Hm by done; apply lookup_insert_eq | cbn; lia]].
    eexists. split; [reflexivity|]. proj_simpl. split_and!; try reflexivity.
    + rewrite lookup_insert_eq. cbn. do 2 f_equal; [lia | apply orb_true_r].
    + intros id Hne. rewrite lookup_insert_ne by done.
      destruct (decide (id = HEADER_PAGE_ID)) as [-> | H4].
      * rewrite Hmh, Hh. cbn. by rewrite Hdh.
      * rewrite Hm, lookup_insert_ne by done. by rewrite pinned_lookup_ne.
Qed.

Lemma AdjustRoot_internal_root_witness :
  AdjustRoot 3 five_key_tree = Done false five_key_tree /\
  exists t',
    AdjustRoot 3 one_child_root = Done true t' /\
    root_page_id t' = 1 /\
    header_ops t' = header_ops one_child_root ++ [UpdateRecord "index" 1].
Proof.
  split.
  - destruct (AdjustRoot_internal_root five_key_tree 3
               (mkFrame (mkPage INTERNAL_PAGE 3 (-1) 5 (-1) [(0, 1); (3, 2)]) 0 true 0%nat false))
      as [H _]; [vm_compute; reflexivity | reflexivity | discriminate |].
    apply H. vm_compute. discriminate.
  - destruct (AdjustRoot_internal_root one_child_root 3
               (mkFrame (mkPage INTERNAL_PAGE 3 (-1) 5 (-1) [(0, 1)]) 0 true 0%nat false))
      as [_ H]; [vm_compute; reflexivity | reflexivity | discriminate |].
    destruct (H 0 1 (mkFrame (mkPage LEAF_PAGE 1 3 4 2 [(1, 10); (2, 20); (3, 30)])
                             0 true 0%nat false)
                (mkFrame blank_page 0 true 0%nat false))
      as (t' & Hrun & Hroot & _ & Hops & _);
      [reflexivity | vm_compute; reflexivity | vm_compute; reflexivity | discriminate
      | cbn; lia |].
    exists t'. split_and!; [exact Hrun | exact Hroot | exact Hops].
Defined.

(** * A parent with room *)

(** X19: a parent with room.  When the node that was split has a parent and
    the parent has room for one more entry, [InsertIntoParent] puts the pair
    of the key and the new node into the parent right after the entry of the
    old node, marks the parent dirty and returns its pin; the call is
    recorded, and nothing else changes: no other page, not the root, not the
    header page. *)
Theorem InsertIntoParent_parent_with_room fuel old key new t fo fn fp :
  pages t !! old = Some fo ->
  pages t !! new = Some fn ->
  parent_page_id (data fo) <> INVALID_PAGE_ID ->
  pages t !! parent_page_id (data fo) = Some fp ->
  0 <= pin_count fp ->
  let a := insert_at (ValueIndex (page_id (data fo)) (data fp) + 1)
                     (key, page_id (data fn)) (array (data fp)) in
  Z.of_nat (length a) <= max_size (data fp) ->
  InsertIntoParent (S fuel) old key new t =
    Done tt
      (set_pages (<[parent_page_id (data fo) :=
                      mkFrame (set_array a (data fp)) (pin_count fp) true
                              (readers fp) (writer fp)]> (pages t))
         (set_calls (calls t ++ [CallInsertIntoParent (data fo) key (data fn)]) t)).
Proof.
  intros Hfo Hfn Hpar Hfp Hpin a Hroom.
  cbn [InsertIntoParent].
  rewrite (bind_step _ _ _ _ _ (read_page_data _ _ (data fo) ltac:(by rewrite Hfo))).
  rewrite (bind_step _ _ _ _ _ (read_page_data _ _ (data fn) ltac:(by rewrite Hfn))).
  unfold record. rewrite bind_modify.
  destruct (parent_page_id (data fo) =? INVALID_PAGE_ID) eqn:E;
    [by apply Z.eqb_eq in E|].
  set (t0 := set_calls _ t).
  assert (Hfp0 : pages t0 !! parent_page_id (data fo) = Some fp) by exact Hfp.
  unfold GetInternalPage. rewrite bind_bind.
  rewrite (bind_step _ _ _ _ _ (FetchPage_pinned _ _ _ Hfp0)).
  cbn [from_option]. rewrite bind_ret.
  rewrite (bind_step _ _ _ _ _ (read_page_data new (pinned (parent_page_id (data fo)) t0)
             (data fn) ltac:(by rewrite pinned_data; change (pages t0) with (pages t);
                             rewrite Hfn))).
  unfold InsertNodeAfter. rewrite bind_bind.
  rewrite (bind_step _ _ _ _ _ (read_page_data _ (pinned (parent_page_id (data fo)) t0)
             (data fp) ltac:(by rewrite pinned_data, Hfp0))).
  fold a.
  rewrite (bind_step _ _ _ _ _ (write_page_pinned _ _ _ _ Hfp0)).
  erewrite bind_step; [| apply read_page_data; proj_simpl; by rewrite lookup_insert_eq].
  unfold GetMaxSize, GetSize. cbn [data array max_size set_array].
  destruct (max_size (data fp) <? Z.of_nat (length a)) eqn:E2; [lia|].
  rewrite bind_ret.
  erewrite bind_step;
    [| eapply UnpinPage_Done; proj_simpl; [apply lookup_insert_eq | cbn; lia]].
  unfold ret. f_equal.
  apply tree_ext; proj_simpl; try reflexivity.
  apply map_eq. intros j. destruct (decide (j = parent_page_id (data fo))) as [-> | Hj].
  - rewrite !lookup_insert_eq. cbn. do 2 f_equal; [lia | apply orb_true_r].
  - by rewrite !lookup_insert_ne.
Qed.

Lemma InsertIntoParent_parent_with_room_witness :
  exists t',
    InsertIntoParent 8 2 6 4 split_right_leaf = Done tt t' /\
    page_array t' 3 = Some [(0, 1); (3, 2); (6, 4)] /\
    page_pins t' 3 = Some 0.
Proof.
  pose proof (InsertIntoParent_parent_with_room 7 2 6 4 split_right_leaf
                (mkFrame (mkPage LEAF_PAGE 2 3 4 4 [(4, 40); (5, 50); (6, 60)])
                         0 true 0%nat false)
                (mkFrame (mkPage LEAF_PAGE 4 3 4 (-1) [(7, 70); (8, 80)]) 1 false 0%nat false)
                (mkFrame (mkPage INTERNAL_PAGE 3 (-1) 5 (-1) [(0, 1); (3, 2)])
                         0 true 0%nat false)) as H.
  cbv zeta in H. eexists. split.
  - apply H.
    + vm_compute. reflexivity.
    + vm_compute. reflexivity.
    + discriminate.
    + vm_compute. reflexivity.
    + cbn. lia.
    + vm_compute. discriminate.
  - split; vm_compute; reflexivity.
Defined.

(** * The root is persisted *)

Global Instance untouched_preorder : PreOrder untouched.
Proof.
  split.
  - intros t. by split_and!.
  - intros t1 t2 t3 (N1 & R1 & H1) (N2 & R2 & H2). split_and!; congruence.
Qed.

Global Instance root_persisted_preorder : PreOrder root_persisted.
Proof.
  split.
  - intros t. split; [reflexivity|]. exists []. split_and!; [by rewrite app_nil_r | constructor | reflexivity].
  - intros t1 t2 t3 (N1 & l1 & H1 & F1 & L1) (N2 & l2 & H2 & F2 & L2).
    split; [congruence|]. exists (l1 ++ l2). split_and!.
    + rewrite H2, H1. by rewrite app_assoc.
    + apply Forall_app. split; [exact F1|]. by rewrite N1 in F2.
    + destruct l2 as [|op l2 _] using rev_ind.
      * rewrite app_nil_r. cbn in L2. destruct (last l1); congruence.
      * rewrite app_assoc, last_snoc. by rewrite last_snoc in L2.
Qed.

Lemma untouched_root_persisted t t' : untouched t t' -> root_persisted t t'.
Proof.
  intros (N & R & H). split; [exact N|]. exists [].
  split_and!; [by rewrite app_nil_r | constructor | exact R].
Qed.

Lemma pool_step_untouched t t' : pool_step t t' -> untouched t t'.
Proof. intros (N & R & _ & _ & H & _). by split_and!. Qed.

Lemma pin_step_untouched t t' : pin_step t t' -> untouched t t'.
Proof. intros [H _]. by apply pool_step_untouched. Qed.

Lemma delete_untouched t id : untouched t (set_pages (delete id (pages t)) t).
Proof. by split_and!. Qed.

Lemma page_set_untouched t l : untouched t (set_page_set l t).
Proof. by split_and!. Qed.

Lemma deleted_untouched t d : untouched t (set_deleted_page_set d t).
Proof. by split_and!. Qed.

Lemma calls_untouched t c : True -> untouched t (set_calls (calls t ++ [c]) t).
Proof. intros _. by split_and!. Qed.

(** The node operations, the pool and the work set touch neither the root
    nor the header page. *)
Ltac leaf_untouched :=
  first
  [ apply (read_page_respects untouched pin_step_untouched)
  | apply (NewPage_respects untouched pool_step_untouched)
  | apply (UnpinPage_respects untouched pin_step_untouched)
  | apply (FetchPage_respects untouched pin_step_untouched)
  | apply (DeletePage_respects untouched delete_untouched)
  | apply (Init_respects untouched pool_step_untouched)
  | apply (update_page_respects untouched pin_step_untouched pool_step_untouched)
  | apply (PopulateNewRoot_respects untouched pin_step_untouched pool_step_untouched)
  | apply (InsertNodeAfter_respects untouched pin_step_untouched pool_step_untouched)
  | apply (leaf_Insert_respects untouched pin_step_untouched pool_step_untouched)
  | apply (RemoveAndDeleteRecord_respects untouched pin_step_untouched pool_step_untouched)
  | apply (Split_respects untouched pin_step_untouched pool_step_untouched)
  | apply (GetInternalPage_respects untouched pin_step_untouched)
  | apply (GetPage_respects untouched pin_step_untouched page_set_untouched)
  | apply (KeyAt_respects untouched)
  | apply (ValueAt_respects untouched)
  | apply (assert_page_set_empty_respects untouched)
  | apply (AddIntoDeletedPageSet_respects untouched deleted_untouched)
  | apply (record_respects untouched (fun _ => True) calls_untouched); exact I
  | apply (GetLeafPage_respects untouched pin_step_untouched delete_untouched
             page_set_untouched deleted_untouched)
  | apply (clearTxnWorkSet_respects untouched pin_step_untouched delete_untouched
             page_set_untouched deleted_untouched)
  | apply (Redistribute_respects untouched (fun _ => True) pin_step_untouched
             pool_step_untouched calls_untouched (fun _ _ => I) (fun _ _ => I))
  | apply (Coalesce_respects untouched (fun _ => True) pin_step_untouched
             pool_step_untouched calls_untouched (fun _ _ => I)) ].

Ltac leaf_persisted :=
  eapply respects_weaken; [exact untouched_root_persisted | leaf_untouched].

(** What [UpdateRootPageId] tells the header page. *)
Lemma UpdateRootPageId_inv b t u t' :
  UpdateRootPageId b t = Done u t' ->
  index_name t' = index_name t /\ root_page_id t' = root_page_id t /\
  header_ops t' =
    header_ops t ++ [if b then InsertRecord (index_name t) (root_page_id t)
                     else UpdateRecord (index_name t) (root_page_id t)].
Proof.
  unfold UpdateRootPageId.
  intros (h & t1 & Hf & H)%bind_Done.
  apply (FetchPage_respects untouched pin_step_untouched) in Hf as (N1 & R1 & H1).
  apply bind_Done in H as (? & s & [_ ->]%from_option_Done & H).
  apply bind_Done in H as (? & t2 & ->%modify_Done & H).
  apply bind_Done in H as (? & t3 & Hu & [= _ <-]).
  apply (UnpinPage_respects untouched pin_step_untouched) in Hu as (N3 & R3 & H3).
  proj_simpl_in N3. proj_simpl_in R3. proj_simpl_in H3.
  split_and!; [congruence | congruence |]. rewrite H3, H1, N1, R1. reflexivity.
Qed.

Lemma set_root_persisted r b t u t' :
  UpdateRootPageId b (set_root r t) = Done u t' -> root_persisted t t'.
Proof.
  intros (N & R & H)%UpdateRootPageId_inv. proj_simpl_in N. proj_simpl_in R. proj_simpl_in H.
  split; [exact N|]. eexists. split; [exact H|]. split.
  - constructor; [by destruct b | constructor].
  - cbn. rewrite R. by destruct b.
Qed.

(** A change of the root that is followed by the call on the header page. *)
Lemma persist_root_last r b :
  respects root_persisted (modify (set_root r) ;; UpdateRootPageId b).
Proof.
  intros t u t' (? & s & ->%modify_Done & H)%bind_Done. by eapply set_root_persisted.
Qed.

Lemma persist_root_then {A} r b (k : M A) :
  respects root_persisted k ->
  respects root_persisted (modify (set_root r) ;; UpdateRootPageId b ;; k).
Proof.
  intros Hk t a t' (? & s & ->%modify_Done & H)%bind_Done.
  apply bind_Done in H as (? & t1 & H1 & H2).
  transitivity t1; [by eapply set_root_persisted | by eapply Hk].
Qed.

(** The same with a node operation in between, as in [AdjustRoot]. *)
Lemma persist_root_after {A} r (m : M unit) b (k : M A) :
  respects untouched m ->
  respects root_persisted k ->
  respects root_persisted (modify (set_root r) ;; m ;; UpdateRootPageId b ;; k).
Proof.
  intros Hm Hk t a t' (? & s & ->%modify_Done & H)%bind_Done.
  apply bind_Done in H as (? & t1 & H1 & H).
  apply bind_Done in H as (? & t2 & H2 & H3).
  transitivity t2; [|by eapply Hk].
  apply Hm in H1 as (N1 & R1 & O1). proj_simpl_in N1. proj_simpl_in R1. proj_simpl_in O1.
  apply UpdateRootPageId_inv in H2 as (N2 & R2 & O2).
  split; [congruence|]. eexists. split; [rewrite O2, O1; reflexivity|]. split.
  - constructor; [destruct b; cbn; congruence | constructor].
  - cbn. rewrite R2. by destruct b.
Qed.

Ltac persist_step :=
  lazymatch goal with
  | |- respects _ (bind (modify (set_root _)) (fun _ => bind (UpdateRootPageId _) _)) =>
      apply persist_root_then
  | |- respects _ (bind (modify (set_root _)) (fun _ => UpdateRootPageId _)) =>
      apply persist_root_last
  | |- respects _ (bind (modify (set_root _))
                        (fun _ => bind _ (fun _ => bind (UpdateRootPageId _) _))) =>
      apply persist_root_after; [leaf_untouched|]
  | _ => respects_step
  end.

Ltac persist_auto := repeat persist_step; try leaf_persisted.

Lemma AdjustRoot_persisted r : respects root_persisted (AdjustRoot r).
Proof. unfold AdjustRoot. persist_auto. Qed.

Lemma InsertIntoParent_persisted fuel : forall o k n,
  respects root_persisted (InsertIntoParent fuel o k n).
Proof.
  induction fuel as [|fuel IH]; intros o k n; cbn [InsertIntoParent]; persist_auto.
  apply IH.
Qed.

Lemma InsertIntoLeaf_persisted fuel k v tx :
  respects root_persisted (InsertIntoLeaf fuel k v tx).
Proof. unfold InsertIntoLeaf. persist_auto. apply InsertIntoParent_persisted. Qed.

Lemma Insert_persisted fuel k v tx : respects root_persisted (Insert fuel k v tx).
Proof.
  unfold Insert, StartNewTree. persist_auto; apply InsertIntoLeaf_persisted.
Qed.

Lemma CoalesceOrRedistribute_persisted fuel : forall kind node tx,
  respects root_persisted (CoalesceOrRedistribute fuel kind node tx).
Proof.
  induction fuel as [|fuel IH]; intros kind node tx; cbn [CoalesceOrRedistribute];
    persist_auto; first [apply AdjustRoot_persisted | apply IH].
Qed.

Lemma Remove_persisted fuel k tx : respects root_persisted (Remove fuel k tx).
Proof.
  unfold Remove. persist_auto. apply CoalesceOrRedistribute_persisted.
Qed.

(** X13: every change of the root is persisted.  Whatever [Insert] and
    [Remove] do to root_page_id -- the first leaf, a new root above a split
    root, the only child of an emptied root, the empty tree -- a call that
    returns has told the header page last of the root as it is now, in
    records for this index; a call that made no header call left the root as
    it was. *)
Theorem root_changes_are_persisted fuel key value tx t :
  (forall b t', Insert fuel key value tx t = Done b t' -> root_persisted t t') /\
  (forall u t', Remove fuel key tx t = Done u t' -> root_persisted t t').
Proof.
  split; intros ? t' H; [eapply Insert_persisted | eapply Remove_persisted]; exact H.
Qed.

Lemma root_changes_are_persisted_witness :
  root_persisted sixteen_key_tree (exec (Insert 8 17 170 false) sixteen_key_tree) /\
  root_persisted one_key_tree (exec (Remove 8 5 false) one_key_tree).
Proof.
  split.
  - apply (proj1 (root_changes_are_persisted 8 17 170 false sixteen_key_tree) true).
    vm_compute. reflexivity.
  - apply (proj2 (root_changes_are_persisted 8 5 0 false one_key_tree) tt).
    vm_compute. reflexivity.
Defined.

(** In these two runs the root does change: to page 9 above the split root
    3, and to no root at all. *)
Example root_changes_in_the_witness :
  root_page_id sixteen_key_tree = 3 /\
  root_page_id (exec (Insert 8 17 170 false) sixteen_key_tree) = 9 /\
  last (header_ops (exec (Insert 8 17 170 false) sixteen_key_tree))
    = Some (UpdateRecord "index" 9) /\
  last (header_ops (exec (Remove 8 5 false) one_key_tree))
    = Some (UpdateRecord "index" INVALID_PAGE_ID).
Proof. split_and!; vm_compute; reflexivity. Qed.

(** * Pins are returned *)

(** ** The pool primitives *)

Lemma held_pins_app l l' id : held_pins (l ++ l') id = held_pins l id + held_pins l' id.
Proof. induction l as [|x l IH]; cbn [held_pins app]; lia. Qed.

Lemma held_pins_nonneg l id : 0 <= held_pins l id.
Proof. induction l as [|x l IH]; cbn [held_pins]; [lia | case_decide; lia]. Qed.

Ltac pins_arith :=
  unfold spread, bump in *; rewrite ?held_pins_app in *; cbn [held_pins] in *;
  repeat match goal with
         | |- context [held_pins ?l ?x] =>
             lazymatch goal with
             | _ : 0 <= held_pins l x |- _ => fail
             | _ => pose proof (held_pins_nonneg l x)
             end
         | H' : context [held_pins ?l ?x] |- _ =>
             lazymatch goal with
             | _ : 0 <= held_pins l x |- _ => fail
             | _ => pose proof (held_pins_nonneg l x)
             end
         end;
  repeat match goal with
         | H : forall id : Z, 0 <= ?P id |- context [?P ?x] =>
             lazymatch goal with
             | _ : 0 <= P x |- _ => fail
             | _ => pose proof (H x)
             end
         | H : forall id : Z, 0 <= ?P id, H' : context [?P ?x] |- _ =>
             lazymatch goal with
             | _ : 0 <= P x |- _ => fail
             | _ => pose proof (H x)
             end
         end;
  repeat case_decide; subst; try lia; try congruence.

Lemma pool_pins_ext x P P' t :
  (forall j, P' j = P j) -> pool_pins x P t -> pool_pins x P' t.
Proof.
  intros E (H1 & H2 & H3 & H4 & H5). split_and!; try done.
  - intros id f Hf. rewrite E. eauto.
  - intros id Hf. rewrite E. eauto.
  - intros id. rewrite E. eauto.
Qed.

Lemma pool_pins_lookup x P t id f :
  pool_pins x P t -> pages t !! id = Some f -> pin_count f = P id /\ 0 <= pin_count f.
Proof. intros (H1 & _ & H3 & _) Hf. rewrite (H1 _ _ Hf). eauto. Qed.

Lemma pool_pins_pinned x P t id :
  pool_pins x P t -> 0 < P id -> is_Some (pages t !! id).
Proof.
  intros (_ & H2 & _) Hp. destruct (pages t !! id) eqn:E; [eauto|].
  specialize (H2 _ E). lia.
Qed.

(** A state that differs from [t] in the frame of one page. *)
Lemma pool_pins_insert x P P' t id f g :
  pool_pins x P t -> pages t !! id = Some f ->
  pin_count g = P' id -> (forall j, j <> id -> P' j = P j) -> 0 <= P' id ->
  (x <> Some id -> page_id (data g) = id) ->
  pool_pins x P' (set_pages (<[id := g]> (pages t)) t).
Proof.
  intros (H1 & H2 & H3 & H4 & H5) Hf Hg HP Hpos Hid. split_and!; proj_simpl.
  - intros j h. destruct (decide (j = id)) as [-> | Hj].
    + rewrite lookup_insert_eq. by intros [= <-].
    + rewrite lookup_insert_ne by done. rewrite HP by done. eauto.
  - intros j. destruct (decide (j = id)) as [-> | Hj].
    + by rewrite lookup_insert_eq.
    + rewrite lookup_insert_ne by done. rewrite HP by done. eauto.
  - intros j. destruct (decide (j = id)) as [-> | Hj]; [done|]. rewrite HP by done. eauto.
  - intros j Hj. destruct (decide (j = id)) as [-> | Hne].
    + rewrite (H4 _ Hj) in Hf. discriminate.
    + rewrite lookup_insert_ne by done. eauto.
  - intros j h. destruct (decide (j = id)) as [-> | Hj].
    + rewrite lookup_insert_eq. intros [= <-]. exact Hid.
    + rewrite lookup_insert_ne by done. eauto.
Qed.

Lemma read_page_pins x P id t p t' :
  pool_pins x P t -> read_page id t = Done p t' ->
  t' = t /\ (x <> Some id -> page_id p = id).
Proof.
  intros (_ & _ & _ & _ & H5) [-> H]%read_page_Done_inv. split; [reflexivity|].
  destruct (pages t !! id) as [f|] eqn:Hf; [|discriminate]. injection H as <-. eauto.
Qed.

Lemma write_page_pins x P id p t u t' :
  pool_pins x P t -> (x <> Some id -> page_id p = id) ->
  write_page id p t = Done u t' -> pool_pins x P t'.
Proof.
  intros Hw Hid. unfold write_page. destruct (pages t !! id) as [f|] eqn:Hf; [|discriminate].
  intros [= _ <-]. eapply pool_pins_insert; eauto; cbn.
  - by apply (pool_pins_lookup _ _ _ _ _ Hw Hf).
  - destruct Hw as (_ & _ & H3 & _). apply H3.
Qed.

Lemma update_page_pins x P id g t u t' :
  pool_pins x P t -> (forall p, page_id (g p) = page_id p) ->
  update_page id g t = Done u t' -> pool_pins x P t'.
Proof.
  intros Hw Hg. unfold update_page.
  intros (p & s & Hr & H)%bind_Done.
  apply (read_page_pins _ _ _ _ _ _ Hw) in Hr as [-> Hid].
  eapply write_page_pins; [exact Hw | | exact H]. intros Hx. rewrite Hg. auto.
Qed.

Lemma FetchPage_pins x P id t r t' :
  pool_pins x P t -> FetchPage id t = Done r t' ->
  (r = Some id /\ pool_pins x (bump 1 id P) t') \/ (r = None /\ t' = t).
Proof.
  intros Hw. unfold FetchPage. destruct (pages t !! id) as [f|] eqn:Hf.
  - intros [= <- <-]. left. split; [reflexivity|].
    destruct (pool_pins_lookup _ _ _ _ _ Hw Hf) as [Hp Hpos].
    eapply pool_pins_insert; eauto; cbn; unfold bump.
    + rewrite decide_True by done. lia.
    + intros j Hj. by rewrite decide_False.
    + rewrite decide_True by done. lia.
    + intros Hx. destruct Hw as (_ & _ & _ & _ & H5). eauto.
  - intros [= <- <-]. auto.
Qed.

Lemma GetPage_pins x P id mode t btp t' :
  pool_pins x P t -> GetPage id false mode t = Done btp t' ->
  btp = id /\ pool_pins x (bump 1 id P) t'.
Proof.
  intros Hw. unfold GetPage. intros (r & t1 & Hf & H)%bind_Done.
  apply (FetchPage_pins _ _ _ _ _ _ Hw) in Hf as [[-> Hw'] | [-> ->]]; [|discriminate].
  cbn [from_option] in H. rewrite bind_ret in H. by injection H as <- <-.
Qed.

Lemma GetInternalPage_pins x P id t btp t' :
  pool_pins x P t -> GetInternalPage id t = Done btp t' ->
  btp = id /\ pool_pins x (bump 1 id P) t'.
Proof.
  intros Hw. unfold GetInternalPage. intros (r & t1 & Hf & H)%bind_Done.
  apply (FetchPage_pins _ _ _ _ _ _ Hw) in Hf as [[-> Hw'] | [-> ->]]; [|discriminate].
  cbn [from_option] in H. by injection H as <- <-.
Qed.

Lemma UnpinPage_pins x P id d t b t' :
  pool_pins x P t -> 0 < P id -> UnpinPage id d t = Done b t' ->
  pool_pins x (bump (-1) id P) t'.
Proof.
  intros Hw Hp. destruct (pool_pins_pinned _ _ _ _ Hw Hp) as [f Hf].
  destruct (pool_pins_lookup _ _ _ _ _ Hw Hf) as [Hpf Hpos].
  unfold UnpinPage. rewrite Hf. destruct (0 <? pin_count f) eqn:E; [|lia].
  intros [= _ <-]. eapply pool_pins_insert; eauto; cbn; unfold bump.
  - rewrite decide_True by done. lia.
  - intros j Hj. by rewrite decide_False.
  - rewrite decide_True by done. lia.
  - intros Hx. destruct Hw as (_ & _ & _ & _ & H5). eauto.
Qed.

Lemma DeletePage_pins x P id t b t' :
  pool_pins x P t -> DeletePage id t = Done b t' ->
  (b = true /\ pool_pins x P t') \/ (b = false /\ t' = t).
Proof.
  intros Hw. unfold DeletePage. destruct (pages t !! id) as [f|] eqn:Hf.
  - destruct (pin_count f =? 0) eqn:E; intros [= <- <-]; [left | right; auto].
    split; [reflexivity|].
    destruct (pool_pins_lookup _ _ _ _ _ Hw Hf) as [Hpf _].
    destruct Hw as (H1 & H2 & H3 & H4 & H5). split_and!; proj_simpl; try done.
    + intros j h [_ Hh]%lookup_delete_Some. eauto.
    + intros j [-> | Hj]%lookup_delete_None; [lia | eauto].
    + intros j Hj. apply lookup_delete_None. eauto.
    + intros j h [_ Hh]%lookup_delete_Some. eauto.
  - intros [= <- <-]. auto.
Qed.

(** The page that [NewPage] hands out is pinned once and not initialised;
    [Init] makes it a node that knows its id. *)
Lemma NewPage_pins P t r t' :
  pool_pins None P t -> NewPage t = Done r t' ->
  (r = Some (next_page t) /\ pool_pins (Some (next_page t)) (bump 1 (next_page t) P) t') \/
  (r = None /\ t' = t).
Proof.
  intros (H1 & H2 & H3 & H4 & H5). unfold NewPage. case_bool_decide; intros [= <- <-]; [|auto].
  left. split; [reflexivity|].
  assert (Hfree : pages t !! next_page t = None) by (apply H4; lia).
  split_and!; proj_simpl; unfold bump.
  - intros j h. destruct (decide (j = next_page t)) as [-> | Hj].
    + rewrite lookup_insert_eq. intros [= <-]. cbn. rewrite (H2 _ Hfree). reflexivity.
    + rewrite lookup_insert_ne by done. eauto.
  - intros j. destruct (decide (j = next_page t)) as [-> | Hj].
    + by rewrite lookup_insert_eq.
    + rewrite lookup_insert_ne by done. eauto.
  - intros j. specialize (H3 j). case_decide; lia.
  - intros j Hj. rewrite lookup_insert_ne by lia. apply H4. lia.
  - intros j h. destruct (decide (j = next_page t)) as [-> | Hj].
    + intros _ Hx. by destruct Hx.
    + rewrite lookup_insert_ne by done. intros Hh _. eapply H5; [exact Hh | discriminate].
Qed.

Lemma Init_pins P kind id parent t u t' :
  pool_pins (Some id) P t -> Init kind id parent t = Done u t' -> pool_pins None P t'.
Proof.
  intros Hw. unfold Init. rewrite bind_get. unfold write_page.
  destruct (pages t !! id) as [f|] eqn:Hf; [|discriminate]. intros [= _ <-].
  destruct (pool_pins_lookup _ _ _ _ _ Hw Hf) as [Hpf Hpos].
  destruct Hw as (H1 & H2 & H3 & H4 & H5). split_and!; proj_simpl; try done.
  - intros j h. destruct (decide (j = id)) as [-> | Hj].
    + rewrite lookup_insert_eq. by intros [= <-].
    + rewrite lookup_insert_ne by done. eauto.
  - intros j. destruct (decide (j = id)) as [-> | Hj].
    + by rewrite lookup_insert_eq.
    + rewrite lookup_insert_ne by done. eauto.
  - intros j Hj. destruct (decide (j = id)) as [-> | Hne].
    + rewrite (H4 _ Hj) in Hf. discriminate.
    + rewrite lookup_insert_ne by done. eauto.
  - intros j h. destruct (decide (j = id)) as [-> | Hj].
    + rewrite lookup_insert_eq. by intros [= <-].
    + rewrite lookup_insert_ne by done. intros Hh _. eapply H5; [exact Hh | congruence].
Qed.

(** Writes to the other fields of the state. *)
Lemma pool_pins_fields x P t t' :
  pages t' = pages t -> next_page t' = next_page t -> pool_pins x P t -> pool_pins x P t'.
Proof. intros Hp Hn. unfold pool_pins. rewrite Hp, Hn. auto. Qed.

(** ** Latches *)

Lemma frame_pins x P t id f g :
  pool_pins x P t -> pages t !! id = Some f ->
  pin_count g = pin_count f -> data g = data f ->
  pool_pins x P (set_pages (<[id := g]> (pages t)) t).
Proof.
  intros Hw Hf Hp Hd. destruct (pool_pins_lookup _ _ _ _ _ Hw Hf) as [Hpf Hpos].
  apply (pool_pins_insert x P P t id f g Hw Hf).
  - congruence.
  - reflexivity.
  - lia.
  - intros Hx. rewrite Hd. destruct Hw as (_ & _ & _ & _ & H5). eauto.
Qed.

Lemma lockFor_pins x P mode id t u t' :
  pool_pins x P t -> lockFor mode id t = Done u t' -> pool_pins x P t'.
Proof.
  intros Hw. unfold lockFor. destruct (pages t !! id) as [f|] eqn:Hf; [|discriminate].
  destruct (mode =? 0).
  - destruct (writer f); [discriminate|]. intros [= _ <-]. by eapply frame_pins.
  - destruct (writer f || _); [discriminate|]. intros [= _ <-]. by eapply frame_pins.
Qed.

Lemma unlockFor_pins x P mode id t u t' :
  pool_pins x P t -> unlockFor mode id t = Done u t' -> pool_pins x P t'.
Proof.
  intros Hw. unfold unlockFor. destruct (pages t !! id) as [f|] eqn:Hf; [|discriminate].
  destruct (mode =? 0); intros [= _ <-]; by eapply frame_pins.
Qed.

(** ** The descent *)

Lemma pool_pins_pins_ok x P t : pool_pins x P t -> pins_ok t.
Proof. intros Hw id f Hf. by apply (pool_pins_lookup _ _ _ _ _ Hw Hf). Qed.

Lemma pool_pins_pinned_state x P t id :
  pool_pins x P t -> is_Some (pages t !! id) -> pool_pins x (bump 1 id P) (pinned id t).
Proof.
  intros Hw [f Hf]. destruct (FetchPage_pins _ _ _ _ _ _ Hw (FetchPage_pinned _ _ _ Hf))
    as [[_ H] | [[=] _]]. exact H.
Qed.

(** Without a transaction [GetLeafPage] leaves its caller one pin, on the
    leaf. *)
Lemma GetLeafPage_pins P fuel key mode t r t' :
  pool_pins None P t -> GetLeafPage fuel key false mode t = Done r t' ->
  pool_pins None (match r with Some leaf => bump 1 leaf P | None => P end) t'.
Proof.
  intros Hw H. apply GetLeafPage_pinned in H; [|by eapply pool_pins_pins_ok].
  destruct r as [leaf|].
  - destruct H as (_ & -> & f & Hf & _). apply pool_pins_pinned_state; eauto.
  - by destruct H as [_ ->].
Qed.

(** ** Running a computation step by step *)

Create HintDb pins.

Lemma pool_pins_nonneg x P t : pool_pins x P t -> forall id, 0 <= P id.
Proof. intros (_ & _ & H & _). exact H. Qed.

Lemma read_as_pins x P kind id t p t' :
  pool_pins x P t -> read_as kind id t = Done p t' ->
  t' = t /\ (x <> Some id -> page_id p = id).
Proof.
  intros Hw. unfold read_as. intros (q & s & Hr & H)%bind_Done.
  apply (read_page_pins _ _ _ _ _ _ Hw) in Hr as [-> Hid].
  case_bool_decide; [|discriminate]. by injection H as <- <-.
Qed.

Lemma KeyAt_same p i t k t' : KeyAt p i t = Done k t' -> t' = t.
Proof. unfold KeyAt. by intros [_ ->]%from_option_Done. Qed.

Lemma ValueAt_same p i t k t' : ValueAt p i t = Done k t' -> t' = t.
Proof. unfold ValueAt. by intros [_ ->]%from_option_Done. Qed.

Lemma alter_entry_same f i p t q t' :
  alter_entry f i p t = Done q t' -> t' = t /\ page_id q = page_id p.
Proof.
  unfold alter_entry. destruct (_ && _); [|discriminate]. by intros [= <- <-].
Qed.

(** The ids that nodes know of themselves, as far as they were read. *)
Ltac rewrite_ids H Hw :=
  cbn [page_id set_array SetParentPageId SetNextPageId] in H;
  repeat match goal with
         | E : page_id ?p = _ |- _ => progress rewrite E in H; try rewrite E in Hw
         end.

(** A write to a field that is neither the pool nor [next_page]. *)
Ltac pins_fields Hw Hm :=
  lazymatch type of Hm with
  | _ = Done _ ?s' =>
      apply modify_Done in Hm;
      lazymatch type of Hw with
      | pool_pins ?x ?P _ =>
          let Hn := fresh "Hn" in
          assert (Hn : pool_pins x P s')
            by (rewrite Hm; exact (pool_pins_fields _ _ _ _ eq_refl eq_refl Hw));
          clear Hw; rename Hn into Hw; subst s'
      end
  end.

(** The place of [Split], which leaves a pin with its caller; it is filled
    in once its lemma is proved. *)
Ltac pins_extra Hw Hm := fail.

(** One computation of a run: the pin function is brought up to date. *)
Ltac pins_leaf Hw Hm :=
  first [ pins_extra Hw Hm |
  lazymatch type of Hm with
  | FetchPage _ _ = _ =>
      apply (FetchPage_pins _ _ _ _ _ _ Hw) in Hm as [[-> Hm] | [-> ->]];
      [clear Hw; rename Hm into Hw |]
  | GetLeafPage _ _ false _ _ = _ =>
      apply (GetLeafPage_pins _ _ _ _ _ _ _ Hw) in Hm; clear Hw; rename Hm into Hw
  | lockFor _ _ _ = _ =>
      apply (lockFor_pins _ _ _ _ _ _ _ Hw) in Hm; clear Hw; rename Hm into Hw
  | unlockFor _ _ _ = _ =>
      apply (unlockFor_pins _ _ _ _ _ _ _ Hw) in Hm; clear Hw; rename Hm into Hw
  | read_page _ _ = _ =>
      apply (read_page_pins _ _ _ _ _ _ Hw) in Hm as [-> Hm];
      first [specialize (Hm ltac:(discriminate)) | clear Hm]
  | read_as _ _ _ = _ =>
      apply (read_as_pins _ _ _ _ _ _ _ Hw) in Hm as [-> Hm];
      first [specialize (Hm ltac:(discriminate)) | clear Hm]
  | write_page _ _ _ = _ =>
      apply (write_page_pins _ _ _ _ _ _ _ Hw) in Hm;
      [clear Hw; rename Hm into Hw | intros _; cbn; congruence]
  | update_page _ _ _ = _ =>
      apply (update_page_pins _ _ _ _ _ _ _ Hw) in Hm;
      [clear Hw; rename Hm into Hw | intros ?; reflexivity]
  | GetPage _ false _ _ = _ =>
      apply (GetPage_pins _ _ _ _ _ _ _ Hw) in Hm as [-> Hm]; clear Hw; rename Hm into Hw
  | GetInternalPage _ _ = _ =>
      apply (GetInternalPage_pins _ _ _ _ _ _ Hw) in Hm as [-> Hm];
      clear Hw; rename Hm into Hw
  | UnpinPage _ _ _ = _ =>
      rewrite_ids Hm Hw;
      apply (UnpinPage_pins _ _ _ _ _ _ _ Hw) in Hm;
      [clear Hw; rename Hm into Hw | solve [pins_arith]]
  | DeletePage _ _ = _ =>
      rewrite_ids Hm Hw;
      apply (DeletePage_pins _ _ _ _ _ _ Hw) in Hm as [[-> Hm] | [-> ->]];
      [clear Hw; rename Hm into Hw |]
  | NewPage _ = _ =>
      apply (NewPage_pins _ _ _ _ Hw) in Hm as [[-> Hm] | [-> ->]];
      [clear Hw; rename Hm into Hw |]
  | Init _ _ _ _ = _ =>
      apply (Init_pins _ _ _ _ _ _ _ Hw) in Hm; clear Hw; rename Hm into Hw
  | get _ = _ => apply get_Done in Hm as [-> ->]
  | ret _ _ = _ => apply ret_Done in Hm as [<- <-]
  | assert _ _ = _ => apply assert_Done in Hm as [Hm ->]; try discriminate Hm
  | from_option _ _ _ = _ =>
      apply from_option_Done in Hm as [Hm ->]; try discriminate Hm;
      try (rewrite Hm in Hw; cbv beta iota in Hw)
  | KeyAt _ _ _ = _ => apply KeyAt_same in Hm as ->
  | ValueAt _ _ _ = _ => apply ValueAt_same in Hm as ->
  | alter_entry _ _ _ _ = _ => apply alter_entry_same in Hm as [-> Hm]
  | modify _ _ = _ =>
      pins_fields Hw Hm
  | record _ _ = _ =>
      pins_fields Hw Hm
  | AddIntoDeletedPageSet _ _ = _ =>
      pins_fields Hw Hm
  | assert_page_set_empty false _ = _ =>
      unfold assert_page_set_empty in Hm; rewrite bind_get in Hm;
      apply ret_Done in Hm as [_ <-]
  | ?m _ = Done _ _ =>
      let Hb := fresh "Hb" in
      assert (Hb : balanced m) by eauto with pins;
      apply (Hb _ _ _ _ Hw) in Hm; clear Hb Hw; rename Hm into Hw
  end ].

(** A whole run, branch by branch; [leaf] is what is done with one
    computation of it. *)
Ltac run_with leaf H :=
  lazymatch type of H with
  | bind _ _ _ = _ =>
      let va := fresh "v" in
      let vs := fresh "s" in
      let vm := fresh "Hm" in
      apply bind_Done in H; destruct H as [va [vs [vm H]]];
      run_with leaf vm; run_with leaf H
  | (if true then ?m else _) ?s = ?r => change (m s = r) in H; run_with leaf H
  | (if false then _ else ?m) ?s = ?r => change (m s = r) in H; run_with leaf H
  | (if bool_decide (Some _ = None) then _ else _) _ = _ =>
      rewrite bool_decide_eq_false_2 in H by discriminate; run_with leaf H
  | (if bool_decide (None = None) then _ else _) _ = _ =>
      rewrite bool_decide_eq_true_2 in H by reflexivity; run_with leaf H
  | (if ?b then _ else _) _ = _ => destruct b eqn:?; run_with leaf H
  | (match Some ?x with Some y => @?m y | None => _ end) ?s = ?r =>
      change (m x s = r) in H; cbv beta in H; run_with leaf H
  | (match None with Some _ => _ | None => ?m end) ?s = ?r =>
      change (m s = r) in H; run_with leaf H
  | (match ?o with Some _ => _ | None => _ end) _ = _ => destruct o eqn:?; run_with leaf H
  | (match ?l with [] => _ | _ :: _ => _ end) _ = _ => destruct l eqn:?; run_with leaf H
  | throw _ _ = _ => discriminate H
  | _ => leaf H
  end.

Ltac pins_run Hw H := run_with ltac:(fun Hm => pins_leaf Hw Hm) H.

(** The end of a run: the pin function that was brought up to date is, page
    by page, the one to show. *)
Ltac pins_done Hw :=
  eapply pool_pins_ext; [| exact Hw]; intros ?; pins_arith.

Ltac pins_start :=
  intros P t ? t' Hw H;
  let Hpos := fresh "Hpos" in
  pose proof (pool_pins_nonneg _ _ _ Hw) as Hpos.

(** ** The node operations *)

Lemma balanced_reparent np c : balanced (reparent np c).
Proof.
  pins_start. unfold reparent in H.
  apply bind_Done in H as (r & s & Hf & H).
  apply (FetchPage_pins _ _ _ _ _ _ Hw) in Hf as [[-> Hw'] | [-> ->]];
    [|apply bind_Done in H as (? & ? & [[=] _]%from_option_Done & _)].
  clear Hw. cbn [from_option] in H. rewrite bind_ret in H.
  pins_run Hw' H. pins_done Hw'.
Qed.
Global Hint Resolve balanced_reparent : pins.

Lemma balanced_reparent_all np l : balanced (reparent_all np l).
Proof.
  induction l as [|c l IH]; cbn [reparent_all]; pins_start.
  - by apply ret_Done in H as [_ <-].
  - apply bind_Done in H as (? & s & Hm & H). pins_leaf Hw Hm. by eapply IH.
Qed.
Global Hint Resolve balanced_reparent_all : pins.

Ltac balanced_run f :=
  let P := fresh "P" in
  let t := fresh "t" in
  let t' := fresh "t'" in
  let Hw := fresh "Hw" in
  let H := fresh "H" in
  intros P t ? t' Hw H; pose proof (pool_pins_nonneg _ _ _ Hw);
  unfold f in H; pins_run Hw H; pins_done Hw.

Lemma balanced_Lookup leaf k : balanced (Lookup leaf k).
Proof. balanced_run Lookup. Qed.
Lemma balanced_leaf_Insert leaf k v : balanced (leaf_Insert leaf k v).
Proof. balanced_run leaf_Insert. Qed.
Lemma balanced_RemoveAndDeleteRecord leaf k : balanced (RemoveAndDeleteRecord leaf k).
Proof. balanced_run RemoveAndDeleteRecord. Qed.
Lemma balanced_internal_Lookup ip k : balanced (internal_Lookup ip k).
Proof. balanced_run internal_Lookup. Qed.
Lemma balanced_PopulateNewRoot ip l k r : balanced (PopulateNewRoot ip l k r).
Proof. balanced_run PopulateNewRoot. Qed.
Lemma balanced_InsertNodeAfter ip o k n : balanced (InsertNodeAfter ip o k n).
Proof. balanced_run InsertNodeAfter. Qed.
Lemma balanced_internal_Remove ip i : balanced (internal_Remove ip i).
Proof. balanced_run internal_Remove. Qed.
Lemma balanced_SetValueAt ip i v : balanced (SetValueAt ip i v).
Proof. balanced_run SetValueAt. Qed.
Lemma balanced_SetKeyAt ip i k : balanced (SetKeyAt ip i k).
Proof. balanced_run SetKeyAt. Qed.
Global Hint Resolve balanced_Lookup balanced_leaf_Insert balanced_RemoveAndDeleteRecord
  balanced_internal_Lookup balanced_PopulateNewRoot balanced_InsertNodeAfter
  balanced_internal_Remove balanced_SetValueAt balanced_SetKeyAt : pins.

Lemma balanced_MoveHalfTo kind n r : balanced (MoveHalfTo kind n r).
Proof. balanced_run MoveHalfTo. Qed.
Global Hint Resolve balanced_MoveHalfTo : pins.

Lemma balanced_MoveAllTo kind n r i : balanced (MoveAllTo kind n r i).
Proof. balanced_run MoveAllTo. Qed.
Global Hint Resolve balanced_MoveAllTo : pins.

Lemma balanced_set_parent_key p c k : balanced (set_parent_key p c k).
Proof. balanced_run set_parent_key. Qed.
Global Hint Resolve balanced_set_parent_key : pins.

Lemma balanced_MoveFirstToEndOf kind n r : balanced (MoveFirstToEndOf kind n r).
Proof. balanced_run MoveFirstToEndOf. Qed.
Lemma balanced_MoveLastToFrontOf kind n r i : balanced (MoveLastToFrontOf kind n r i).
Proof. balanced_run MoveLastToFrontOf. Qed.
Global Hint Resolve balanced_MoveFirstToEndOf balanced_MoveLastToFrontOf : pins.

Lemma balanced_Redistribute kind nb n i : balanced (Redistribute kind nb n i).
Proof. balanced_run Redistribute. Qed.
Lemma balanced_Coalesce kind nb n p i : balanced (Coalesce kind nb n p i).
Proof. balanced_run Coalesce. Qed.
Global Hint Resolve balanced_Redistribute balanced_Coalesce : pins.

(** ** The header page and the root *)

Lemma balanced_UpdateRootPageId b : balanced (UpdateRootPageId b).
Proof. balanced_run UpdateRootPageId. Qed.
Global Hint Resolve balanced_UpdateRootPageId : pins.

Lemma balanced_AdjustRoot r : balanced (AdjustRoot r).
Proof. balanced_run AdjustRoot. Qed.
Global Hint Resolve balanced_AdjustRoot : pins.

(** ** Splitting *)

(** [Split] leaves its caller one pin, on the new page. *)
Lemma Split_pins P kind node t new t' :
  pool_pins None P t -> Split kind node t = Done new t' ->
  pool_pins None (bump 1 new P) t'.
Proof.
  intros Hw H. pose proof (pool_pins_nonneg _ _ _ Hw).
  unfold Split in H. pins_run Hw H. pins_done Hw.
Qed.

Ltac pins_extra Hw Hm ::=
  lazymatch type of Hm with
  | Split _ _ _ = _ => apply (Split_pins _ _ _ _ _ _ Hw) in Hm; clear Hw; rename Hm into Hw
  end.

Lemma balanced_InsertIntoParent fuel : forall o k n, balanced (InsertIntoParent fuel o k n).
Proof.
  induction fuel as [|fuel IH]; intros o k n; cbn [InsertIntoParent];
    [intros P t ? t' Hw H; discriminate H|].
  intros P t ? t' Hw H. pose proof (pool_pins_nonneg _ _ _ Hw).
  pins_run Hw H; pins_done Hw.
Qed.
Global Hint Resolve balanced_InsertIntoParent : pins.

(** ** Insertion *)

Lemma balanced_InsertIntoLeaf fuel k v : balanced (InsertIntoLeaf fuel k v false).
Proof. balanced_run InsertIntoLeaf. Qed.
Global Hint Resolve balanced_InsertIntoLeaf : pins.

Lemma balanced_StartNewTree fuel k v : balanced (StartNewTree fuel k v false).
Proof. balanced_run StartNewTree. Qed.
Global Hint Resolve balanced_StartNewTree : pins.

Lemma balanced_Insert fuel k v : balanced (Insert fuel k v false).
Proof. balanced_run Insert. Qed.

(** ** Deletion *)

Lemma balanced_CoalesceOrRedistribute fuel : forall kind node,
  balanced (CoalesceOrRedistribute fuel kind node false).
Proof.
  induction fuel as [|fuel IH]; intros kind node; cbn [CoalesceOrRedistribute];
    [intros P t ? t' Hw H; discriminate H|].
  intros P t ? t' Hw H. pose proof (pool_pins_nonneg _ _ _ Hw).
  cbn [negb] in H. pins_run Hw H; pins_done Hw.
Qed.
Global Hint Resolve balanced_CoalesceOrRedistribute : pins.

Lemma balanced_Remove fuel k : balanced (Remove fuel k false).
Proof.
  intros P t ? t' Hw H. pose proof (pool_pins_nonneg _ _ _ Hw).
  unfold Remove in H. cbn [negb] in H. pins_run Hw H; pins_done Hw.
Qed.

(** ** A pool in good order *)

Lemma pool_pins_returned t t' :
  pool_pins None (pins_of t) t' -> pins_returned t t' /\ pool_sound t'.
Proof.
  intros Hw. split.
  - intros id f' Hf'. by apply (pool_pins_lookup _ _ _ _ _ Hw Hf').
  - unfold pool_sound. eapply pool_pins_ext; [|exact Hw].
    intros j. unfold pins_of at 1. destruct (pages t' !! j) as [f'|] eqn:Hf'.
    + by apply (pool_pins_lookup _ _ _ _ _ Hw Hf').
    + destruct Hw as (_ & H2 & _). symmetry. eauto.
Qed.

Lemma pool_soundb_sound t : pool_soundb t = true -> pool_sound t.
Proof.
  intros H.
  assert (H' : forall id f, pages t !! id = Some f ->
                 0 <= pin_count f /\ id < next_page t /\ page_id (data f) = id).
  { intros id f Hf. apply (forallb_pages _ _ _ _ H) in Hf. cbn in Hf.
    apply andb_prop in Hf as [[H1 H2]%andb_prop H3]. lia. }
  unfold pool_sound, pins_of. split_and!.
  - intros id f Hf. by rewrite Hf.
  - intros id Hf. by rewrite Hf.
  - intros id. destruct (pages t !! id) as [f|] eqn:Hf; [|lia]. by apply (H' _ _ Hf).
  - intros id Hid. destruct (pages t !! id) as [f|] eqn:Hf; [|reflexivity].
    apply H' in Hf. lia.
  - intros id f Hf _. by apply (H' _ _ Hf).
Qed.

(** * Pins are returned to the pool: with a transaction *)

(** ** The work set is left alone *)

Lemma delete_same_page_set t id : same_page_set t (set_pages (delete id (pages t)) t).
Proof. reflexivity. Qed.

Lemma deleted_same_page_set t d : same_page_set t (set_deleted_page_set d t).
Proof. reflexivity. Qed.

Lemma root_same_page_set t r : same_page_set t (set_root r t).
Proof. reflexivity. Qed.

Lemma header_same_page_set t op :
  True -> same_page_set t (set_header_ops (header_ops t ++ [op]) t).
Proof. reflexivity. Qed.

Lemma calls_same_page_set t c : True -> same_page_set t (set_calls (calls t ++ [c]) t).
Proof. reflexivity. Qed.

Create HintDb pageset.

Ltac page_set_leaf :=
  first
  [ apply (read_page_respects same_page_set pin_step_same_page_set)
  | apply (NewPage_respects same_page_set pool_step_same_page_set)
  | apply (UnpinPage_respects same_page_set pin_step_same_page_set)
  | apply (FetchPage_respects same_page_set pin_step_same_page_set)
  | apply (DeletePage_respects same_page_set delete_same_page_set)
  | apply (lockFor_respects same_page_set pin_step_same_page_set)
  | apply (unlockFor_respects same_page_set pin_step_same_page_set)
  | apply (Init_respects same_page_set pool_step_same_page_set)
  | apply (update_page_respects same_page_set pin_step_same_page_set
             pool_step_same_page_set)
  | apply (leaf_Insert_respects same_page_set pin_step_same_page_set
             pool_step_same_page_set)
  | apply (RemoveAndDeleteRecord_respects same_page_set pin_step_same_page_set
             pool_step_same_page_set)
  | apply (internal_Lookup_respects same_page_set pin_step_same_page_set)
  | apply (Split_respects same_page_set pin_step_same_page_set pool_step_same_page_set)
  | apply (GetInternalPage_respects same_page_set pin_step_same_page_set)
  | apply (KeyAt_respects same_page_set)
  | apply (ValueAt_respects same_page_set)
  | apply (AddIntoDeletedPageSet_respects same_page_set deleted_same_page_set)
  | apply (modify_respects same_page_set); intros ?; reflexivity
  | apply (UpdateRootPageId_respects same_page_set (fun _ => True)
             pin_step_same_page_set header_same_page_set false (fun _ _ => I))
  | apply (Redistribute_respects same_page_set (fun _ => True) pin_step_same_page_set
             pool_step_same_page_set calls_same_page_set (fun _ _ => I) (fun _ _ => I))
  | apply (Coalesce_respects same_page_set (fun _ => True) pin_step_same_page_set
             pool_step_same_page_set calls_same_page_set (fun _ _ => I))
  | apply (InsertIntoParent_respects same_page_set (fun _ => True) (fun _ => True)
             pin_step_same_page_set pool_step_same_page_set root_same_page_set
             header_same_page_set (fun _ _ => I) calls_same_page_set (fun _ _ _ => I)) ].

Global Hint Extern 1 (respects same_page_set _) => page_set_leaf : pageset.

Ltac page_set_auto := repeat respects_step; eauto with pageset.

Lemma GetPage_same_page_set id mode : respects same_page_set (GetPage id false mode).
Proof.
  unfold GetPage. apply respects_bind; [typeclasses eauto | page_set_leaf | intros r].
  apply respects_bind; [typeclasses eauto | | intros p].
  - apply respects_from_option. typeclasses eauto.
  - apply respects_ret. typeclasses eauto.
Qed.
Global Hint Resolve GetPage_same_page_set : pageset.

Lemma AdjustRoot_same_page_set r : respects same_page_set (AdjustRoot r).
Proof. unfold AdjustRoot. page_set_auto. Qed.
Global Hint Resolve AdjustRoot_same_page_set : pageset.

(** ** The work set *)

Lemma AddIntoPageSet_pins x P id t u t' :
  pool_pins x P t -> AddIntoPageSet id t = Done u t' ->
  pool_pins x P t' /\ page_set t' = page_set t ++ [id].
Proof.
  intros Hw ->%modify_Done. split; [|reflexivity].
  exact (pool_pins_fields _ _ _ _ eq_refl eq_refl Hw).
Qed.

Lemma GetPage_tx_pins x P id mode t btp t' :
  pool_pins x P t -> GetPage id true mode t = Done btp t' ->
  btp = id /\ pool_pins x (bump 1 id P) t' /\ page_set t' = page_set t ++ [id].
Proof.
  intros Hw. unfold GetPage. intros (r & t1 & Hf & H)%bind_Done.
  pose proof (FetchPage_respects same_page_set pin_step_same_page_set _ _ _ _ Hf) as E1.
  apply (FetchPage_pins _ _ _ _ _ _ Hw) in Hf as [[-> Hw'] | [-> ->]];
    [|apply bind_Done in H as (? & ? & [[=] _]%from_option_Done & _)].
  cbn [from_option] in H. rewrite bind_ret in H.
  apply bind_Done in H as (? & t2 & Hl & H).
  pose proof (lockFor_respects same_page_set pin_step_same_page_set _ _ _ _ _ Hl) as E2.
  apply (lockFor_pins _ _ _ _ _ _ _ Hw') in Hl.
  apply bind_Done in H as (? & t3 & Ha & [<- <-]%ret_Done).
  apply (AddIntoPageSet_pins _ _ _ _ _ _ Hl) in Ha as [Ha E3].
  split_and!; [reflexivity | exact Ha |]. unfold same_page_set in *. congruence.
Qed.

Lemma release_page_pins P mode d id t u t' :
  pool_pins None P t -> 0 < P id ->
  release_page mode d id t = Done u t' -> pool_pins None (bump (-1) id P) t'.
Proof.
  intros Hw Hp H. pose proof (pool_pins_nonneg _ _ _ Hw).
  unfold release_page in H. pins_run Hw H; pins_done Hw.
Qed.

Lemma release_all_pins mode d l : forall P t u t',
  pool_pins None P t -> (forall id, held_pins l id <= P id) ->
  release_all mode d l t = Done u t' ->
  pool_pins None (fun id => P id - held_pins l id) t'.
Proof.
  induction l as [|x l IH]; intros P t u t' Hw Hl; cbn [release_all].
  - intros [_ <-]%ret_Done. eapply pool_pins_ext; [|exact Hw]. intros j. cbn. lia.
  - intros (? & s & Hr & H)%bind_Done.
    apply (release_page_pins _ _ _ _ _ _ _ Hw) in Hr.
    + apply (IH _ _ _ _ Hr) in H.
      * eapply pool_pins_ext; [|exact H]. intros j. pins_arith.
      * intros j. specialize (Hl j). pins_arith.
    + specialize (Hl x). pins_arith.
Qed.

(** The drain returns the pins of the work set, which it empties. *)
Lemma clearTxnWorkSet_pins P mode d t u t' :
  pool_pins None P t -> (forall id, held_pins (page_set t) id <= P id) ->
  clearTxnWorkSet mode d t = Done u t' ->
  pool_pins None (fun id => P id - held_pins (page_set t) id) t' /\ page_set t' = [].
Proof.
  intros Hw Hl H. split; [|by eapply clearTxnWorkSet_page_set].
  unfold clearTxnWorkSet in H. rewrite bind_get in H.
  apply bind_Done in H as (? & s & ->%modify_Done & H).
  eapply release_all_pins; [| exact Hl | exact H].
  exact (pool_pins_fields _ _ _ _ eq_refl eq_refl Hw).
Qed.

(** ** Running a computation that has a work set *)

(** What a computation that leaves the work set alone does to [Hl], the
    work set of the state. *)
Ltac tx_page_set Hl Hm :=
  lazymatch type of Hm with
  | get _ = _ => idtac
  | ret _ _ = _ => idtac
  | assert _ _ = _ => idtac
  | from_option _ _ _ = _ => idtac
  | ?m ?s = Done _ ?s' =>
      let Hr := fresh "Hr" in
      let Hc := fresh "Hc" in
      assert (Hr : respects same_page_set m) by eauto with pageset;
      pose proof (Hr _ _ _ Hm) as Hc; clear Hr; unfold same_page_set in Hc;
      rewrite Hl in Hc; clear Hl; rename Hc into Hl
  end.

Create HintDb txpins.

(** The place of the descent, filled in once its lemma is proved. *)
Ltac tx_extra Hw Hl Hm := fail.

Ltac tx_leaf Hw Hl Hm :=
  first [ tx_extra Hw Hl Hm |
  lazymatch type of Hm with
  | GetPage _ true _ _ = _ =>
      let Hc := fresh "Hc" in
      apply (GetPage_tx_pins _ _ _ _ _ _ _ Hw) in Hm as (-> & Hm & Hc);
      rewrite Hl in Hc; clear Hw Hl; rename Hm into Hw; rename Hc into Hl
  | AddIntoPageSet _ _ = _ =>
      let Hc := fresh "Hc" in
      apply (AddIntoPageSet_pins _ _ _ _ _ _ Hw) in Hm as (Hm & Hc);
      rewrite Hl in Hc; clear Hw Hl; rename Hm into Hw; rename Hc into Hl
  | clearTxnWorkSet _ _ _ = _ =>
      let Hc := fresh "Hc" in
      apply (clearTxnWorkSet_pins _ _ _ _ _ _ Hw) in Hm as (Hm & Hc);
      [ rewrite Hl in Hm; clear Hw Hl; rename Hm into Hw; rename Hc into Hl
      | rewrite Hl; intros ?; solve [pins_arith] ]
  | assert_page_set_empty true _ = _ =>
      unfold assert_page_set_empty in Hm; rewrite bind_get in Hm;
      cbn [negb orb] in Hm; case_bool_decide; [|discriminate Hm];
      apply ret_Done in Hm as [_ <-]
  | ?m _ = Done _ _ =>
      first
        [ let Hg := fresh "Hg" in
          let l := fresh "l" in
          let Hc := fresh "Hc" in
          assert (Hg : gathers m) by (eauto with txpins);
          apply (Hg _ _ _ _ Hw) in Hm as (l & Hc & Hm); clear Hg;
          rewrite Hl in Hc; clear Hw Hl; rename Hm into Hw; rename Hc into Hl
        | tx_page_set Hl Hm; pins_leaf Hw Hm ]
  end ].

Ltac tx_run Hw Hl H := run_with ltac:(fun Hm => tx_leaf Hw Hl Hm) H.

(** The end of a run with a work set. *)
Ltac tx_done Hw Hl := rewrite ?Hl; pins_done Hw.

(** ** The descent *)

Lemma relock_root_pins fuel mode : forall P pid t btp t',
  pool_pins None (bump 1 pid P) t -> (forall id, 0 <= P id) ->
  relock_root fuel mode pid t = Done btp t' ->
  pool_pins None (bump 1 btp P) t' /\ page_set t' = page_set t.
Proof.
  induction fuel as [|fuel IH]; intros P pid t btp t' Hw HP H;
    cbn [relock_root] in H; rewrite bind_get in H;
    destruct (pid =? root_page_id t) eqn:E;
    try (apply ret_Done in H as [<- <-]; by split); [discriminate H|].
  remember (page_set t) as l eqn:Hl. symmetry in Hl.
  apply bind_Done in H as (? & s1 & H1 & H). tx_leaf Hw Hl H1.
  apply bind_Done in H as (? & s2 & H2 & H). tx_leaf Hw Hl H2.
  apply bind_Done in H as (? & s3 & H3 & H). tx_leaf Hw Hl H3.
  apply bind_Done in H as (? & s4 & H4 & H). tx_leaf Hw Hl H4.
  assert (Hw' : pool_pins None (bump 1 (root_page_id t) P) s4) by pins_done Hw.
  destruct (IH P _ _ _ _ Hw' HP H) as [H' E']. split; [exact H' | congruence].
Qed.

Lemma descend_step_tx_pins key mode P pid t next t' :
  (forall id, 0 <= P id) ->
  pool_pins None (spread P (page_set t)) t ->
  descend_step key true mode pid t = Done next t' ->
  pool_pins None (spread P (page_set t')) t'.
Proof.
  intros HP Hw H. remember (page_set t) as l eqn:Hl. symmetry in Hl.
  unfold descend_step, release_ancestors in H. tx_run Hw Hl H; tx_done Hw Hl.
Qed.

Lemma descend_tx_pins fuel key mode P : forall pid t leaf t',
  (forall id, 0 <= P id) ->
  pool_pins None (spread P (page_set t)) t ->
  descend fuel key true mode pid t = Done leaf t' ->
  pool_pins None (spread P (page_set t')) t'.
Proof.
  induction fuel as [|fuel IH]; intros pid t leaf t' HP Hw H; cbn [descend] in H;
    apply bind_Done in H as (p & s & Hr & H);
    apply (read_page_pins _ _ _ _ _ _ Hw) in Hr as [-> _];
    destruct (IsLeafPage p);
    try (apply ret_Done in H as [_ <-]; exact Hw); [discriminate H|].
  apply bind_Done in H as (next & s & Hs & H).
  apply (descend_step_tx_pins _ _ _ _ _ _ _ HP Hw) in Hs. eauto.
Qed.

(** With a transaction [GetLeafPage] leaves its caller the pins of the
    pages in the work set. *)
Lemma GetLeafPage_tx_pins P fuel key mode t r t' :
  pool_pins None P t -> GetLeafPage fuel key true mode t = Done r t' ->
  match r with
  | Some _ => pool_pins None (spread P (page_set t')) t'
  | None => t' = t
  end.
Proof.
  intros Hw H. pose proof (pool_pins_nonneg _ _ _ Hw) as HP.
  unfold GetLeafPage in H. rewrite bind_get in H.
  destruct (IsEmpty t); [by apply ret_Done in H as [<- <-]|].
  apply bind_Done in H as (? & s & [Ha ->]%assert_Done & H).
  cbn [negb orb] in Ha. apply andb_prop in Ha as [Hl%bool_decide_eq_true _].
  apply bind_Done in H as (btp & s1 & H1 & H). tx_leaf Hw Hl H1.
  apply bind_Done in H as (start & s2 & H2 & H).
  apply bind_Done in H2 as (? & s3 & H3 & H2). tx_leaf Hw Hl H3.
  apply bind_Done in H2 as (btp' & s4 & H4 & H2).
  apply (relock_root_pins _ _ P _ _ _ _ Hw HP) in H4 as [Hw' E].
  rewrite Hl in E. clear Hw Hl.
  apply bind_Done in H2 as (? & s5 & H5 & [<- <-]%ret_Done). tx_leaf Hw' E H5.
  apply bind_Done in H as (leaf & s6 & H6 & [<- <-]%ret_Done).
  eapply descend_tx_pins; [exact HP | | exact H6].
  rewrite E. pins_done Hw'.
Qed.

Ltac tx_extra Hw Hl Hm ::=
  lazymatch type of Hm with
  | GetLeafPage _ _ true _ _ = Done ?r ?s' =>
      apply (GetLeafPage_tx_pins _ _ _ _ _ _ _ Hw) in Hm;
      destruct r;
      [ clear Hw Hl; rename Hm into Hw;
        let l := fresh "l" in
        remember (page_set s') as l eqn:Hl in Hw; symmetry in Hl
      | subst s' ]
  end.

(** ** Insertion *)

Lemma balanced_InsertIntoLeaf_tx fuel k v : balanced (InsertIntoLeaf fuel k v true).
Proof.
  intros P t ? t' Hw H. pose proof (pool_pins_nonneg _ _ _ Hw) as HP.
  remember (page_set t) as l eqn:Hl. symmetry in Hl.
  unfold InsertIntoLeaf in H. tx_run Hw Hl H; tx_done Hw Hl.
Qed.
Global Hint Resolve balanced_InsertIntoLeaf_tx : pins.

Lemma balanced_StartNewTree_tx fuel k v : balanced (StartNewTree fuel k v true).
Proof. balanced_run StartNewTree. Qed.
Global Hint Resolve balanced_StartNewTree_tx : pins.

Lemma balanced_Insert_tx fuel k v : balanced (Insert fuel k v true).
Proof. balanced_run Insert. Qed.

(** ** Deletion *)

(** The end of a run that has added to the work set. *)
Ltac gathers_done Hw Hl :=
  rewrite <- ?app_assoc in Hl;
  first [ exists []; split; [rewrite app_nil_r; exact Hl |]
        | eexists; split; [exact Hl |] ];
  pins_done Hw.

(** With a transaction [CoalesceOrRedistribute] leaves the siblings it has
    fetched in the work set, with their pins. *)
Lemma gathers_CoalesceOrRedistribute fuel : forall kind node,
  gathers (CoalesceOrRedistribute fuel kind node true).
Proof.
  induction fuel as [|fuel IH]; intros kind node; cbn [CoalesceOrRedistribute];
    [intros P t ? t' Hw H; discriminate H|].
  intros P t ? t' Hw H. pose proof (pool_pins_nonneg _ _ _ Hw) as HP.
  remember (page_set t) as l eqn:Hl. symmetry in Hl.
  cbn [negb] in H. tx_run Hw Hl H; gathers_done Hw Hl.
Qed.
Global Hint Resolve gathers_CoalesceOrRedistribute : txpins.

Lemma balanced_Remove_tx fuel k : balanced (Remove fuel k true).
Proof.
  intros P t ? t' Hw H. pose proof (pool_pins_nonneg _ _ _ Hw) as HP.
  remember (page_set t) as l eqn:Hl. symmetry in Hl.
  unfold Remove in H. cbn [negb andb] in H. tx_run Hw Hl H; tx_done Hw Hl.
Qed.

(** ** The public operations *)

(** X14: [Insert] returns its pins.  On a pool in good order a call of
    [Insert] that returns, with or without a transaction -- whether it
    started the tree, filled a leaf, or split leaves and internal pages up
    to a new root -- has unpinned every page it fetched or took from the
    pool: every page has the pin count it had before, the new pages have
    none, and the pool is in good order again. *)
Theorem Insert_returns_its_pins fuel key value transaction t b t' :
  pool_sound t ->
  Insert fuel key value transaction t = Done b t' ->
  pins_returned t t' /\ pool_sound t'.
Proof.
  intros Hs H. apply pool_pins_returned.
  destruct transaction; [by eapply balanced_Insert_tx | by eapply balanced_Insert].
Qed.

Lemma Insert_returns_its_pins_witness :
  pins_returned sixteen_key_tree (exec (Insert 8 17 170 true) sixteen_key_tree) /\
  pool_sound (exec (Insert 8 17 170 true) sixteen_key_tree).
Proof.
  apply (Insert_returns_its_pins 8 17 170 true sixteen_key_tree true).
  - apply pool_soundb_sound. vm_compute. reflexivity.
  - vm_compute. reflexivity.
Defined.

(** X15: [Remove] returns its pins.  On a pool in good order a call of
    [Remove] that returns, with or without a transaction -- whether the key
    was there or not, whether entries were moved between siblings, nodes
    merged and deleted, or the root replaced -- has unpinned every page it
    fetched: every page that is still in the pool has the pin count it had
    before, and the pool is in good order again. *)
Theorem Remove_returns_its_pins fuel key transaction t u t' :
  pool_sound t ->
  Remove fuel key transaction t = Done u t' ->
  pins_returned t t' /\ pool_sound t'.
Proof.
  intros Hs H. apply pool_pins_returned.
  destruct transaction; [by eapply balanced_Remove_tx | by eapply balanced_Remove].
Qed.

Lemma Remove_returns_its_pins_witness :
  pins_returned two_poor_leaves (exec (Remove 8 2 true) two_poor_leaves) /\
  pool_sound (exec (Remove 8 2 true) two_poor_leaves).
Proof.
  apply (Remove_returns_its_pins 8 2 true two_poor_leaves tt).
  - apply pool_soundb_sound. vm_compute. reflexivity.
  - vm_compute. reflexivity.
Defined.

(** * Insertion keeps the entries *)

(** ** Counting entries *)

Lemma occ_app e l l' : occ e (l ++ l') = occ e l + occ e l'.
Proof. induction l as [|x l IH]; cbn [occ app]; lia. Qed.

Lemma occ_take_drop e n l : occ e (take n l) + occ e (drop n l) = occ e l.
Proof. by rewrite <- occ_app, take_drop. Qed.

Lemma occ_leaf_insert e k v a :
  occ e (leaf_insert k v a) =
    occ e a + if bool_decide (length (leaf_insert k v a) = length a) then 0
              else if decide ((k, v) = e) then 1 else 0.
Proof.
  induction a as [|[k' v'] a IH]; cbn [leaf_insert occ length].
  - rewrite bool_decide_eq_false_2 by discriminate. lia.
  - destruct (k <? k'); [|destruct (k =? k')]; cbn [occ length].
    + rewrite bool_decide_eq_false_2 by lia. lia.
    + rewrite bool_decide_eq_true_2 by reflexivity. lia.
    + rewrite IH. repeat case_bool_decide; try lia.
Qed.

Lemma total_insert_None e N id p :
  N !! id = None -> total e (<[id := p]> N) = total e N + occ e (node_entries p).
Proof.
  intros H. unfold total. rewrite map_fold_insert_L; [lia | | exact H].
  intros. lia.
Qed.

Lemma total_insert e N id p p' :
  N !! id = Some p ->
  total e (<[id := p']> N) = total e N - occ e (node_entries p) + occ e (node_entries p').
Proof.
  intros H. rewrite <- (insert_delete_id N id p H) at 2.
  rewrite <- insert_delete_eq.
  rewrite !total_insert_None by apply lookup_delete_eq. lia.
Qed.

(** ** Pools in order *)

Lemma nodes_lookup t id : nodes t !! id = data <$> pages t !! id.
Proof. apply lookup_fmap. Qed.

Lemma parent_ok_insert N n q id p p' :
  parent_ok N n q -> N !! id = Some p ->
  (page_type p = INTERNAL_PAGE -> page_type p' = INTERNAL_PAGE) ->
  parent_ok (<[id := p']> N) n q.
Proof.
  intros [Hq Hg] Hp Hty. split; [exact Hq|]. intros g.
  destruct (decide (q = id)) as [-> | Hne].
  - rewrite lookup_insert_eq. intros [= <-]. apply Hty. eauto.
  - rewrite lookup_insert_ne by done. apply Hg.
Qed.

Lemma nodes_ok_insert N n id p p' :
  nodes_ok N n -> N !! id = Some p ->
  (page_type p = INTERNAL_PAGE -> page_type p' = INTERNAL_PAGE) ->
  (page_type p' = LEAF_PAGE -> sorted_keys (array p')) ->
  (page_type p' <> INVALID_INDEX_PAGE -> parent_ok N n (parent_page_id p')) ->
  nodes_ok (<[id := p']> N) n.
Proof.
  intros [Hn Hok] Hp Hty Hs Hpar. split; [exact Hn|]. intros j q.
  destruct (decide (j = id)) as [-> | Hj].
  - rewrite lookup_insert_eq. intros [= <-]. destruct (Hok _ _ Hp) as (Hid & _).
    split_and!; [lia | lia | exact Hs |]. intros Hnode. eapply parent_ok_insert; eauto.
  - rewrite lookup_insert_ne by done. intros Hq.
    destruct (Hok _ _ Hq) as (Hid & Hsq & Hpq).
    split_and!; [lia | lia | exact Hsq |]. intros Hnode. eapply parent_ok_insert; eauto.
Qed.

Lemma nodes_ok_fresh N n id : nodes_ok N n -> n <= id -> N !! id = None.
Proof.
  intros [_ Hok] Hid. destruct (N !! id) as [p|] eqn:E; [|reflexivity].
  destruct (Hok _ _ E) as (? & _). lia.
Qed.

Lemma nodes_ok_new N n : nodes_ok N n -> nodes_ok (<[n := blank_page]> N) (n + 1).
Proof.
  intros Hok. assert (Hfree : N !! n = None) by (eapply nodes_ok_fresh; [exact Hok | lia]).
  destruct Hok as [Hn Hok]. split; [lia|]. intros j q.
  destruct (decide (j = n)) as [-> | Hj].
  - rewrite lookup_insert_eq. intros [= <-]. split_and!; [lia | lia | discriminate | done].
  - rewrite lookup_insert_ne by done. intros Hq.
    destruct (Hok _ _ Hq) as (Hid & Hsq & Hpq).
    split_and!; [lia | lia | exact Hsq |]. intros Hnode.
    destruct (Hpq Hnode) as [Hlt Hg]. split; [lia|].
    intros g. rewrite lookup_insert_ne by lia. apply Hg.
Qed.

Lemma parent_ok_invalid N n : nodes_ok N n -> parent_ok N n INVALID_PAGE_ID.
Proof.
  intros [Hn Hok]. split; [unfold INVALID_PAGE_ID; lia|].
  intros g Hg. destruct (Hok _ _ Hg) as (? & _). unfold INVALID_PAGE_ID in *. lia.
Qed.

Lemma kinds_kept_refl N : kinds_kept N N.
Proof. intros id p Hp _. eauto. Qed.

Lemma kinds_kept_trans N1 N2 N3 : kinds_kept N1 N2 -> kinds_kept N2 N3 -> kinds_kept N1 N3.
Proof.
  intros H1 H2 id p Hp Hty. destruct (H1 _ _ Hp Hty) as (p' & Hp' & E).
  destruct (H2 _ _ Hp') as (p'' & Hp'' & E'); [congruence|].
  exists p''. split; [exact Hp'' | congruence].
Qed.

Lemma kinds_kept_insert N id p p' :
  N !! id = Some p ->
  (page_type p <> INVALID_INDEX_PAGE -> page_type p' = page_type p) ->
  kinds_kept N (<[id := p']> N).
Proof.
  intros Hp Hty j q Hq Hnode. destruct (decide (j = id)) as [-> | Hj].
  - rewrite lookup_insert_eq. exists p'. split; [reflexivity|].
    assert (q = p) as -> by congruence. auto.
  - rewrite lookup_insert_ne by done. eauto.
Qed.

Lemma kinds_kept_new N id p : N !! id = None -> kinds_kept N (<[id := p]> N).
Proof.
  intros Hfree j q Hq _. exists q. split; [|reflexivity].
  rewrite lookup_insert_ne; [exact Hq | congruence].
Qed.

(** ** Steps that keep the pool in order *)

Lemma gains_ext g g' t t' : (forall e, g' e = g e) -> gains g t t' -> gains g' t t'.
Proof.
  intros E H Hok Hdel. destruct (H Hok Hdel) as (Hok' & Hdel' & Hk & Hc).
  refine (conj Hok' (conj Hdel' (conj Hk _))). intros e. rewrite E. apply Hc.
Qed.

Lemma gains_trans g1 g2 t1 t2 t3 :
  gains g1 t1 t2 -> gains g2 t2 t3 -> gains (fun e => g1 e + g2 e) t1 t3.
Proof.
  intros H1 H2 Hok Hdel. destruct (H1 Hok Hdel) as (Hok2 & Hdel2 & Hk2 & Hc2).
  destruct (H2 Hok2 Hdel2) as (Hok3 & Hdel3 & Hk3 & Hc3).
  refine (conj Hok3 (conj Hdel3 (conj (kinds_kept_trans _ _ _ Hk2 Hk3) _))).
  intros e. rewrite Hc3, Hc2. lia.
Qed.

Global Instance harmless_preorder : PreOrder harmless.
Proof.
  split.
  - intros t Hok Hdel.
    refine (conj Hok (conj Hdel (conj (kinds_kept_refl _) _))). intros; lia.
  - intros t1 t2 t3 H1 H2. eapply gains_ext; [|exact (gains_trans _ _ _ _ _ H1 H2)].
    intros e. reflexivity.
Qed.

Lemma gains_after g t t1 t2 : harmless t t1 -> gains g t1 t2 -> gains g t t2.
Proof.
  intros H1 H2. eapply gains_ext; [|exact (gains_trans _ _ _ _ _ H1 H2)].
  intros e. reflexivity.
Qed.

Lemma gains_then g t t1 t2 : gains g t t1 -> harmless t1 t2 -> gains g t t2.
Proof.
  intros H1 H2. eapply gains_ext; [|exact (gains_trans _ _ _ _ _ H1 H2)].
  intros e. cbn. lia.
Qed.

Lemma same_nodes_harmless t t' :
  nodes t' = nodes t -> next_page t' = next_page t ->
  deleted_page_set t' = deleted_page_set t -> harmless t t'.
Proof.
  intros HN Hn Hd Hok Hdel. unfold tree_ok, entry_count. rewrite HN, Hn, Hd.
  refine (conj Hok (conj Hdel (conj (kinds_kept_refl _) _))). intros; lia.
Qed.

Lemma pin_step_nodes t t' : pin_step t t' -> nodes t' = nodes t.
Proof.
  intros (_ & _ & D). apply map_eq. intros id. by rewrite !nodes_lookup.
Qed.

Lemma pin_step_harmless t t' : pin_step t t' -> harmless t t'.
Proof.
  intros H. apply same_nodes_harmless.
  - by apply pin_step_nodes.
  - by destruct H as (_ & Hn & _).
  - by destruct H as ((_ & _ & _ & _ & _ & _ & Hd & _) & _).
Qed.

Lemma write_page_nodes id p t u t' :
  write_page id p t = Done u t' ->
  is_Some (nodes t !! id) /\ nodes t' = <[id := p]> (nodes t) /\
  next_page t' = next_page t /\ deleted_page_set t' = deleted_page_set t.
Proof.
  unfold write_page. rewrite nodes_lookup.
  destruct (pages t !! id) as [f|] eqn:E; [|discriminate]. intros [= _ <-].
  split; [by eexists|]. split; [|split; reflexivity].
  unfold nodes. cbn [pages set_pages]. by rewrite fmap_insert.
Qed.

(** A write of a node of the same kind, with a parent pointer in order. *)
Lemma write_page_gains id p p' t u t' :
  nodes t !! id = Some p -> write_page id p' t = Done u t' ->
  (page_type p <> INVALID_INDEX_PAGE -> page_type p' = page_type p) ->
  (tree_ok t -> page_type p' = LEAF_PAGE -> sorted_keys (array p')) ->
  (tree_ok t -> page_type p' <> INVALID_INDEX_PAGE ->
     parent_ok (nodes t) (next_page t) (parent_page_id p')) ->
  gains (fun e => occ e (node_entries p') - occ e (node_entries p)) t t'.
Proof.
  intros Hp Hw Hty Hs Hpar Hok Hdel.
  apply write_page_nodes in Hw as (_ & HN & Hn & Hd).
  unfold tree_ok, entry_count. rewrite HN, Hn, Hd.
  refine (conj _ (conj Hdel (conj (kinds_kept_insert _ _ _ _ Hp Hty) _))).
  - eapply nodes_ok_insert; eauto. intros E. rewrite Hty; congruence.
  - intros e. rewrite (total_insert _ _ _ _ _ Hp). lia.
Qed.

(** A write that changes neither the kind, the parent pointer nor the
    entries of a leaf. *)
Lemma write_page_harmless id p p' t u t' :
  nodes t !! id = Some p -> write_page id p' t = Done u t' ->
  page_type p' = page_type p -> parent_page_id p' = parent_page_id p ->
  (page_type p = LEAF_PAGE -> array p' = array p) ->
  harmless t t'.
Proof.
  intros Hp Hw Hty Hpar Ha.
  eapply gains_ext; [|eapply (write_page_gains _ _ _ _ _ _ Hp Hw)].
  - intros e. cbn. unfold node_entries. rewrite Hty.
    case_bool_decide; [rewrite Ha by done|]; lia.
  - auto.
  - intros [_ Hok] Hl. rewrite Ha by congruence.
    rewrite Hty in Hl. by apply (Hok _ _ Hp).
  - intros [_ Hok] Hnode. rewrite Hpar. rewrite Hty in Hnode. by apply (Hok _ _ Hp).
Qed.

Lemma NewPage_harmless t r t' :
  NewPage t = Done r t' ->
  harmless t t' /\
  match r with
  | Some new =>
      new = next_page t /\ next_page t' = new + 1 /\
      nodes t' = <[new := blank_page]> (nodes t)
  | None => t' = t
  end.
Proof.
  unfold NewPage. case_bool_decide; intros [= <- <-]; [|split; reflexivity].
  assert (HN : nodes (set_next_page (next_page t + 1)
                 (set_pages (<[next_page t := mkFrame blank_page 1 false 0%nat false]>
                    (pages t)) t)) = <[next_page t := blank_page]> (nodes t)).
  { unfold nodes. cbn [pages set_pages set_next_page]. by rewrite fmap_insert. }
  split; [|by split_and!].
  intros Hok Hdel. unfold tree_ok, entry_count. rewrite HN.
  assert (Hfree : nodes t !! next_page t = None)
    by (eapply nodes_ok_fresh; [exact Hok | lia]).
  refine (conj (nodes_ok_new _ _ Hok) (conj Hdel (conj (kinds_kept_new _ _ _ Hfree) _))).
  intros e. rewrite (total_insert_None _ _ _ _ Hfree).
  change (occ e (node_entries blank_page)) with 0. lia.
Qed.

(** [Init] on a page that is no node yet. *)
Lemma Init_harmless kind id parent t u t' p :
  nodes t !! id = Some p -> page_type p = INVALID_INDEX_PAGE ->
  (tree_ok t -> parent_ok (nodes t) (next_page t) parent) ->
  Init kind id parent t = Done u t' ->
  harmless t t' /\
  exists mx, nodes t' = <[id := mkPage kind id parent mx INVALID_PAGE_ID []]> (nodes t).
Proof.
  intros Hp Hty Hpar H. unfold Init in H. rewrite bind_get in H. split.
  - eapply gains_ext; [|eapply (write_page_gains _ _ _ _ _ _ Hp H)].
    + intros e. unfold node_entries. cbn [page_type array]. rewrite Hty.
      rewrite (bool_decide_eq_false_2 (INVALID_INDEX_PAGE = _)) by discriminate.
      case_bool_decide; cbn; lia.
    + congruence.
    + intros _ _. cbn. constructor.
    + intros Hok _. cbn. auto.
  - apply write_page_nodes in H as (_ & HN & _). eauto.
Qed.

Lemma sorted_keys_drop n a : sorted_keys a -> sorted_keys (drop n a).
Proof.
  unfold sorted_keys. rewrite fmap_drop. revert n.
  induction (fst <$> a) as [|x l IH]; intros n Hs; [by rewrite drop_nil|].
  destruct n as [|n]; [exact Hs|]. cbn. apply IH. by apply StronglySorted_inv in Hs as [Hs _].
Qed.

Lemma node_ok_lookup t id p : tree_ok t -> nodes t !! id = Some p -> node_ok (nodes t) (next_page t) id p.
Proof. intros [_ Hok] Hp. by apply Hok. Qed.

(** The split of a leaf into an empty one. *)
Lemma MoveHalfTo_leaf_harmless node recipient t u t' :
  node <> recipient ->
  (forall r, nodes t !! recipient = Some r -> array r = []) ->
  MoveHalfTo LEAF_PAGE node recipient t = Done u t' -> harmless t t'.
Proof.
  intros Hne Hempty H. unfold MoveHalfTo in H.
  apply bind_Done in H as (n & s & Hn & H).
  pose proof (read_as_type _ _ _ _ _ Hn) as Hnty.
  apply read_as_Done_inv in Hn as [-> Hn]. rewrite <- nodes_lookup in Hn.
  apply bind_Done in H as (r & s & Hr & H).
  pose proof (read_as_type _ _ _ _ _ Hr) as Hrty.
  apply read_as_Done_inv in Hr as [-> Hr]. rewrite <- nodes_lookup in Hr.
  rewrite bool_decide_eq_true_2 in H by reflexivity.
  apply bind_Done in H as (? & s & H1 & H2).
  pose proof (write_page_nodes _ _ _ _ _ H1) as (_ & HN1 & _).
  assert (Hn1 : nodes s !! node = Some n) by (rewrite HN1, lookup_insert_ne by done; exact Hn).
  eapply (write_page_gains _ _ _ _ _ _ Hr) in H1; cycle 1.
  { intros _. reflexivity. }
  { intros Hok _. cbn. rewrite (Hempty _ Hr). cbn.
    apply sorted_keys_drop. by apply (node_ok_lookup _ _ _ Hok Hn). }
  { intros Hok _. cbn. apply (node_ok_lookup _ _ _ Hok Hr). congruence. }
  eapply (write_page_gains _ _ _ _ _ _ Hn1) in H2; cycle 1.
  { intros _. reflexivity. }
  { intros Hok _. cbn. apply sorted_keys_take. by apply (node_ok_lookup _ _ _ Hok Hn1). }
  { intros Hok _. cbn. apply (node_ok_lookup _ _ _ Hok Hn1). congruence. }
  eapply gains_ext; [|exact (gains_trans _ _ _ _ _ H1 H2)].
  intros e. unfold node_entries. cbn [page_type array set_array SetNextPageId].
  rewrite Hnty, Hrty, !bool_decide_eq_true_2 by reflexivity.
  rewrite (Hempty _ Hr). cbn [app occ].
  pose proof (occ_take_drop e (half (array n)) (array n)). lia.
Qed.

(** ** Steps that leave the nodes alone *)

Global Instance same_pool_preorder : PreOrder same_pool.
Proof.
  split.
  - intros t. by split_and!.
  - intros t1 t2 t3 (N1 & n1 & d1) (N2 & n2 & d2). split_and!; congruence.
Qed.

Lemma same_pool_harmless t t' : same_pool t t' -> harmless t t'.
Proof. intros (HN & Hn & Hd). by apply same_nodes_harmless. Qed.

Lemma pin_step_same_pool t t' : pin_step t t' -> same_pool t t'.
Proof.
  intros H. split_and!.
  - by apply pin_step_nodes.
  - by destruct H as (_ & Hn & _).
  - by destruct H as ((_ & _ & _ & _ & _ & _ & Hd & _) & _).
Qed.

Lemma page_set_same_pool t l : same_pool t (set_page_set l t).
Proof. by split_and!. Qed.

Lemma root_same_pool t r : same_pool t (set_root r t).
Proof. by split_and!. Qed.

Lemma header_same_pool t op :
  True -> same_pool t (set_header_ops (header_ops t ++ [op]) t).
Proof. intros _. by split_and!. Qed.

Lemma calls_same_pool t c : True -> same_pool t (set_calls (calls t ++ [c]) t).
Proof. intros _. by split_and!. Qed.

(** ** The node operations of an insertion *)

(** Pointing a page to an internal page as its parent. *)
Lemma set_parent_harmless id np t u t' g :
  nodes t !! np = Some g -> page_type g = INTERNAL_PAGE ->
  update_page id (SetParentPageId np) t = Done u t' -> harmless t t'.
Proof.
  intros Hg Hgty H. unfold update_page in H.
  apply bind_Done in H as (p & s & [-> Hp]%read_page_Done_inv & H).
  rewrite <- nodes_lookup in Hp.
  eapply gains_ext; [|eapply (write_page_gains _ _ _ _ _ _ Hp H)].
  - intros e. unfold node_entries. cbn [page_type array SetParentPageId]. lia.
  - reflexivity.
  - intros Hok Hl. cbn in *. by apply (node_ok_lookup _ _ _ Hok Hp).
  - intros Hok _. cbn. split.
    + apply (node_ok_lookup _ _ _ Hok Hg).
    + intros g' Hg'. congruence.
Qed.

Lemma has_type_nodes t id ty :
  has_type t id ty <-> exists p, nodes t !! id = Some p /\ page_type p = ty.
Proof. unfold has_type. by setoid_rewrite nodes_lookup. Qed.

Lemma reparent_harmless np c t u t' :
  has_type t np INTERNAL_PAGE -> reparent np c t = Done u t' -> harmless t t'.
Proof.
  intros Hnp H. unfold reparent in H.
  apply bind_Done in H as (r & s & Hf%FetchPage_pin%pin_step_same_pool & H).
  apply bind_Done in H as (c' & s1 & [_ ->]%from_option_Done & H).
  apply bind_Done in H as (? & s2 & Hup & H).
  apply bind_Done in H as (? & s3 & Hun%UnpinPage_pin%pin_step_same_pool & [_ <-]%ret_Done).
  apply has_type_nodes in Hnp as (g & Hg & Hgty).
  pose proof Hf as (HN & _). rewrite <- HN in Hg.
  apply (set_parent_harmless _ _ _ _ _ _ Hg Hgty) in Hup.
  etransitivity; [by apply same_pool_harmless|].
  etransitivity; [exact Hup|]. by apply same_pool_harmless.
Qed.

Lemma reparent_all_harmless np l : forall t u t',
  has_type t np INTERNAL_PAGE -> reparent_all np l t = Done u t' -> harmless t t'.
Proof.
  induction l as [|c l IH]; intros t u t' Hnp H; cbn [reparent_all] in H.
  - apply ret_Done in H as [_ <-]. reflexivity.
  - apply bind_Done in H as (? & s & Hc & H).
    etransitivity; [by eapply reparent_harmless|].
    eapply IH; [|exact H]. by eapply reparent_type.
Qed.

(** A write to a page that is no leaf, which keeps its kind and its parent
    pointer. *)
Lemma write_inner_harmless id p p' t u t' :
  nodes t !! id = Some p -> page_type p <> LEAF_PAGE ->
  page_type p' = page_type p -> parent_page_id p' = parent_page_id p ->
  write_page id p' t = Done u t' -> harmless t t'.
Proof.
  intros Hp Hty Hty' Hpar H.
  eapply (write_page_harmless _ _ _ _ _ _ Hp H); [exact Hty' | exact Hpar | done].
Qed.

Lemma InsertNodeAfter_harmless ip old k new t u t' :
  has_type t ip INTERNAL_PAGE ->
  InsertNodeAfter ip old k new t = Done u t' -> harmless t t'.
Proof.
  intros (p0 & Hp0 & Hty)%has_type_nodes H. unfold InsertNodeAfter in H.
  apply bind_Done in H as (p & s & [-> Hp]%read_page_Done_inv & H).
  rewrite <- nodes_lookup in Hp. assert (p = p0) as -> by congruence.
  eapply (write_inner_harmless _ _ _ _ _ _ Hp0); [| | | exact H]; [congruence | done..].
Qed.

Lemma PopulateNewRoot_harmless ip l k r t u t' :
  has_type t ip INTERNAL_PAGE ->
  PopulateNewRoot ip l k r t = Done u t' -> harmless t t'.
Proof.
  intros (p0 & Hp0 & Hty)%has_type_nodes H. unfold PopulateNewRoot, update_page in H.
  apply bind_Done in H as (p & s & [-> Hp]%read_page_Done_inv & H).
  rewrite <- nodes_lookup in Hp. assert (p = p0) as -> by congruence.
  eapply (write_inner_harmless _ _ _ _ _ _ Hp0); [| | | exact H]; [congruence | done..].
Qed.

(** The split of an internal page, into a page that knows its id. *)
Lemma MoveHalfTo_internal_harmless node recipient t u t' :
  (forall r, nodes t !! recipient = Some r -> page_id r = recipient) ->
  MoveHalfTo INTERNAL_PAGE node recipient t = Done u t' -> harmless t t'.
Proof.
  intros Hid H. unfold MoveHalfTo in H.
  apply bind_Done in H as (n & s & Hn & H).
  pose proof (read_as_type _ _ _ _ _ Hn) as Hnty.
  apply read_as_Done_inv in Hn as [-> Hn]. rewrite <- nodes_lookup in Hn.
  apply bind_Done in H as (r & s & Hr & H).
  pose proof (read_as_type _ _ _ _ _ Hr) as Hrty.
  apply read_as_Done_inv in Hr as [-> Hr]. rewrite <- nodes_lookup in Hr.
  rewrite bool_decide_eq_false_2 in H by discriminate.
  apply bind_Done in H as (? & s1 & H1 & H).
  apply bind_Done in H as (? & s2 & H2 & H3).
  pose proof (write_page_nodes _ _ _ _ _ H1) as (_ & HN1 & _).
  pose proof (write_page_nodes _ _ _ _ _ H2) as (_ & HN2 & _).
  assert (Hn1 : exists q, nodes s1 !! node = Some q /\ page_type q = INTERNAL_PAGE /\
                          parent_page_id q = parent_page_id n).
  { rewrite HN1. destruct (decide (node = recipient)) as [-> | Hne].
    - rewrite lookup_insert_eq. eexists. split; [reflexivity|].
      split; [exact Hrty | cbn; congruence].
    - rewrite lookup_insert_ne by done. eauto. }
  destruct Hn1 as (q & Hq & Hqty & Hqpar).
  assert (Hrec : has_type s2 recipient INTERNAL_PAGE).
  { apply has_type_nodes. rewrite HN2. destruct (decide (recipient = node)) as [-> | Hne].
    - rewrite lookup_insert_eq. eauto.
    - rewrite lookup_insert_ne, HN1, lookup_insert_eq by done. eauto. }
  rewrite (Hid _ Hr) in H3.
  etransitivity.
  { eapply (write_inner_harmless _ _ _ _ _ _ Hr); [| | | exact H1]; [congruence | done..]. }
  etransitivity.
  { eapply (write_inner_harmless _ _ _ _ _ _ Hq); [| | | exact H2]; cbn; congruence. }
  by eapply reparent_all_harmless.
Qed.

(** [Split] of a node of the kind it is called for. *)
Lemma Split_harmless kind node t new t' :
  kind <> INVALID_INDEX_PAGE -> has_type t node kind ->
  Split kind node t = Done new t' -> harmless t t'.
Proof.
  intros Hkind (p & Hp & Hty)%has_type_nodes H Hok0 Hdel0.
  unfold Split in H. apply bind_Done in H as (r & s & Hnew & H).
  apply NewPage_harmless in Hnew as [Hnew Hr].
  destruct r as [new_id|]; [|discriminate]. destruct Hr as (-> & Hn & HN).
  apply bind_Done in H as (n & s1 & [-> Hn1]%read_page_Done_inv & H).
  rewrite <- nodes_lookup in Hn1.
  apply bind_Done in H as (? & s2 & Hinit & H).
  apply bind_Done in H as (? & s3 & Hmove & [_ <-]%ret_Done).
  assert (Hne : node <> next_page t).
  { destruct (node_ok_lookup _ _ _ Hok0 Hp) as (? & _). lia. }
  assert (n = p) as -> by (rewrite HN, lookup_insert_ne in Hn1 by done; congruence).
  assert (Hblank : nodes s !! next_page t = Some blank_page)
    by (rewrite HN; apply lookup_insert_eq).
  eapply (Init_harmless _ _ _ _ _ _ _ Hblank) in Hinit as [Hinit (mx & HN2)];
    [| reflexivity |]; cycle 1.
  { intros Hoks. apply (node_ok_lookup _ _ _ Hoks Hn1). congruence. }
  assert (Hmv : harmless s2 s3).
  { destruct kind; [done | |].
    - eapply MoveHalfTo_leaf_harmless; [exact Hne | | exact Hmove].
      intros r. rewrite HN2, lookup_insert_eq. by intros [= <-].
    - eapply MoveHalfTo_internal_harmless; [| exact Hmove].
      intros r. rewrite HN2, lookup_insert_eq. by intros [= <-]. }
  exact (transitivity Hnew (transitivity Hinit Hmv) Hok0 Hdel0).
Qed.

(** [Insert] of the leaf class adds the pair, or nothing. *)
Lemma leaf_Insert_gains lp k v t sz t' p :
  nodes t !! lp = Some p -> page_type p = LEAF_PAGE ->
  leaf_Insert lp k v t = Done sz t' ->
  sz = Z.of_nat (length (leaf_insert k v (array p))) /\
  gains (fun e => if bool_decide (sz = GetSize p) then 0
                  else if decide ((k, v) = e) then 1 else 0) t t'.
Proof.
  intros Hp Hty H. unfold leaf_Insert in H.
  apply bind_Done in H as (q & s & [-> Hq]%read_page_Done_inv & H).
  rewrite <- nodes_lookup in Hq. assert (q = p) as -> by congruence.
  apply bind_Done in H as (? & s & Hw & [<- <-]%ret_Done).
  split; [reflexivity|].
  eapply gains_ext; [|eapply (write_page_gains _ _ _ _ _ _ Hp Hw)].
  - intros e. unfold node_entries. cbn [page_type array set_array]. rewrite Hty.
    rewrite (bool_decide_eq_true_2 (LEAF_PAGE = LEAF_PAGE)) by reflexivity.
    rewrite occ_leaf_insert. unfold GetSize. cbn [array set_array].
    repeat case_bool_decide; try lia.
  - reflexivity.
  - intros Hok _. cbn. apply leaf_insert_sorted. by apply (node_ok_lookup _ _ _ Hok Hp).
  - intros Hok _. cbn. apply (node_ok_lookup _ _ _ Hok Hp). congruence.
Qed.

(** ** The descent and the work set *)

Lemma page_set_harmless t l : harmless t (set_page_set l t).
Proof. apply same_pool_harmless, page_set_same_pool. Qed.

Lemma root_harmless t r : harmless t (set_root r t).
Proof. apply same_pool_harmless, root_same_pool. Qed.

Lemma header_harmless t op :
  True -> harmless t (set_header_ops (header_ops t ++ [op]) t).
Proof. intros _. by apply same_pool_harmless, header_same_pool. Qed.

Lemma calls_harmless t c : True -> harmless t (set_calls (calls t ++ [c]) t).
Proof. intros _. by apply same_pool_harmless, calls_same_pool. Qed.

Create HintDb keeps.

Ltac harmless_leaf :=
  first
  [ apply (read_page_respects harmless pin_step_harmless)
  | apply (UnpinPage_respects harmless pin_step_harmless)
  | apply (FetchPage_respects harmless pin_step_harmless)
  | apply (lockFor_respects harmless pin_step_harmless)
  | apply (unlockFor_respects harmless pin_step_harmless)
  | apply (GetInternalPage_respects harmless pin_step_harmless)
  | apply (internal_Lookup_respects harmless pin_step_harmless)
  | apply (GetPage_respects harmless pin_step_harmless page_set_harmless)
  | apply (AddIntoPageSet_respects harmless page_set_harmless)
  | apply (KeyAt_respects harmless)
  | apply (ValueAt_respects harmless)
  | apply (assert_page_set_empty_respects harmless)
  | apply (modify_respects harmless); intros ?; apply same_pool_harmless; by split_and!
  | apply (record_respects harmless (fun _ => True) calls_harmless); exact I
  | apply (UpdateRootPageId_respects harmless (fun _ => True) pin_step_harmless
             header_harmless); intros; exact I ].

Global Hint Extern 1 (respects harmless _) => harmless_leaf : keeps.

Ltac harmless_auto := repeat respects_step; eauto with keeps.

(** With no page waiting to be deleted, the release of a page deletes
    nothing. *)
Lemma release_page_harmless mode d id : respects harmless (release_page mode d id).
Proof.
  intros t u t' H Hok Hdel. unfold release_page in H.
  apply bind_Done in H as (? & s1 & H1%unlockFor_pin%pin_step_same_pool & H).
  apply bind_Done in H as (? & s2 & H2%UnpinPage_pin%pin_step_same_pool & H).
  rewrite bind_get in H.
  assert (H12 : same_pool t s2) by (etransitivity; eassumption).
  destruct H12 as (HN & Hn & Hd).
  rewrite bool_decide_eq_false_2 in H by (rewrite Hd, Hdel; set_solver).
  apply ret_Done in H as [_ <-].
  by apply (same_pool_harmless t s2).
Qed.
Global Hint Resolve release_page_harmless : keeps.

Lemma release_all_harmless mode d l : respects harmless (release_all mode d l).
Proof. induction l; cbn [release_all]; harmless_auto. Qed.
Global Hint Resolve release_all_harmless : keeps.

Lemma clearTxnWorkSet_harmless mode d : respects harmless (clearTxnWorkSet mode d).
Proof. unfold clearTxnWorkSet. harmless_auto. Qed.
Global Hint Resolve clearTxnWorkSet_harmless : keeps.

Lemma relock_root_harmless fuel mode : forall pid, respects harmless (relock_root fuel mode pid).
Proof. induction fuel; intros pid; cbn [relock_root]; harmless_auto. Qed.
Global Hint Resolve relock_root_harmless : keeps.

Lemma release_ancestors_harmless mode c : respects harmless (release_ancestors mode c).
Proof. unfold release_ancestors. harmless_auto. Qed.
Global Hint Resolve release_ancestors_harmless : keeps.

Lemma descend_step_harmless k tx mode pid : respects harmless (descend_step k tx mode pid).
Proof. unfold descend_step. harmless_auto. Qed.
Global Hint Resolve descend_step_harmless : keeps.

Lemma descend_harmless fuel k tx mode : forall pid,
  respects harmless (descend fuel k tx mode pid).
Proof. induction fuel; intros pid; cbn [descend]; harmless_auto. Qed.
Global Hint Resolve descend_harmless : keeps.

Lemma GetLeafPage_harmless fuel k tx mode : respects harmless (GetLeafPage fuel k tx mode).
Proof. unfold GetLeafPage. harmless_auto. Qed.
Global Hint Resolve GetLeafPage_harmless : keeps.

(** The page that the descent ends in is a leaf. *)
Lemma descend_leaf fuel k tx mode : forall pid t leaf t',
  descend fuel k tx mode pid t = Done leaf t' -> has_type t' leaf LEAF_PAGE.
Proof.
  induction fuel as [|fuel IH]; intros pid t leaf t' H; cbn [descend] in H;
    apply bind_Done in H as (p & s & [-> Hp]%read_page_Done_inv & H);
    unfold IsLeafPage in H; case_bool_decide;
    try (apply ret_Done in H as [<- <-]; by exists p); [discriminate|].
  apply bind_Done in H as (next & s & _ & H). eauto.
Qed.

Lemma GetLeafPage_leaf fuel k tx mode t lp t' :
  GetLeafPage fuel k tx mode t = Done (Some lp) t' -> has_type t' lp LEAF_PAGE.
Proof.
  unfold GetLeafPage. rewrite bind_get. destruct (IsEmpty t); [discriminate|].
  intros (? & s & _ & H)%bind_Done.
  apply bind_Done in H as (? & s1 & _ & H).
  apply bind_Done in H as (? & s2 & _ & H).
  apply bind_Done in H as (leaf & s3 & H & [[= <-] <-]%ret_Done).
  by eapply descend_leaf.
Qed.

(** ** The way up *)

Lemma harmless_has_type t t' id ty :
  harmless t t' -> tree_ok t -> deleted_page_set t = ∅ ->
  has_type t id ty -> ty <> INVALID_INDEX_PAGE -> has_type t' id ty.
Proof.
  intros H Hok Hdel (p & Hp & Hty)%has_type_nodes Hnode.
  destruct (H Hok Hdel) as (_ & _ & Hk & _).
  destruct (Hk _ _ Hp) as (p' & Hp' & Hty'); [congruence|].
  apply has_type_nodes. exists p'. split; [exact Hp' | congruence].
Qed.

Lemma same_pool_has_type t t' id ty : same_pool t t' -> has_type t id ty -> has_type t' id ty.
Proof. intros (HN & _) H. apply has_type_nodes. rewrite HN. by apply has_type_nodes. Qed.

(** The step [H] from the state that [Hacc] has reached is added to it. *)
Ltac then_harmless Hacc H :=
  let Hn := fresh "Hacc" in
  pose proof (transitivity Hacc H) as Hn; clear Hacc; rename Hn into Hacc.

Lemma InsertIntoParent_harmless fuel : forall old k new t u t',
  (exists p, nodes t !! old = Some p /\ page_type p <> INVALID_INDEX_PAGE) ->
  InsertIntoParent fuel old k new t = Done u t' -> harmless t t'.
Proof.
  induction fuel as [|fuel IH]; intros old k new t u t' (p0 & Hp0 & Hty0) H;
    [discriminate|].
  cbn [InsertIntoParent] in H.
  apply bind_Done in H as (o & s & [-> Ho]%read_page_Done_inv & H).
  rewrite <- nodes_lookup in Ho. assert (o = p0) as -> by congruence. clear Ho.
  apply bind_Done in H as (nw & s & [-> Hnw]%read_page_Done_inv & H).
  apply bind_Done in H as (? & s1 & ->%modify_Done & H).
  intros Hok Hdel.
  assert (Hacc : harmless t (set_calls (calls t ++ [CallInsertIntoParent p0 k nw]) t))
    by (by apply calls_harmless).
  match type of Hacc with harmless _ ?s => set (t1 := s) in * end.
  assert (Hp1 : nodes t1 !! old = Some p0) by exact Hp0.
  destruct (parent_page_id p0 =? INVALID_PAGE_ID) eqn:Epar.
  - (* a new root *)
    apply bind_Done in H as (r & s2 & Hnew & H).
    apply NewPage_harmless in Hnew as [Hnew Hr].
    destruct r as [pid|]; [|discriminate]. destruct Hr as (-> & Hn2 & HN2).
    apply bind_Done in H as (? & s3 & Hinit & H).
    assert (Hblank : nodes s2 !! next_page t1 = Some blank_page)
      by (rewrite HN2; apply lookup_insert_eq).
    eapply (Init_harmless _ _ _ _ _ _ _ Hblank) in Hinit as [Hinit (mx & HN3)];
      [| reflexivity | apply parent_ok_invalid].
    then_harmless Hacc Hnew. then_harmless Hacc Hinit.
    assert (Hroot : has_type s3 (next_page t1) INTERNAL_PAGE).
    { apply has_type_nodes. rewrite HN3, lookup_insert_eq. eauto. }
    apply bind_Done in H as (? & s4 & ->%modify_Done & H).
    pose proof (root_same_pool s3 (next_page t1)) as H4.
    apply bind_Done in H as (? & s5 & H5 & H).
    apply (UpdateRootPageId_respects same_pool (fun _ => True) pin_step_same_pool
             header_same_pool false (fun _ _ => I)) in H5.
    assert (H35 : same_pool s3 s5) by (etransitivity; eassumption).
    apply (same_pool_has_type _ _ _ _ H35) in Hroot.
    pose proof (same_pool_harmless _ _ H35) as H35'. then_harmless Hacc H35'.
    apply bind_Done in H as (? & s6 & H6 & H).
    pose proof Hroot as (g & Hg & Hgty)%has_type_nodes.
    pose proof (set_parent_harmless _ _ _ _ _ _ Hg Hgty H6) as H6'.
    destruct (Hacc Hok Hdel) as (Hok5 & Hdel5 & _).
    apply (harmless_has_type _ _ _ _ H6' Hok5 Hdel5) in Hroot; [|discriminate].
    then_harmless Hacc H6'.
    apply bind_Done in H as (? & s7 & H7 & H).
    pose proof Hroot as (g' & Hg' & Hgty')%has_type_nodes.
    pose proof (set_parent_harmless _ _ _ _ _ _ Hg' Hgty' H7) as H7'.
    destruct (Hacc Hok Hdel) as (Hok6 & Hdel6 & _).
    apply (harmless_has_type _ _ _ _ H7' Hok6 Hdel6) in Hroot; [|discriminate].
    then_harmless Hacc H7'.
    apply bind_Done in H as (o' & s & [-> _]%read_page_Done_inv & H).
    apply bind_Done in H as (nw' & s & [-> _]%read_page_Done_inv & H).
    apply bind_Done in H as (? & s8 & H8 & H).
    apply (PopulateNewRoot_harmless _ _ _ _ _ _ _ Hroot) in H8. then_harmless Hacc H8.
    apply bind_Done in H as (? & s9 & H9%UnpinPage_pin%pin_step_harmless & [_ <-]%ret_Done).
    then_harmless Hacc H9. exact (Hacc Hok Hdel).
  - (* the parent takes the new node *)
    apply bind_Done in H as (ip & s2 & Hget & H).
    pose proof (GetInternalPage_value _ _ _ _ Hget) as ->.
    assert (Hip1 : is_Some (nodes t1 !! parent_page_id p0)).
    { unfold GetInternalPage in Hget.
      apply bind_Done in Hget as (r & s & Hf & [-> _]%from_option_Done).
      unfold FetchPage in Hf. rewrite nodes_lookup.
      destruct (pages t1 !! parent_page_id p0); [by eexists | discriminate]. }
    apply (GetInternalPage_respects same_pool pin_step_same_pool) in Hget.
    destruct (Hacc Hok Hdel) as (Hok1 & Hdel1 & _).
    assert (Hip : has_type t1 (parent_page_id p0) INTERNAL_PAGE).
    { destruct Hip1 as [g Hg]. apply has_type_nodes. exists g. split; [exact Hg|].
      by apply (node_ok_lookup _ _ _ Hok1 Hp1). }
    apply (same_pool_has_type _ _ _ _ Hget) in Hip.
    pose proof (same_pool_harmless _ _ Hget) as Hget'. then_harmless Hacc Hget'.
    apply bind_Done in H as (nw' & s & [-> _]%read_page_Done_inv & H).
    apply bind_Done in H as (? & s3 & H3 & H).
    pose proof (InsertNodeAfter_harmless _ _ _ _ _ _ _ Hip H3) as H3'.
    destruct (Hacc Hok Hdel) as (Hok2 & Hdel2 & _).
    apply (harmless_has_type _ _ _ _ H3' Hok2 Hdel2) in Hip; [|discriminate].
    then_harmless Hacc H3'.
    apply bind_Done in H as (p & s & [-> _]%read_page_Done_inv & H).
    apply bind_Done in H as (? & s4 & Hsplit & H).
    apply bind_Done in H as (? & s5 & H5%UnpinPage_pin%pin_step_harmless & [_ <-]%ret_Done).
    assert (H34 : harmless s3 s4).
    { destruct (GetMaxSize p <? GetSize p).
      - apply bind_Done in Hsplit as (newlp & s6 & Hs & Hsplit).
        pose proof (Split_harmless INTERNAL_PAGE _ _ _ _ ltac:(discriminate) Hip Hs) as Hs'.
        destruct (Hacc Hok Hdel) as (Hok3 & Hdel3 & _).
        apply (harmless_has_type _ _ _ _ Hs' Hok3 Hdel3) in Hip; [|discriminate].
        apply bind_Done in Hsplit as (np & s & [-> _]%read_page_Done_inv & Hsplit).
        apply bind_Done in Hsplit as (k' & s & [_ ->]%from_option_Done & Hsplit).
        apply bind_Done in Hsplit as (? & s7 & Hrec & Hsplit).
        apply IH in Hrec.
        + apply bind_Done in Hsplit
            as (? & s8 & H8%UnpinPage_pin%pin_step_harmless & [_ <-]%ret_Done).
          exact (transitivity Hs' (transitivity Hrec H8)).
        + apply has_type_nodes in Hip as (g & Hg & Hgty). exists g.
          split; [exact Hg | congruence].
      - apply ret_Done in Hsplit as [_ <-]. reflexivity. }
    then_harmless Hacc H34. then_harmless Hacc H5. exact (Hacc Hok Hdel).
Qed.

(** ** Insertion *)

Lemma gains_has_type g t t' id ty :
  gains g t t' -> tree_ok t -> deleted_page_set t = ∅ ->
  has_type t id ty -> ty <> INVALID_INDEX_PAGE -> has_type t' id ty.
Proof.
  intros H Hok Hdel (p & Hp & Hty)%has_type_nodes Hnode.
  destruct (H Hok Hdel) as (_ & _ & Hk & _).
  destruct (Hk _ _ Hp) as (p' & Hp' & Hty'); [congruence|].
  apply has_type_nodes. exists p'. split; [exact Hp' | congruence].
Qed.

Lemma InsertIntoLeaf_gains fuel key value tx t b t' :
  InsertIntoLeaf fuel key value tx t = Done b t' ->
  gains (fun e => if b then if decide ((key, value) = e) then 1 else 0 else 0) t t'.
Proof.
  intros H Hok Hdel. unfold InsertIntoLeaf in H.
  apply bind_Done in H as (? & s0 & H0 & H).
  apply (assert_page_set_empty_respects same_pool) in H0.
  apply bind_Done in H as (r & s1 & Hleaf & H).
  pose proof (GetLeafPage_harmless _ _ _ _ _ _ _ Hleaf) as H1.
  pose proof (transitivity (same_pool_harmless _ _ H0) H1) as Hacc. clear H1.
  destruct r as [lp|]; cycle 1.
  { apply ret_Done in H as [<- <-]. exact (Hacc Hok Hdel). }
  apply GetLeafPage_leaf in Hleaf as (p0 & Hp0 & Hty)%has_type_nodes.
  apply bind_Done in H as (p & s2 & [-> Hp]%read_page_Done_inv & H).
  rewrite <- nodes_lookup in Hp. assert (p = p0) as -> by congruence. clear Hp.
  apply bind_Done in H as (newSize & s2 & Hins & H).
  pose proof (leaf_Insert_gains _ _ _ _ _ _ _ Hp0 Hty Hins) as [Hsz Hgain].
  pose proof (gains_after _ _ _ _ Hacc Hgain) as Hacc2.
  assert (Hlp : has_type s2 lp LEAF_PAGE).
  { destruct (Hacc Hok Hdel) as (Hok1 & Hdel1 & _).
    eapply (gains_has_type _ _ _ _ _ Hgain Hok1 Hdel1); [|discriminate].
    apply has_type_nodes. eauto. }
  clear Hacc Hgain.
  apply bind_Done in H as (? & s3 & Hsplit & H).
  assert (H23 : harmless s2 s3).
  { destruct (GetMaxSize p0 <? newSize).
    - apply bind_Done in Hsplit as (newlp & s4 & Hs & Hsplit).
      pose proof (Split_harmless LEAF_PAGE _ _ _ _ ltac:(discriminate) Hlp Hs) as Hs'.
      destruct (Hacc2 Hok Hdel) as (Hok2 & Hdel2 & _).
      apply (harmless_has_type _ _ _ _ Hs' Hok2 Hdel2) in Hlp; [|discriminate].
      apply bind_Done in Hsplit as (oldp & s & [-> _]%read_page_Done_inv & Hsplit).
      apply bind_Done in Hsplit as (k' & s & [_ ->]%from_option_Done & Hsplit).
      apply bind_Done in Hsplit as (? & s5 & Hup & Hsplit).
      apply InsertIntoParent_harmless in Hup; cycle 1.
      { apply has_type_nodes in Hlp as (g & Hg & Hgty). exists g.
        split; [exact Hg | congruence]. }
      apply bind_Done in Hsplit as (np & s & [-> _]%read_page_Done_inv & Hsplit).
      apply bind_Done in Hsplit
        as (? & s6 & H6%UnpinPage_pin%pin_step_harmless & [_ <-]%ret_Done).
      exact (transitivity Hs' (transitivity Hup H6)).
    - apply ret_Done in Hsplit as [_ <-]. reflexivity. }
  apply bind_Done in H as (? & s4 & Hexit & H).
  assert (H34 : harmless s3 s4).
  { revert Hexit. match goal with |- ?m _ = _ -> _ => assert (Hr : respects harmless m) end.
    { harmless_auto. }
    apply Hr. }
  apply bind_Done in H as (? & s5 & H5 & [<- <-]%ret_Done).
  apply (assert_page_set_empty_respects harmless) in H5.
  pose proof (gains_then _ _ _ _ Hacc2 (transitivity H23 (transitivity H34 H5))) as Hall.
  eapply gains_ext; [|exact Hall|exact Hok|exact Hdel].
  intros e. cbn. destruct (GetSize p0 =? newSize) eqn:E; cbn [negb].
  - apply Z.eqb_eq in E. by rewrite bool_decide_eq_true_2.
  - apply Z.eqb_neq in E. by rewrite bool_decide_eq_false_2.
Qed.

(** ** The first key *)

Global Instance same_tree_preorder : PreOrder same_tree.
Proof.
  split.
  - intros t. split; reflexivity.
  - intros t1 t2 t3 [P1 R1] [P2 R2]. split; [by etransitivity | congruence].
Qed.

Lemma pin_step_same_tree t t' : pin_step t t' -> same_tree t t'.
Proof.
  intros H. split; [by apply pin_step_same_pool|].
  by destruct H as ((_ & Hr & _) & _).
Qed.

Lemma page_set_same_tree t l : same_tree t (set_page_set l t).
Proof. split; [apply page_set_same_pool | reflexivity]. Qed.

Lemma relock_root_value fuel mode : forall pid t r t',
  relock_root fuel mode pid t = Done r t' -> r = root_page_id t'.
Proof.
  induction fuel as [|fuel IH]; intros pid t r t' H; cbn [relock_root] in H;
    rewrite bind_get in H; destruct (pid =? root_page_id t) eqn:E;
    try (apply ret_Done in H as [<- <-]; by apply Z.eqb_eq); [discriminate|].
  apply bind_Done in H as (? & s1 & _ & H).
  apply bind_Done in H as (? & s2 & _ & H).
  apply bind_Done in H as (? & s3 & _ & H).
  apply bind_Done in H as (? & s4 & _ & H). eauto.
Qed.

(** When the root is a leaf, the descent ends where it starts. *)
Lemma GetLeafPage_at_root_leaf fuel key tx mode t r t' :
  root_page_id t <> INVALID_PAGE_ID ->
  has_type t (root_page_id t) LEAF_PAGE ->
  GetLeafPage fuel key tx mode t = Done r t' ->
  r = Some (root_page_id t) /\ same_tree t t'.
Proof.
  intros Hroot Hleaf H. unfold GetLeafPage in H. rewrite bind_get in H.
  unfold IsEmpty in H. rewrite bool_decide_eq_false_2 in H by done.
  apply bind_Done in H as (? & s & [_ ->]%assert_Done & H).
  apply bind_Done in H as (btp & s1 & H1 & H).
  pose proof (GetPage_value _ _ _ _ _ _ H1) as ->.
  apply (GetPage_respects same_tree pin_step_same_tree page_set_same_tree) in H1.
  apply bind_Done in H as (start & s2 & H2 & H).
  assert (H12 : same_tree s1 s2 /\ start = root_page_id s2).
  { destruct tx.
    - apply bind_Done in H2 as (? & s3 & H3 & H2).
      apply (lockFor_respects same_tree pin_step_same_tree) in H3.
      apply bind_Done in H2 as (btp' & s4 & H4 & H2).
      pose proof (relock_root_value _ _ _ _ _ _ H4) as ->.
      apply (relock_root_respects same_tree pin_step_same_tree page_set_same_tree) in H4.
      apply bind_Done in H2 as (? & s5 & H5 & [<- <-]%ret_Done).
      apply (AddIntoPageSet_respects same_tree page_set_same_tree) in H5.
      split; [by repeat (etransitivity; [eassumption|])|]. by destruct H5 as [_ ->].
    - apply ret_Done in H2 as [<- <-]. split; [reflexivity|]. by destruct H1 as [_ ->]. }
  destruct H12 as [H12 ->].
  assert (Hall : same_tree t s2) by (etransitivity; eassumption).
  apply bind_Done in H as (leaf & s3 & Hd & [<- <-]%ret_Done).
  destruct Hall as [Hpool Hr]. rewrite Hr in Hd.
  apply (same_pool_has_type _ _ _ _ Hpool) in Hleaf as (p & Hp & Hty).
  assert (leaf = root_page_id t /\ s3 = s2) as [-> ->].
  { destruct fuel; cbn [descend] in Hd;
      apply bind_Done in Hd as (q & s & [-> Hq]%read_page_Done_inv & Hd);
      assert (q = p) as -> by congruence;
      unfold IsLeafPage in Hd; rewrite bool_decide_eq_true_2 in Hd by exact Hty;
      by apply ret_Done in Hd as [<- <-]. }
  split; [reflexivity|]. by split.
Qed.

Lemma InsertIntoLeaf_into_empty_root fuel k v tx t b t' p :
  root_page_id t <> INVALID_PAGE_ID ->
  nodes t !! root_page_id t = Some p -> page_type p = LEAF_PAGE -> array p = [] ->
  InsertIntoLeaf fuel k v tx t = Done b t' -> b = true.
Proof.
  intros Hroot Hp Hty Ha H. unfold InsertIntoLeaf in H.
  apply bind_Done in H as (? & s0 & H0 & H).
  apply (assert_page_set_empty_respects same_tree) in H0.
  apply bind_Done in H as (r & s1 & Hleaf & H).
  destruct H0 as [H0 Hr0].
  apply GetLeafPage_at_root_leaf in Hleaf as [-> [H1 _]]; cycle 1.
  { congruence. }
  { rewrite Hr0. apply (same_pool_has_type _ _ _ _ H0). apply has_type_nodes. eauto. }
  rewrite Hr0 in H.
  assert (Hp1 : nodes s1 !! root_page_id t = Some p).
  { destruct H1 as (-> & _). destruct H0 as (-> & _). exact Hp. }
  apply bind_Done in H as (q & s & [-> Hq]%read_page_Done_inv & H).
  rewrite <- nodes_lookup in Hq. assert (q = p) as -> by congruence.
  apply bind_Done in H as (newSize & s2 & Hins & H).
  apply (leaf_Insert_gains _ _ _ _ _ _ _ Hp1 Hty) in Hins as [-> _].
  apply bind_Done in H as (? & s3 & _ & H).
  apply bind_Done in H as (? & s4 & _ & H).
  apply bind_Done in H as (? & s5 & _ & [<- _]%ret_Done).
  unfold GetSize. rewrite Ha. reflexivity.
Qed.

Lemma StartNewTree_gains fuel key value tx t u t' :
  root_page_id t = INVALID_PAGE_ID ->
  StartNewTree fuel key value tx t = Done u t' ->
  gains (fun e => if decide ((key, value) = e) then 1 else 0) t t'.
Proof.
  intros Hroot H Hok Hdel. unfold StartNewTree in H.
  apply bind_Done in H as (r & s1 & Hnew & H).
  pose proof (NewPage_pool _ _ _ Hnew) as (_ & Hr1 & _).
  apply NewPage_harmless in Hnew as [Hnew Hr].
  destruct r as [new|]; [|discriminate]. destruct Hr as (-> & Hn1 & HN1).
  apply bind_Done in H as (? & s2 & Hinit & H).
  pose proof (Init_respects pool_step (fun _ _ P => P) _ _ _ _ _ _ Hinit) as (_ & Hr2 & _).
  assert (Hblank : nodes s1 !! next_page t = Some blank_page)
    by (rewrite HN1; apply lookup_insert_eq).
  eapply (Init_harmless _ _ _ _ _ _ _ Hblank) in Hinit as [Hinit (mx & HN2)];
    [| reflexivity | apply parent_ok_invalid].
  apply bind_Done in H as (? & s3 & H3 & H).
  pose proof (UnpinPage_pool _ _ _ _ _ H3) as (_ & Hr3 & _).
  apply UnpinPage_pin, pin_step_same_pool in H3.
  rewrite bind_get in H.
  assert (Hroot3 : root_page_id s3 = INVALID_PAGE_ID) by congruence.
  rewrite Hroot3 in H. cbn [Z.eqb INVALID_PAGE_ID Pos.eqb] in H.
  apply bind_Done in H as (? & s4 & H4 & H).
  apply bind_Done in H4 as (? & s5 & ->%modify_Done & H4).
  apply (UpdateRootPageId_respects same_tree (fun _ => True) pin_step_same_tree
           (fun t op _ => conj (header_same_pool t op I) eq_refl) true (fun _ _ => I)) in H4.
  destruct H4 as [H4 Hr4]. cbn [root_page_id set_root] in Hr4.
  apply bind_Done in H as (b & s6 & Hins & [_ <-]%ret_Done).
  assert (Hleaf : nodes s4 !! next_page t =
                  Some (mkPage LEAF_PAGE (next_page t) INVALID_PAGE_ID mx INVALID_PAGE_ID [])).
  { destruct H4 as (-> & _). destruct H3 as (HN3 & _).
    change (nodes (set_root (next_page t) s3)) with (nodes s3).
    rewrite HN3, HN2. apply lookup_insert_eq. }
  assert (Hnn : next_page t <> INVALID_PAGE_ID).
  { destruct Hok as [Hn _]. unfold INVALID_PAGE_ID. lia. }
  pose proof (InsertIntoLeaf_gains _ _ _ _ _ _ _ Hins) as Hgain.
  assert (Hroot4 : root_page_id s4 <> INVALID_PAGE_ID) by congruence.
  rewrite <- Hr4 in Hleaf.
  apply (InsertIntoLeaf_into_empty_root _ _ _ _ _ _ _ _ Hroot4 Hleaf eq_refl eq_refl)
    in Hins as ->.
  assert (Hacc : harmless t s4).
  { etransitivity; [exact Hnew|]. etransitivity; [exact Hinit|].
    etransitivity; [by apply same_pool_harmless|].
    etransitivity; [apply (root_harmless s3 (next_page t))|].
    by apply same_pool_harmless. }
  exact (gains_after _ _ _ _ Hacc Hgain Hok Hdel).
Qed.

Lemma Insert_gains fuel key value tx t b t' :
  Insert fuel key value tx t = Done b t' ->
  gains (fun e => if b then if decide ((key, value) = e) then 1 else 0 else 0) t t'.
Proof.
  intros H. unfold Insert in H. rewrite bind_get in H. unfold IsEmpty in H.
  case_bool_decide as Hroot.
  - apply bind_Done in H as (? & s & Hs & [<- <-]%ret_Done).
    exact (StartNewTree_gains _ _ _ _ _ _ _ Hroot Hs).
  - exact (InsertIntoLeaf_gains _ _ _ _ _ _ _ H).
Qed.

Lemma tree_okb_ok t : tree_okb t = true -> tree_ok t.
Proof.
  unfold tree_okb. intros [Hn H]%andb_prop. split; [lia|].
  intros id p. rewrite nodes_lookup. intros (f & Hf & ->)%fmap_Some.
  apply (forallb_pages _ _ _ _ H) in Hf. unfold node_okb in Hf. cbn [fst snd] in Hf.
  apply andb_prop in Hf as [[H0 H1]%andb_prop Hf].
  split; [lia|]. destruct (page_type (data f)) eqn:Hty.
  - split; [discriminate | done].
  - apply andb_prop in Hf as [[Hinc Hpar]%andb_prop Hg]. split.
    + intros _. by apply increasing_sorted.
    + intros _. split; [lia|]. intros g. rewrite nodes_lookup.
      intros (fg & Hfg & ->)%fmap_Some. rewrite Hfg in Hg. by apply bool_decide_eq_true in Hg.
  - apply andb_prop in Hf as [[_ Hpar]%andb_prop Hg]. split; [discriminate|].
    intros _. split; [lia|]. intros g. rewrite nodes_lookup.
    intros (fg & Hfg & ->)%fmap_Some. rewrite Hfg in Hg. by apply bool_decide_eq_true in Hg.
Qed.

(** X17: [Insert] keeps the entries.  On a pool in order -- page ids below
    the next one, the keys of every leaf strictly increasing, every parent
    pointer at an internal page -- with no page waiting to be deleted, a
    call of [Insert] that returns, with or without a transaction, leaves the
    pool in order and changes the entries stored in the leaves by exactly
    the pair it was given: that pair is stored once more if it returns true
    and nothing is stored or lost if it returns false, however many nodes
    were split on the way. *)
Theorem Insert_keeps_the_entries fuel key value transaction t b t' :
  tree_ok t -> deleted_page_set t = ∅ ->
  Insert fuel key value transaction t = Done b t' ->
  tree_ok t' /\
  forall e, entry_count e t' =
            entry_count e t + if b then if decide ((key, value) = e) then 1 else 0 else 0.
Proof.
  intros Hok Hdel H. destruct (Insert_gains _ _ _ _ _ _ _ H Hok Hdel) as (Hok' & _ & _ & Hc).
  split; [exact Hok' | exact Hc].
Qed.

Lemma Insert_keeps_the_entries_witness :
  tree_ok (exec (Insert 8 17 170 true) sixteen_key_tree) /\
  forall e, entry_count e (exec (Insert 8 17 170 true) sixteen_key_tree) =
            entry_count e sixteen_key_tree + if decide ((17, 170) = e) then 1 else 0.
Proof.
  apply (Insert_keeps_the_entries 8 17 170 true sixteen_key_tree true).
  - apply tree_okb_ok. vm_compute. reflexivity.
  - vm_compute. reflexivity.
  - vm_compute. reflexivity.
Defined.

(** The sixteen pairs are still there, and the new one. *)
Example entries_after_Insert_17 :
  (fun e => entry_count e (exec (Insert 8 17 170 true) sixteen_key_tree))
    <$> [(1, 10); (9, 90); (16, 160); (17, 170); (17, 0)] = [1; 1; 1; 1; 0].
Proof. vm_compute. reflexivity. Qed.

(** * The pins of [Begin()] *)

(** The descent of [leftmost] goes down first children and keeps a pin on
    every page it fetches. *)
Lemma leftmost_pins fuel : forall page P t leaf t',
  pool_pins None P t -> leftmost fuel page t = Done leaf t' ->
  exists path,
    pool_pins None (spread P path) t' /\ last (page :: path) = Some leaf /\
    first_children (nodes t) page path.
Proof.
  induction fuel as [|fuel IH]; intros page P t leaf t' Hw H; cbn [leftmost] in H;
    apply bind_Done in H as (p & s & [-> Hp]%read_page_Done_inv & H);
    rewrite <- nodes_lookup in Hp;
    destruct (IsLeafPage p) eqn:Hleaf;
    try (apply ret_Done in H as [<- <-]; exists []; split_and!;
         [eapply pool_pins_ext; [|exact Hw]; intros j; unfold spread; cbn; lia
         | reflexivity | by exists p]);
    [discriminate|].
  apply bind_Done in H as (child & s & Hv & H).
  pose proof (ValueAt_same _ _ _ _ _ Hv) as ->.
  unfold ValueAt in Hv. apply from_option_Done in Hv as [Hv _].
  apply bind_Done in H as (next & s & Hg & H).
  pose proof (GetPage_respects same_pool pin_step_same_pool page_set_same_pool _ _ _ _ _ _ Hg)
    as (HN & _).
  apply (GetPage_pins _ _ _ _ _ _ _ Hw) in Hg as [-> Hw'].
  destruct (IH _ _ _ _ _ Hw' H) as (path & Hpins & Hl & Hpath).
  exists (child :: path). split_and!; [| exact Hl |].
  - eapply pool_pins_ext; [|exact Hpins]. intros j. pins_arith.
  - cbn [first_children]. split; [by exists p | by rewrite <- HN].
Qed.

Lemma leftmost_leaf fuel : forall page t leaf t',
  leftmost fuel page t = Done leaf t' -> has_type t' leaf LEAF_PAGE.
Proof.
  induction fuel as [|fuel IH]; intros page t leaf t' H; cbn [leftmost] in H;
    apply bind_Done in H as (p & s & [-> Hp]%read_page_Done_inv & H);
    unfold IsLeafPage in H; case_bool_decide;
    try (apply ret_Done in H as [<- <-]; by exists p); [discriminate|].
  apply bind_Done in H as (child & s & _ & H).
  apply bind_Done in H as (next & s1 & _ & H). eauto.
Qed.

Lemma leftmost_same_pool fuel : forall page, respects same_pool (leftmost fuel page).
Proof.
  induction fuel as [|fuel IH]; intros page; cbn [leftmost];
    repeat respects_step;
    first [ apply (read_page_respects same_pool pin_step_same_pool)
          | apply (ValueAt_respects same_pool)
          | apply (GetPage_respects same_pool pin_step_same_pool page_set_same_pool)
          | apply IH ].
Qed.

(** X18: [Begin()] keeps its pins.  On a pool in good order a call of
    [Begin()] that returns has gone from the root down first children to a
    leaf -- [path] lists the pages below the root on that way, each the
    child in entry 0 of the one before -- and its iterator stands at index
    0 of that leaf; no node has changed, and every page on that path, the
    root first, is left with one more pin than it had: none of the pins the
    descent took is returned. *)
Theorem Begin_pins_the_path fuel t it t' :
  pool_sound t ->
  Begin fuel t = Done it t' ->
  exists path,
    first_children (nodes t) (root_page_id t) path /\
    last (root_page_id t :: path) = Some it.1 /\ it.2 = 0 /\
    has_type t it.1 LEAF_PAGE /\
    nodes t' = nodes t /\
    forall id f', pages t' !! id = Some f' ->
      pin_count f' = pins_of t id + held_pins (root_page_id t :: path) id.
Proof.
  intros Hs H. unfold Begin in H. rewrite bind_get in H.
  apply bind_Done in H as (page & s1 & H1 & H).
  pose proof (GetPage_respects same_pool pin_step_same_pool page_set_same_pool _ _ _ _ _ _ H1)
    as Hp1.
  apply (GetPage_pins _ _ _ _ _ _ _ Hs) in H1 as [-> Hw1].
  apply bind_Done in H as (leaf & s2 & H2 & H).
  pose proof (leftmost_same_pool _ _ _ _ _ H2) as Hp2.
  pose proof (leftmost_leaf _ _ _ _ _ H2) as Hleaf.
  apply (leftmost_pins _ _ _ _ _ _ Hw1) in H2 as (path & Hw2 & Hlast & Hpath).
  apply bind_Done in H as (p & s & Hr & [<- <-]%ret_Done).
  apply (read_page_pins _ _ _ _ _ _ Hw2) in Hr as [-> Hid].
  rewrite Hid by discriminate. cbn [fst snd].
  assert (Hp : same_pool t s2) by (etransitivity; eassumption).
  exists path.
  split_and!; [by destruct Hp1 as [<- _] | exact Hlast | reflexivity | | by destruct Hp |].
  - destruct Hp as (HN & _). apply has_type_nodes. rewrite <- HN. by apply has_type_nodes.
  - intros id f' Hf'. destruct (pool_pins_lookup _ _ _ _ _ Hw2 Hf') as [-> _].
    pins_arith.
Qed.

Lemma Begin_pins_the_path_witness :
  exists path,
    first_children (nodes five_key_tree) 3 path /\
    last (3 :: path) = Some 1 /\
    forall id f', pages (exec (Begin 8) five_key_tree) !! id = Some f' ->
      pin_count f' = pins_of five_key_tree id + held_pins (3 :: path) id.
Proof.
  destruct (Begin_pins_the_path 8 five_key_tree (1, 0) (exec (Begin 8) five_key_tree))
    as (path & Hc & Hl & _ & _ & _ & Hp).
  - apply pool_soundb_sound. vm_compute. reflexivity.
  - vm_compute. reflexivity.
  - exists path. split_and!; [exact Hc | exact Hl | exact Hp].
Defined.

(** In the tree of five keys the way down first children is the one step
    from the root, page 3, to page 1; the step to the last child, page 2,
    is none. *)
Example first_children_five_key_tree :
  first_children (nodes five_key_tree) 3 [1] /\
  ~ first_children (nodes five_key_tree) 3 [2].
Proof.
  split.
  - cbn [first_children]. split; eexists; split_and!; vm_compute; reflexivity.
  - intros [(p & Hp & _ & Hc) _]. vm_compute in Hp. injection Hp as <-.
    vm_compute in Hc. discriminate Hc.
Qed.

(** * The tree as a search tree *)

(** ** What [Lookup] selects on an internal page *)

Lemma lookup_from_stays key cur rest :
  Forall (fun k => key <= k) (fst <$> rest) -> lookup_from key cur rest = cur.
Proof.
  revert cur. induction rest as [|[k c] r IH]; intros cur H; cbn; [reflexivity|].
  rewrite fmap_cons, Forall_cons in H. destruct H as [Hk Hr]. cbn in Hk.
  destruct (k <? key) eqn:E; [lia|]. by apply IH.
Qed.

(** The children and the entries of the page go together. *)
Lemma child_ranges_children lo hi c rest :
  (child_ranges lo hi c rest).*2 = c :: rest.*2.
Proof.
  revert lo c. induction rest as [|[k c1] r IH]; intros lo c; cbn; [reflexivity|].
  by rewrite IH.
Qed.

Lemma child_ranges_lower hi r : forall k0 c l h c',
  StronglySorted Z.lt (k0 :: (fst <$> r)) ->
  (l, h, c') ∈ child_ranges (Some k0) hi c r -> exists k', l = Some k' /\ k0 <= k'.
Proof.
  induction r as [|[k c1] r IH]; intros k0 c l h c' Hs; cbn [child_ranges].
  - intros [= -> -> ->]%list_elem_of_singleton. exists k0. split; [reflexivity | lia].
  - intros [[= -> -> ->] | Hin]%elem_of_cons.
    + exists k0. split; [reflexivity | lia].
    + rewrite fmap_cons in Hs. cbn in Hs.
      apply StronglySorted_inv in Hs as [Hs Hk0].
      apply Forall_cons in Hk0 as [Hk0 _].
      destruct (IH _ _ _ _ _ Hs Hin) as (k' & -> & Hk'). exists k'. split; [reflexivity | lia].
Qed.

(** The child that [Lookup] selects for a key of the range is a child whose
    range holds the key. *)
Lemma lookup_from_range key hi rest : forall lo c0,
  StronglySorted Z.lt (fst <$> rest) ->
  above lo key = true -> upto hi key = true ->
  exists l h, (l, h, lookup_from key c0 rest) ∈ child_ranges lo hi c0 rest /\
              above l key = true /\ upto h key = true.
Proof.
  induction rest as [|[k c] r IH]; intros lo c0 Hs Hlo Hhi; cbn [lookup_from child_ranges].
  - exists lo, hi. split; [apply list_elem_of_singleton; reflexivity | done].
  - rewrite fmap_cons in Hs. cbn in Hs. pose proof Hs as [Hs' Hk]%StronglySorted_inv.
    destruct (k <? key) eqn:E.
    + destruct (IH (Some k) c Hs') as (l & h & Hin & Hl & Hh); [cbn; exact E | exact Hhi |].
      exists l, h. split; [by apply elem_of_cons; right | done].
    + rewrite lookup_from_stays.
      * exists lo, (Some k). split; [apply elem_of_cons; by left|]. split; [exact Hlo|]. cbn. lia.
      * eapply Forall_impl; [exact Hk|]. cbn. intros k'. lia.
Qed.

(** It is the only one. *)
Lemma lookup_from_only key hi rest : forall lo c0 l h c,
  StronglySorted Z.lt (fst <$> rest) ->
  (l, h, c) ∈ child_ranges lo hi c0 rest ->
  above l key = true -> upto h key = true ->
  c = lookup_from key c0 rest.
Proof.
  induction rest as [|[k c1] r IH]; intros lo c0 l h c Hs; cbn [lookup_from child_ranges].
  - by intros [= -> -> ->]%list_elem_of_singleton.
  - rewrite fmap_cons in Hs. cbn in Hs. pose proof Hs as [Hs' Hk]%StronglySorted_inv.
    intros [[= -> -> ->] | Hin]%elem_of_cons Hl Hh.
    + cbn in Hh. destruct (k <? key) eqn:E; [lia|].
      rewrite lookup_from_stays; [reflexivity|].
      eapply Forall_impl; [exact Hk|]. cbn. intros k'. lia.
    + destruct (k <? key) eqn:E.
      * by eapply IH.
      * destruct (child_ranges_lower _ _ _ _ _ _ _ Hs Hin) as (k' & -> & Hk').
        cbn in Hl. lia.
Qed.

(** A range of a child lies in the range of the page. *)
Lemma child_ranges_within key hi rest : forall lo c0 l h c,
  forallb (fun e : Z * Z => above lo e.1 && upto hi e.1) rest = true ->
  StronglySorted Z.lt (fst <$> rest) ->
  (l, h, c) ∈ child_ranges lo hi c0 rest ->
  above l key = true -> upto h key = true ->
  above lo key = true /\ upto hi key = true.
Proof.
  induction rest as [|[k c1] r IH]; intros lo c0 l h c Hb Hs; cbn [child_ranges].
  - by intros [= -> -> ->]%list_elem_of_singleton.
  - cbn [forallb fst] in Hb. apply andb_prop in Hb as [[Hklo Hkhi]%andb_prop Hb].
    rewrite fmap_cons in Hs. cbn in Hs. pose proof Hs as [Hs' Hk]%StronglySorted_inv.
    intros [[= -> -> ->] | Hin]%elem_of_cons Hl Hh.
    + split; [exact Hl|]. cbn in Hh. destruct hi as [hv|]; cbn in *; [lia | reflexivity].
    + assert (Hb' : forallb (fun e : Z * Z => above (Some k) e.1 && upto hi e.1) r = true).
      { apply forallb_forall. intros e He. rewrite forallb_forall in Hb.
        specialize (Hb e He). apply andb_prop in Hb as [_ ->]. rewrite andb_true_r.
        rewrite Forall_forall in Hk. cbn. apply Z.ltb_lt, Hk.
        apply list_elem_of_In in He. by apply (list_elem_of_fmap_2 fst). }
      destruct (IH (Some k) c1 l h c Hb' Hs' Hin Hl Hh) as [Hk1 Hh1].
      split; [|exact Hh1]. cbn in Hk1. destruct lo as [lv|]; cbn in *; [lia | reflexivity].
Qed.

(** ** The keys below a page *)

Lemma leaf_in_range lo hi key (a : list (Z * Z)) :
  forallb (fun e : Z * Z => above lo e.1 && upto hi e.1) a = true ->
  existsb (fun e : Z * Z => e.1 =? key) a = true ->
  above lo key = true /\ upto hi key = true.
Proof.
  rewrite forallb_forall. intros Hall (e & He & <-%Z.eqb_eq)%existsb_exists.
  by apply andb_prop, Hall.
Qed.

(** The keys of a search tree are in its range. *)
Lemma stored_in_range N key : forall depth lo hi page,
  ordered depth N lo hi page = true -> stored depth N key page = true ->
  above lo key = true /\ upto hi key = true.
Proof.
  induction depth as [|n IH]; intros lo hi page; cbn [ordered stored];
    destruct (N !! page) as [p|]; try discriminate;
    destruct (IsLeafPage p) eqn:Hleaf; try discriminate; try apply leaf_in_range.
  destruct (array p) as [|[k0 c0] rest] eqn:Ha; [discriminate|].
  intros [[Hinc%increasing_sorted Hkeys]%andb_prop Hch]%andb_prop
         (e & He & Hst)%existsb_exists.
  assert (Hc : e.2 ∈ (child_ranges lo hi c0 rest).*2).
  { rewrite child_ranges_children. apply list_elem_of_In in He.
    by apply (list_elem_of_fmap_2 snd) in He. }
  apply list_elem_of_fmap in Hc as ([[l h] c] & Hc & Hr). cbn in Hc. subst c.
  rewrite forallb_forall in Hch. pose proof Hr as Hord%list_elem_of_In%Hch. cbn in Hord.
  destruct (IH _ _ _ Hord Hst) as [Hl Hh].
  by eapply child_ranges_within.
Qed.

(** In a search tree the descent for a key of the range ends in a leaf, and
    the key is a key of the tree exactly when it is a key of that leaf. *)
Lemma search_leaf_stored N key : forall depth lo hi page,
  ordered depth N lo hi page = true ->
  above lo key = true -> upto hi key = true ->
  exists lp p,
    search_leaf depth N key page = Some lp /\ N !! lp = Some p /\
    IsLeafPage p = true /\
    stored depth N key page = existsb (fun e : Z * Z => e.1 =? key) (array p).
Proof.
  induction depth as [|n IH]; intros lo hi page; cbn [ordered stored search_leaf];
    destruct (N !! page) as [p|] eqn:Hp; try discriminate;
    destruct (IsLeafPage p) eqn:Hleaf; try discriminate;
    try (intros _ _ _; exists page, p; by split_and!).
  destruct (array p) as [|[k0 c0] rest] eqn:Ha; [discriminate|].
  intros [[Hinc%increasing_sorted Hkeys]%andb_prop Hch]%andb_prop Hlo Hhi.
  cbn [internal_lookup].
  destruct (lookup_from_range key hi rest lo c0 Hinc Hlo Hhi) as (l & h & Hr & Hl & Hh).
  rewrite forallb_forall in Hch. pose proof Hr as Hord%list_elem_of_In%Hch. cbn in Hord.
  destruct (IH _ _ _ Hord Hl Hh) as (lp & q & Hs & Hq & Hqleaf & Hst).
  exists lp, q. split_and!; [exact Hs | exact Hq | exact Hqleaf |].
  rewrite <- Hst. destruct (stored n N key (lookup_from key c0 rest)) eqn:Hc.
  - apply existsb_exists.
    assert (Hin : lookup_from key c0 rest ∈ ((k0, c0) :: rest).*2).
    { rewrite fmap_cons. cbn [snd]. rewrite <- child_ranges_children with (lo := lo) (hi := hi).
      by apply (list_elem_of_fmap_2' snd _ (l, h, lookup_from key c0 rest)). }
    apply list_elem_of_fmap in Hin as (e & He & Hin). exists e.
    split; [by apply list_elem_of_In | by rewrite <- He].
  - apply not_true_is_false. intros (e & He & Hse)%existsb_exists.
    assert (Hin : e.2 ∈ (child_ranges lo hi c0 rest).*2).
    { rewrite child_ranges_children. apply list_elem_of_In in He.
      by apply (list_elem_of_fmap_2 snd) in He. }
    apply list_elem_of_fmap in Hin as ([[l' h'] c'] & Hc' & Hr'). cbn in Hc'. subst c'.
    pose proof Hr' as Hord'%list_elem_of_In%Hch. cbn in Hord'.
    destruct (stored_in_range _ _ _ _ _ _ Hord' Hse) as [Hl' Hh'].
    rewrite (lookup_from_only key hi rest lo c0 l' h' e.2 Hinc Hr' Hl' Hh') in Hse.
    congruence.
Qed.

(** The leaf the descent ends in does not depend on the fuel. *)
Lemma search_leaf_fuel N key : forall d d' page a b,
  search_leaf d N key page = Some a -> search_leaf d' N key page = Some b -> a = b.
Proof.
  induction d as [|d IH]; intros [|d'] page a b; cbn [search_leaf];
    destruct (N !! page) as [p|]; try discriminate;
    destruct (IsLeafPage p); try congruence.
  destruct (internal_lookup key (array p)); [apply IH | discriminate].
Qed.

(** ** Keys and the entries of a leaf *)



Lemma leaf_remove_absent k a :
  existsb (fun e : Z * Z => e.1 =? k) a = false -> leaf_remove k a = a.
Proof.
  induction a as [|[k' v'] a IH]; cbn; [reflexivity|].
  intros [E Hex]%orb_false_elim. rewrite E. by rewrite IH.
Qed.

(** ** What a descent leaves intact *)

Global Instance intact_preorder : PreOrder intact.
Proof.
  split.
  - intros t Hd. by split_and!.
  - intros t1 t2 t3 H12 H23 Hd. destruct (H12 Hd) as (HN & Hr & Hn & Hd2 & Hh).
    destruct (H23 Hd2) as (HN' & Hr' & Hn' & Hd3 & Hh'). split_and!; congruence.
Qed.

Lemma pin_step_intact t t' : pin_step t t' -> intact t t'.
Proof.
  intros Hs Hd. pose proof (pin_step_nodes _ _ Hs) as HN.
  destruct Hs as ((_ & Hr & _ & _ & Hh & _ & Hdel & _) & Hn & _).
  split_and!; congruence.
Qed.

Lemma page_set_intact t l : intact t (set_page_set l t).
Proof. intros Hd. by split_and!. Qed.

Ltac intact_leaf :=
  first
  [ apply (read_page_respects intact pin_step_intact)
  | apply (UnpinPage_respects intact pin_step_intact)
  | apply (FetchPage_respects intact pin_step_intact)
  | apply (lockFor_respects intact pin_step_intact)
  | apply (unlockFor_respects intact pin_step_intact)
  | apply (internal_Lookup_respects intact pin_step_intact)
  | apply (GetPage_respects intact pin_step_intact page_set_intact)
  | apply (AddIntoPageSet_respects intact page_set_intact)
  | apply (assert_page_set_empty_respects intact)
  | apply (modify_respects intact); intros ?; apply page_set_intact ].

Create HintDb intact.
Global Hint Extern 1 (respects intact _) => intact_leaf : intact.

Ltac intact_auto := repeat respects_step; eauto with intact.

(** With no page waiting to be deleted, the release of a page deletes
    nothing. *)
Lemma release_page_intact mode d id : respects intact (release_page mode d id).
Proof.
  intros t u t' H Hdel. unfold release_page in H.
  apply bind_Done in H as (? & s1 & H1%unlockFor_pin%pin_step_intact & H).
  apply bind_Done in H as (? & s2 & H2%UnpinPage_pin%pin_step_intact & H).
  rewrite bind_get in H.
  pose proof (transitivity H1 H2 Hdel) as H12. pose proof H12 as (_ & _ & _ & Hd & _).
  rewrite bool_decide_eq_false_2 in H by (rewrite Hd; set_solver).
  by apply ret_Done in H as [_ <-].
Qed.
Global Hint Resolve release_page_intact : intact.

Lemma release_all_intact mode d l : respects intact (release_all mode d l).
Proof. induction l; cbn [release_all]; intact_auto. Qed.
Global Hint Resolve release_all_intact : intact.

Lemma clearTxnWorkSet_intact mode d : respects intact (clearTxnWorkSet mode d).
Proof. unfold clearTxnWorkSet. intact_auto. Qed.
Global Hint Resolve clearTxnWorkSet_intact : intact.

Lemma relock_root_intact fuel mode : forall pid, respects intact (relock_root fuel mode pid).
Proof. induction fuel; intros pid; cbn [relock_root]; intact_auto. Qed.
Global Hint Resolve relock_root_intact : intact.

Lemma release_ancestors_intact mode c : respects intact (release_ancestors mode c).
Proof. unfold release_ancestors. intact_auto. Qed.
Global Hint Resolve release_ancestors_intact : intact.

Lemma descend_step_intact k tx mode pid : respects intact (descend_step k tx mode pid).
Proof. unfold descend_step. intact_auto. Qed.
Global Hint Resolve descend_step_intact : intact.

Lemma descend_intact fuel k tx mode : forall pid, respects intact (descend fuel k tx mode pid).
Proof. induction fuel; intros pid; cbn [descend]; intact_auto. Qed.
Global Hint Resolve descend_intact : intact.

Lemma GetLeafPage_intact fuel k tx mode : respects intact (GetLeafPage fuel k tx mode).
Proof. unfold GetLeafPage. intact_auto. Qed.
Global Hint Resolve GetLeafPage_intact : intact.

(** Writing to a page the node it holds changes no node. *)
Lemma set_array_same p : set_array (array p) p = p.
Proof. by destruct p. Qed.

Lemma write_page_intact id p t u t' :
  nodes t !! id = Some p -> write_page id p t = Done u t' -> intact t t'.
Proof.
  intros Hp H Hd. pose proof (write_page_pool _ _ _ _ _ H) as (_ & Hr & _ & _ & Hh & _ & Hdel & _).
  apply write_page_nodes in H as (_ & HN & Hn & _).
  rewrite insert_id in HN by exact Hp. split_and!; congruence.
Qed.

(** ** The descent and the search tree *)

(** The leaf that the descent reaches is the one read off the nodes. *)
Lemma descend_search fuel key tx mode : forall pid t leaf t',
  deleted_page_set t = ∅ ->
  descend fuel key tx mode pid t = Done leaf t' ->
  search_leaf fuel (nodes t) key pid = Some leaf.
Proof.
  induction fuel as [|fuel IH]; intros pid t leaf t' Hd H; cbn [descend] in H;
    apply bind_Done in H as (p & s & [-> Hp]%read_page_Done_inv & H);
    rewrite <- nodes_lookup in Hp; cbn [search_leaf]; rewrite Hp;
    destruct (IsLeafPage p);
    try (by apply ret_Done in H as [<- _]); [discriminate|].
  apply bind_Done in H as (next & s & Hstep & H).
  pose proof (descend_step_intact _ _ _ _ _ _ _ Hstep Hd) as (HN & _ & _ & Hd' & _).
  unfold descend_step in Hstep.
  apply bind_Done in Hstep as (nx & s0 & Hlook & Hstep).
  unfold internal_Lookup in Hlook.
  apply bind_Done in Hlook as (q & s1 & [-> Hq]%read_page_Done_inv & [Hnx ->]%from_option_Done).
  rewrite <- nodes_lookup in Hq. assert (q = p) as -> by congruence.
  apply bind_Done in Hstep as (btp & s2 & ->%GetPage_value & Hstep).
  apply bind_Done in Hstep as (? & s3 & _ & [<- _]%ret_Done).
  rewrite Hnx, <- HN. by eapply IH.
Qed.

Lemma GetLeafPage_search fuel key tx mode t lp t' :
  deleted_page_set t = ∅ ->
  GetLeafPage fuel key tx mode t = Done (Some lp) t' ->
  search_leaf fuel (nodes t) key (root_page_id t) = Some lp.
Proof.
  intros Hd H. unfold GetLeafPage in H. rewrite bind_get in H.
  destruct (IsEmpty t); [discriminate|].
  apply bind_Done in H as (? & s & [_ ->]%assert_Done & H).
  apply bind_Done in H as (btp & s1 & H1 & H).
  pose proof (GetPage_value _ _ _ _ _ _ H1) as ->.
  apply (GetPage_respects intact pin_step_intact page_set_intact) in H1.
  apply bind_Done in H as (start & s2 & H2 & H).
  assert (H12 : intact s1 s2 /\ (deleted_page_set s1 = ∅ -> start = root_page_id s1)).
  { destruct tx.
    - apply bind_Done in H2 as (? & s3 & H3 & H2).
      apply (lockFor_respects intact pin_step_intact) in H3.
      apply bind_Done in H2 as (btp' & s4 & H4 & H2).
      pose proof (relock_root_value _ _ _ _ _ _ H4) as ->.
      apply relock_root_intact in H4.
      apply bind_Done in H2 as (? & s5 & H5 & [<- <-]%ret_Done).
      apply (AddIntoPageSet_respects intact page_set_intact) in H5.
      split; [by repeat (etransitivity; [eassumption|])|].
      intros Hd1. destruct (H3 Hd1) as (_ & Hr3 & _ & Hd3 & _).
      destruct (H4 Hd3) as (_ & Hr4 & _). congruence.
    - apply ret_Done in H2 as [<- <-]. split; [reflexivity|].
      intros Hd1. by destruct (H1 Hd) as (_ & -> & _). }
  destruct H12 as [H12 Hstart].
  destruct (H1 Hd) as (HN1 & Hr1 & _ & Hd1 & _).
  destruct (H12 Hd1) as (HN2 & _ & _ & Hd2 & _).
  apply bind_Done in H as (leaf & s3 & Hdesc & [[= <-] _]%ret_Done).
  apply descend_search in Hdesc; [|exact Hd2].
  rewrite Hstart in Hdesc by exact Hd1. by rewrite HN2, HN1, Hr1 in Hdesc.
Qed.




(** The leaf that [GetLeafPage] returns in a search tree: the key is a key
    of the tree exactly when it is a key of that leaf. *)
Lemma GetLeafPage_search_tree fuel depth key tx mode t lp t' :
  deleted_page_set t = ∅ ->
  ordered depth (nodes t) None None (root_page_id t) = true ->
  GetLeafPage fuel key tx mode t = Done (Some lp) t' ->
  exists p, nodes t !! lp = Some p /\ IsLeafPage p = true /\
            has_key depth t key = existsb (fun e : Z * Z => e.1 =? key) (array p).
Proof.
  intros Hd Hord H. apply GetLeafPage_search in H; [|exact Hd].
  destruct (search_leaf_stored _ key _ _ _ _ Hord eq_refl eq_refl)
    as (lp' & p & Hs & Hp & Hleaf & Hst).
  rewrite (search_leaf_fuel _ _ _ _ _ _ _ H Hs). by exists p.
Qed.

(** * Inserting a key that is stored *)



Lemma search_treeb_ok depth t : search_treeb depth t = true -> search_tree depth t.
Proof.
  unfold search_treeb, search_tree. intros [H%bool_decide_eq_true | H]%orb_prop; auto.
Qed.


Lemma leaves_filledb_ok t : leaves_filledb t = true -> leaves_filled t.
Proof.
  intros H id p. rewrite nodes_lookup. intros (f & Hf & ->)%fmap_Some Hleaf.
  apply (forallb_pages _ _ _ _ H) in Hf. cbn [fst snd] in Hf. rewrite Hleaf in Hf.
  cbn in Hf. lia.
Qed.


(** The key handed to the parent when the leaf was split, 3, is found in
    the left leaf; a key that is not stored is inserted and is a key of the
    tree afterwards, also when the insertion splits a leaf and the root. *)
Example Insert_twice :
  page_array five_key_tree 3 = Some [(0, 1); (3, 2)] /\
  page_array five_key_tree 1 = Some [(1, 10); (2, 20); (3, 30)] /\
  has_key 1 five_key_tree <$> [1; 2; 3; 4; 5; 6] = [true; true; true; true; true; false] /\
  Insert 8 3 33 true five_key_tree = Done false (exec (Insert 8 3 33 true) five_key_tree) /\
  Insert 8 4 44 true five_key_tree = Done false (exec (Insert 8 4 44 true) five_key_tree) /\
  Insert 8 6 60 true five_key_tree = Done true (exec (Insert 8 6 60 true) five_key_tree) /\
  page_array (exec (Insert 8 6 60 true) five_key_tree) 2 = Some [(4, 40); (5, 50); (6, 60)] /\
  has_key 1 (exec (Insert 8 6 60 true) five_key_tree) 6 = true /\
  has_key 1 sixteen_key_tree 17 = false /\
  Insert 8 17 170 true sixteen_key_tree
    = Done true (exec (Insert 8 17 170 true) sixteen_key_tree) /\
  has_key 2 (exec (Insert 8 17 170 true) sixteen_key_tree) 17 = true.
Proof. split_and!; vm_compute; reflexivity. Qed.

(** * Removing a key that is not stored *)

(** C3: removing an absent key is a silent no-op.  The tree is empty or a
    search tree, none of its leaves is below min_size (1 for a leaf that is
    the root), and no page waits to be deleted.  Then a call of [Remove]
    for a key that is not a key of the tree, with or without a transaction,
    if it returns, leaves every node as it was, and with the nodes the keys
    and the structure of the tree; the root and the calls made on the
    header page are as before as well. *)
Theorem Remove_absent_key_no_op fuel depth key tx t u t' :
  deleted_page_set t = ∅ -> leaves_filled t -> search_tree depth t ->
  has_key depth t key = false ->
  Remove fuel key tx t = Done u t' ->
  nodes t' = nodes t /\ root_page_id t' = root_page_id t /\ header_ops t' = header_ops t.
Proof.
  intros Hd Hmin Htree Hkey H. unfold Remove in H. rewrite bind_get in H.
  unfold IsEmpty in H. case_bool_decide as Hroot.
  { by apply ret_Done in H as [_ <-]. }
  destruct Htree as [Hempty | Hord]; [done|].
  apply bind_Done in H as (? & s0 & H0 & H).
  apply (assert_page_set_empty_respects intact) in H0.
  destruct (H0 Hd) as (HN0 & Hr0 & _ & Hd0 & Hh0).
  apply bind_Done in H as (r & s1 & Hleaf & H).
  pose proof (GetLeafPage_intact _ _ _ _ _ _ _ Hleaf Hd0) as (HN1 & Hr1 & _ & Hd1 & Hh1).
  apply bind_Done in H as (lp & s & [-> ->]%from_option_Done & H).
  apply (GetLeafPage_search_tree _ depth) in Hleaf as (p & Hp & Hpleaf & Hst);
    [| exact Hd0 | by rewrite HN0, Hr0].
  assert (Hex : existsb (fun e : Z * Z => e.1 =? key) (array p) = false).
  { rewrite <- Hst, <- Hkey. unfold has_key. by rewrite HN0, Hr0. }
  clear Hst. rewrite HN0 in Hp.
  apply bind_Done in H as (sizeAfterRemove & s2 & Hrem & H).
  unfold RemoveAndDeleteRecord in Hrem.
  apply bind_Done in Hrem as (q & s & [-> Hq]%read_page_Done_inv & Hrem).
  rewrite <- nodes_lookup, HN1, HN0 in Hq. assert (q = p) as -> by congruence. clear Hq.
  apply bind_Done in Hrem as (? & s3 & Hw & [<- <-]%ret_Done).
  rewrite (leaf_remove_absent _ _ Hex), set_array_same in *.
  apply write_page_intact in Hw; [| by rewrite HN1, HN0].
  destruct (Hw Hd1) as (HN3 & Hr3 & _ & Hd3 & Hh3).
  apply bind_Done in H as (q & s & [-> Hq]%read_page_Done_inv & H).
  rewrite <- nodes_lookup, HN3, HN1, HN0 in Hq. assert (q = p) as -> by congruence. clear Hq.
  pose proof (Hmin _ _ Hp Hpleaf) as Hle.
  destruct (GetSize p <? GetMinSize p) eqn:E; [lia|].
  rewrite bind_ret in H. cbn [andb] in H.
  assert (H34 : intact s3 t').
  { revert H. match goal with |- ?m _ = _ -> _ => assert (Hr : respects intact m) end.
    { intact_auto. }
    apply Hr. }
  destruct (H34 Hd3) as (HN4 & Hr4 & _ & _ & Hh4).
  split_and!; congruence.
Qed.

Lemma Remove_absent_key_no_op_witness :
  nodes (exec (Remove 8 7 false) one_key_tree) = nodes one_key_tree /\
  root_page_id (exec (Remove 8 7 false) one_key_tree) = root_page_id one_key_tree /\
  header_ops (exec (Remove 8 7 false) one_key_tree) = header_ops one_key_tree.
Proof.
  apply (Remove_absent_key_no_op 8 0 7 false one_key_tree tt).
  - vm_compute. reflexivity.
  - apply leaves_filledb_ok. vm_compute. reflexivity.
  - apply search_treeb_ok. vm_compute. reflexivity.
  - vm_compute. reflexivity.
  - vm_compute. reflexivity.
Defined.

(** The tree with the one key 5 after the removal of a key that is not
    stored: the key is still found.  The same with a transaction, and in
    the tree of sixteen keys. *)
Example Remove_absent_key :
  Remove 8 7 false one_key_tree = Done tt (exec (Remove 8 7 false) one_key_tree) /\
  root_page_id (exec (Remove 8 7 false) one_key_tree) = 1 /\
  GetValue 8 5 false (exec (Remove 8 7 false) one_key_tree)
    = Done (Some 50) (exec (Remove 8 7 false) one_key_tree) /\
  Remove 8 7 true one_key_tree = Done tt (exec (Remove 8 7 true) one_key_tree) /\
  nodes (exec (Remove 8 7 true) one_key_tree) = nodes one_key_tree /\
  has_key 1 sixteen_key_tree 17 = false /\
  Remove 8 17 true sixteen_key_tree = Done tt (exec (Remove 8 17 true) sixteen_key_tree) /\
  nodes (exec (Remove 8 17 true) sixteen_key_tree) = nodes sixteen_key_tree.
Proof. split_and!; vm_compute; reflexivity. Qed.

(** * Runs of several operations

    The runs that section 8 of the specification lists as scenarios 1 to
    3, with leaves of at most 4 entries: what [GetValue] finds after each
    operation are the keys inserted and not yet removed. *)

(** Scenario 1: the keys 5, 2, 8, 1, 9, 7, 3 are inserted in this order. *)
Example keys_found_after_each_insert :
  insert_all [5; 2; 8; 1; 9; 7; 3] fresh_index
    = Done tt (exec (insert_all [5; 2; 8; 1; 9; 7; 3]) fresh_index) /\
  (fun n => found_keys (exec (insert_all (take n [5; 2; 8; 1; 9; 7; 3])) fresh_index)
                       [1; 2; 3; 4; 5; 6; 7; 8; 9]) <$> [1; 2; 3; 4; 5; 6; 7]%nat
  = [[5]; [2; 5]; [2; 5; 8]; [1; 2; 5; 8]; [1; 2; 5; 8; 9]; [1; 2; 5; 7; 8; 9];
     [1; 2; 3; 5; 7; 8; 9]].
Proof. split; vm_compute; reflexivity. Qed.

(** Scenario 2: from that tree the keys 8 and 1 are removed. *)
Example keys_found_after_two_removals :
  let t := exec (insert_all [5; 2; 8; 1; 9; 7; 3]) fresh_index in
  remove_all [8; 1] t = Done tt (exec (remove_all [8; 1]) t) /\
  found_keys (exec (remove_all [8; 1]) t) [1; 2; 3; 4; 5; 6; 7; 8; 9] = [2; 3; 5; 7; 9].
Proof. split; vm_compute; reflexivity. Qed.

(** Scenario 3: the keys 1 to 16 are inserted and then removed in this
    order.  After the removal of the first n keys the others are found, and
    after the last one the tree is empty. *)
Example keys_found_after_each_removal :
  let ks := Z.of_nat <$> seq 1 16 in
  exec (insert_all ks) fresh_index = sixteen_key_tree /\
  remove_all ks sixteen_key_tree = Done tt (exec (remove_all ks) sixteen_key_tree) /\
  (fun n => found_keys (exec (remove_all (take n ks)) sixteen_key_tree) ks) <$> seq 0 16
  = (fun n => drop n ks) <$> seq 0 16 /\
  root_page_id (exec (remove_all (take 15 ks)) sixteen_key_tree) <> INVALID_PAGE_ID /\
  root_page_id (exec (remove_all ks) sixteen_key_tree) = INVALID_PAGE_ID.
Proof. split_and!; vm_compute; (reflexivity || discriminate). Qed.

(** The trees that [Insert] builds are search trees with leaves of the
    right sizes: the tree of sixteen keys, inserted in ascending order, and
    a tree of three levels whose thirty keys were inserted in no particular
    order.  A key is a key of the tree exactly when [GetValue] finds it. *)
Example trees_built_by_Insert :
  search_treeb 1 sixteen_key_tree && tree_okb sixteen_key_tree &&
    leaves_fitb sixteen_key_tree && leaves_filledb sixteen_key_tree = true /\
  search_treeb 2 thirty_key_tree && tree_okb thirty_key_tree &&
    leaves_fitb thirty_key_tree && leaves_filledb thirty_key_tree = true /\
  search_treeb 1 thirty_key_tree = false /\
  found_keys thirty_key_tree (Z.of_nat <$> seq 0 33) = Z.of_nat <$> seq 1 30 /\
  List.filter (has_key 2 thirty_key_tree) (Z.of_nat <$> seq 0 33) = Z.of_nat <$> seq 1 30.
Proof. split_and!; vm_compute; reflexivity. Qed.
